(* ===== verification/_CoqProject ===== *)
-Q . S2P
Prelude.v
Text.v
Json.v
SessionStore.v
Integrity.v
Shaping.v
Usage.v
RateLimits.v
Backoff.v
CallFailure.v
Registry.v
SecretRefs.v
SecretGate.v
Approval.v
Broker.v
SpawnGuard.v
Launch.v
Breaker.v
Reconnect.v
ClientError.v
Dispatch.v
ToolNames.v
UriTemplate.v
SchemaRefs.v
SchemaCompat.v
Aliases.v
Catalog.v
Safety.v
Pins.v
Quarantine.v
Baseline.v
Exposure.v
Vouched.v
Gate.v
Vetting.v
Masking.v
Release.v
ModernHitl.v
Scope.v
Voice.v
Scan.v
Redact.v
Guards.v
Defense.v
Hosts.v
Access.v
Execute.v
