(* ===== verification/Prelude.v ===== *)
(** * Toolport: a verification development of the gateway's core

    Toolport is a local gateway: MCP clients (editors, assistants) connect to one
    endpoint, and Toolport starts the configured downstream servers, routes tool
    calls to them and shapes what they answer.  This development models the Rust
    code under src/src-tauri/src/ that decides - what may be launched, which secret
    is read for whom, which tools a client sees under which name, who approves a
    call, whether it runs, runs again or is refused, what is kept and what a model
    reads - and proves what makes those decisions correct.  Paths
    below are relative to src/src-tauri/src/.

    ** The program's parts and how they interact

    - The registry holds server entries with their launch setups (registry.rs).
      Before a server starts, its secret references are checked, approved and read
      (secret_refs.rs), its launch inputs are bound into the argument list
      (launch_inputs.rs), and the command line and environment pass the spawn guard
      (the stdio part of downstream.rs).
    - The router aggregates what the servers advertise: it gives every tool a name
      the client accepts, normalizes its schema (schema_compat.rs), hides what the
      policy and the quarantine exclude, and remembers routes across rebuilds.
    - Before a router goes live the gateway checks its definitions (integrity.rs)
      against a stored baseline of pins: what drifted or looks poisoned is put in a
      stored quarantine and hidden until the user releases it, as far as the safety
      level of the member and the team asks (registry.rs); a watcher keeps the live
      router with the stored quarantine.
    - A call that needs a person's consent waits in the desktop's broker
      (approval.rs on the gateway's side, approval_broker.rs on the desktop's).
    - The router (router.rs) keeps one slot per server.  A supervisor starts, idles
      and retires the connection; servers that never connected retry on their own;
      a call goes through the in-flight limit, the circuit breaker, and a retry
      loop that reconnects.  Several gateway processes of one host share two files:
      call counters under the caps of a team (rate_limits.rs) and the 429 windows
      of providers (downstream_backoff.rs).
    - Personal data in a server's result is replaced by tokens before a model reads it,
      and a token in a call is turned back for a server that has the value (pii.rs).
    - One tool call ([execute_call] of bin/toolport-gateway.rs) runs through all of these:
      the scope of the caller, the live router, guards, caps, approval, the way back of
      masked values, the dispatch, the defence of the answer.  Which servers a caller has at
      all follows from the access sets of the registry; which hosts may be dialled, from the
      addresses their names resolve to (oauth.rs, remote.rs, teams.rs).
    - Failures are classified (call_failure.rs) and reduced to fixed text before a
      model reads them; results over the budget are cut, cached with an owner and
      paged (shaping.rs, on the store of session_store.rs); usage is rolled up per
      team server and day (usage_report.rs).

    ** Files and the code they model

    - [Prelude], [Text], [Json]: no code of the repository.  Machine-width
      arithmetic, UTF-8 strings and the [str] methods of Rust's standard library,
      serde_json's [Value], [Result], the [Codec] interface to files, concrete
      codecs for the witnesses.
    - [SessionStore.Store] - session_store.rs.  [SessionStore] is the struct (a
      [gmap] for the [HashMap]); one definition per method ([insert], [with_value],
      [get_or_insert_with], [peek], [get], [remove], [remove_oldest], ...), [step]
      its operations, [wf] its invariant, [live] the map of values a reader sees:
      the abstract specification that insertion and [with] refine.
    - [Integrity] - the provenance label of integrity.rs.  [Voice] - Toolport's own voice
      there: forged openers and close markers, the wrapper, error text.  [Scan] - the scan
      for injected instructions: [score_normalized] and its single-precision confidence,
      encoded payloads, hidden characters, [scan_definition_scored], and
      [screen_result] and [defend_content] with the collection of a result's strings.
    - [Shaping] - shaping.rs.  [state] is the module's globals (the cursor cache,
      the cursor counter, [TRIM_PENDING]); [shape_result_preserving_prefix] with its
      shrinking loop, [retain_in] with the eviction loop, [fetch_result] and its
      projections.
    - [Usage] - usage_report.rs, with [tool_call_ok] of audit.rs.
    - [RateLimits] - rate_limits.rs.  [CounterState] is a process' guarded state,
      the file system a map; [check_and_count], [bind_data_dir] and what they call;
      [exec] interleaves the binds and calls of the processes sharing the file.
    - [Backoff] - downstream_backoff.rs with [retry_after_delay] and [backoff_delay]
      of downstream.rs; [exec] interleaves processes as above.
    - [CallFailure] - call_failure.rs.
    - [Registry] - the entries of registry.rs, [validate] of launch setups, timeouts.
    - [SecretRefs] - the reference grammar and provider command lines of
      secret_refs.rs; [SecretGate] - the references of a server, policy, approvals
      [resolve_values_with] and
      [resolved_server_with_values] of the same file.
    - [Approval] - approval.rs: what is gated, allow keys, labels, the handshake and
      one attempt at a decision ([Dial] is what the sockets do during it), and
      [request_human_decision_with_cancel] of bin/toolport-gateway.rs.
    - [Broker] - approval_broker.rs: [step] is one critical section of a connection's
      thread, its watcher or a desktop command, [Phase] where a thread is.
    - [SpawnGuard] - the screening of downstream.rs: [screen_spawn_command],
      [screen_spawn_env], the launchers it looks through, [inject_container_env].
    - [Launch] - launch_inputs.rs.
    - [Breaker.InFlight], [Breaker.Transport], [Breaker.Breaker] - [InFlightLimit],
      [TransportError], the replay policy and [CircuitBreaker] of router.rs and
      downstream.rs.
    - [Reconnect] - [PendingState] and [PendingServer] of router.rs; [step] is their
      life as gateway, attempt threads, canceller and adopter interleave.
    - [ClientError] - [client_safe_error] and [describe] of router.rs.
    - [Dispatch] - [ServerSlot], [Supervisor] and [call_with_retry_typed] of
      router.rs.  A call is a computation in the monad [M] over the slot, one
      [locked] step per critical section, between which [env] changes the slot as
      other threads may; [sup_step] is the relation of all threads' steps on a
      slot's supervisor.

    - [ToolNames], [UriTemplate], [SchemaRefs], [SchemaCompat] - names and aliases,
      resource templates and local references of router.rs; schema_compat.rs with
      the plan that restores a call's arguments.
    - [Aliases] - the allocation of names in router.rs; [Catalog] - its [Router]:
      indexing under [ToolPolicy], rebuilding, quarantine, client views, and
      [authorize] and [recheck_live_policy]; [router_step] is the life of a router.

    - [Safety] - the safety level of registry.rs and its decisions, and the part of
      registry/v2_migration.rs that upgrades it.
    - [Pins] - the pins of integrity.rs and their codec, fingerprints, drift findings
      and re-baselining; [Quarantine] - its stores and every operation on them, as
      computations over [World] in which any lock, write or log line may fail;
      [Gate] - the integrity gate and the watcher of bin/toolport-gateway.rs with the
      catalogs of router.rs they check.
    - [Masking] - pii.rs: the detections of a text, [SessionMap] with every method, the
      walks over results and arguments.  [Release] - the masking of
      bin/toolport-gateway.rs: the maps of all conversations in a [SessionStore], the way
      back before dispatch, the release of a value by a person; a computation of the
      monad [M] takes one step per critical section, between which [env] acts.
    - [ModernHitl] - the prompts of clients that answer approvals themselves: one table, every
      operation on it, and what [Drop] writes ([exec], [reached]).
    - [Scope.Scope], [Scope.NoRoute] - the servers a caller may use, the owner of a name, and
      the sentence for a name that does not route (router.rs).
    - [Redact] - the credential shapes of registry.rs.  [Guards] - invented arguments, hints
      after a failure, the result of a refusal.  [Defense] - a result's, a failure's and a
      script's way to the model.  All but the first are of bin/toolport-gateway.rs.
    - [Hosts] - the classes of addresses and the guards on hosts of oauth.rs, downstream.rs,
      remote.rs and teams.rs.
    - [Access] - the edits of [Registry] (registry.rs), with what a held team change
      remembers (teams.rs) and the credentials a personal server lends (local_auth.rs);
      [Edit] and [run] are one of them and its effect.
    - [Execute] - [execute_call]: a computation of [Execute.M] over the stores of the
      components and a log of what leaves the gateway ([Event]), which may return early.
    - [Baseline], [Exposure], [Vouched], [Vetting] - no code of their own: the
      weakest-precondition rules and the specification of each store operation; two
      rebuilds of a router, one under a tighter policy; the definitions that policy
      or the user accepted, and that the stores never pin another; the gate's
      specification and the history of a gateway ([Vetting.step]).

    ** How the code is rendered

    A [str] is its UTF-8 bytes, a [char] the string of its bytes; slicing off a
    character boundary and indexing out of range panic: [None] of an [option].
    Integers are [Z] with saturation and wrap-around written out; a [Duration] or
    [Instant] is a number of nanoseconds.  Clock readings and I/O outcomes are
    arguments, one per reading, so two readings of one operation may differ.  What
    runs under one lock is one step.  A map whose iteration order no result depends
    on is a [gmap]; JSON objects are key-ordered association lists.  Third-party
    code is a parameter: serde's parser and printer ([Codec] with [CodecLaws] for
    the shared files), the vault, the password managers' programs, URL origins, HTTP
    dates, digests, regular expressions, random jitter, Unicode's alphanumerics.  Hypotheses state what
    they document - written data reads back, decoded counts are [u64], a capacity is
    not negative - and every witness instantiates them with concrete functions.

    ** What the theorems show

    - One call: it reaches a server at most once and only when it is due - visible, admitted by
      caps and by the live policy, approved on the definition it then runs - and the server is
      sent what was asked for ([call_is_due]); every answer is Toolport's own or went through
      the defence ([answers_are_defended]); a name of unseen servers changes nothing
      ([unseen_name_is_inert]).
    - Access: the ids of servers stay apart under every edit ([ids_stay_apart]), a dangling
      reference reaches nothing ([dangling_reference_reaches_nothing]), a removed server leaves
      nothing ([removed_server_leaves_nothing]), enabling all respects consent
      ([enable_all_respects_consent]), a token is matched by its hash ([bearer_is_hash_match]),
      a folder by its longest mapping ([folder_for_root]); a scoped caller is shown what is in
      scope ([scoped_tools_are_in_scope], [http_scope_is_intersection]), and told nothing of
      the rest ([no_route_reveals_nothing]).
    - Network: a host passes as public or as local only by its addresses
      ([private_network_guarded]), and it is the host of the URL ([guarded_host_is_authority]).
    - Secrets: nothing is read for an unchecked definition ([reads_gated]), an
      approval holds for one destination only ([approval_binds_destination]), a
      connection gets exactly the values of its references ([connection_resolved]),
      no reference becomes an option of a provider's program
      ([arguments_no_injection]), output of a child that holds secrets is replaced
      ([redact_opaque]).
    - Launching: a refused command is refused behind any nesting of launchers
      ([launchers_hide_nothing]), interpreters are allowed exactly without inline
      code ([interpreters_allowed_iff]), binding inputs cannot add or split an
      argument ([resolve_args_correct]), container injection keeps the verdict
      ([container_env_injection]), [validate] accepts exactly the well-formed setups
      ([validate_iff]).
    - Approval: whatever the interleaving of connections, watchers and commands, only
      a person's consent to what was shown answers Approved ([approved_by_consent]),
      a decision reaches its caller ([answer_delivered]), a client's own approval binds call,
      arguments and conversation ([approved_by_client]) and every prompt has one outcome
      ([one_outcome_per_prompt]), the gateway believes only
      a peer that proved the token ([only_the_broker_decides]); labels are bounded
      ([client_label_stable]).
    - The catalog: what is exposed or routed is advertised and admitted by the policy,
      through every rebuild and view ([exposure_enforces_policy]), an admitted call is
      held to the live policy ([call_respects_live_policy]), rebuilding never panics
      ([rebuild_completes]); names are fresh, ordered by the tools alone and within
      the client's limits ([allocation_unique], [names_ignore_order],
      [alias_fits_client]); a template accepts exactly its expansions
      ([template_matches_expansions]); schemas lose their references
      ([inline_refs_ref_free]) and get unambiguous keys ([aliases_unambiguous]).
    - Integrity: over any history of publications, watcher turns and releases, with
      any failure of the stores, every definition a client sees at Strict was
      accepted, by policy when new or benign or by the user
      ([shown_definitions_were_accepted]); publishing never panics and shows nothing
      the check should hide ([published_definitions_passed_the_check]); the watcher
      restores nothing unchecked ([watcher_restores_only_checked]).  A check leaves
      risky drift detectable until its quarantine is durable
      ([staged_check_consumes_no_drift]), a quarantine that succeeds holds every
      candidate ([quarantine_holds_every_candidate]), a release pins before it
      unblocks ([release_pins_before_unblocking]), approved identities persist
      ([approved_identities_persist]), a lost baseline returns by a release only
      ([lost_baseline_needs_release]), captured pins decode
      ([captured_pins_decode]); a tighter policy shows less
      ([tighter_policy_exposes_less]).
    - Untrusted text: no string of a neutralized result opens Toolport's brands
      ([no_forged_opener_survives]), wrapped text has one close marker, its terminator
      ([wrap_closes_once]), error text is bounded and closed ([error_text_bounded]); at
      Strict a result is withheld exactly for a blocking text, and never rewritten
      ([strict_withholds_iff]); padding hides nothing at either end
      ([both_ends_are_scanned]); hidden characters are found exactly
      ([hidden_unicode_iff]); what reaches the model is withheld or labelled
      ([defended_result], [script_output]), what is audited holds no token
      ([audited_text_is_defended]); credentials are found run by run
      ([redaction_run_by_run], [secret_arg_mask_exact], [userinfo_redacted]); a new definition with a signature is held
      ([new_definition_is_screened]).
    - Safety levels: the upgrade keeps every 1.x decision
      ([upgrade_keeps_protection]), team policy only tightens
      ([team_policy_tightens]), the mirror is as safe ([mirror_is_as_safe]).
    - Masking: a call carries only values its server returned or a person released to it,
      whatever other threads do ([dispatch_only_entitled]); a release covers exactly what
      was shown ([grant_exact]); masked text comes back as it was
      ([masking_roundtrip]); overlaps are resolved as by the quadratic reference
      ([scan_resolves_overlaps]).
    - Calls: a call runs at most four times and a mutation never again after an
      outcome in doubt ([call_runs_at_most_once]); one connection attempt per server
      ([supervisor_lifecycle], [pending_lifecycle]), no busy server is stopped
      ([idle_stop_safe]); the in-flight counter and the breaker are exact
      ([in_flight_exact], [breaker_open_iff_streak],
      [concurrent_failures_count_once]); waits and retries are bounded
      ([acquire_ends], [retry_schedule_bounded]).
    - Shared files, under every interleaving of processes: a cap is never exceeded
      ([cap_never_exceeded]) and counts are decided and charged as specified
      ([check_and_count_decides]), unreadable counters refuse
      ([unreadable_counters_refuse]); a 429 window is honoured by every gateway
      ([window_honoured], [remaining_bounded]).
    - Results: shaping keeps its envelope, prefix and cache contract and never
      panics ([shape_result_contract], [head_within_bytes_longest]), pages
      concatenate to the body ([paging_roundtrip]), only the owner reads a cursor
      ([fetch_scoped]), memory is bounded ([retain_in_bounded]).  The store refines
      the map of its live values ([insert_refines], [with_value_refines],
      [get_or_insert_with_total], [reachable_bounded]).
    - What a model or a team sees: [client_safe_error_fixed], [guidance_bounded],
      [uncertain_guidance_warns], [sanitize_wrapper_label_safe], [rollup_counts],
      [civil_from_days_calendar].
    - Where code and intent differ: [npx_chain_cost], [zero_budget_page_stalls],
      [clock_step_back_parks], [digits_reach_model], [duplicate_key_panics],
      [closed_stream_asks_again], [late_cleanup_unparks], [first_dash_in_server],
      [reserved_vars_exponential], [inline_refs_leaks],
      [held_downgrade_is_not_enforced], [masked_key_collision],
      [stray_bracket_hides_token], [vertical_bracket_opens], [huge_leaf_tail_unseen],
      [overlap_counts_twice], [shared_prefix_falls_through], [second_url_kept],
      [prose_refused], [metadata_not_narrower], [removed_set_passes_to_its_namesake],
      [root_mapping_holds_nothing].

    ** Fuel

    - [screen_spawn_command] recurses on shorter argument lists; its fuel is one more
      than their number, and [screen_unfold] shows that the result satisfies the
      source's recursive equation for every input, so fuel never decides.
    - [evict_over_cap] and [evict_to_fit] remove an entry per turn and get the number
      of entries; [evict_over_cap_spec] and [evict_to_fit_spec] need no more.
    - [known_field] drops a segment of the field's path per turn and gets the path's
      length ([known_field_unfold]); [read_batches] drops up to four references per turn and gets their
      number ([read_batches_spec]); [pages_from] ends on each positive page length
      ([pages_concat]).
    - [inline_node] follows references, so its fuel is quadratic in the schema's size;
      [inline_refs_ref_free] shows the result exists.  [pattern_of] and
      [match_simple_pattern] consume their text ([template_matches_expansions]).  The
      visits of SchemaCompat are given the depth of the schema, which every child
      lowers.  [free_alias], [legacy_loop] and [exposed_loop] probe names and get one
      more step than there are taken names ([allocation_unique],
      [aliases_unambiguous]).
    - [rehydrate_loop] consumes a bracket per turn and gets one more than the length of its
      text ([rehydrate_loop_fuel]); [walk_strings] is structural.
    - [voice_loop] and [close_loop] consume a character per turn and get one more than
      there are ([voice_loop_spec], [close_loop_spec]); [ceil_boundary] gets the length of
      the text.
    - [read_pins_at] tries five times, as the source does; [collect] of the input
      parameters gets the depth of the schema, which every property lowers.
    - [next_id] tries one more candidate than there are ids ([unique_id_spec]); the wait for a
      first catalog takes the turns left until its deadline, and [call_is_due] holds for any.
    - A call's retries count down from [HTTP_MAX_RETRIES], the source's own bound.
      Timed waits poll [polls] times: [wait_polls] and [start_polls] show that the
      result does not depend on it once the clock passes the deadline within the
      polls, and the theorems about calls hold for every value of it.

    ** What is not modelled, and why

    Sockets, pipes and processes, HTTP and JSON-RPC framing, operating-system
    keychains, files other than the shared ones, the desktop application and the
    web front end are I/O around this core.  The script engine and the embeddings are
    third-party crates.  The configuration files of clients, skills and hooks are rewritten
    in each client's own format, team and personal sync exchange documents with a server:
    both are plans over files this development does not model.  The integrity gate takes
    the scan as a parameter, for which [Scan.definition_scan] stands; one gateway at a time
    writes its stores, and of their caches only what they remember of reviews is modelled.
    What a regular expression finds is a parameter of the masking and of the scan.  A call's
    timers, profilers and progress tokens, the adoption of restored routes, the
    single-flight cache of secret reads and the search over tools are left out. *)

(** This file: what every component shares - machine-width arithmetic, UTF-8 byte
    strings and their characters, list, map and option lemmas, [Result], the
    interface to files, tactics. *)

From stdpp Require Export base gmap strings list pretty sorting fin_maps.
From Stdlib Require Export ZArith Lia.
From Stdlib Require Ascii String.
Export Stdlib.Strings.Ascii (ascii(..), N_of_ascii, ascii_of_N).
Export (notations) Stdlib.Strings.Ascii.

#[global] Open Scope Z_scope.
#[global] Arguments String.append !_ _ /.

Declare Scope toolport_scope.
Delimit Scope toolport_scope with toolport.

Create HintDb toolport.
Create Rewrite HintDb toolport.

(** ** Unsigned machine integers as [Z] *)

Definition u64_max : Z := 18446744073709551615.
Definition u32_max : Z := 4294967295.

(** [u64::saturating_add], [u64::saturating_sub], [u32::saturating_add]. *)
Definition sat_add (a b : Z) : Z := Z.min (a + b) u64_max.
Definition sat_sub (a b : Z) : Z := Z.max (a - b) 0.
Definition sat_add32 (a b : Z) : Z := Z.min (a + b) u32_max.

Definition u64 (x : Z) : Prop := 0 <= x <= u64_max.

Lemma sat_add_u64 a b : u64 a -> 0 <= b -> u64 (sat_add a b).
Proof. unfold u64, sat_add, u64_max. lia. Qed.

Lemma sat_add_ge a b : u64 a -> 0 <= b -> a <= sat_add a b.
Proof. unfold u64, sat_add, u64_max. lia. Qed.

Lemma sat_sub_u64 a b : u64 a -> 0 <= b -> u64 (sat_sub a b).
Proof. unfold u64, sat_sub, u64_max. lia. Qed.

#[export] Hint Resolve sat_add_u64 sat_add_ge sat_sub_u64 : toolport.

(** ** Byte strings

    A Rust [str] is its UTF-8 bytes, a [string].  A Rust [char] is the string
    of its bytes: [chars] cuts a string before every byte that is not a UTF-8
    continuation byte, which is [str::is_char_boundary] exactly. *)

Definition slen (s : string) : Z := Z.of_nat (String.length s).

Arguments slen : simpl never.

Definition is_cont (b : ascii) : bool :=
  let n := N_of_ascii b in ((128 <=? n) && (n <? 192))%N.

Definition starts_cont (s : string) : bool :=
  match s with EmptyString => false | String b _ => is_cont b end.

Fixpoint chars (s : string) : list string :=
  match s with
  | EmptyString => []
  | String b rest =>
      match chars rest with
      | [] => [String b EmptyString]
      | c :: cs =>
          if starts_cont rest then String b c :: cs
          else String b EmptyString :: c :: cs
      end
  end.

Definition concat_str (l : list string) : string := foldr String.append EmptyString l.

(** [str::char_indices]: every character with the byte offset it starts at. *)
Fixpoint char_indices_from (i : Z) (cs : list string) : list (Z * string) :=
  match cs with
  | [] => []
  | c :: cs => (i, c) :: char_indices_from (i + slen c) cs
  end.

Definition char_indices (s : string) : list (Z * string) := char_indices_from 0 (chars s).

(** The bytes of [s] in [\[i, j)]. *)
Definition bytes_between (s : string) (i j : Z) : string :=
  String.substring (Z.to_nat i) (Z.to_nat (j - i)) s.

Definition is_char_boundary (s : string) (i : Z) : bool :=
  if i =? 0 then true
  else if i <? 0 then false
  else match String.get (Z.to_nat i) s with
       | Some b => negb (is_cont b)
       | None => i =? slen s
       end.

(** [&s\[i..j\]]; [None] is the panic on a bad range or a split character. *)
Definition str_slice (s : string) (i j : Z) : option string :=
  if (i <=? j) && (j <=? slen s) && is_char_boundary s i && is_char_boundary s j
  then Some (bytes_between s i j) else None.

(** ** Lemmas on strings *)

Lemma slen_nonneg s : 0 <= slen s.
Proof. unfold slen. lia. Qed.

#[export] Hint Resolve slen_nonneg : toolport.

Lemma slen_cons b s : slen (String b s) = 1 + slen s.
Proof. unfold slen. simpl String.length. lia. Qed.

Lemma slen_app a b : slen (a +:+ b) = slen a + slen b.
Proof.
  induction a as [|x a IH]; simpl; [done|].
  rewrite !slen_cons, IH. lia.
Qed.

Lemma slen_zero s : slen s = 0 -> s = EmptyString.
Proof. destruct s; [done|]. unfold slen. simpl String.length. lia. Qed.

Lemma app_str_nil_r a : a +:+ EmptyString = a.
Proof. induction a; simpl; congruence. Qed.

Lemma app_str_assoc a b c : (a +:+ b) +:+ c = a +:+ b +:+ c.
Proof. induction a; simpl; congruence. Qed.

Lemma app_str_inj a b c : a +:+ b = a +:+ c -> b = c.
Proof. induction a as [|x a IH]; [done|]. intros H. injection H as H. by apply IH. Qed.

Lemma concat_str_app l k : concat_str (l ++ k) = concat_str l +:+ concat_str k.
Proof.
  induction l as [|x l IH]; simpl; [done|]. by rewrite app_str_assoc, <- IH.
Qed.

Lemma substring_all b : String.substring 0 (String.length b) b = b.
Proof. induction b; simpl; congruence. Qed.

Lemma substring_prefix b c : String.substring 0 (String.length b) (b +:+ c) = b.
Proof. induction b; simpl; [by destruct c|congruence]. Qed.

Lemma substring_middle a b c :
  String.substring (String.length a) (String.length b) (a +:+ b +:+ c) = b.
Proof. induction a; simpl; [apply substring_prefix|done]. Qed.

Lemma bytes_between_middle a b c :
  bytes_between (a +:+ b +:+ c) (slen a) (slen a + slen b) = b.
Proof.
  unfold bytes_between, slen.
  rewrite Nat2Z.id. replace (Z.to_nat _) with (String.length b) by lia.
  apply substring_middle.
Qed.

Lemma get_app_r a b i :
  String.get (String.length a + i) (a +:+ b) = String.get i b.
Proof. induction a; simpl; done. Qed.

Lemma get_slen_None s : String.get (String.length s) s = None.
Proof. induction s; simpl; done. Qed.

(** ** Lemmas on characters *)

Lemma chars_cons b s :
  chars (String b s) =
  match chars s with
  | [] => [String b EmptyString]
  | c :: cs => if starts_cont s then String b c :: cs else String b EmptyString :: c :: cs
  end.
Proof. done. Qed.

Lemma chars_nil s : chars s = [] -> s = EmptyString.
Proof.
  destruct s as [|b s]; [done|]. simpl.
  destruct (chars s); [done|]. by destruct (starts_cont s).
Qed.

Lemma concat_chars s : concat_str (chars s) = s.
Proof.
  induction s as [|b s IH]; [done|]. simpl.
  destruct (chars s) as [|c cs] eqn:E.
  - apply chars_nil in E as ->. done.
  - simpl in IH. destruct (starts_cont s); simpl; congruence.
Qed.

Lemma chars_nonempty s : Forall (fun c => c <> EmptyString) (chars s).
Proof.
  induction s as [|b s IH]; simpl; [constructor|].
  destruct (chars s) as [|c cs]; [by repeat constructor|].
  inversion IH; subst. by destruct (starts_cont s); repeat constructor.
Qed.

(** Only the first character of a string may start with a continuation byte,
    and it does exactly when the string does. *)
Lemma chars_starts s :
  match chars s with
  | [] => s = EmptyString
  | c :: cs => starts_cont c = starts_cont s /\
               Forall (fun d => starts_cont d = false) cs
  end.
Proof.
  induction s as [|b s IH]; simpl; [done|].
  destruct (chars s) as [|c cs] eqn:E; [done|].
  destruct IH as [IH1 IH2]. destruct (starts_cont s) eqn:Es; by split; auto.
Qed.

Lemma chars_app a b : starts_cont b = false -> chars (a +:+ b) = chars a ++ chars b.
Proof.
  intros Hb. induction a as [|x a IH]; [done|]. simpl. rewrite IH.
  destruct a as [|y a].
  - simpl. destruct (chars b) as [|c cs] eqn:E; [done|]. by rewrite Hb.
  - destruct (chars (String y a)) as [|c cs] eqn:E.
    + by apply chars_nil in E.
    + simpl. by destruct (is_cont y).
Qed.

Lemma chars_drop s k : chars (concat_str (drop k (chars s))) = drop k (chars s).
Proof.
  revert k. induction s as [|b s IH]; intros k; [simpl; by rewrite drop_nil|].
  destruct k as [|k]; [by rewrite drop_0, concat_chars|]. simpl.
  destruct (chars s) as [|c cs] eqn:E.
  - simpl. by rewrite drop_nil.
  - destruct (starts_cont s); simpl; [apply (IH (S k))|apply (IH k)].
Qed.

Lemma slen_concat_take_le (cs : list string) k :
  slen (concat_str (take k cs)) <= slen (concat_str cs).
Proof.
  rewrite <- (take_drop k cs) at 2. rewrite concat_str_app, slen_app.
  pose proof (slen_nonneg (concat_str (drop k cs))). lia.
Qed.

Lemma app_boundary a b :
  a = EmptyString \/ starts_cont b = false -> is_char_boundary (a +:+ b) (slen a) = true.
Proof.
  intros Hab. unfold is_char_boundary. pose proof (slen_nonneg a).
  destruct (Z.eqb_spec (slen a) 0) as [|Hne]; [done|].
  destruct (Z.ltb_spec (slen a) 0); [lia|].
  destruct Hab as [->|Hb]; [done|].
  replace (Z.to_nat (slen a)) with (String.length a + 0)%nat by (unfold slen; lia).
  rewrite get_app_r, slen_app.
  destruct b as [|x b]; simpl in *; [|by rewrite Hb].
  change (slen "") with 0. lia.
Qed.

(** The starts of the characters from the second one on are not continuations. *)
Lemma drop_chars_starts s k :
  k <> 0%nat -> starts_cont (concat_str (drop k (chars s))) = false.
Proof.
  intros Hk. pose proof (chars_starts s) as Hst. pose proof (chars_nonempty s) as Hn.
  destruct (chars s) as [|c cs] eqn:E; [by rewrite drop_nil|].
  destruct k as [|k]; [done|]. destruct Hst as [_ Hst]. apply Forall_cons in Hn as [_ Hn].
  simpl. destruct (drop k cs) as [|d ds] eqn:Ed; [done|].
  assert (Hin : d ∈ cs).
  { rewrite <- (take_drop k cs), Ed. set_solver. }
  rewrite Forall_forall in Hst, Hn. specialize (Hst d Hin). specialize (Hn d Hin).
  by destruct d.
Qed.

Lemma char_offset_boundary s k :
  is_char_boundary s (slen (concat_str (take k (chars s)))) = true.
Proof.
  pose proof (concat_chars s) as Hs.
  rewrite <- (take_drop k (chars s)), concat_str_app in Hs.
  rewrite <- Hs at 1. apply app_boundary.
  destruct k as [|k]; [by left|right]. by apply drop_chars_starts.
Qed.

Lemma boundary_char_offset s i :
  0 <= i <= slen s -> is_char_boundary s i = true ->
  exists k, i = slen (concat_str (take k (chars s))).
Proof.
  unfold is_char_boundary. revert i. induction s as [|b s IH]; intros i Hi Hb.
  { exists 0%nat. change (slen "") with 0 in Hi. simpl. change (slen "") with 0. lia. }
  destruct (Z.eqb_spec i 0) as [->|Hi0]; [by exists 0%nat|].
  destruct (Z.ltb_spec i 0); [lia|].
  destruct (Z.eqb_spec i 1) as [->|Hi1].
  - simpl in Hb. destruct s as [|y s].
    + exists 1%nat. done.
    + change (negb (is_cont y) = true) in Hb. exists 1%nat. rewrite chars_cons.
      destruct (chars (String y s)) as [|c cs] eqn:E.
      { by apply chars_nil in E. }
      simpl starts_cont. by destruct (is_cont y).
  - rewrite slen_cons in Hi.
    destruct (IH (i - 1)) as [k Hk]; [lia| |].
    + destruct (Z.eqb_spec (i - 1) 0); [lia|]. destruct (Z.ltb_spec (i - 1) 0); [lia|].
      replace (Z.to_nat i) with (S (Z.to_nat (i - 1))) in Hb by lia. simpl in Hb.
      destruct (String.get (Z.to_nat (i - 1)) s); [done|].
      rewrite slen_cons in Hb. rewrite Z.eqb_eq in *. lia.
    + destruct k as [|k]; [rewrite take_0 in Hk; unfold slen in Hk; simpl in Hk; lia|].
      simpl. destruct (chars s) as [|c cs] eqn:E; [unfold slen in Hk; simpl in Hk; lia|].
      destruct (starts_cont s).
      * exists (S k). simpl. rewrite slen_cons. simpl in Hk. lia.
      * exists (S (S k)). simpl. rewrite slen_cons. simpl in Hk. lia.
Qed.

(** The byte offset of the [k]-th character. *)
Definition char_off (s : string) (k : nat) : Z := slen (concat_str (take k (chars s))).

Lemma chars_take s k : chars (concat_str (take k (chars s))) = take k (chars s).
Proof.
  destruct k as [|k]; [done|].
  assert (H : chars (concat_str (take (S k) (chars s)) +:+ concat_str (drop (S k) (chars s))) =
    chars (concat_str (take (S k) (chars s))) ++ chars (concat_str (drop (S k) (chars s)))).
  { apply chars_app. by apply drop_chars_starts. }
  rewrite <- concat_str_app, take_drop, concat_chars, chars_drop in H.
  rewrite <- (take_drop (S k) (chars s)) in H at 1.
  by apply app_inv_tail in H.
Qed.

Lemma append_empty_r s : s +:+ "" = s.
Proof. induction s as [|b s IH]; [done|]. cbn. by rewrite IH. Qed.

(** One whole character: a byte that is no continuation, then continuations. *)
Definition is_char (c : string) : Prop := chars c = [c] /\ starts_cont c = false.

Lemma chars_are_chars s : starts_cont s = false -> Forall is_char (chars s).
Proof.
  intros Hs. apply Forall_forall. intros c [i Hi]%list_elem_of_lookup.
  assert (Hone : chars c = [c]).
  { pose proof (chars_drop s i) as Hd. apply drop_S in Hi. rewrite Hi in Hd.
    pose proof (chars_take (concat_str (c :: drop (S i) (chars s))) 1) as Ht.
    rewrite Hd in Ht. cbn [take] in Ht. rewrite take_0 in Ht.
    cbn [concat_str foldr] in Ht. by rewrite append_empty_r in Ht. }
  split; [done|]. pose proof (chars_starts s) as Hst. destruct (chars s) as [|c0 cs]; [done|].
  destruct Hst as [H0 Hr]. destruct i as [|i]; cbn in Hi; [congruence|].
  rewrite Forall_forall in Hr. apply Hr. by eapply list_elem_of_lookup_2.
Qed.

Lemma starts_cont_concat cs : Forall is_char cs -> starts_cont (concat_str cs) = false.
Proof. intros H. destruct H as [|c cs [Hc Hs] _]; [done|]. by destruct c. Qed.

Lemma chars_concat cs : Forall is_char cs -> chars (concat_str cs) = cs.
Proof.
  intros H. induction H as [|c cs [Hc Hs] Hcs IH]; [done|].
  change (concat_str (c :: cs)) with (c +:+ concat_str cs). rewrite chars_app by (by apply starts_cont_concat). by rewrite Hc, IH.
Qed.

Lemma char_off_mono s i j : (i <= j)%nat -> char_off s i <= char_off s j.
Proof.
  intros Hij. unfold char_off. replace j with (i + (j - i))%nat by lia.
  rewrite <- take_take_drop, concat_str_app, slen_app.
  pose proof (slen_nonneg (concat_str (take (j - i) (drop i (chars s))))). lia.
Qed.

Lemma char_off_take s i k :
  char_off (concat_str (take k (chars s))) i = char_off s (Nat.min i k).
Proof. unfold char_off. by rewrite chars_take, take_take. Qed.

(** Slicing between two characters never panics and takes exactly the
    characters in between. *)
Lemma str_slice_chars s i j :
  (i <= j)%nat ->
  str_slice s (char_off s i) (char_off s j) =
  Some (concat_str (take (j - i) (drop i (chars s)))).
Proof.
  intros Hij. unfold str_slice.
  assert (Hsplit : take j (chars s) = take i (chars s) ++ take (j - i) (drop i (chars s))).
  { rewrite take_take_drop. f_equal. lia. }
  pose proof (char_offset_boundary s i) as Hbi. fold (char_off s i) in Hbi.
  pose proof (char_offset_boundary s j) as Hbj. fold (char_off s j) in Hbj.
  pose proof (slen_concat_take_le (chars s) j) as Hle.
  fold (char_off s j) in Hle. rewrite concat_chars in Hle.
  rewrite Hbi, Hbj. unfold char_off at 1 in Hle.
  assert (Hoff : char_off s j =
    char_off s i + slen (concat_str (take (j - i) (drop i (chars s))))).
  { unfold char_off. rewrite Hsplit, concat_str_app, slen_app. done. }
  pose proof (slen_nonneg (concat_str (take (j - i) (drop i (chars s))))) as Hm.
  fold (char_off s j) in Hle.
  destruct (Z.leb_spec (char_off s i) (char_off s j)); [|lia].
  destruct (Z.leb_spec (char_off s j) (slen s)); [|lia]. simpl. f_equal.
  rewrite Hoff. set (B := concat_str (take (j - i) (drop i (chars s)))) in *.
  transitivity (bytes_between (concat_str (take i (chars s)) +:+ B +:+
    concat_str (drop j (chars s))) (char_off s i) (char_off s i + slen B)).
  - f_equal. subst B.
    by rewrite <- !app_str_assoc, <- !concat_str_app, <- Hsplit, take_drop, concat_chars.
  - apply bytes_between_middle.
Qed.

(** ** ASCII strings *)

Fixpoint is_ascii (s : string) : bool :=
  match s with
  | EmptyString => true
  | String b s => (N_of_ascii b <? 128)%N && is_ascii s
  end.

(** The first [n] bytes, and what follows them. *)
Definition take_bytes (n : nat) (s : string) : string := String.substring 0 n s.
Definition drop_bytes (n : nat) (s : string) : string :=
  String.substring n (String.length s - n) s.

Lemma take_bytes_cons n b s : take_bytes (S n) (String b s) = String b (take_bytes n s).
Proof. done. Qed.

Lemma take_drop_bytes n s : take_bytes n s +:+ drop_bytes n s = s.
Proof.
  revert n. induction s as [|b s IH]; intros [|n]; try done.
  - cbn. by rewrite substring_all.
  - rewrite take_bytes_cons. cbn. f_equal. exact (IH n).
Qed.

Lemma take_bytes_length n s : String.length (take_bytes n s) = Nat.min n (String.length s).
Proof.
  revert n. induction s as [|b s IH]; intros [|n]; try done.
  cbn. f_equal. exact (IH n).
Qed.

Lemma ascii_boundary s n : is_ascii s = true -> 0 <= n <= slen s -> is_char_boundary s n = true.
Proof.
  intros Ha Hn. unfold is_char_boundary. case_match; [done|].
  destruct (Z.ltb_spec n 0); [lia|].
  assert (Hget : forall s k, is_ascii s = true ->
    match String.get k s with Some b => is_cont b = false | None => (String.length s <= k)%nat end).
  { clear. induction s as [|b s IH]; intros k Ha; [cbn; lia|].
    apply andb_prop in Ha as [Hb Ha]. destruct k as [|k].
    - cbn. unfold is_cont. apply N.ltb_lt in Hb. destruct (N.leb_spec 128 (N_of_ascii b)); [lia|done].
    - specialize (IH k Ha). cbn. destruct (String.get k s); [done|lia]. }
  specialize (Hget s (Z.to_nat n) Ha). destruct (String.get (Z.to_nat n) s).
  - by rewrite Hget.
  - unfold slen in *. lia.
Qed.

(** Slicing an ASCII string never panics inside its length. *)
Lemma str_slice_ascii s n :
  is_ascii s = true -> 0 <= n <= slen s -> str_slice s 0 n = Some (take_bytes (Z.to_nat n) s).
Proof.
  intros Ha Hn. unfold str_slice.
  rewrite !ascii_boundary by (done || (pose proof (slen_nonneg s); lia)).
  destruct (Z.leb_spec 0 n); [|lia]. destruct (Z.leb_spec n (slen s)); [|lia]. cbn [andb].
  unfold bytes_between. by rewrite Z.sub_0_r.
Qed.

(** ** Wrapping, and sums over maps *)

Definition wrap64 (x : Z) : Z := x mod 18446744073709551616.

Lemma wrap64_small x : u64 x -> wrap64 x = x.
Proof. unfold u64, u64_max, wrap64. intros. apply Z.mod_small. lia. Qed.

Definition Zsum (l : list Z) : Z := foldr Z.add 0 l.

Lemma Zsum_app l k : Zsum (l ++ k) = Zsum l + Zsum k.
Proof. induction l as [|x l IH]; simpl; lia. Qed.

#[export] Instance Zsum_Permutation : Proper (Permutation ==> eq) Zsum.
Proof. induction 1; simpl; lia. Qed.

Lemma Zsum_nonneg l : Forall (fun x => 0 <= x) l -> 0 <= Zsum l.
Proof. induction 1; simpl; lia. Qed.

(** The sum of [f] over the values of a map. *)
Definition msum {A} (f : A -> Z) (m : gmap string A) : Z :=
  Zsum (map (fun kv => f kv.2) (map_to_list m)).

Section msum.
Context {A : Type} (f : A -> Z).
Implicit Types m : gmap string A.

Lemma msum_empty : msum f ∅ = 0.
Proof. unfold msum. by rewrite map_to_list_empty. Qed.

Lemma msum_insert_fresh m k v : m !! k = None -> msum f (<[k:=v]> m) = f v + msum f m.
Proof.
  intros Hk. unfold msum. by rewrite (map_to_list_insert _ _ _ Hk).
Qed.

Lemma msum_insert m k v : msum f (<[k:=v]> m) = f v + msum f (delete k m).
Proof.
  rewrite <- insert_delete_eq. apply msum_insert_fresh, lookup_delete_eq.
Qed.

Lemma msum_delete m k v : m !! k = Some v -> msum f (delete k m) = msum f m - f v.
Proof.
  intros Hk. rewrite <- (insert_id m k v Hk) at 2. rewrite msum_insert. lia.
Qed.

Lemma msum_nonneg m : map_Forall (fun _ v => 0 <= f v) m -> 0 <= msum f m.
Proof.
  intros Hf. apply Zsum_nonneg, Forall_map, Forall_forall. intros [k v] Hin.
  apply elem_of_map_to_list in Hin. exact (Hf _ _ Hin).
Qed.

Lemma msum_mono m m' : m' ⊆ m -> map_Forall (fun _ v => 0 <= f v) m -> msum f m' <= msum f m.
Proof.
  revert m. induction m' as [|k v m' Hk IH] using map_ind; intros m Hsub Hf.
  { rewrite msum_empty. by apply msum_nonneg. }
  assert (Hm : m !! k = Some v) by (eapply lookup_weaken; [apply lookup_insert_eq|done]).
  rewrite msum_insert_fresh by done.
  assert (msum f m' <= msum f (delete k m)); [|rewrite (msum_delete _ _ _ Hm) in *; lia].
  apply IH.
  - rewrite <- (delete_insert_id m' k v) by done. by apply delete_mono.
  - by apply map_Forall_delete.
Qed.
End msum.

Lemma list_to_set_size_le (l : list string) : (size (list_to_set l : gset string) <= length l)%nat.
Proof.
  induction l as [|x l IH]; [done|]. cbn [list_to_set length].
  rewrite size_union_alt, size_singleton.
  pose proof (subseteq_size (list_to_set l ∖ {[x]}) (list_to_set l : gset string) ltac:(set_solver)). lia.
Qed.

(** A set holds at most as many distinct names as its size. *)
Lemma names_bound {A} (f : A -> string) (l : list A) (s : gset string) :
  NoDup (f <$> l) -> Forall (fun i => f i ∈ s) l -> (length l <= size s)%nat.
Proof.
  intros Hn Hs. rewrite Forall_forall in Hs.
  assert (Hsub : list_to_set (f <$> l) ⊆ s).
  { intros x [i [-> Hi]]%elem_of_list_to_set%list_elem_of_fmap. by apply Hs. }
  apply subseteq_size in Hsub. by rewrite size_list_to_set, length_fmap in Hsub.
Qed.

Lemma NoDup_fmap_lt (f : nat -> string) (l : list nat) :
  NoDup l -> (forall i j, i ∈ l -> j ∈ l -> (i < j)%nat -> f i <> f j) -> NoDup (f <$> l).
Proof.
  intros Hl Hf. apply NoDup_fmap_2_strong; [|done]. intros i j Hi Hj E.
  destruct (lt_eq_lt_dec i j) as [[Hlt| ->]|Hlt]; [|done|]; exfalso.
  - by apply (Hf i j).
  - by apply (Hf j i).
Qed.

(** Among more distinct names than [s] holds, one is not in [s]. *)
Lemma fresh_among (f : nat -> string) (s : gset string) :
  (forall i j, (i < j <= size s)%nat -> f i <> f j) -> exists i, (i <= size s)%nat /\ f i ∉ s.
Proof.
  intros Hf. destruct (decide (Exists (fun i => f i ∉ s) (seq 0 (S (size s))))) as [H|H].
  - apply Exists_exists in H as (i & Hi & Hn). apply elem_of_seq in Hi. exists i. split; [lia|done].
  - exfalso. apply not_Exists_Forall in H; [|apply _].
    assert (Hle : (length (seq 0 (S (size s))) <= size s)%nat); [|rewrite length_seq in Hle; lia].
    apply (names_bound f).
    + apply NoDup_fmap_lt; [apply NoDup_seq|]. intros i j _ Hj%elem_of_seq Hij. apply Hf. lia.
    + eapply Forall_impl; [done|]. intros i Hi. cbn in Hi. destruct (decide (f i ∈ s)); done.
Qed.

(** A loop over [incoming] that updates [kept.entry(k).or_insert(0)] with [f]: the
    result does not depend on the iteration order. *)
Definition fold_entries (f : Z -> Z -> Z) (incoming kept : gmap string Z) : gmap string Z :=
  map_fold (fun k n kept => <[k := f (default 0 (kept !! k)) n]> kept) kept incoming.

Lemma lookup_fold_entries f incoming kept k :
  fold_entries f incoming kept !! k =
  match incoming !! k with
  | Some n => Some (f (default 0 (kept !! k)) n)
  | None => kept !! k
  end.
Proof.
  unfold fold_entries. revert k.
  apply (map_fold_weak_ind (fun r incoming => forall k, r !! k =
    match incoming !! k with
    | Some n => Some (f (default 0 (kept !! k)) n)
    | None => kept !! k
    end)).
  - intros k. by rewrite lookup_empty.
  - intros k n m r Hk IH k'. destruct (decide (k = k')) as [->|Hne].
    + rewrite !lookup_insert_eq, IH, Hk. done.
    + by rewrite !lookup_insert_ne, IH by done.
Qed.

(** ** [Result] *)

Inductive result (A E : Type) : Type := Ok (a : A) | Err (e : E).
Arguments Ok {_ _} _.
Arguments Err {_ _} _.

Definition is_ok {A E} (r : result A E) : bool := match r with Ok _ => true | Err _ => false end.

Definition unwrap_or {A E} (a : A) (r : result A E) : A := match r with Ok a => a | Err _ => a end.

#[global] Instance result_bind E : MBind (fun A => result A E) :=
  fun A B f r => match r with Ok a => f a | Err e => Err e end.

(** ** A concrete codec

    Witnesses instantiate the encoders and decoders of third-party code with this
    one: any countable data as a string of bits. *)

Fixpoint bits_of (p : positive) : string :=
  match p with
  | xH => ""
  | xO p => String "0" (bits_of p)
  | xI p => String "1" (bits_of p)
  end.

Fixpoint of_bits (s : string) : option positive :=
  match s with
  | EmptyString => Some xH
  | String b s =>
      p ← of_bits s;
      if Stdlib.Strings.Ascii.eqb b "0" then Some (xO p)
      else if Stdlib.Strings.Ascii.eqb b "1" then Some (xI p) else None
  end.

Definition bits_encode `{Countable A} (x : A) : string := bits_of (countable.encode x).

Definition bits_decode `{Countable A} (s : string) : option A :=
  p ← of_bits s; countable.decode p.

Lemma bits_decode_encode `{Countable A} (x : A) : bits_decode (bits_encode x) = Some x.
Proof.
  unfold bits_decode, bits_encode.
  assert (Hb : forall p, of_bits (bits_of p) = Some p)
    by (induction p as [p IH|p IH|]; simpl; by rewrite ?IH).
  by rewrite Hb; simpl; rewrite decode_encode.
Qed.

(** ** The files processes share

    What a component that keeps its data in a file relies on: serde writes and
    reads the data.  [CodecLaws ok] states what serde's derived implementations
    document, for the values [ok] of the declared types: what was written reads
    back, and what is read has the declared types. *)
Class Codec (A : Type) := {
  serde_decode : string -> result A string;
  serde_encode : A -> string
}.

Class CodecLaws {A : Type} {codec : Codec A} (ok : A -> Prop) := {
  serde_roundtrip : forall a, ok a -> serde_decode (serde_encode a) = Ok a;
  serde_typed : forall raw a, serde_decode raw = Ok a -> ok a
}.

#[global] Hint Mode CodecLaws ! - - : typeclass_instances.

(** The concrete codec of the data satisfying [ok]. *)
Definition bits_codec `{Countable A} (ok : A -> Prop) `{forall a, Decision (ok a)} : Codec A :=
  {| serde_decode := fun raw =>
       match bits_decode raw with
       | Some a => if decide (ok a) then Ok a else Err "range"
       | None => Err "syntax"
       end;
     serde_encode := bits_encode |}.

Lemma bits_codec_laws `{Countable A} (ok : A -> Prop) `{forall a, Decision (ok a)} :
  @CodecLaws A (bits_codec ok) ok.
Proof.
  split; cbn [serde_decode serde_encode bits_codec].
  - intros a Ha. rewrite bits_decode_encode. by rewrite decide_True.
  - intros raw a. destruct (bits_decode raw); [|done]. case_decide; naive_solver.
Qed.
