(* ===== verification/Text.v ===== *)
(** Text: the [str] methods of Rust's standard library the sources call,
    on UTF-8 byte strings and their characters. *)

From S2P Require Import Prelude.

(** ** Bytes *)

Definition byte_in (lo hi : N) (b : ascii) : bool :=
  ((lo <=? N_of_ascii b) && (N_of_ascii b <=? hi))%N.

Definition is_digit (b : ascii) : bool := byte_in 48 57 b.
Definition is_upper (b : ascii) : bool := byte_in 65 90 b.
Definition is_lower (b : ascii) : bool := byte_in 97 122 b.
Definition is_alnum (b : ascii) : bool := is_digit b || is_upper b || is_lower b.

Definition lower_byte (b : ascii) : ascii :=
  if is_upper b then ascii_of_N (N_of_ascii b + 32) else b.

Fixpoint map_bytes (f : ascii -> ascii) (s : string) : string :=
  match s with
  | EmptyString => EmptyString
  | String b s => String (f b) (map_bytes f s)
  end.

Fixpoint all_bytes (p : ascii -> bool) (s : string) : bool :=
  match s with
  | EmptyString => true
  | String b s => p b && all_bytes p s
  end.

Definition to_ascii_lowercase (s : string) : string := map_bytes lower_byte s.

(** ** Characters: a [char] is the string of its bytes *)

Definition one_byte (p : ascii -> bool) (c : string) : bool :=
  match c with String b EmptyString => p b | _ => false end.

(** [char::is_ascii_alphanumeric] and friends: false on every multi-byte one. *)
Definition char_is_alnum : string -> bool := one_byte is_alnum.
Definition char_is_digit : string -> bool := one_byte is_digit.
Definition char_is_lower : string -> bool := one_byte is_lower.
Definition char_is_upper : string -> bool := one_byte is_upper.

Definition bytes_str (l : list N) : string :=
  foldr (fun n s => String (ascii_of_N n) s) EmptyString l.

(** [char::is_whitespace]: Unicode [White_Space]. *)
Definition white_space : list string :=
  map bytes_str
    ([[9]; [10]; [11]; [12]; [13]; [32]; [194; 133]; [194; 160]; [225; 154; 128];
      [226; 128; 128]; [226; 128; 129]; [226; 128; 130]; [226; 128; 131];
      [226; 128; 132]; [226; 128; 133]; [226; 128; 134]; [226; 128; 135];
      [226; 128; 136]; [226; 128; 137]; [226; 128; 138]; [226; 128; 168];
      [226; 128; 169]; [226; 128; 175]; [226; 129; 159]; [227; 128; 128]]%N).

Definition is_whitespace (c : string) : bool := existsb (String.eqb c) white_space.

(** [char::is_control]: the C0 and C1 controls and DEL. *)
Definition is_control (c : string) : bool :=
  match c with
  | String b EmptyString => byte_in 0 31 b || byte_in 127 127 b
  | String b (String d EmptyString) => byte_in 194 194 b && byte_in 128 159 d
  | _ => false
  end.

Definition is_hexdigit (b : ascii) : bool := is_digit b || byte_in 65 70 b || byte_in 97 102 b.

Fixpoint drop_while (p : string -> bool) (cs : list string) : list string :=
  match cs with
  | [] => []
  | c :: cs' => if p c then drop_while p cs' else cs
  end.

(** [str::trim_matches] on a character predicate, and [str::trim]. *)
Definition trim_matches (p : string -> bool) (s : string) : string :=
  concat_str (rev (drop_while p (rev (drop_while p (chars s))))).

Definition trim (s : string) : string := trim_matches is_whitespace s.

(** ** Search *)

Definition starts_with (p s : string) : bool := String.prefix p s.

Definition strip_prefix (p s : string) : option string :=
  if String.prefix p s
  then Some (String.substring (String.length p) (String.length s - String.length p) s)
  else None.

Definition strip_suffix (p s : string) : option string :=
  let n := (String.length s - String.length p)%nat in
  if (String.length p <=? String.length s)%nat &&
     String.eqb (String.substring n (String.length p) s) p
  then Some (String.substring 0 n s) else None.

Definition ends_with (p s : string) : bool :=
  match strip_suffix p s with Some _ => true | None => false end.

Definition contains (p s : string) : bool :=
  match String.index 0 p s with Some _ => true | None => false end.

(** [str::split] on an ASCII byte: always at least one segment. *)
Fixpoint split_on (sep : ascii) (s : string) : list string :=
  match s with
  | EmptyString => [EmptyString]
  | String b s =>
      match split_on sep s with
      | [] => []
      | seg :: segs =>
          if Stdlib.Strings.Ascii.eqb b sep then EmptyString :: seg :: segs
          else String b seg :: segs
      end
  end.

(** ** Numbers *)

Definition digit_value (b : ascii) : option Z :=
  if is_digit b then Some (Z.of_N (N_of_ascii b) - 48) else None.

(** [str::parse] for an unsigned integer: an optional [+], then at least one
    digit, every byte a digit, no overflow past [max]. *)
Fixpoint parse_digits (max acc : Z) (s : string) : option Z :=
  match s with
  | EmptyString => Some acc
  | String b s =>
      match digit_value b with
      | None => None
      | Some d => let acc := acc * 10 + d in
                  if max <? acc then None else parse_digits max acc s
      end
  end.

Definition parse_unsigned (max : Z) (s : string) : option Z :=
  let digits := match s with
                | String "+"%char rest => rest
                | _ => s
                end in
  match digits with
  | EmptyString => None
  | _ => parse_digits max 0 digits
  end.

Definition parse_usize : string -> option Z := parse_unsigned u64_max.

Lemma digit_value_nonneg b d : digit_value b = Some d -> 0 <= d.
Proof.
  unfold digit_value. destruct (is_digit b) eqn:E; [|done]. intros [= <-].
  destruct b as [[] [] [] [] [] [] [] []]; try done; revert E; cbn; lia.
Qed.

Lemma parse_digits_nonneg max s : forall acc n, 0 <= acc -> parse_digits max acc s = Some n -> 0 <= n.
Proof.
  induction s as [|b s IH]; intros acc n Ha; cbn; [by intros [= <-]|].
  destruct (digit_value b) as [d|] eqn:E; [|done]. case_match; [done|].
  apply digit_value_nonneg in E. apply IH. lia.
Qed.

Lemma parse_usize_nonneg s n : parse_usize s = Some n -> 0 <= n.
Proof. unfold parse_usize, parse_unsigned. case_match; [done|]. by apply parse_digits_nonneg. Qed.

(** [{:0width$}] on a non-negative integer. *)
Definition zero_pad (width : nat) (n : Z) : string :=
  let s := pretty n in
  concat_str (replicate (width - String.length s) "0") +:+ s.

(** ** Lemmas *)

Lemma prefix_app p s : String.prefix p (p +:+ s) = true.
Proof.
  induction p as [|b p IH]; simpl; [by destruct s|].
  destruct (Stdlib.Strings.Ascii.ascii_dec b b); [done|congruence].
Qed.

Lemma prefix_spec p s : String.prefix p s = true <-> exists r, s = p +:+ r.
Proof.
  split; [|intros [r ->]; apply prefix_app].
  revert s. induction p as [|b p IH]; intros s; [by exists s|].
  destruct s as [|c s]; [done|]. cbn [String.prefix].
  destruct (Stdlib.Strings.Ascii.ascii_dec b c) as [->|Hne]; [|done].
  intros [r ->]%IH. by exists r.
Qed.

Lemma strip_prefix_spec p s r : strip_prefix p s = Some r <-> s = p +:+ r.
Proof.
  assert (Happ : forall r, strip_prefix p (p +:+ r) = Some r).
  { intros q. unfold strip_prefix. rewrite prefix_app. f_equal.
    rewrite <- (app_str_nil_r q) at 2.
    replace (String.length (p +:+ q) - String.length p)%nat with (String.length q).
    - apply substring_middle.
    - pose proof (slen_app p q) as H. unfold slen in H. lia. }
  split; [|intros ->; apply Happ].
  unfold strip_prefix. destruct (String.prefix p s) eqn:E; [|done].
  apply prefix_spec in E as [q ->]. intros H.
  pose proof (Happ q) as H2. unfold strip_prefix in H2. rewrite prefix_app in H2. congruence.
Qed.

Lemma all_bytes_app p a b : all_bytes p (a +:+ b) = all_bytes p a && all_bytes p b.
Proof. induction a; simpl; [done|]. by rewrite IHa, andb_assoc. Qed.

#[export] Hint Rewrite all_bytes_app : toolport.

(** [str::split_once] on a string. *)
Fixpoint split_on_str (sep s : string) : option (string * string) :=
  match strip_prefix sep s with
  | Some rest => Some ("", rest)
  | None =>
      match s with
      | EmptyString => None
      | String b s => '(before, after) ← split_on_str sep s; Some (String b before, after)
      end
  end.

(** [str::split_once] on an ASCII byte. *)
Fixpoint split_once (sep : ascii) (s : string) : option (string * string) :=
  match s with
  | EmptyString => None
  | String b s =>
      if Stdlib.Strings.Ascii.eqb b sep then Some (EmptyString, s)
      else match split_once sep s with
           | Some (l, r) => Some (String b l, r)
           | None => None
           end
  end.

Definition eq_ignore_ascii_case (a b : string) : bool :=
  String.eqb (to_ascii_lowercase a) (to_ascii_lowercase b).

(** [Vec<String>::sort] (by bytes) and [dedup] (of neighbours). *)
Definition str_le (a b : string) : Prop := String.leb a b = true.
#[global] Instance str_le_dec : RelDecision str_le.
Proof. intros a b. unfold str_le. apply _. Defined.

Definition sort_strings (l : list string) : list string := merge_sort str_le l.

Fixpoint dedup (l : list string) : list string :=
  match l with
  | x :: (y :: _) as tail => if String.eqb x y then dedup tail else x :: dedup tail
  | _ => l
  end.

Lemma dedup_incl l x : x ∈ dedup l -> x ∈ l.
Proof.
  induction l as [|a l IH]; [done|]. destruct l as [|b l]; [done|].
  cbn [dedup]. destruct (String.eqb a b); [intros H; right; by apply IH|].
  rewrite !elem_of_cons. rewrite elem_of_cons in IH. intuition.
Qed.

Lemma sort_strings_in l x : x ∈ sort_strings l <-> x ∈ l.
Proof. unfold sort_strings. by rewrite merge_sort_Permutation. Qed.

Lemma all_bytes_impl (p q : ascii -> bool) s :
  (forall b, p b = true -> q b = true) -> all_bytes p s = true -> all_bytes q s = true.
Proof. intros H. induction s; simpl; [done|]. intros [? ?]%andb_prop. by rewrite H, IHs. Qed.

(** The length of a join: its parts, and a separator between two. *)
Lemma slen_concat sep l :
  slen (String.concat sep l) =
  Zsum (map slen l) + slen sep * Z.of_nat (length l - 1).
Proof.
  induction l as [|x [|y l] IH]; [simpl; change (slen "") with 0; lia|simpl; lia|].
  change (String.concat sep (x :: y :: l)) with (x +:+ sep +:+ String.concat sep (y :: l)).
  rewrite !slen_app, IH. cbn [length map]. change (Zsum (?a :: ?r)) with (a + Zsum r).
  rewrite !Nat.sub_succ, !Nat.sub_0_r, Nat2Z.inj_succ, Z.mul_succ_r. unfold Zsum. cbn [foldr]. lia.
Qed.

Lemma all_bytes_concat p sep l :
  all_bytes p sep = true -> Forall (fun s => all_bytes p s = true) l ->
  all_bytes p (String.concat sep l) = true.
Proof.
  intros Hs. induction 1 as [|x l Hx Hl IH]; [done|]. destruct l as [|y l]; [done|].
  cbn [String.concat] in *. by rewrite !all_bytes_app, Hx, Hs, IH.
Qed.

Lemma split_on_cons sep s : exists seg rest, split_on sep s = seg :: rest.
Proof.
  induction s as [|b s (seg & rest & E)]; [by eexists _, _|]. cbn [split_on]. rewrite E.
  destruct (Stdlib.Strings.Ascii.eqb b sep); by eexists _, _.
Qed.

(** The first segment starts with the first byte of the text, unless that is the
    separator. *)
Lemma split_on_first sep b s :
  b <> sep -> exists seg rest, split_on sep (String b s) = String b seg :: rest.
Proof.
  intros Hb. cbn [split_on]. destruct (split_on_cons sep s) as (seg & rest & ->).
  destruct (Stdlib.Strings.Ascii.eqb_spec b sep); [done|]. by eexists _, _.
Qed.

(** ** More of [str] *)

Definition upper_byte (b : ascii) : ascii :=
  if is_lower b then ascii_of_N (N_of_ascii b - 32) else b.

Definition to_ascii_uppercase (s : string) : string := map_bytes upper_byte s.

(** [rsplit_once] on the last byte that satisfies [p]. *)
Fixpoint rsplit_once_by (p : ascii -> bool) (s : string) : option (string * string) :=
  match s with
  | EmptyString => None
  | String b s =>
      match rsplit_once_by p s with
      | Some (l, r) => Some (String b l, r)
      | None => if p b then Some (EmptyString, s) else None
      end
  end.

(** [split(..).next()] on the first byte that satisfies [p]. *)
Fixpoint before_by (p : ascii -> bool) (s : string) : string :=
  match s with
  | EmptyString => EmptyString
  | String b s => if p b then EmptyString else String b (before_by p s)
  end.

Fixpoint trim_start_by (p : ascii -> bool) (s : string) : string :=
  match s with
  | EmptyString => EmptyString
  | String b s' => if p b then trim_start_by p s' else s
  end.

Fixpoint trim_end_by (p : ascii -> bool) (s : string) : string :=
  match s with
  | EmptyString => EmptyString
  | String b s =>
      match trim_end_by p s with
      | EmptyString => if p b then EmptyString else String b EmptyString
      | t => String b t
      end
  end.

(** [str::split_whitespace]: the non-empty runs of other characters. *)
Fixpoint words_of (cur : string) (cs : list string) : list string :=
  match cs with
  | [] => if String.eqb cur "" then [] else [cur]
  | c :: cs =>
      if is_whitespace c
      then if String.eqb cur "" then words_of "" cs else cur :: words_of "" cs
      else words_of (cur +:+ c) cs
  end.

Definition split_whitespace (s : string) : list string := words_of "" (chars s).

(** Membership in a table of words. *)
Definition listed (x : string) (l : list string) : bool := existsb (String.eqb x) l.

Lemma listed_spec x l : listed x l = true <-> In x l.
Proof.
  unfold listed. rewrite existsb_exists. split.
  - intros (y & Hy & ->%String.eqb_eq). done.
  - intros H. exists x. by rewrite String.eqb_refl.
Qed.

Example split_whitespace_runs : split_whitespace "  a bc  d" = ["a"; "bc"; "d"].
Proof. reflexivity. Qed.

(** [str::replace] of a non-empty [old]: left to right, without overlaps. *)
Fixpoint replace_skip (old new : string) (skip : nat) (s : string) : string :=
  match s with
  | EmptyString => EmptyString
  | String b s' =>
      match skip with
      | S skip => replace_skip old new skip s'
      | O => if starts_with old s
             then new +:+ replace_skip old new (String.length old - 1) s'
             else String b (replace_skip old new 0 s')
      end
  end.

Definition replace (old new s : string) : string := replace_skip old new 0 s.

Example replace_twice : replace "ab" "-" "xababy" = "x--y".
Proof. reflexivity. Qed.

(** ** The order of strings *)

Lemma ascii_compare_N a b :
  Stdlib.Strings.Ascii.compare a b = N.compare (N_of_ascii a) (N_of_ascii b).
Proof. reflexivity. Qed.

#[global] Instance str_le_trans : Transitive str_le.
Proof.
  intros x y z. unfold str_le, String.leb. revert y z.
  induction x as [|a x IH]; intros [|b y] [|c z]; try done. cbn [String.compare].
  rewrite !ascii_compare_N. intros H1 H2.
  destruct (N.compare_spec (N_of_ascii a) (N_of_ascii b)) as [E1|L1|]; [| |done];
    destruct (N.compare_spec (N_of_ascii b) (N_of_ascii c)) as [E2|L2|]; try done.
  - rewrite E1, E2, N.compare_refl. by apply (IH y z).
  - rewrite E1. apply N.compare_lt_iff in L2. by rewrite L2.
  - rewrite <- E2. apply N.compare_lt_iff in L1. by rewrite L1.
  - assert (L : (N_of_ascii a < N_of_ascii c)%N) by lia. apply N.compare_lt_iff in L. by rewrite L.
Qed.

#[global] Instance str_le_total : Total str_le.
Proof. intros x y. apply String.leb_total. Qed.

#[global] Instance str_le_antisymm : AntiSymm (=) str_le.
Proof. intros x y. apply String.leb_antisym. Qed.

Lemma sort_strings_sorted l : StronglySorted str_le (sort_strings l).
Proof. apply StronglySorted_merge_sort; apply _. Qed.

Lemma dedup_superset l x : x ∈ l -> x ∈ dedup l.
Proof.
  induction l as [|a l IH]; [done|]. destruct l as [|b l]; [done|]. cbn [dedup].
  intros Hx. destruct (String.eqb_spec a b) as [->|].
  - apply IH. apply elem_of_cons in Hx as [->|]; [left|done].
  - apply elem_of_cons in Hx as [->|Hx]; [left|right; by apply IH].
Qed.

Lemma dedup_NoDup l : StronglySorted str_le l -> NoDup (dedup l).
Proof.
  induction 1 as [|a l Hl IH Ha]; [constructor|]. destruct l as [|b l]; [by repeat constructor; set_solver|].
  cbn [dedup]. destruct (String.eqb_spec a b) as [->|Hne]; [done|]. constructor; [|done].
  intros Hin. apply (dedup_incl (b :: l)) in Hin. rewrite Forall_forall in Ha. pose proof (Ha b ltac:(left)) as Hab.
  apply elem_of_cons in Hin as [|Hin]; [done|]. inversion_clear Hl as [|? ? _ Hb].
  rewrite Forall_forall in Hb. apply Hne. apply String.leb_antisym; [exact Hab|by apply Hb].
Qed.

Lemma split_once_spec sep s l r : split_once sep s = Some (l, r) -> s = l +:+ String sep r.
Proof.
  revert l. induction s as [|b s IH]; intros l; [done|]. cbn [split_once].
  destruct (Stdlib.Strings.Ascii.eqb_spec b sep) as [->|].
  - by intros [= <- <-].
  - destruct (split_once sep s) as [[l' r']|]; [|done]. intros [= <- <-]. cbn. by rewrite <- (IH l').
Qed.

Lemma split_once_length sep s l r :
  split_once sep s = Some (l, r) -> (String.length r < String.length s)%nat.
Proof. intros ->%split_once_spec. pose proof (slen_app l (String sep r)) as H. unfold slen in H. cbn in H. lia. Qed.

(** ** Splitting by characters, hexadecimal *)

(** [str::split] on a character predicate: the segments between the characters [p]
    accepts, always at least one. *)
Fixpoint split_chars (p : string -> bool) (cs : list string) : list (list string) :=
  match cs with
  | [] => [[]]
  | c :: cs =>
      match split_chars p cs with
      | [] => []
      | seg :: segs => if p c then [] :: seg :: segs else (c :: seg) :: segs
      end
  end.

Definition hex_digit (n : N) : ascii := ascii_of_N (if (n <? 10)%N then 48 + n else 87 + n).

(** [format!("{byte:02x}")] of each byte. *)
Definition to_hex (bytes : list N) : string :=
  foldr (fun b s => String (hex_digit (b / 16)) (String (hex_digit (b mod 16)) s)) "" bytes.

Lemma to_hex_length bytes : String.length (to_hex bytes) = (2 * length bytes)%nat.
Proof.
  unfold to_hex. induction bytes as [|b bytes IH]; [done|]. cbn [foldr String.length length]. lia.
Qed.

(** ** Printed numbers *)

Lemma pretty_N_go_spec n s :
  all_bytes is_digit (pretty_N_go n s) = all_bytes is_digit s /\
  (forall k, (n < 10 ^ N.of_nat k)%N -> (String.length (pretty_N_go n s) <= k + String.length s)%nat).
Proof.
  revert s. induction (N.lt_wf_0 n) as [n _ IH]. intros s.
  destruct (decide (n = 0)%N) as [->|Hn]; [rewrite pretty_N_go_0; split; [done|intros; lia]|].
  assert (Hlt : (n / 10 < n)%N) by (apply N.div_lt; lia).
  rewrite pretty_N_go_step by lia. destruct (IH (n / 10)%N Hlt
    (String (pretty_N_char (n mod 10)) s)) as [H1 H2]. split.
  - rewrite H1. cbn. unfold pretty_N_char. by repeat case_match.
  - intros k Hk. destruct k as [|k]; [cbn in Hk; lia|].
    rewrite Nat2N.inj_succ, N.pow_succ_r' in Hk.
    specialize (H2 k ltac:(apply N.Div0.div_lt_upper_bound; lia)). cbn [String.length] in H2. lia.
Qed.

Lemma pretty_digits z : 0 <= z -> all_bytes is_digit (pretty z) = true.
Proof.
  intros Hz. destruct z as [|p|p]; [done| |lia]. unfold pretty, pretty_Z, pretty, pretty_positive, pretty, pretty_N.
  case_decide; [done|]. by rewrite (proj1 (pretty_N_go_spec _ _)).
Qed.

Lemma pretty_length z k : 0 <= z < 10 ^ Z.of_nat k -> (0 < k)%nat -> slen (pretty z) <= Z.of_nat k.
Proof.
  intros Hz Hk. destruct z as [|p|p]; [unfold slen; cbn; lia| |lia].
  unfold pretty, pretty_Z, pretty, pretty_positive, pretty, pretty_N, slen.
  case_decide; [done|]. pose proof (proj2 (pretty_N_go_spec (N.pos p) "") k) as H1.
  cbn [String.length] in H1. rewrite Nat.add_0_r in H1.
  assert (Hlt : (N.pos p < 10 ^ N.of_nat k)%N).
  { apply N2Z.inj_lt. rewrite N2Z.inj_pow. replace (Z.of_N (N.of_nat k)) with (Z.of_nat k) by lia. lia. }
  specialize (H1 Hlt). lia.
Qed.

(** A number after a separator can be read off the end. *)
Lemma suffix_number_inj sep a b i j :
  is_digit sep = false -> 0 <= i -> 0 <= j ->
  a +:+ String sep (pretty i) = b +:+ String sep (pretty j) -> a = b /\ i = j.
Proof.
  intros Hs Hi Hj.
  assert (H : forall x y, all_bytes is_digit x = true -> all_bytes is_digit y = true ->
    a +:+ String sep x = b +:+ String sep y -> a = b /\ x = y).
  { clear i j Hi Hj. revert b. induction a as [|c a IH]; intros [|d b] x y Hx Hy E; cbn in E.
    - by injection E as ->.
    - exfalso. injection E as -> E. subst x. rewrite all_bytes_app in Hx.
      apply andb_prop in Hx as [_ Hx]. cbn in Hx. by rewrite Hs in Hx.
    - exfalso. injection E as <- E. subst y. rewrite all_bytes_app in Hy.
      apply andb_prop in Hy as [_ Hy]. cbn in Hy. by rewrite Hs in Hy.
    - injection E as -> E. destruct (IH _ _ _ Hx Hy E) as [-> ->]. done. }
  intros E. destruct (H _ _ (pretty_digits _ Hi) (pretty_digits _ Hj) E) as [-> E']. split; [done|].
  by apply (inj pretty).
Qed.

(** ** Splitting on a string *)

Lemma contains_cons p b s : contains p (String b s) = String.prefix p (String b s) || contains p s.
Proof.
  unfold contains. change (String.index 0 p (String b s)) with
    (if String.prefix p (String b s) then Some 0%nat
     else match String.index 0 p s with Some n => Some (S n) | None => None end).
  destruct (String.prefix p (String b s)); [done|]. by destruct (String.index 0 p s).
Qed.

Lemma split_on_str_cons sep b s :
  split_on_str sep (String b s) =
  match strip_prefix sep (String b s) with
  | Some rest => Some ("", rest)
  | None => '(x, y) ← split_on_str sep s; Some (String b x, y)
  end.
Proof. done. Qed.

Lemma strip_prefix_None p s : strip_prefix p s = None <-> String.prefix p s = false.
Proof.
  destruct (strip_prefix p s) eqn:E.
  - apply strip_prefix_spec in E as ->. by rewrite prefix_app.
  - split; [|done]. intros _. apply not_true_iff_false. intros (r & ->)%prefix_spec.
    assert (H : strip_prefix p (p +:+ r) = Some r) by by apply strip_prefix_spec. congruence.
Qed.

Lemma split_on_str_Some sep s a b : split_on_str sep s = Some (a, b) -> s = a +:+ sep +:+ b.
Proof.
  revert a. induction s as [|x s IH]; intros a.
  - change (split_on_str sep "") with
      (match strip_prefix sep "" with Some rest => Some ("", rest) | None => None end).
    destruct (strip_prefix sep "") eqn:E; [|done]. intros [= <- <-]. apply strip_prefix_spec in E. exact E.
  - rewrite split_on_str_cons. destruct (strip_prefix sep (String x s)) eqn:E.
    + intros [= <- <-]. apply strip_prefix_spec in E. exact E.
    + destruct (split_on_str sep s) as [[a' b']|]; [|done]. intros [= <- <-]. cbn. f_equal. by apply IH.
Qed.

Lemma split_on_str_None x q s :
  contains (String x q) s = false -> split_on_str (String x q) s = None.
Proof.
  induction s as [|b s IH]; [done|]. rewrite contains_cons, split_on_str_cons.
  intros [H1 H2]%orb_false_iff. apply strip_prefix_None in H1. by rewrite H1, IH.
Qed.
