(* ===== verification/Json.v ===== *)
(** JSON values as the sources use them through serde_json: the documented
    [Value] enum, its [as_*] and [get] accessors, and objects as key-ordered
    association lists (serde_json's default [BTreeMap]).  Parsing and printing
    are third-party code and stay parameters of the components that use them. *)

From Stdlib Require Import SpecFloat.
From S2P Require Import Prelude Text.

(** [serde_json::Number]: an unsigned, a negative or a floating-point number. *)
Inductive number :=
| PosInt (n : Z)
| NegInt (n : Z)
| Float (f : spec_float).

#[warnings="-register-all"]
Inductive json :=
| JNull
| JBool (b : bool)
| JNumber (n : number)
| JString (s : string)
| JArray (l : list json)
| JObject (o : list (string * json)).

(** Induction with the hypothesis for every element and every field. *)
Section json_ind.
Variable P : json -> Prop.
Hypothesis Hnull : P JNull.
Hypothesis Hbool : forall b, P (JBool b).
Hypothesis Hnumber : forall n, P (JNumber n).
Hypothesis Hstring : forall s, P (JString s).
Hypothesis Harray : forall l, Forall P l -> P (JArray l).
Hypothesis Hobject : forall o, Forall (fun kv => P kv.2) o -> P (JObject o).

Fixpoint json_rec_strong (v : json) : P v :=
  match v with
  | JNull => Hnull
  | JBool b => Hbool b
  | JNumber n => Hnumber n
  | JString s => Hstring s
  | JArray l => Harray l
      ((fix go (l : list json) : Forall P l :=
         match l with
         | [] => Forall_nil_2 P
         | x :: l => Forall_cons_2 P x l (json_rec_strong x) (go l)
         end) l)
  | JObject o => Hobject o
      ((fix go (o : list (string * json)) : Forall (fun kv => P kv.2) o :=
         match o with
         | [] => Forall_nil_2 _
         | kv :: o => Forall_cons_2 (fun kv => P kv.2) kv o (json_rec_strong kv.2) (go o)
         end) o)
  end.
End json_ind.

(** ** Objects: [serde_json::Map] *)

Fixpoint obj_get {V} (k : string) (o : list (string * V)) : option V :=
  match o with
  | [] => None
  | (k', v) :: o => if String.eqb k k' then Some v else obj_get k o
  end.

Fixpoint obj_insert {V} (k : string) (v : V) (o : list (string * V)) : list (string * V) :=
  match o with
  | [] => [(k, v)]
  | (k', v') :: o' =>
      match String.compare k k' with
      | Lt => (k, v) :: o
      | Eq => (k, v) :: o'
      | Gt => (k', v') :: obj_insert k v o'
      end
  end.

Definition obj_remove {V} (k : string) (o : list (string * V)) : list (string * V) :=
  List.filter (fun kv => negb (String.eqb k kv.1)) o.

(** [get_mut] then an in-place update of the field, when it is there. *)
Definition obj_update (k : string) (f : json -> json) (o : list (string * json))
    : list (string * json) :=
  map (fun kv => if String.eqb k kv.1 then (kv.1, f kv.2) else kv) o.

Definition update (k : string) (f : json -> json) (v : json) : json :=
  match v with JObject o => JObject (obj_update k f o) | _ => v end.

(** [as_array_mut] then a loop over the elements. *)
Definition for_each (f : json -> json) (v : json) : json :=
  match v with JArray l => JArray (map f l) | _ => v end.

(** [json!({..})] with distinct keys, and [value\[k\] = v] on an object. *)
Definition obj (l : list (string * json)) : json :=
  JObject (foldr (fun kv o => obj_insert kv.1 kv.2 o) [] l).

Definition put (k : string) (v w : json) : json :=
  match w with JObject o => JObject (obj_insert k v o) | _ => w end.

(** [t\[key\] = value]: a null becomes an object, other values panic. *)
Definition set_field (key : string) (value t : json) : option json :=
  match t with
  | JObject o => Some (JObject (obj_insert key value o))
  | JNull => Some (JObject [(key, value)])
  | _ => None
  end.

Definition obj_contains {V} (k : string) (o : list (string * V)) : bool :=
  match obj_get k o with Some _ => true | None => false end.

(** ** Accessors *)

(** [Value::get] with a string index: a field of an object, else [None]. *)
Definition get (k : string) (v : json) : option json :=
  match v with JObject o => obj_get k o | _ => None end.

Definition as_str (v : json) : option string :=
  match v with JString s => Some s | _ => None end.

Definition as_bool (v : json) : option bool :=
  match v with JBool b => Some b | _ => None end.

Definition as_array (v : json) : option (list json) :=
  match v with JArray l => Some l | _ => None end.

Definition as_object (v : json) : option (list (string * json)) :=
  match v with JObject o => Some o | _ => None end.

Definition as_u64 (v : json) : option Z :=
  match v with JNumber (PosInt n) => Some n | _ => None end.

Definition as_i64 (v : json) : option Z :=
  match v with
  | JNumber (PosInt n) => if n <=? 9223372036854775807 then Some n else None
  | JNumber (NegInt n) => Some n
  | _ => None
  end.

(** [value\[k\]], null when there is none, and the comparisons of the code with it. *)
Definition at_key (k : string) (v : json) : json := default JNull (get k v).
Definition is_true (v : json) : bool := match v with JBool b => b | _ => false end.
Definition is_text (s : string) (v : json) : bool :=
  match v with JString s' => String.eqb s' s | _ => false end.

Definition is_string (v : json) : bool := match v with JString _ => true | _ => false end.
Definition is_object (v : json) : bool := match v with JObject _ => true | _ => false end.
Definition is_array (v : json) : bool := match v with JArray _ => true | _ => false end.
Definition is_boolean (v : json) : bool := match v with JBool _ => true | _ => false end.
Definition is_number (v : json) : bool := match v with JNumber _ => true | _ => false end.
Definition is_null (v : json) : bool := match v with JNull => true | _ => false end.

(** [is_i64() || is_u64()]: a number with no fractional representation. *)
Definition is_integer (v : json) : bool :=
  match v with JNumber (PosInt _) | JNumber (NegInt _) => true | _ => false end.

(** One token of a JSON pointer: an index has no sign and no leading zero. *)
Definition parse_index (s : string) : option Z :=
  if String.prefix "+" s || (String.prefix "0" s && negb (slen s =? 1)) then None
  else parse_usize s.

Definition pointer_step (v : json) (token : string) : option json :=
  match v with
  | JObject o => obj_get token o
  | JArray l => i ← parse_index token;
                if i <? Z.of_nat (length l) then l !! Z.to_nat i else None
  | _ => None
  end.

(** [Value::pointer], with its tokens already split and unescaped. *)
Fixpoint pointer (tokens : list string) (v : json) : option json :=
  match tokens with
  | [] => Some v
  | t :: tokens => v ← pointer_step v t; pointer tokens v
  end.

(** The tokens of a pointer string: empty, or segments after a slash with [~1] and [~0]
    standing for [/] and [~]. *)
Definition pointer_tokens (p : string) : option (list string) :=
  match p with
  | EmptyString => Some []
  | String "/" rest =>
      Some (map (fun t => replace "~0" "~" (replace "~1" "/" t)) (split_on "/" rest))
  | _ => None
  end.

Definition json_pointer (p : string) (v : json) : option json :=
  tokens ← pointer_tokens p; pointer tokens v.

(** [Value]'s [PartialEq]; floats compare as IEEE numbers. *)
Definition number_eqb (a b : number) : bool :=
  match a, b with
  | PosInt x, PosInt y | NegInt x, NegInt y => x =? y
  | Float x, Float y => SFeqb x y
  | _, _ => false
  end.

Fixpoint json_eqb (a b : json) : bool :=
  match a, b with
  | JNull, JNull => true
  | JBool x, JBool y => Bool.eqb x y
  | JNumber x, JNumber y => number_eqb x y
  | JString x, JString y => String.eqb x y
  | JArray l, JArray k =>
      (fix go (l k : list json) : bool :=
         match l, k with
         | [], [] => true
         | x :: l, y :: k => json_eqb x y && go l k
         | _, _ => false
         end) l k
  | JObject o, JObject p =>
      (fix go (o p : list (string * json)) : bool :=
         match o, p with
         | [], [] => true
         | (i, x) :: o, (j, y) :: p => String.eqb i j && json_eqb x y && go o p
         | _, _ => false
         end) o p
  | _, _ => false
  end.

(** ** Map laws *)

Implicit Types o : list (string * json).

Lemma string_compare_refl s : String.compare s s = Eq.
Proof.
  pose proof (String.compare_antisym s s) as H. by destruct (String.compare s s).
Qed.

Lemma obj_get_insert_eq k v o : obj_get k (obj_insert k v o) = Some v.
Proof.
  induction o as [|[k' v'] o IH]; simpl; [by rewrite String.eqb_refl|].
  destruct (String.compare k k') eqn:E; simpl; rewrite ?String.eqb_refl; [done..|].
  destruct (String.eqb_spec k k') as [->|]; [|done].
  by rewrite string_compare_refl in E.
Qed.

Lemma obj_get_insert_ne k k' v o : k <> k' -> obj_get k' (obj_insert k v o) = obj_get k' o.
Proof.
  intros Hne. induction o as [|[j w] o IH]; simpl.
  - by destruct (String.eqb_spec k' k).
  - destruct (String.compare k j) eqn:E; simpl.
    + apply String.compare_eq_iff in E as ->. by destruct (String.eqb_spec k' j); [congruence|].
    + by destruct (String.eqb_spec k' k).
    + by destruct (String.eqb_spec k' j).
Qed.

Lemma get_obj k l : get k (obj l) = obj_get k l.
Proof.
  cbn. induction l as [|[k' v] l IH]; [done|]. cbn. destruct (String.eqb_spec k k') as [->|Hne].
  - by rewrite obj_get_insert_eq.
  - by rewrite obj_get_insert_ne.
Qed.

Lemma obj_get_app {V} k (l l' : list (string * V)) :
  obj_get k (l ++ l') = match obj_get k l with Some v => Some v | None => obj_get k l' end.
Proof. induction l as [|[k' v] l IH]; [done|]. cbn. by destruct (String.eqb k k'). Qed.

Lemma get_put_eq k v w : is_object w = true -> get k (put k v w) = Some v.
Proof. destruct w; cbn; try done. by rewrite obj_get_insert_eq. Qed.

Lemma get_put_ne k k' v w : k <> k' -> get k' (put k v w) = get k' w.
Proof. destruct w; cbn; try done. intros H. by rewrite obj_get_insert_ne. Qed.

Lemma put_object k v w : is_object (put k v w) = is_object w.
Proof. by destruct w. Qed.

Lemma obj_get_remove_eq k o : obj_get k (obj_remove k o) = None.
Proof.
  induction o as [|[j w] o IH]; simpl; [done|].
  destruct (String.eqb k j) eqn:E; simpl; [done|]. by rewrite E.
Qed.

Lemma obj_get_remove_ne k k' o : k <> k' -> obj_get k' (obj_remove k o) = obj_get k' o.
Proof.
  intros Hne. induction o as [|[j w] o IH]; simpl; [done|].
  destruct (String.eqb_spec k j) as [->|]; simpl.
  - by destruct (String.eqb_spec k' j); [congruence|].
  - by rewrite IH.
Qed.

Lemma obj_get_In k v o : obj_get k o = Some v -> In (k, v) o.
Proof.
  induction o as [|[j w] o IH]; simpl; [done|].
  destruct (String.eqb_spec k j) as [->|]; [intros [= ->]; by left|by right; auto].
Qed.

Lemma obj_get_update_ne k k' f o : k <> k' -> obj_get k' (obj_update k f o) = obj_get k' o.
Proof.
  intros Hne. induction o as [|[j w] o IH]; simpl; [done|].
  destruct (String.eqb_spec k j) as [->|]; simpl.
  - by destruct (String.eqb_spec k' j); [congruence|].
  - by rewrite IH.
Qed.

Lemma obj_get_update_eq k f o : obj_get k (obj_update k f o) = f <$> obj_get k o.
Proof.
  induction o as [|[j w] o IH]; simpl; [done|].
  destruct (String.eqb k j) eqn:E; simpl; by rewrite E.
Qed.

Create HintDb json.
Create Rewrite HintDb json.
#[export] Hint Rewrite obj_get_insert_eq obj_get_remove_eq : json.
#[export] Hint Resolve obj_get_insert_ne obj_get_remove_ne obj_get_update_ne obj_get_In : json.

(** ** An injective code

    Witnesses use it for a digest without collisions. *)

Definition number_code (n : number) : string :=
  match n with
  | PosInt z => String "p" (bits_encode z)
  | NegInt z => String "n" (bits_encode z)
  | Float f => String "f" (bits_encode
      match f with
      | S754_zero s => (0%nat, s, 1%positive, 0)
      | S754_infinity s => (1%nat, s, 1%positive, 0)
      | S754_nan => (2%nat, true, 1%positive, 0)
      | S754_finite s m e => (3%nat, s, m, e)
      end)
  end.

Fixpoint json_tree (v : json) : gen_tree string :=
  match v with
  | JNull => GenNode 0 []
  | JBool b => GenLeaf (if b then "t" else "f")
  | JNumber n => GenNode 2 [GenLeaf (number_code n)]
  | JString s => GenNode 3 [GenLeaf s]
  | JArray l => GenNode 4 (map json_tree l)
  | JObject o => GenNode 5 (map (fun kv => GenNode 6 [GenLeaf kv.1; json_tree kv.2]) o)
  end.

Definition json_code (v : json) : string := bits_encode (json_tree v).

Lemma bits_encode_inj `{Countable A} (x y : A) : bits_encode x = bits_encode y -> x = y.
Proof. intros E. pose proof (bits_decode_encode x) as H1. rewrite E, bits_decode_encode in H1. congruence. Qed.

Lemma number_code_inj m n : number_code m = number_code n -> m = n.
Proof.
  destruct m as [z|z|f], n as [z'|z'|f']; intros E; try discriminate E; injection E as E;
    apply bits_encode_inj in E; [congruence..|].
  f_equal. destruct f, f'; congruence.
Qed.

Lemma map_inj_forall {A B} (f : A -> B) (l l' : list A) :
  Forall (fun x => forall y, f x = f y -> x = y) l -> map f l = map f l' -> l = l'.
Proof.
  intros H. revert l'. induction H as [|x l Hx _ IH]; intros [|y l'] E; try done.
  injection E as E1 E2. by rewrite (Hx _ E1), (IH _ E2).
Qed.

Lemma json_tree_inj v w : json_tree v = json_tree w -> v = w.
Proof.
  revert w. induction v as [|b|n|s|l IH|o IH] using json_rec_strong; intros [|b'|n'|s'|l'|o'] E;
    try discriminate E; cbn [json_tree] in E.
  - done.
  - by destruct b, b'.
  - injection E as E. by rewrite (number_code_inj _ _ E).
  - by injection E as ->.
  - injection E as E. f_equal. by apply (map_inj_forall json_tree).
  - injection E as E. f_equal. eapply map_inj_forall; [|exact E]. eapply Forall_impl; [exact IH|].
    intros [k x] Hx [k' y] E'. injection E' as -> E'. cbn in *. by rewrite (Hx _ E').
Qed.

Lemma json_code_inj v w : json_code v = json_code w -> v = w.
Proof. intros E. by apply bits_encode_inj, json_tree_inj in E. Qed.
