(* ===== verification/SessionStore.v ===== *)
(** Session store (src/session_store.rs): a map keyed by session with a
    per-entry TTL and a hard cap, the store that shaped results live on.

    [Instant::now()] is the argument [now] of an operation (one clock reading
    per operation), [Instant::elapsed] saturates at zero.  The [HashMap] is a
    [gmap]; no operation depends on its iteration order, because insertion
    numbers are distinct ([wf]). *)

From S2P Require Import Prelude.

Module Store.

Record Entry (V : Type) := mk_entry {
  value : V;
  last_seen : Z;
  seq : Z
}.
Arguments mk_entry {V}.
Arguments value {V}.
Arguments last_seen {V}.
Arguments seq {V}.

Record SessionStore (V : Type) := mk_store {
  entries : gmap string (Entry V);
  ttl : Z;
  cap : Z;
  next_seq : Z
}.
Arguments mk_store {V}.
Arguments entries {V}.
Arguments ttl {V}.
Arguments cap {V}.
Arguments next_seq {V}.

Section ops.
Context {V : Type}.
Implicit Types st : SessionStore V.

Definition new (ttl cap : Z) : SessionStore V :=
  {| entries := ∅; ttl := ttl; cap := Z.max cap 1; next_seq := 0 |}.

Definition with_entries st (m : gmap string (Entry V)) : SessionStore V :=
  {| entries := m; ttl := ttl st; cap := cap st; next_seq := next_seq st |}.

Definition len st : Z := Z.of_nat (size (entries st)).

Definition is_empty st : bool := len st =? 0.

Definition elapsed (now : Z) (e : Entry V) : Z := Z.max 0 (now - last_seen e).

Definition is_expired (now : Z) st (key : string) : bool :=
  match entries st !! key with
  | Some e => ttl st <=? elapsed now e
  | None => false
  end.

Definition reap_expired (now : Z) st : Z * SessionStore V :=
  let before := len st in
  let st' := with_entries st
    (filter (fun kv => elapsed now kv.2 < ttl st) (entries st)) in
  (before - len st', st').

(** [min_by_key] on the insertion number; the first minimum wins. *)
Fixpoint min_by_seq (l : list (string * Entry V)) : option (string * Entry V) :=
  match l with
  | [] => None
  | x :: l =>
      match min_by_seq l with
      | None => Some x
      | Some y => if seq x.2 <=? seq y.2 then Some x else Some y
      end
  end.

Definition remove_oldest st : bool * SessionStore V :=
  match min_by_seq (map_to_list (entries st)) with
  | Some (key, _) => (true, with_entries st (delete key (entries st)))
  | None => (false, st)
  end.

(** [while self.entries.len() > self.cap { self.remove_oldest(); }] *)
Fixpoint evict_over_cap (fuel : nat) st : SessionStore V :=
  match fuel with
  | O => st
  | S fuel =>
      if cap st <? len st then evict_over_cap fuel (remove_oldest st).2 else st
  end.

Definition insert (now : Z) (key : string) (v : V) st : SessionStore V :=
  let st := (reap_expired now st).2 in
  let s := next_seq st in
  let st := {| entries := <[key := {| value := v; last_seen := now; seq := s |}]> (entries st);
               ttl := ttl st; cap := cap st; next_seq := wrap64 (s + 1) |} in
  evict_over_cap (size (entries st)) st.

Definition touch (now : Z) (key : string) (e : Entry V) (v : V) st : SessionStore V :=
  with_entries st (<[key := {| value := v; last_seen := now; seq := seq e |}]> (entries st)).

(** [with]: [f] gets the value and returns its new content with a result. *)
Definition with_value {R} (now : Z) (key : string) (f : V -> V * R) st
    : option R * SessionStore V :=
  if is_expired now st key then (None, with_entries st (delete key (entries st)))
  else match entries st !! key with
       | None => (None, st)
       | Some e => let (v, r) := f (value e) in (Some r, touch now key e v st)
       end.

(** [None] is the panic of [.expect("the entry exists after insertion")]. *)
Definition get_or_insert_with {R} (now : Z) (key : string) (make : V) (f : V -> V * R) st
    : option (R * SessionStore V) :=
  let st := if is_expired now st key
            then with_entries st (delete key (entries st)) else st in
  let st := match entries st !! key with
            | None => insert now key make st
            | Some _ => st
            end in
  match entries st !! key with
  | None => None
  | Some e => let (v, r) := f (value e) in Some (r, touch now key e v st)
  end.

Definition get (now : Z) (key : string) st : option V :=
  if is_expired now st key then None else value <$> entries st !! key.

Definition peek {R} (now : Z) (key : string) (f : V -> R) st : option R :=
  if is_expired now st key then None else (fun e => f (value e)) <$> entries st !! key.

Definition remove (key : string) st : option V * SessionStore V :=
  (value <$> entries st !! key, with_entries st (delete key (entries st))).

Definition clear st : SessionStore V := with_entries st ∅.

Definition remove_where (pred : string -> V -> bool) st : Z * SessionStore V :=
  let before := len st in
  let st' := with_entries st (filter (fun kv => pred kv.1 (value kv.2) = false) (entries st)) in
  (before - len st', st').

Definition weight (w : V -> Z) st : Z := msum (fun e => w (value e)) (entries st).

(** The contract: the finite map of unexpired values a client can observe. *)
Definition live (now : Z) st : gmap string V :=
  omap (fun e => if elapsed now e <? ttl st then Some (value e) else None) (entries st).

(** Well-formed: a positive cap, and insertion numbers below the counter and
    distinct.  [next_seq] has not wrapped: 2^64 insertions are out of reach. *)
Record wf st : Prop := {
  wf_cap : 1 <= cap st;
  wf_seq : forall k e, entries st !! k = Some e -> 0 <= seq e < next_seq st;
  wf_inj : forall k k' e e', entries st !! k = Some e -> entries st !! k' = Some e' ->
    seq e = seq e' -> k = k';
  wf_next : 0 <= next_seq st <= u64_max
}.

(** The mutating operations as steps, and the states a store can reach. *)
Inductive step : SessionStore V -> SessionStore V -> Prop :=
| step_insert now k v st : next_seq st < u64_max -> step st (insert now k v st)
| step_with R now k (f : V -> V * R) st : step st (with_value now k f st).2
| step_get_or_insert R now k v (f : V -> V * R) st r st' :
    next_seq st < u64_max ->
    get_or_insert_with now k v f st = Some (r, st') -> step st st'
| step_remove k st : step st (remove k st).2
| step_remove_where p st : step st (remove_where p st).2
| step_remove_oldest st : step st (remove_oldest st).2
| step_reap now st : step st (reap_expired now st).2
| step_clear st : step st (clear st).

Definition reachable (t c : Z) : SessionStore V -> Prop := rtc step (new t c).

End ops.

Section theory.
Context {V : Type}.
Implicit Types st : SessionStore V.
Implicit Types m : gmap string (Entry V).

(** ** Basic facts *)

Lemma min_by_seq_spec (l : list (string * Entry V)) :
  match min_by_seq l with
  | None => l = []
  | Some x => x ∈ l /\ forall y, y ∈ l -> seq x.2 <= seq y.2
  end.
Proof.
  induction l as [|x l IH]; simpl; [done|].
  destruct (min_by_seq l) as [y|].
  - destruct IH as [Hy Hmin].
    destruct (Z.leb_spec (seq x.2) (seq y.2)); (split; [by constructor|]);
      intros z [->|Hz]%elem_of_cons; try lia; specialize (Hmin z Hz); lia.
  - subst. split; [by constructor|]. intros y ->%list_elem_of_singleton. lia.
Qed.

Lemma remove_oldest_spec st :
  match remove_oldest st with
  | (true, st') => exists k e, entries st !! k = Some e /\
      st' = with_entries st (delete k (entries st)) /\
      forall k' e', entries st !! k' = Some e' -> seq e <= seq e'
  | (false, st') => st' = st /\ entries st = ∅
  end.
Proof.
  unfold remove_oldest. pose proof (min_by_seq_spec (map_to_list (entries st))) as H.
  destruct (min_by_seq _) as [[k e]|].
  - destruct H as [Hin Hmin]. exists k, e. rewrite elem_of_map_to_list in Hin.
    split_and!; [done..|]. intros k' e' He'. apply (Hmin (k', e')).
    by apply elem_of_map_to_list.
  - split; [done|]. by apply map_to_list_empty_iff.
Qed.

Lemma len_with_entries st m : len (with_entries st m) = Z.of_nat (size m).
Proof. done. Qed.

Lemma reap_expired_lookup now st k e :
  entries (reap_expired now st).2 !! k = Some e <->
  entries st !! k = Some e /\ elapsed now e < ttl st.
Proof. simpl. by rewrite map_lookup_filter_Some. Qed.

Lemma live_lookup now st k :
  live now st !! k =
  e ← entries st !! k; if elapsed now e <? ttl st then Some (value e) else None.
Proof. unfold live. by rewrite lookup_omap. Qed.

(** [get] is a lookup in the contract map: an expired value is never read. *)
Lemma get_live now key st : get now key st = live now st !! key.
Proof.
  rewrite live_lookup. unfold get, is_expired.
  destruct (entries st !! key) as [e|]; [simpl|done].
  destruct (Z.leb_spec (ttl st) (elapsed now e)), (Z.ltb_spec (elapsed now e) (ttl st)); lia || done.
Qed.

Lemma reap_expired_live now st : live now (reap_expired now st).2 = live now st.
Proof.
  apply map_eq. intros k. rewrite !live_lookup. simpl.
  rewrite map_lookup_filter. destruct (entries st !! k) as [e|]; [|done]. simpl.
  case_guard; simpl; [done|].
  destruct (Z.ltb_spec (elapsed now e) (ttl st)); [lia|done].
Qed.

(** ** Eviction *)

(** What eviction leaves: a submap, the numbers in order, and exactly as many
    entries as the cap allows. *)
Record evicted (st st' : SessionStore V) : Prop := {
  ev_sub : entries st' ⊆ entries st;
  ev_params : ttl st' = ttl st /\ cap st' = cap st /\ next_seq st' = next_seq st;
  ev_oldest : forall k e k' e', entries st !! k = Some e -> entries st' !! k = None ->
    entries st' !! k' = Some e' -> seq e <= seq e';
  ev_len : len st' = Z.min (len st) (cap st)
}.

Lemma evict_over_cap_spec fuel st :
  0 <= cap st -> len st <= cap st + Z.of_nat fuel -> evicted st (evict_over_cap fuel st).
Proof.
  revert st. induction fuel as [|fuel IH]; intros st Hcap Hlen; simpl.
  { split; [done|done|congruence|lia]. }
  destruct (Z.ltb_spec (cap st) (len st)) as [Hlt|Hge];
    [|split; [done|done|congruence|lia]].
  pose proof (remove_oldest_spec st) as Hro. destruct (remove_oldest st) as [[|] st1].
  2:{ destruct Hro as [_ He]. unfold len in Hlt. rewrite He, map_size_empty in Hlt. lia. }
  destruct Hro as (k & e & Hk & -> & Hmin). simpl.
  assert (Hl1 : len (with_entries st (delete k (entries st))) = len st - 1).
  { unfold len. simpl. rewrite map_size_delete_Some by eauto.
    assert (size (entries st) <> 0%nat); [|lia].
    intros He%map_size_empty_iff. by rewrite He, lookup_empty in Hk. }
  destruct (IH (with_entries st (delete k (entries st)))) as [Hsub Hpar Hold Hl];
    [done|simpl; lia|].
  split.
  - etrans; [exact Hsub|]. simpl. apply delete_subseteq.
  - done.
  - intros j ej j' e' Hj Hgone Hj'.
    destruct (decide (j = k)) as [->|Hne].
    + rewrite Hk in Hj. injection Hj as <-. apply (Hmin j').
      eapply lookup_weaken; [exact Hj'|]. etrans; [exact Hsub|apply delete_subseteq].
    + eapply (Hold j); [|done|done]. simpl. by rewrite lookup_delete_ne.
  - rewrite Hl, Hl1. simpl. lia.
Qed.

(** The store just before the eviction loop of [insert] runs. *)
Definition inserted (now : Z) (key : string) (v : V) st : SessionStore V :=
  {| entries := <[key := {| value := v; last_seen := now; seq := next_seq st |}]>
       (entries (reap_expired now st).2);
     ttl := ttl st; cap := cap st; next_seq := wrap64 (next_seq st + 1) |}.

Lemma insert_evicted now key v st :
  0 <= cap st -> evicted (inserted now key v st) (insert now key v st).
Proof.
  intros Hcap. apply evict_over_cap_spec; [done|]. unfold len, inserted. simpl. lia.
Qed.

Lemma inserted_lookup now key v st k e :
  entries (inserted now key v st) !! k = Some e ->
  k = key /\ e = {| value := v; last_seen := now; seq := next_seq st |} \/
  k <> key /\ entries st !! k = Some e /\ elapsed now e < ttl st.
Proof.
  simpl. intros [[-> <-]|[Hne Hk]]%lookup_insert_Some; [by left|right].
  apply map_lookup_filter_Some in Hk as [Hk Hlive]. auto.
Qed.

Lemma insert_keeps_new now key v st :
  wf st ->
  entries (insert now key v st) !! key =
  Some {| value := v; last_seen := now; seq := next_seq st |}.
Proof.
  intros [Hcap Hseq _ _]. pose proof (insert_evicted now key v st ltac:(lia)) as Hev.
  assert (Hnew : entries (inserted now key v st) !! key =
    Some {| value := v; last_seen := now; seq := next_seq st |})
    by (simpl; apply lookup_insert_eq).
  destruct (entries (insert now key v st) !! key) as [e|] eqn:He.
  - pose proof (lookup_weaken _ _ _ _ He (ev_sub _ _ Hev)) as Hsub. congruence.
  - exfalso. destruct (map_choose (entries (insert now key v st))) as (k' & e' & Hk').
    + intros Hemp. pose proof (ev_len _ _ Hev) as Hl. unfold len in Hl at 1.
      rewrite Hemp, map_size_empty in Hl.
      assert (1 <= len (inserted now key v st)); [|simpl in *; lia].
      unfold len. assert (size (entries (inserted now key v st)) <> 0%nat); [|lia].
      intros Hz%map_size_empty_iff. by rewrite Hz, lookup_empty in Hnew.
    + pose proof (ev_oldest _ _ Hev _ _ _ _ Hnew He Hk') as Hle. simpl in Hle.
      pose proof (lookup_weaken _ _ _ _ Hk' (ev_sub _ _ Hev)) as Hin.
      apply inserted_lookup in Hin as [[-> _]|(_ & Hin & _)]; [congruence|].
      specialize (Hseq _ _ Hin). lia.
Qed.

(** ** Well-formedness of every operation *)

(** Dropping entries keeps a store well-formed. *)
Lemma wf_sub st m : wf st -> m ⊆ entries st -> wf (with_entries st m).
Proof.
  intros [Hcap Hseq Hinj Hnext] Hsub. split; simpl; try done.
  - intros k e Hk. eapply Hseq, lookup_weaken; done.
  - intros k k' e e' Hk Hk'. eapply Hinj; eapply lookup_weaken; done.
Qed.

Lemma len_sub st m : m ⊆ entries st -> len (with_entries st m) <= len st.
Proof. intros Hsub. unfold len. simpl. pose proof (map_subseteq_size _ _ Hsub). lia. Qed.

Lemma wf_touch now key e v st :
  wf st -> entries st !! key = Some e -> wf (touch now key e v st).
Proof.
  intros [Hcap Hseq Hinj Hnext] Hk. split; simpl; try done.
  - intros j ej [[<- <-]|[_ Hj]]%lookup_insert_Some; simpl; eauto.
  - intros j j' ej ej' [[<- <-]|[_ Hj]]%lookup_insert_Some
      [[<- <-]|[_ Hj']]%lookup_insert_Some; simpl; eauto.
Qed.

Lemma len_touch now key e v st :
  entries st !! key = Some e -> len (touch now key e v st) = len st.
Proof. intros Hk. unfold len. simpl. by rewrite map_size_insert_Some by eauto. Qed.

Lemma wf_insert now key v st :
  wf st -> next_seq st < u64_max -> wf (insert now key v st).
Proof.
  intros [Hcap Hseq Hinj Hnext] Hmax.
  pose proof (insert_evicted now key v st ltac:(lia)) as [Hsub (Ht & Hc & Hn) _ _].
  assert (Hw : next_seq (insert now key v st) = next_seq st + 1).
  { rewrite Hn. simpl. apply wrap64_small. unfold u64. lia. }
  split.
  - by rewrite Hc.
  - intros k e Hk. rewrite Hw. apply (lookup_weaken _ _ _ _ Hk) in Hsub.
    apply inserted_lookup in Hsub as [[-> ->]|(_ & Hk' & _)]; simpl; [lia|].
    specialize (Hseq _ _ Hk'). lia.
  - intros k k' e e' Hk Hk' Heq.
    pose proof (lookup_weaken _ _ _ _ Hk Hsub) as H1.
    pose proof (lookup_weaken _ _ _ _ Hk' Hsub) as H2.
    apply inserted_lookup in H1 as [[-> ->]|(_ & H1 & _)];
      apply inserted_lookup in H2 as [[-> ->]|(_ & H2 & _)]; simpl in *.
    + done.
    + specialize (Hseq _ _ H2). lia.
    + specialize (Hseq _ _ H1). lia.
    + eauto.
  - rewrite Hw. lia.
Qed.

Lemma len_insert now key v st : 1 <= cap st -> len (insert now key v st) <= cap st.
Proof.
  intros Hcap. destruct (insert_evicted now key v st ltac:(lia)) as [_ _ _ Hl].
  rewrite Hl. simpl. lia.
Qed.

Lemma wf_with_value {R} now key (f : V -> V * R) st :
  wf st -> wf (with_value now key f st).2 /\ len (with_value now key f st).2 <= len st.
Proof.
  intros Hwf. unfold with_value.
  destruct (is_expired now st key).
  { split; [apply wf_sub|apply len_sub]; try done; apply delete_subseteq. }
  destruct (entries st !! key) as [e|] eqn:He; [|split; [done|simpl; lia]].
  destruct (f (value e)) as [v r]. simpl.
  split; [by eapply wf_touch|]. rewrite (len_touch _ _ _ _ _ He). lia.
Qed.

(** ** The contract of each operation *)

Lemma live_mono now st st' :
  entries st' ⊆ entries st -> ttl st' = ttl st -> live now st' ⊆ live now st.
Proof.
  intros Hsub Ht. apply map_subseteq_spec. intros k v. rewrite !live_lookup, Ht.
  intros (e & He & Hv)%bind_Some. apply bind_Some. exists e. split; [|done].
  by eapply lookup_weaken.
Qed.

(** Right after reaping and storing, everything stored is live. *)
Lemma inserted_live now key v st :
  0 < ttl st -> value <$> entries (inserted now key v st) = <[key := v]> (live now st) /\
  live now (inserted now key v st) = <[key := v]> (live now st).
Proof.
  intros Ht. split; apply map_eq; intros k; rewrite ?live_lookup, ?lookup_fmap; simpl.
  - rewrite !lookup_insert. case_decide; [done|].
    rewrite live_lookup, map_lookup_filter. destruct (entries st !! k) as [e|]; [|done]. simpl.
    case_guard; destruct (Z.ltb_spec (elapsed now e) (ttl st)); simpl; lia || done.
  - rewrite !lookup_insert. case_decide.
    + simpl. unfold elapsed. simpl. destruct (Z.ltb_spec (Z.max 0 (now - now)) (ttl st)); [done|lia].
    + rewrite <- (reap_expired_live now st), live_lookup. done.
Qed.

Lemma insert_below_cap now key v st :
  len st < cap st -> insert now key v st = inserted now key v st.
Proof.
  intros Hlen.
  change (insert now key v st) with
    (evict_over_cap (size (entries (inserted now key v st))) (inserted now key v st)).
  destruct (size (entries (inserted now key v st))) as [|n] eqn:E; [done|].
  cbn [evict_over_cap]. assert (len (inserted now key v st) <= len st + 1).
  { unfold len. simpl. rewrite map_size_insert.
    pose proof (map_subseteq_size _ _ (map_filter_subseteq
      (fun kv => elapsed now kv.2 < ttl st) (entries st))).
    unfold id. destruct (filter _ (entries st) !! key); lia. }
  destruct (Z.ltb_spec (cap (inserted now key v st)) (len (inserted now key v st))) as [Hlt|];
    [simpl in *; lia|done].
Qed.

(** The weight after an insertion that evicts nothing. *)
Lemma weight_inserted (w : V -> Z) now key v st :
  map_Forall (fun _ e => 0 <= w (value e)) (entries st) ->
  weight w (inserted now key v st) <= w v + weight w st.
Proof.
  intros Hw. unfold weight. simpl. rewrite msum_insert. simpl.
  assert (msum (fun e => w (value e)) (delete key (filter (fun kv => elapsed now kv.2 < ttl st)
    (entries st))) <= msum (fun e => w (value e)) (entries st)); [|lia].
  apply msum_mono; [|done]. etrans; [apply delete_subseteq|apply map_filter_subseteq].
Qed.

Lemma insert_fits now key v st :
  0 < ttl st -> Z.of_nat (size (<[key := v]> (live now st))) <= cap st ->
  insert now key v st = inserted now key v st.
Proof.
  intros Ht Hsz. destruct (inserted_live now key v st Ht) as [Hf _].
  rewrite <- Hf, map_size_fmap in Hsz. 
  change (insert now key v st) with
    (evict_over_cap (size (entries (inserted now key v st))) (inserted now key v st)).
  destruct (size (entries (inserted now key v st))) as [|n] eqn:E; [done|].
  cbn [evict_over_cap]. unfold len. rewrite E.
  destruct (Z.ltb_spec (cap (inserted now key v st)) (Z.of_nat (S n))) as [Hlt|]; [|done].
  simpl in Hlt. lia.
Qed.

(** C31. Insertion refines the contract: the inserted value is always stored
    (eviction never takes it), nothing else appears or changes, the cap holds,
    the old values all survive when the cap allows it, and a value that is
    evicted is older than every value that stays. *)
Theorem insert_refines now key v st :
  wf st -> next_seq st < u64_max -> 0 < ttl st ->
  let st' := insert now key v st in
  wf st' /\ len st' <= cap st /\
  live now st' !! key = Some v /\
  live now st' ⊆ <[key := v]> (live now st) /\
  (Z.of_nat (size (<[key := v]> (live now st))) <= cap st ->
     live now st' = <[key := v]> (live now st)) /\
  (forall k e k' e', k <> key -> entries st !! k = Some e -> elapsed now e < ttl st ->
     entries st' !! k = None -> entries st' !! k' = Some e' -> seq e <= seq e').
Proof.
  intros Hwf Hmax Ht st'. pose proof (wf_cap _ Hwf) as Hcap.
  destruct (insert_evicted now key v st ltac:(lia)) as [Hsub (Htt & _ & _) Hold _].
  fold st' in Hsub, Htt, Hold.
  pose proof (insert_keeps_new now key v st Hwf) as Hnew. fold st' in Hnew.
  destruct (inserted_live now key v st Ht) as [_ Hlive].
  split_and!.
  - by apply wf_insert.
  - by apply len_insert.
  - rewrite live_lookup, Hnew, Htt. simpl. unfold elapsed. simpl.
    destruct (Z.ltb_spec (Z.max 0 (now - now)) (ttl st)); [done|lia].
  - rewrite <- Hlive. by apply live_mono.
  - intros Hsz. subst st'. by rewrite insert_fits by done.
  - intros k e k' e' Hne Hk Hlv Hgone Hk'. eapply (Hold k); [|done|done].
    simpl. rewrite lookup_insert_ne by done. by apply map_lookup_filter_Some.
Qed.

Lemma get_or_insert_with_spec {R} now key make (f : V -> V * R) st :
  wf st -> next_seq st < u64_max -> len st <= cap st ->
  exists st', get_or_insert_with now key make f st =
    Some ((f (default make (live now st !! key))).2, st') /\
  wf st' /\ len st' <= cap st.
Proof.
  intros Hwf Hmax Hlen. unfold get_or_insert_with.
  set (st1 := if is_expired now st key then _ else st).
  assert (H1 : wf st1 /\ len st1 <= cap st /\ cap st1 = cap st /\ next_seq st1 = next_seq st /\
    value <$> entries st1 !! key = live now st !! key).
  { subst st1. rewrite <- get_live. unfold get. destruct (is_expired now st key).
    - split_and!; try done; simpl; [apply wf_sub; [done|apply delete_subseteq]| |].
      + etrans; [apply len_sub, delete_subseteq|done].
      + by rewrite lookup_delete_eq.
    - by split_and!. }
  destruct H1 as (Hwf1 & Hlen1 & Hcap1 & Hn1 & Hval).
  set (st2 := match entries st1 !! key with Some _ => st1 | None => _ end).
  assert (H2 : exists e, entries st2 !! key = Some e /\
    value e = default make (live now st !! key) /\ wf st2 /\ len st2 <= cap st).
  { subst st2. rewrite <- Hval. destruct (entries st1 !! key) as [e|] eqn:He; simpl.
    - exists e. by split_and!.
    - eexists. split_and!; [by apply insert_keeps_new|done|apply wf_insert; [done|lia]|].
      rewrite <- Hcap1. apply len_insert. by destruct Hwf1. }
  destruct H2 as (e & He & Hv & Hwf2 & Hlen2). rewrite He, <- Hv.
  destruct (f (value e)) as [v r]. simpl. eexists. split; [done|].
  split; [by eapply wf_touch|]. by rewrite (len_touch _ _ _ _ _ He).
Qed.

(** [get_or_insert_with] never reaches its [expect]: whatever the cap and
    the TTL (zero included) the entry is there after insertion, the callback
    sees the live value or the new one, and the store stays within its cap. *)
Theorem get_or_insert_with_total {R} now key make (f : V -> V * R) st :
  wf st -> next_seq st < u64_max -> len st <= cap st ->
  exists st', get_or_insert_with now key make f st =
    Some ((f (default make (live now st !! key))).2, st') /\
  wf st' /\ len st' <= cap st.
Proof. apply get_or_insert_with_spec. Qed.

(** [with] runs its callback exactly on the live value, stores what the
    callback leaves and restarts the TTL from [now]; an absent or expired key
    yields [None] and an expired entry is dropped for good. *)
Theorem with_value_refines {R} now key (f : V -> V * R) st t :
  now <= t -> 0 < ttl st ->
  let (r, st') := with_value now key f st in
  r = (fun v => (f v).2) <$> live now st !! key /\
  live t st' !! key =
    (v ← live now st !! key; if t - now <? ttl st then Some (f v).1 else None) /\
  (forall k, k <> key -> live t st' !! k = live t st !! k).
Proof.
  intros Ht Hpos. rewrite <- get_live. unfold with_value, get.
  destruct (is_expired now st key).
  { split_and!; [done| |]; [|intros k Hk]; rewrite !live_lookup; simpl.
    - by rewrite lookup_delete_eq.
    - by rewrite lookup_delete_ne. }
  destruct (entries st !! key) as [e|] eqn:He; simpl.
  - destruct (f (value e)) as [v r] eqn:Ef. simpl. split_and!; [done| |].
    + rewrite live_lookup. simpl. rewrite lookup_insert_eq. simpl.
      unfold elapsed. simpl. by replace (Z.max 0 (t - now)) with (t - now) by lia.
    + intros k Hk. rewrite !live_lookup. simpl. by rewrite lookup_insert_ne.
  - split_and!; try done. by rewrite live_lookup, He.
Qed.

(** An operation that only drops entries keeps the store's invariant. *)
Lemma inv_drop st m :
  wf st /\ len st <= cap st -> m ⊆ entries st ->
  wf (with_entries st m) /\ len (with_entries st m) <= cap (with_entries st m).
Proof.
  intros [Hwf Hlen] Hsub. split; [by apply wf_sub|].
  etrans; [by apply len_sub|done].
Qed.

Lemma remove_oldest_sub st :
  exists m, m ⊆ entries st /\ (remove_oldest st).2 = with_entries st m.
Proof.
  unfold remove_oldest. destruct (min_by_seq _) as [[k e]|].
  - eexists. split; [apply delete_subseteq|done].
  - exists (entries st). by destruct st.
Qed.

Lemma step_inv st st' :
  wf st /\ len st <= cap st -> step st st' ->
  (wf st' /\ len st' <= cap st') /\ cap st' = cap st.
Proof.
  intros Hinv Hstep. pose proof (wf_cap _ (proj1 Hinv)) as Hcap.
  destruct Hstep as [now k v st Hn|R now k f st|R now k v f st r st' Hn Hg|k st|p st|st|now st|st].
  - destruct Hinv as [Hwf Hlen].
    destruct (insert_evicted now k v st ltac:(lia)) as [_ (_ & Hc & _) _ _].
    simpl in Hc. rewrite Hc. split_and!; [by apply wf_insert|by apply len_insert|done].
  - destruct Hinv as [Hwf Hlen]. destruct (wf_with_value now k f st Hwf) as [Hw Hl].
    assert (cap (with_value now k f st).2 = cap st) as ->.
    { unfold with_value. destruct (is_expired now st k); [done|].
      destruct (entries st !! k); [|done]. by destruct (f _). }
    split_and!; [done|lia|done].
  - destruct Hinv as [Hwf Hlen].
    destruct (get_or_insert_with_spec now k v f st Hwf Hn Hlen) as (st2 & Hg2 & Hw & Hl).
    rewrite Hg in Hg2. injection Hg2 as _ ->.
    assert (Hc : cap st2 = cap st).
    { revert Hg. unfold get_or_insert_with.
      set (st1 := if is_expired now st k then _ else st).
      assert (Hc1 : cap st1 = cap st) by (subst st1; by destruct (is_expired now st k)).
      destruct (entries st1 !! k) as [e|] eqn:He.
      - rewrite He. destruct (f (value e)). intros [= _ <-]. done.
      - destruct (insert_evicted now k v st1 ltac:(lia)) as [_ (_ & Hc & _) _ _].
        destruct (entries (insert now k v st1) !! k) as [e|]; [|done].
        destruct (f (value e)). intros [= _ <-]. simpl in *. congruence. }
    rewrite Hc. done.
  - split; [apply inv_drop; [done|apply delete_subseteq]|done].
  - split; [apply inv_drop; [done|apply map_filter_subseteq]|done].
  - destruct (remove_oldest_sub st) as (m & Hm & ->). split; [by apply inv_drop|done].
  - split; [apply inv_drop; [done|apply map_filter_subseteq]|done].
  - split; [apply inv_drop; [done|apply map_empty_subseteq]|done].
Qed.

(** The invariant: in every state a store can reach through its operations
    the insertion numbers are distinct and below the counter, and the number of
    entries is at most the cap, which [new] clamps to at least one. *)
Theorem reachable_bounded t c st :
  reachable t c st -> wf st /\ len st <= cap st /\ cap st = Z.max c 1.
Proof.
  intros Hr. cut ((wf st /\ len st <= cap st) /\ cap st = Z.max c 1); [tauto|].
  unfold reachable in Hr. remember (new t c) as st0 eqn:E0.
  assert (H0 : (wf st0 /\ len st0 <= cap st0) /\ cap st0 = Z.max c 1).
  { subst st0. split; [|done]. split; [|unfold len; simpl; rewrite map_size_empty; lia].
    split; simpl; try (intros *; by rewrite lookup_empty); unfold u64_max; lia. }
  clear E0. induction Hr as [st|st1 st2 st3 Hs _ IH]; [done|].
  destruct H0 as [Hinv Hcap]. destruct (step_inv _ _ Hinv Hs) as [Hinv2 Hc2].
  apply IH. split; [done|congruence].
Qed.

End theory.
#[export] Hint Resolve wf_sub len_sub wf_touch wf_insert len_insert : toolport.
End Store.

(** ** Witnesses *)

Definition s_demo : Store.SessionStore Z := Store.insert 1 "a" 10 (Store.new 100 2).

Lemma s_demo_wf : Store.wf s_demo.
Proof.
  apply Store.wf_insert; [|vm_compute; reflexivity].
  split; simpl; try (intros *; by rewrite lookup_empty); unfold u64_max; lia.
Qed.

Lemma insert_refines_witness :
  Store.live 2 (Store.insert 2 "b" 20 s_demo) !! "b" = Some 20.
Proof.
  apply (Store.insert_refines 2 "b" 20 s_demo); [apply s_demo_wf|..]; vm_compute; reflexivity.
Defined.

Lemma get_or_insert_with_total_witness :
  exists st', Store.get_or_insert_with 2 "c" 5 (fun v => (v + 1, v)) s_demo = Some (5, st').
Proof.
  destruct (Store.get_or_insert_with_total 2 "c" 5 (fun v => (v + 1, v)) s_demo)
    as (st' & H & _); [apply s_demo_wf|vm_compute; reflexivity|vm_compute; discriminate|].
  exists st'. exact H.
Defined.

Lemma with_value_refines_witness :
  (Store.with_value 2 "a" (fun v => (v + 1, v)) s_demo).1 = Some 10.
Proof.
  pose proof (Store.with_value_refines 2 "a" (fun v => (v + 1, v)) s_demo 3) as H.
  exact (proj1 (H ltac:(lia) ltac:(vm_compute; reflexivity))).
Defined.

Lemma reachable_bounded_witness : Store.len s_demo <= 2.
Proof.
  destruct (Store.reachable_bounded 100 2 s_demo) as (_ & Hlen & Hcap);
    [apply rtc_once, Store.step_insert; vm_compute; reflexivity|].
  rewrite Hcap in Hlen. exact Hlen.
Defined.
