(* ===== verification/Integrity.v ===== *)
(** Integrity (src/integrity.rs): the provenance label every downstream result
    carries, and the label text that goes into Toolport's own sentences. *)

From S2P Require Import Prelude Text Json.

Module Integrity.

Definition WRAPPER_LABEL_MAX_CHARS : nat := 64.

Definition label_char (c : string) : bool :=
  char_is_alnum c || String.eqb c "_" || String.eqb c "-".

Definition sanitize_wrapper_label (raw : string) : string :=
  let out := concat_str
    (map (fun c => if label_char c then c else "_") (take WRAPPER_LABEL_MAX_CHARS (chars raw))) in
  if String.eqb out "" then "unknown" else out.

Definition provenance_of (server : string) : json :=
  JObject [("server", JString server); ("source", JString "downstream");
           ("trust", JString "untrusted")].

Definition PROVENANCE_KEY : string := "app.toolport/provenance".

(** The inner [fn mark]. *)
Definition mark (provenance : json) (value : json) : json :=
  match value with
  | JObject object =>
      let meta := match obj_get "_meta" object with Some (JObject m) => m | _ => [] end in
      JObject (obj_insert "_meta" (JObject (obj_insert PROVENANCE_KEY provenance meta)) object)
  | _ => value
  end.

Definition mark_block (provenance : json) (block : json) : json :=
  update "resource" (mark provenance) (mark provenance block).

Definition mark_message (provenance : json) (message : json) : json :=
  update "content" (fun content =>
    match content with
    | JArray blocks => JArray (map (mark provenance) blocks)
    | _ => mark provenance content
    end) message.

Definition label_untrusted_result (server : string) (result : json) : json :=
  let provenance := provenance_of (sanitize_wrapper_label server) in
  let result := mark provenance result in
  let result := update "content" (for_each (mark_block provenance)) result in
  let result := update "contents" (for_each (mark_block provenance)) result in
  update "messages" (for_each (mark_message provenance)) result.

(** ** What the label touches *)

Definition label_keys : list string := ["_meta"; "content"; "contents"; "messages"].

Lemma get_update_ne k k' f v : k <> k' -> get k' (update k f v) = get k' v.
Proof. destruct v; simpl; auto with json. Qed.

Lemma get_mark_ne p k v : k <> "_meta" -> get k (mark p v) = get k v.
Proof. destruct v; simpl; auto with json. Qed.

(** Labelling leaves every field but the labelled ones alone. *)
Lemma get_label_ne server k v :
  ~ In k label_keys -> get k (label_untrusted_result server v) = get k v.
Proof.
  unfold label_keys. simpl. intros Hk. unfold label_untrusted_result.
  rewrite !get_update_ne by intuition congruence. apply get_mark_ne. intuition congruence.
Qed.

(** ** The label cannot break out of its slot *)

Lemma label_char_bytes c : label_char c = true ->
  all_bytes (fun b => is_alnum b || Stdlib.Strings.Ascii.eqb b "_"
                      || Stdlib.Strings.Ascii.eqb b "-") c = true /\ slen c = 1.
Proof.
  unfold label_char, char_is_alnum, one_byte. intros H.
  destruct (String.eqb_spec c "_") as [E1|E1]; [subst c; by vm_compute|].
  destruct (String.eqb_spec c "-") as [E2|E2]; [subst c; by vm_compute|].
  destruct c as [|b [|]]; simpl in *; try done.
  rewrite !orb_false_r in H. by rewrite H.
Qed.

(** A server label keeps at most 64 characters, is never empty, and holds
    only ASCII letters, digits, [_] and [-]: no quote, bracket, newline or
    control character of a hostile name can close the slot it is printed in. *)
Theorem sanitize_wrapper_label_safe raw :
  let out := sanitize_wrapper_label raw in
  all_bytes (fun b => is_alnum b || Stdlib.Strings.Ascii.eqb b "_"
                      || Stdlib.Strings.Ascii.eqb b "-") out = true /\
  0 < slen out <= 64.
Proof.
  unfold sanitize_wrapper_label.
  set (cs := take WRAPPER_LABEL_MAX_CHARS (chars raw)).
  assert (Hlen : (length cs <= 64)%nat) by (subst cs; rewrite length_take; unfold WRAPPER_LABEL_MAX_CHARS; lia).
  assert (H : forall cs : list string,
    let out := concat_str (map (fun c => if label_char c then c else "_") cs) in
    all_bytes (fun b => is_alnum b || Stdlib.Strings.Ascii.eqb b "_"
                      || Stdlib.Strings.Ascii.eqb b "-") out = true /\
    slen out = Z.of_nat (length cs)).
  { clear. induction cs as [|c cs [IH1 IH2]]; [done|].
    cbn [map concat_str foldr length] in *. rewrite all_bytes_app, slen_app.
    fold (concat_str (map (fun c => if label_char c then c else "_") cs)).
    rewrite IH1, IH2. destruct (label_char c) eqn:E.
    - apply label_char_bytes in E as [-> ->]. split; [done|lia].
    - change (slen "_") with 1. split; [done|lia]. }
  destruct (H cs) as [H1 H2]. simpl.
  destruct (String.eqb_spec (concat_str (map (fun c => if label_char c then c else "_") cs)) "")
    as [E|E].
  - vm_compute. by split; [|split].
  - split; [done|]. rewrite H2. split; [|lia].
    assert (slen (concat_str (map (fun c => if label_char c then c else "_") cs)) <> 0);
      [|lia]. intros Hz%slen_zero. done.
Qed.

End Integrity.
