(* ===== verification/Shaping.v ===== *)
(** Result shaping (src/shaping.rs): oversized tool results are cut to a byte
    budget, their full bodies stay in a bounded, owner-scoped cache and are read
    back in pages.

    serde_json's printer and parser, the process environment and the allocator's
    capacities are parameters.  The process globals ([cache], the cursor counter,
    [TRIM_PENDING]) are the fields of [state]; the calls of one operation run
    under the cache mutex and are modelled as one step. *)

From Stdlib Require Import SpecFloat.
From S2P Require Import Prelude Text Json SessionStore Integrity.

Module Shaping.

Definition DEFAULT_BUDGET_BYTES : Z := 48 * 1024.
Definition CACHE_TTL : Z := 15 * 60 * 1000.
Definition MAX_CACHE_ENTRIES : Z := 64.
Definition MAX_CACHE_BYTES : Z := 64 * 1024 * 1024.
Definition TRIM_BYTES : Z := 1024 * 1024.

Definition resolve_budget (value : option string) : Z * option string :=
  match value with
  | Some v =>
      match parse_usize (trim v) with
      | Some n => (n, None)
      | None =>
          (DEFAULT_BUDGET_BYTES,
           Some ("toolport: invalid TOOLPORT_RESULT_BUDGET/CONDUIT_RESULT_BUDGET value '" +:+ v
                 +:+ "', falling back to default budget"))
      end
  | None => (DEFAULT_BUDGET_BYTES, None)
  end.

Record Cached := mk_cached {
  server : option string;
  body : string;
  structured : option json;
  projections_unavailable : bool;
  csize : Z;
  owner : option string
}.

Record state := mk_state {
  cache : Store.SessionStore Cached;
  cursor_counter : Z;
  trim_pending : bool
}.

Definition init : state :=
  {| cache := Store.new CACHE_TTL MAX_CACHE_ENTRIES; cursor_counter := 1; trim_pending := false |}.

Definition with_cache (st : state) (c : Store.SessionStore Cached) : state :=
  {| cache := c; cursor_counter := cursor_counter st; trim_pending := trim_pending st |}.

Definition next_cursor (st : state) : string * state :=
  ("r" +:+ pretty (cursor_counter st),
   {| cache := cache st; cursor_counter := wrap64 (cursor_counter st + 1);
      trim_pending := trim_pending st |}).

Definition sweep (now : Z) (st : state) : state :=
  let before := Store.weight csize (cache st) in
  let (reaped, store) := Store.reap_expired now (cache st) in
  {| cache := store; cursor_counter := cursor_counter st;
     trim_pending := trim_pending st || (0 <? reaped) && (TRIM_BYTES <=? before) |}.

(** Returns whether the allocator is trimmed. *)
Definition maintain_cache (now : Z) (idle_transition : bool) (st : state) : bool * state :=
  let st := sweep now st in
  (trim_pending st || idle_transition,
   {| cache := cache st; cursor_counter := cursor_counter st; trim_pending := false |}).

Definition allocation_size (capacity : Z) : Z :=
  if capacity =? 0 then 0 else sat_add capacity 15 / 16 * 16 + 16.

Fixpoint evict_to_fit (fuel : nat) (new_entry_size : Z) (st : state) : state :=
  match fuel with
  | O => st
  | S fuel =>
      if negb (Store.is_empty (cache st)) &&
         ((MAX_CACHE_ENTRIES <=? Store.len (cache st)) ||
          (MAX_CACHE_BYTES <? Store.weight csize (cache st) + new_entry_size))
      then
        let (removed, store) := Store.remove_oldest (cache st) in
        if removed then
          evict_to_fit fuel new_entry_size
            {| cache := store; cursor_counter := cursor_counter st; trim_pending := true |}
        else with_cache st store
      else st
  end.

(** ** Text of results *)

Definition join_text (out t : string) : string :=
  (if String.eqb out "" then out else out +:+ bytes_str [10%N]) +:+ t.

Definition text_result (text : string) (is_error : bool) : json :=
  JObject [("content", JArray [JObject [("text", JString text); ("type", JString "text")]]);
           ("isError", JBool is_error)].

(** [array.get(index)] *)
Definition array_get (l : list json) (index : Z) : option json :=
  if index <? Z.of_nat (length l) then l !! Z.to_nat index else None.

Fixpoint project_segments (current : json) (segments : list string) : option json :=
  match segments with
  | [] => Some current
  | segment :: rest =>
      next ← match current with
             | JObject object => obj_get segment object
             | JArray array => index ← parse_usize segment; array_get array index
             | _ => None
             end;
      project_segments next rest
  end.

Definition project (value : json) (path : string) : option json :=
  project_segments value (split_on "."%char path).

(** The scan of [head_within_bytes]: the end of the last character that fits. *)
Fixpoint head_end (max_bytes : Z) (l : list (Z * string)) (end_ : Z) : Z :=
  match l with
  | [] => end_
  | (i, ch) :: l =>
      let next := i + slen ch in
      if max_bytes <? next then end_ else head_end max_bytes l next
  end.

(** [None] is a slice that would panic. *)
Definition head_within_bytes (s : string) (max_bytes : Z) : option string :=
  if slen s <=? max_bytes then Some s
  else str_slice s 0 (head_end max_bytes (char_indices s) 0).

Definition is_text_representable (result : json) : bool :=
  match c ← get "content" result; as_array c with
  | Some blocks =>
      forallb (fun b => match t ← get "text" b; as_str t with Some _ => true | None => false end)
        blocks
  | None => true
  end.

Definition provenance_server (result : json) : option string :=
  m ← get "_meta" result; p ← get Integrity.PROVENANCE_KEY m; s ← get "server" p; as_str s.

Definition shaped_key (key : string) : bool :=
  String.eqb key "content" || String.eqb key "structuredContent" || String.eqb key "isError".

(** [{:.1}] of [n as f64 / 1_000_000.0]: IEEE division, then the exact value
    rounded to one decimal, ties to even. *)
Definition f64_of (n : Z) : spec_float := binary_normalize 53 1024 n 0 false.

Definition round_half_even (num den : Z) : Z :=
  let q := num / den in
  let r := 2 * (num mod den) in
  if (den <? r) || ((r =? den) && Z.odd q) then q + 1 else q.

Definition tenths (f : spec_float) : Z :=
  match f with
  | S754_finite false m e =>
      if 0 <=? e then 10 * (Z.pos m * 2 ^ e) else round_half_even (10 * Z.pos m) (2 ^ (- e))
  | _ => 0
  end.

Definition megabytes (body_bytes : Z) : string :=
  let t := tenths (SFdiv 53 1024 (f64_of body_bytes) (f64_of 1000000)) in
  pretty (t / 10) +:+ "." +:+ pretty (t mod 10).

Definition newlines : string := bytes_str [10%N; 10%N].
Definition quote : string := bytes_str [34%N].

Definition not_retained_notice (body_bytes : Z) : string :=
  newlines +:+ "[Toolport: full result (" +:+ megabytes body_bytes +:+
  " MB) was too large to keep for paging. Re-run the tool with narrower arguments.]".

Definition shaped_marker (size budget head_chars total : Z) (cursor : string) : string :=
  newlines +:+ "[Toolport shaped this result: ~" +:+ pretty (size / 1024) +:+ " KB exceeds " +:+
  pretty (budget / 1024) +:+ " KB budget. Showing first " +:+ pretty head_chars +:+ " of " +:+
  pretty total +:+ " characters. Continue with toolport_fetch_result {" +:+ quote +:+ "cursor" +:+
  quote +:+ ":" +:+ quote +:+ cursor +:+ quote +:+ "," +:+ quote +:+ "offset" +:+ quote +:+ ":" +:+
  pretty head_chars +:+ "}. If the cursor expired, re-run the original tool call.]".

Section ops.
(** [serde_json::to_string] and [from_str] on [Value]. *)
Variable to_string : json -> option string.
Variable from_str : string -> option json.
(** [String::capacity], [Vec::capacity] and the target's type sizes. *)
Variable str_capacity : string -> Z.
Variable vec_capacity : list json -> Z.
Variables size_of_Value size_of_String size_of_usize size_of_Cached : Z.
(** [brand::env_var] for the budget. *)
Variable env_var : option string.

Definition budget : Z * option string := resolve_budget env_var.

Definition node_bytes : Z := 11 * (size_of_String + size_of_Value) + 16 + 12 * size_of_usize.

Fixpoint value_heap_size (value : json) : Z :=
  match value with
  | JString s => allocation_size (str_capacity s)
  | JArray a =>
      allocation_size (vec_capacity a * size_of_Value) + Zsum (map value_heap_size a)
  | JObject o =>
      let len := Z.of_nat (length o) in
      let nodes := if len <? 11 then (if len =? 0 then 0 else 1) else (len - 1) / 5 + 1 in
      nodes * allocation_size node_bytes +
      Zsum (map (fun kv => allocation_size (str_capacity kv.1) + value_heap_size kv.2) o)
  | _ => 0
  end.

Definition retained_size (body : string) (structured : option json) : Z :=
  size_of_Cached + allocation_size (str_capacity body) +
  match structured with Some v => value_heap_size v | None => 0 end.

Definition retain_in (now : Z) (cursor : string) (entry : Cached) (st : state) : bool * state :=
  let entry :=
    if (MAX_CACHE_BYTES <? csize entry) &&
       match structured entry with Some _ => true | None => false end
    then {| server := server entry; body := body entry; structured := None;
            projections_unavailable := true;
            csize := retained_size (body entry) None; owner := owner entry |}
    else entry in
  if MAX_CACHE_BYTES <? csize entry then (false, st)
  else
    let st := sweep now st in
    let st := evict_to_fit (size (Store.entries (cache st))) (csize entry) st in
    (true, with_cache st (Store.insert now cursor entry (cache st))).

Definition retain (now : Z) (cursor : string) (entry : Cached) (st : state) : bool * state :=
  let size := csize entry in
  let (retained, st) := retain_in now cursor entry st in
  (retained,
   {| cache := cache st; cursor_counter := cursor_counter st;
      trim_pending := trim_pending st || (TRIM_BYTES <=? size) |}).

Definition text_size (value : json) : Z :=
  match to_string value with Some s => slen s | None => 0 end.

Definition value_size : json -> Z := text_size.

Definition is_some_str (o : option string) (s : string) : bool :=
  match o with Some t => String.eqb t s | None => false end.

Definition extract_body (result : json) : string * Z :=
  let out :=
    match c ← get "content" result; as_array c with
    | Some blocks =>
        foldl (fun out b => match t ← get "text" b; as_str t with
                            | Some t => join_text out t
                            | None => out
                            end) "" blocks
    | None => ""
    end in
  match get "structuredContent" result with
  | None => (out, slen out)
  | Some sc =>
      let structured_text := default "" (to_string sc) in
      let source_bytes := slen out + slen structured_text + (if String.eqb out "" then 0 else 1) in
      let single_text :=
        match c ← get "content" result; as_array c with
        | Some [b] => is_some_str (t ← get "type" b; as_str t) "text"
        | _ => false
        end in
      let duplicate :=
        single_text &&
        (String.eqb out structured_text ||
         match from_str out with Some text => json_eqb text sc | None => false end) in
      (if duplicate then out else join_text out structured_text, source_bytes)
  end.

(** Bytes of the envelope fields a shaped result carries over. *)
Definition preserved_bytes_of (result : json) : Z :=
  match as_object result with
  | Some obj =>
      Zsum (map (fun kv => slen kv.1 + value_size kv.2 + 4)
        (List.filter (fun kv => negb (shaped_key kv.1)) obj))
  | None => 0
  end.

(** [for (key, value) in src { dst.insert(key.clone(), value.clone()) }] *)
Definition carry_envelope (src dst : list (string * json)) : list (string * json) :=
  foldl (fun dst kv => if shaped_key kv.1 then dst else obj_insert kv.1 kv.2 dst) dst src.

(** The closure [build]. *)
Definition build_shaped (result : json) (server : option string) (is_error retained : bool)
    (size budget total body_bytes : Z) (cursor head : string) : json :=
  let head_chars := Z.of_nat (length (chars head)) in
  let marker := if retained then shaped_marker size budget head_chars total cursor
                else not_retained_notice body_bytes in
  let shaped := text_result (head +:+ marker) is_error in
  let shaped := match result, shaped with
                | JObject src, JObject dst => JObject (carry_envelope src dst)
                | _, _ => shaped
                end in
  match server with
  | Some server => Integrity.label_untrusted_result server shaped
  | None => shaped
  end.

(** The loop that shrinks the head until the measured result fits. *)
Fixpoint shrink (n : nat) (build : string -> json) (budget min_head limit : Z)
    (head : string) (shaped : json) : option json :=
  match n with
  | O => Some shaped
  | S n =>
      let shaped_size := text_size shaped in
      if (shaped_size <=? budget) || String.eqb head "" then Some shaped
      else
        let overage := shaped_size - budget in
        let limit := Z.max (sat_sub limit (Z.max overage 1)) min_head in
        head' ← head_within_bytes head limit;
        shrink n build budget min_head limit head' (build head')
  end.

(** Returns whether the result was shaped, with the result and the new state;
    [None] is a slice panic. *)
Definition shape_result_preserving_prefix (now : Z) (result : json) (budget : Z)
    (own : option string) (min_head_bytes : Z) (st : state) : option (bool * json * state) :=
  if budget =? 0 then Some (false, result, st)
  else
  let server := provenance_server result in
  let size := text_size result in
  if size <=? budget then Some (false, result, st)
  else
  let (body, source_bytes) := extract_body result in
  if negb (is_text_representable result) || (source_bytes <? size / 2)
  then Some (false, result, st)
  else
  let structured := get "structuredContent" result in
  let total := Z.of_nat (length (chars body)) in
  let preserved_bytes := preserved_bytes_of result in
  if budget <=? preserved_bytes then Some (false, result, st)
  else
  let min_head_bytes := Z.min min_head_bytes (slen body) in
  let limit := Z.max (sat_sub budget (512 + preserved_bytes)) min_head_bytes in
  head ← head_within_bytes body limit;
  let is_error := default false (v ← get "isError" result; as_bool v) in
  let (cursor, st) := next_cursor st in
  let (retained, st) :=
    retain now cursor
      {| server := server; body := body; structured := structured;
         projections_unavailable := false; csize := retained_size body structured;
         owner := own |} st in
  let build := build_shaped result server is_error retained size budget total (slen body) cursor in
  shaped ← shrink 4 build budget min_head_bytes limit head (build head);
  if budget <? text_size shaped
  then Some (false, result, with_cache st (Store.remove cursor (cache st)).2)
  else Some (true, shaped,
    {| cache := cache st; cursor_counter := cursor_counter st;
       trim_pending := trim_pending st || (TRIM_BYTES <=? size) |}).

Definition shape_result (now : Z) (result : json) (budget : Z) (own : option string) (st : state) :=
  shape_result_preserving_prefix now result budget own 0 st.

Definition stash_payload (now : Z) (body : string) (structured : option json)
    (own : option string) (st : state) : option string * state :=
  let (cursor, st) := next_cursor st in
  let (retained, st) :=
    retain now cursor
      {| server := None; body := body; structured := structured;
         projections_unavailable := false; csize := retained_size body structured;
         owner := own |} st in
  (if retained then Some cursor else None, st).

(** ** Reading pages back *)

(** One pass over the characters that maps \[offset, end) to byte offsets. *)
Fixpoint locate (l : list (Z * string)) (char_idx offset end_ start_byte end_byte : Z) : Z * Z :=
  match l with
  | [] => (start_byte, end_byte)
  | (byte_idx, _) :: l =>
      let start_byte := if char_idx =? offset then byte_idx else start_byte in
      if char_idx =? end_ then (start_byte, byte_idx)
      else locate l (char_idx + 1) offset end_ start_byte end_byte
  end.

Definition page_end (total offset len : Z) : Z := Z.min (sat_add offset len) total.

Definition page_slice (body : string) (offset end_ : Z) : option string :=
  let (start_byte, end_byte) := locate (char_indices body) 0 offset end_ (slen body) (slen body) in
  str_slice body start_byte end_byte.

Definition unknown_cursor (cursor : string) : json :=
  text_result ("[Toolport: cursor " +:+ quote +:+ cursor +:+ quote +:+
    " is unknown or expired. Re-run the original tool call to get a fresh result.]") true.

Definition page_footer (offset end_ total : Z) : string :=
  let remaining := total - end_ in
  if 0 <? remaining then
    newlines +:+ "[Toolport: characters " +:+ pretty offset +:+ ".." +:+ pretty end_ +:+ " of " +:+
    pretty total +:+ ". " +:+ pretty remaining +:+ " remain, call toolport_fetch_result with offset="
    +:+ pretty end_ +:+ " for the next slice.]"
  else newlines +:+ "[Toolport: end of result (" +:+ pretty total +:+ " characters).]".

Definition labelled (server : option string) (result : json) : json :=
  match server with
  | Some server => Integrity.label_untrusted_result server result
  | None => result
  end.

Definition fetch_projection (c : Cached) (path : string) : json :=
  match structured c with
  | None =>
      text_result
        (if projections_unavailable c
         then "[Toolport: projections aren't available for this very large result. Page the text or narrow the call.]"
         else "[Toolport: this cached result has no structuredContent.]") true
  | Some structured =>
      match project structured path with
      | None => text_result ("[Toolport: projection " +:+ quote +:+ path +:+ quote +:+ " not found.]") true
      | Some value => labelled (server c) (text_result (default "" (to_string value)) false)
      end
  end.

Definition fetch_page (c : Cached) (offset len : Z) : option json :=
  let total := Z.of_nat (length (chars (body c))) in
  if total <=? offset then
    Some (text_result ("[Toolport: offset " +:+ pretty offset +:+
      " is at or past the end of the result (" +:+ pretty total +:+
      " characters). Nothing more to read.]") false)
  else
    let len := if len =? 0 then fst budget else len in
    let end_ := page_end total offset len in
    slice ← page_slice (body c) offset end_;
    Some (labelled (server c) (text_result (slice +:+ page_footer offset end_ total) false)).

Definition fetch_result (now : Z) (cursor : string) (offset len : Z) (requester : option string)
    (projection : option string) (st : state) : option (json * state) :=
  let st := sweep now st in
  match Store.get now cursor (cache st) with
  | Some c =>
      if bool_decide (owner c = requester) then
        match projection with
        | Some path => Some (fetch_projection c path, st)
        | None => result ← fetch_page c offset len; Some (result, st)
        end
      else Some (unknown_cursor cursor, st)
  | None => Some (unknown_cursor cursor, st)
  end.

(** ** Cutting at a byte limit *)

Lemma head_end_spec max cs i :
  i <= max ->
  exists k, head_end max (char_indices_from i cs) i = i + slen (concat_str (take k cs)) /\
  i + slen (concat_str (take k cs)) <= max /\
  forall j, i + slen (concat_str (take j cs)) <= max ->
    slen (concat_str (take j cs)) <= slen (concat_str (take k cs)).
Proof.
  revert i. induction cs as [|c cs IH]; intros i Hi; simpl.
  { exists 0%nat. change (slen (concat_str (take 0 []))) with 0.
    split_and!; [lia|lia|]. intros j. rewrite take_nil. done. }
  destruct (Z.ltb_spec max (i + slen c)) as [Hlt|Hge].
  - exists 0%nat. change (slen (concat_str (take 0 (c :: cs)))) with 0.
    split_and!; [lia|lia|]. intros [|j] Hj; [done|]. simpl in Hj. rewrite slen_app in Hj.
    pose proof (slen_nonneg (concat_str (take j cs))). lia.
  - destruct (IH (i + slen c) Hge) as (k & -> & Hle & Hmax).
    exists (S k). simpl. rewrite slen_app. split_and!; [lia|lia|].
    intros [|j] Hj; simpl in *.
    + change (slen "") with 0.
      pose proof (slen_nonneg c). pose proof (slen_nonneg (concat_str (take k cs))). lia.
    + rewrite slen_app in *. specialize (Hmax j). lia.
Qed.

Lemma head_within_bytes_spec s max :
  0 <= max ->
  exists k, head_within_bytes s max = Some (concat_str (take k (chars s))) /\
  char_off s k <= max /\
  forall j, char_off s j <= max -> char_off s j <= char_off s k.
Proof.
  intros Hmax. unfold head_within_bytes.
  destruct (Z.leb_spec (slen s) max) as [Hle|Hgt].
  - exists (length (chars s)). unfold char_off.
    rewrite take_ge, concat_chars by lia. split_and!; [done..|].
    intros j _. pose proof (slen_concat_take_le (chars s) j). by rewrite concat_chars in *.
  - destruct (head_end_spec max (chars s) 0 Hmax) as (k & Hk & Hle & Hbest).
    exists k. unfold char_indices. rewrite Hk. split_and!; [|done|].
    + change 0 with (char_off s 0) at 1. rewrite Z.add_0_l.
      fold (char_off s k). rewrite str_slice_chars by lia. by rewrite Nat.sub_0_r, drop_0.
    + intros j Hj. by apply Hbest.
Qed.

(** [head_within_bytes] never panics and returns the longest prefix made of
    whole characters whose UTF-8 length is at most the limit. *)
Theorem head_within_bytes_longest s max :
  0 <= max ->
  exists k, head_within_bytes s max = Some (concat_str (take k (chars s))) /\
  char_off s k <= max /\
  forall j, char_off s j <= max -> char_off s j <= char_off s k.
Proof. apply head_within_bytes_spec. Qed.

Lemma shrink_spec body n build budget minh limit head :
  0 <= minh <= limit ->
  (exists k, head = concat_str (take k (chars body)) /\
     forall j, char_off body j <= minh -> char_off body j <= char_off body k) ->
  exists k, shrink n build budget minh limit head (build head) =
    Some (build (concat_str (take k (chars body)))) /\
  forall j, char_off body j <= minh -> char_off body j <= char_off body k.
Proof.
  revert limit head. induction n as [|n IH]; intros limit head Hlim (k & -> & Hk); cbn [shrink].
  { by exists k. }
  destruct (_ || _); [by exists k|].
  set (limit' := Z.max _ minh). assert (Hl : 0 <= minh <= limit') by lia.
  destruct (head_within_bytes_spec (concat_str (take k (chars body))) limit' ltac:(lia))
    as (k' & -> & _ & Hbest). simpl.
  rewrite chars_take, take_take. apply IH; [done|]. exists (Nat.min k' k).
  split; [done|]. intros j Hj. specialize (Hk j Hj). rewrite <- char_off_take.
  pose proof (Hbest j) as Hb. rewrite char_off_take in Hb.
  destruct (decide (j <= k)%nat) as [Hjk|Hjk].
  - rewrite Nat.min_l in Hb by lia. lia.
  - rewrite Nat.min_r in Hb by lia. pose proof (char_off_mono body k j). lia.
Qed.

(** ** The envelope *)

Lemma obj_get_carry k src dst :
  NoDup (map fst src) -> shaped_key k = false ->
  obj_get k (carry_envelope src dst) =
  match obj_get k src with Some v => Some v | None => obj_get k dst end.
Proof.
  revert dst. induction src as [|[k' v] src IH]; intros dst Hnd Hk; [done|].
  cbn [map fst] in Hnd. apply NoDup_cons in Hnd as [Hnot Hnd].
  unfold carry_envelope in *. cbn [foldl]. rewrite IH by done. clear IH. simpl.
  destruct (String.eqb_spec k k') as [<-|Hne].
  - rewrite Hk. destruct (obj_get k src) as [w|] eqn:E.
    + exfalso. apply Hnot. apply list_elem_of_In, in_map_iff. exists (k, w). auto using obj_get_In.
    + apply obj_get_insert_eq.
  - destruct (obj_get k src); [done|]. destruct (shaped_key k'); [done|].
    by apply obj_get_insert_ne.
Qed.

(** Keys whose fields shaping rewrites or labels. *)
Definition rewritten_keys : list string :=
  ["content"; "structuredContent"; "isError"; "_meta"; "contents"; "messages"].

Definition unique_keys (v : json) : Prop :=
  match v with JObject o => NoDup (map fst o) | _ => True end.

Lemma get_build_shaped result server is_error retained sz bd total bb cursor head k :
  unique_keys result -> ~ In k rewritten_keys ->
  get k (build_shaped result server is_error retained sz bd total bb cursor head) = get k result.
Proof.
  unfold rewritten_keys. simpl. intros Hu Hk. unfold build_shaped.
  set (text := head +:+ _). set (shaped := match result with JObject _ => _ | _ => _ end).
  assert (Hs : get k shaped = get k result).
  { assert (Hkey : shaped_key k = false).
    { unfold shaped_key. destruct (String.eqb_spec k "content"), (String.eqb_spec k "structuredContent"),
        (String.eqb_spec k "isError"); simpl; intuition congruence. }
    assert (Ht : obj_get k [("content", JArray [JObject [("text", JString text);
      ("type", JString "text")]]); ("isError", JBool is_error)] = None).
    { simpl. destruct (String.eqb_spec k "content"), (String.eqb_spec k "isError");
        intuition congruence. }
    subst shaped. destruct result; try exact Ht. simpl. rewrite obj_get_carry by done.
    rewrite Ht. by destruct (obj_get k o). }
  destruct server as [sv|]; [|done]. rewrite Integrity.get_label_ne; [done|].
  unfold Integrity.label_keys. simpl. intuition congruence.
Qed.

(** ** The cache's bounds *)

(** What a cached entry may cost: sizes are computed once, never negative. *)
Definition sized (c : Store.SessionStore Cached) : Prop :=
  map_Forall (fun _ e => 0 <= csize (Store.value e)) (Store.entries c).

Record cache_ok (st : state) : Prop := {
  ok_wf : Store.wf (cache st);
  ok_cap : Store.cap (cache st) = MAX_CACHE_ENTRIES;
  ok_len : Store.len (cache st) <= MAX_CACHE_ENTRIES;
  ok_sized : sized (cache st);
  ok_weight : Store.weight csize (cache st) <= MAX_CACHE_BYTES
}.

(** Dropping entries keeps every bound. *)
Lemma cache_ok_drop st st' m :
  cache_ok st -> m ⊆ Store.entries (cache st) ->
  cache st' = Store.with_entries (cache st) m -> cache_ok st'.
Proof.
  intros [Hwf Hcap Hlen Hs Hw] Hsub E. split; rewrite E.
  - by apply Store.wf_sub.
  - done.
  - etrans; [by apply Store.len_sub|done].
  - intros k e Hk. by eapply Hs, lookup_weaken.
  - etrans; [by apply msum_mono|done].
Qed.

Lemma sweep_ok now st : cache_ok st -> cache_ok (sweep now st).
Proof.
  intros Hok. eapply (cache_ok_drop st _ (filter (fun kv =>
    Store.elapsed now kv.2 < Store.ttl (cache st)) (Store.entries (cache st))));
    [done|apply map_filter_subseteq|done].
Qed.

Lemma evict_to_fit_spec fuel new st :
  cache_ok st -> 0 <= new <= MAX_CACHE_BYTES -> Store.len (cache st) <= Z.of_nat fuel ->
  let st' := evict_to_fit fuel new st in
  cache_ok st' /\ Store.len (cache st') < MAX_CACHE_ENTRIES /\
  Store.weight csize (cache st') + new <= MAX_CACHE_BYTES /\
  Store.next_seq (cache st') = Store.next_seq (cache st) /\
  Store.ttl (cache st') = Store.ttl (cache st).
Proof.
  intros Hok Hnew. revert st Hok.
  assert (Hempty : forall st, Store.len (cache st) = 0 ->
    Store.len (cache st) < MAX_CACHE_ENTRIES /\
    Store.weight csize (cache st) + new <= MAX_CACHE_BYTES).
  { intros st Hl. unfold Store.len in *. unfold Store.weight.
    rewrite (proj1 (map_size_empty_iff (Store.entries (cache st)))) by lia.
    rewrite msum_empty, map_size_empty. unfold MAX_CACHE_ENTRIES. lia. }
  induction fuel as [|fuel IH]; intros st Hok Hlen; simpl.
  { split; [done|]. destruct (Hempty st); [unfold Store.len in *; lia|]. done. }
  destruct (negb (Store.is_empty (cache st)) && _) eqn:Econd.
  - pose proof (Store.remove_oldest_spec (cache st)) as Hro.
    destruct (Store.remove_oldest (cache st)) as [[|] c1].
    + destruct Hro as (k & e & Hk & -> & _).
      assert (Hl1 : Store.len (Store.with_entries (cache st)
        (delete k (Store.entries (cache st)))) <= Z.of_nat fuel).
      { unfold Store.len in *. simpl. rewrite map_size_delete_Some by eauto. lia. }
      destruct (IH {| cache := Store.with_entries (cache st) (delete k (Store.entries (cache st)));
        cursor_counter := cursor_counter st; trim_pending := true |}) as (H1 & H2 & H3 & H4 & H5);
        [eapply cache_ok_drop; [done|apply delete_subseteq|done]|done|].
      split_and!; done.
    + destruct Hro as [-> He]. split; [by destruct st|]. simpl.
      destruct (Hempty st); [|done]. unfold Store.len. by rewrite He, map_size_empty.
  - split; [done|]. unfold Store.is_empty in Econd.
    destruct (Z.eqb_spec (Store.len (cache st)) 0) as [Hz|Hz].
    + destruct (Hempty st Hz). done.
    + simpl in Econd. apply orb_false_iff in Econd as [H1 H2]. split_and!; try done; lia.
Qed.

Hypothesis capacity_nonneg : forall s, 0 <= str_capacity s.
Hypothesis vec_capacity_nonneg : forall l, 0 <= vec_capacity l.
Hypothesis sizes_nonneg :
  0 <= size_of_Value /\ 0 <= size_of_String /\ 0 <= size_of_usize /\ 0 <= size_of_Cached.

Lemma allocation_size_nonneg n : 0 <= n -> 0 <= allocation_size n.
Proof.
  intros Hn. unfold allocation_size, sat_add. destruct (n =? 0); [done|].
  assert (0 <= Z.min (n + 15) u64_max / 16); [|lia].
  apply Z.div_pos; unfold u64_max; lia.
Qed.

Lemma value_heap_size_nonneg v : 0 <= value_heap_size v.
Proof.
  induction v as [| | |s|l IH|o IH] using json_rec_strong; simpl; try lia.
  - apply allocation_size_nonneg, capacity_nonneg.
  - assert (0 <= allocation_size (vec_capacity l * size_of_Value)).
    { apply allocation_size_nonneg. pose proof (vec_capacity_nonneg l). nia. }
    assert (0 <= Zsum (map value_heap_size l)) by (by apply Zsum_nonneg, Forall_map). lia.
  - assert (0 <= allocation_size node_bytes)
      by (apply allocation_size_nonneg; unfold node_bytes; lia).
    assert (0 <= Zsum (map (fun kv => allocation_size (str_capacity kv.1) + value_heap_size kv.2) o)).
    { apply Zsum_nonneg, Forall_map. eapply Forall_impl; [exact IH|]. intros [k v]. simpl.
      pose proof (allocation_size_nonneg _ (capacity_nonneg k)). lia. }
    set (nodes := if Z.of_nat (length o) <? 11 then _ else _).
    assert (0 <= nodes); [|nia]. subst nodes.
    destruct (Z.ltb_spec (Z.of_nat (length o)) 11); [by destruct (_ =? 0)|].
    assert (0 <= (Z.of_nat (length o) - 1) / 5) by (apply Z.div_pos; lia). lia.
Qed.

Lemma retained_size_nonneg b structured : 0 <= retained_size b structured.
Proof.
  unfold retained_size. pose proof (allocation_size_nonneg _ (capacity_nonneg b)).
  destruct structured as [v|]; [pose proof (value_heap_size_nonneg v)|]; lia.
Qed.

Lemma retain_in_spec now cursor entry st :
  cache_ok st -> 0 <= csize entry -> Store.next_seq (cache st) < u64_max ->
  let (retained, st') := retain_in now cursor entry st in
  cache_ok st' /\
  if retained
  then exists e, Store.entries (cache st') !! cursor = Some e /\ Store.last_seen e = now /\
       body (Store.value e) = body entry /\ owner (Store.value e) = owner entry /\
       server (Store.value e) = server entry /\ Store.ttl (cache st') = Store.ttl (cache st)
  else st' = st.
Proof.
  intros Hok Hsize Hseq. unfold retain_in.
  set (entry' := if (MAX_CACHE_BYTES <? csize entry) && _ then _ else entry).
  assert (He : body entry' = body entry /\ owner entry' = owner entry /\
    server entry' = server entry /\ 0 <= csize entry').
  { subst entry'. destruct (_ && _); [|done]. split_and!; try done. simpl.
    apply retained_size_nonneg. }
  destruct He as (Hb & Ho & Hsv & Hs').
  destruct (Z.ltb_spec MAX_CACHE_BYTES (csize entry')) as [|Hfit]; [by split|].
  pose proof (sweep_ok now st Hok) as Hok1.
  destruct (evict_to_fit_spec (size (Store.entries (cache (sweep now st)))) (csize entry')
    (sweep now st) Hok1 (conj Hs' Hfit) (Z.le_refl _)) as (Hok2 & Hl2 & Hw2 & Hn2 & Ht2).
  set (st2 := evict_to_fit _ _ _) in *. destruct Hok2 as [Hwf Hcap Hlen Hs Hw].
  assert (Hins : Store.insert now cursor entry' (cache st2) =
    Store.inserted now cursor entry' (cache st2)) by (apply Store.insert_below_cap; rewrite Hcap; exact Hl2).
  assert (Hseq2 : Store.next_seq (cache st2) < u64_max) by (rewrite Hn2; done).
  split.
  - split; cbn [cache with_cache].
    + by apply Store.wf_insert.
    + by rewrite Hins.
    + etrans; [apply Store.len_insert; rewrite Hcap; done|by rewrite Hcap].
    + rewrite Hins. intros k e [[_ ->]|(_ & Hk & _)]%Store.inserted_lookup; [done|by eapply Hs].
    + rewrite Hins. etrans; [by apply Store.weight_inserted|lia].
  - eexists. cbn [cache with_cache]. split; [by apply Store.insert_keeps_new|].
    split_and!; try done. rewrite Hins. exact Ht2.
Qed.

(** Admitting a result keeps the cache within its bounds: at most 64
    entries and 64 MiB of estimated memory, whatever was stored before.  An
    admitted body is stored under its cursor with its owner and server, and a
    refused one leaves the state untouched. *)
Theorem retain_in_bounded now cursor entry st :
  cache_ok st -> 0 <= csize entry -> Store.next_seq (cache st) < u64_max ->
  let (retained, st') := retain_in now cursor entry st in
  Store.len (cache st') <= 64 /\ Store.weight csize (cache st') <= 64 * 1024 * 1024 /\
  cache_ok st' /\
  if retained
  then exists e, Store.entries (cache st') !! cursor = Some e /\
       body (Store.value e) = body entry /\ owner (Store.value e) = owner entry
  else st' = st.
Proof.
  intros Hok Hsize Hseq. pose proof (retain_in_spec now cursor entry st Hok Hsize Hseq) as H.
  destruct (retain_in now cursor entry st) as [retained st'].
  destruct H as [Hok' H]. split_and!; [apply Hok'|apply Hok'|done|].
  destruct retained; [|done]. destruct H as (e & ? & ? & ? & ? & ?). by exists e.
Qed.

(** What a shaped or declined result looks like. *)
Definition shape_post (result : json) (budget minh : Z) (own : option string) (cursor : string)
    (shaped : bool) (result' : json) (st' : state) : Prop :=
  if shaped
  then text_size result' <= budget /\
       (unique_keys result -> forall k, ~ In k rewritten_keys -> get k result' = get k result) /\
       exists n retained,
         result' = build_shaped result (provenance_server result)
           (default false (v ← get "isError" result; as_bool v)) retained (text_size result) budget
           (Z.of_nat (length (chars (extract_body result).1))) (slen (extract_body result).1)
           cursor (concat_str (take n (chars (extract_body result).1))) /\
         (forall j, char_off (extract_body result).1 j <= Z.min minh (slen (extract_body result).1) ->
            char_off (extract_body result).1 j <= char_off (extract_body result).1 n) /\
         (retained = true -> exists e, Store.entries (cache st') !! cursor = Some e /\
            body (Store.value e) = (extract_body result).1 /\ owner (Store.value e) = own)
  else result' = result /\ Store.entries (cache st') !! cursor = None.

Lemma shape_result_spec now result budget own minh st :
  cache_ok st -> Store.next_seq (cache st) < u64_max -> 0 <= budget -> 0 <= minh ->
  Store.entries (cache st) !! (next_cursor st).1 = None ->
  exists shaped result' st',
    shape_result_preserving_prefix now result budget own minh st = Some (shaped, result', st') /\
    cache_ok st' /\
    shape_post result budget minh own (next_cursor st).1 shaped result' st'.
Proof.
  intros Hok Hseq Hb Hm Hfresh. unfold shape_result_preserving_prefix.
  assert (Hdecline : exists shaped result' st', Some (false, result, st) = Some (shaped, result', st') /\
    cache_ok st' /\ shape_post result budget minh own (next_cursor st).1 shaped result' st')
    by (exists false, result, st; by split_and!).
  destruct (budget =? 0); [done|]. destruct (text_size result <=? budget); [done|].
  destruct (extract_body result) as [bd source_bytes] eqn:Ebody.
  destruct (negb _ || _); [done|]. destruct (budget <=? _); [done|].
  set (minh' := Z.min minh (slen bd)). set (limit := Z.max _ minh').
  pose proof (slen_nonneg bd) as Hbd.
  assert (Hlim : 0 <= minh' <= limit) by (subst minh' limit; lia).
  destruct (head_within_bytes_spec bd limit ltac:(lia)) as (k & -> & _ & Hbest).
  unfold next_cursor in Hfresh |- *. cbn [fst] in Hfresh. cbv beta iota zeta delta [mbind option_bind].
  set (cursor := "r" +:+ pretty (cursor_counter st)) in *.
  set (st1 := {| cache := cache st; cursor_counter := _; trim_pending := _ |}).
  set (entry := {| server := _; body := bd; structured := _; projections_unavailable := _;
                   csize := _; owner := _ |}).
  assert (Hok1 : cache_ok st1) by (destruct Hok; by split).
  pose proof (retain_in_spec now cursor entry st1 Hok1 (retained_size_nonneg _ _) Hseq) as Hret. unfold retain.
  destruct (retain_in now cursor entry st1) as [retained st2].
  destruct Hret as [Hok2 Hret]. cbv beta iota zeta.
  set (build := build_shaped result _ _ retained _ _ _ _ _).
  destruct (shrink_spec bd 4 build budget minh' limit (concat_str (take k (chars bd))) Hlim)
    as (n & -> & Hn). { exists k. split; [done|]. intros j Hj. apply Hbest. lia. }
  cbv beta iota zeta. destruct (Z.ltb_spec budget (text_size (build (concat_str (take n (chars bd))))))
    as [Hover|Hfits].
  - eexists false, result, _. split; [done|]. unfold shape_post. split.
    + eapply (cache_ok_drop st2 _ (delete cursor (Store.entries (cache st2))));
        [done|apply delete_subseteq|done].
    + simpl. by rewrite lookup_delete_eq.
  - eexists true, _, _. split; [done|]. split; [by destruct Hok2|].
    unfold shape_post. rewrite Ebody. split; [done|]. split; [by intros Hu j Hj; apply get_build_shaped|].
    exists n, retained. split; [done|]. split; [done|]. simpl.
    intros ->. destruct Hret as (e & ? & _ & ? & ? & _). by exists e.
Qed.


(** ** Paging *)

(** Past the start of the page only the end is still looked for. *)
Lemma locate_tail cs b i off end_ sb eb :
  off < i -> i <= end_ ->
  locate (char_indices_from b cs) i off end_ sb eb =
  (sb, if end_ <? i + Z.of_nat (length cs)
       then b + slen (concat_str (take (Z.to_nat (end_ - i)) cs)) else eb).
Proof.
  revert b i. induction cs as [|c cs IH]; intros b i Hoff Hend; cbn [char_indices_from locate length].
  { destruct (Z.ltb_spec end_ (i + Z.of_nat 0)); [lia|done]. }
  rewrite Nat2Z.inj_succ. destruct (Z.eqb_spec i off); [lia|].
  destruct (Z.eqb_spec i end_) as [->|Hne].
  - rewrite Z.sub_diag. simpl. change (slen "") with 0.
    destruct (Z.ltb_spec end_ (end_ + Z.succ (Z.of_nat (length cs)))); [|lia]. f_equal. lia.
  - rewrite IH by lia. f_equal.
    replace (end_ <? i + Z.succ (Z.of_nat (length cs)))
      with (end_ <? i + 1 + Z.of_nat (length cs)) by (f_equal; lia).
    replace (Z.to_nat (end_ - i)) with (S (Z.to_nat (end_ - (i + 1)))) by lia.
    simpl. rewrite slen_app. by rewrite Z.add_assoc.
Qed.

Lemma locate_spec cs b i off end_ sb eb :
  i <= off -> off <= end_ -> off < i + Z.of_nat (length cs) ->
  locate (char_indices_from b cs) i off end_ sb eb =
  (b + slen (concat_str (take (Z.to_nat (off - i)) cs)),
   if end_ <? i + Z.of_nat (length cs)
   then b + slen (concat_str (take (Z.to_nat (end_ - i)) cs)) else eb).
Proof.
  revert b i sb. induction cs as [|c cs IH]; intros b i sb Hi Hoe Hlt; [simpl in Hlt; lia|].
  cbn [char_indices_from locate length] in *. rewrite Nat2Z.inj_succ in *.
  destruct (Z.eqb_spec i end_) as [->|Hne].
  - replace off with end_ by lia. rewrite Z.eqb_refl, Z.sub_diag. simpl.
    change (slen "") with 0. destruct (Z.ltb_spec end_ (end_ + Z.succ (Z.of_nat (length cs)))); [|lia].
    f_equal; lia.
  - assert (Hstep : forall j, i < j ->
      b + slen (concat_str (take (Z.to_nat (j - i)) (c :: cs))) =
      b + slen c + slen (concat_str (take (Z.to_nat (j - (i + 1))) cs))).
    { intros j Hj. replace (Z.to_nat (j - i)) with (S (Z.to_nat (j - (i + 1)))) by lia.
      simpl. rewrite slen_app. lia. }
    rewrite (Hstep end_) by lia.
    replace (end_ <? i + Z.succ (Z.of_nat (length cs)))
      with (end_ <? i + 1 + Z.of_nat (length cs)) by (f_equal; lia).
    destruct (Z.eqb_spec i off) as [->|Hio].
    + rewrite Z.sub_diag. simpl. change (slen "") with 0. rewrite Z.add_0_r.
      apply locate_tail; lia.
    + rewrite (Hstep off) by lia. apply IH; lia.
Qed.

(** Every page is exactly its window of characters; slicing never panics. *)
Lemma page_slice_spec b off end_ :
  0 <= off -> off < Z.of_nat (length (chars b)) -> off <= end_ ->
  end_ <= Z.of_nat (length (chars b)) ->
  page_slice b off end_ =
  Some (concat_str (take (Z.to_nat end_ - Z.to_nat off) (drop (Z.to_nat off) (chars b)))).
Proof.
  intros H0 Hoff Hoe Hend. unfold page_slice, char_indices.
  rewrite locate_spec by lia. rewrite !Z.sub_0_r, !Z.add_0_l.
  replace (if end_ <? _ then _ else _) with (char_off b (Z.to_nat end_)).
  - apply str_slice_chars. lia.
  - destruct (Z.ltb_spec end_ (Z.of_nat (length (chars b)))); [done|].
    unfold char_off. rewrite take_ge, concat_chars by lia. done.
Qed.

Lemma page_end_progress total off len :
  0 <= off < total -> total <= u64_max -> 0 < len -> off < page_end total off len <= total.
Proof. unfold page_end, sat_add, u64_max. lia. Qed.

Lemma fetch_page_eq c off len :
  0 <= off < Z.of_nat (length (chars (body c))) -> Z.of_nat (length (chars (body c))) <= u64_max ->
  0 < len ->
  fetch_page c off len =
  Some (labelled (server c) (text_result
    (concat_str (take (Z.to_nat (page_end (Z.of_nat (length (chars (body c)))) off len) - Z.to_nat off)
       (drop (Z.to_nat off) (chars (body c)))) +:+
     page_footer off (page_end (Z.of_nat (length (chars (body c)))) off len)
       (Z.of_nat (length (chars (body c))))) false)).
Proof.
  intros Hoff Htot Hlen. unfold fetch_page.
  destruct (Z.leb_spec (Z.of_nat (length (chars (body c)))) off); [lia|].
  destruct (Z.eqb_spec len 0); [lia|].
  pose proof (page_end_progress _ _ _ Hoff Htot Hlen).
  rewrite page_slice_spec by lia. done.
Qed.

(** The pages a client reads by following the offsets: from each offset to the
    end of the page the footer announces. *)
Fixpoint pages_from (fuel : nat) (cs : list string) (off len : Z) : list (Z * string) :=
  match fuel with
  | O => []
  | S fuel =>
      let total := Z.of_nat (length cs) in
      if total <=? off then []
      else let end_ := page_end total off len in
           (off, concat_str (take (Z.to_nat end_ - Z.to_nat off) (drop (Z.to_nat off) cs)))
           :: pages_from fuel cs end_ len
  end.

Lemma pages_concat fuel cs off len :
  0 <= off -> Z.of_nat (length cs) <= u64_max -> 0 < len ->
  Z.of_nat (length cs) - off <= Z.of_nat fuel ->
  concat_str (map snd (pages_from fuel cs off len)) = concat_str (drop (Z.to_nat off) cs) /\
  Forall (fun p => 0 <= p.1 < Z.of_nat (length cs) /\
    p.2 = concat_str (take (Z.to_nat (page_end (Z.of_nat (length cs)) p.1 len) - Z.to_nat p.1)
      (drop (Z.to_nat p.1) cs))) (pages_from fuel cs off len).
Proof.
  revert off. induction fuel as [|fuel IH]; intros off H0 Htot Hlen Hfuel; cbn [pages_from].
  { rewrite drop_ge by lia. done. }
  destruct (Z.leb_spec (Z.of_nat (length cs)) off) as [Hge|Hlt].
  { rewrite drop_ge by lia. done. }
  pose proof (page_end_progress _ _ _ (conj H0 Hlt) Htot Hlen) as Hp.
  set (end_ := page_end _ off len) in *.
  destruct (IH end_ ltac:(lia) Htot Hlen ltac:(lia)) as [Hc Hf]. split.
  - cbn [map snd concat_str foldr]. fold (concat_str (map snd (pages_from fuel cs end_ len))).
    rewrite Hc, <- concat_str_app. f_equal.
    replace (drop (Z.to_nat end_) cs) with
      (drop (Z.to_nat end_ - Z.to_nat off) (drop (Z.to_nat off) cs)).
    + apply take_drop.
    + rewrite drop_drop. f_equal. lia.
  - constructor; [|done]. simpl. split; [lia|done].
Qed.


(** A cursor is readable only by its owner: for any other requester the
    answer, and the state, are those of a cursor that does not exist. *)
Theorem fetch_scoped now cursor off len requester projection st :
  (forall c, Store.get now cursor (cache (sweep now st)) = Some c -> owner c <> requester) ->
  fetch_result now cursor off len requester projection st =
  Some (unknown_cursor cursor, sweep now st).
Proof.
  intros Hown. unfold fetch_result.
  destruct (Store.get now cursor (cache (sweep now st))) as [c|] eqn:E; [|done].
  by rewrite bool_decide_false by auto.
Qed.

(** With the budget variable set to 0 a page of the default length is empty
    and its footer names the same offset again: a client following the marker
    of a result that was shaped with another budget never advances. *)
Theorem zero_budget_page_stalls c off :
  env_var = Some "0" -> 0 <= off < Z.of_nat (length (chars (body c))) ->
  Z.of_nat (length (chars (body c))) <= u64_max ->
  fetch_page c off 0 =
  Some (labelled (server c) (text_result
    (page_footer off off (Z.of_nat (length (chars (body c))))) false)).
Proof.
  intros Henv Hoff Htot. unfold fetch_page, budget. rewrite Henv.
  destruct (Z.leb_spec (Z.of_nat (length (chars (body c)))) off); [lia|].
  change (fst (resolve_budget (Some "0"))) with 0.
  cbv beta iota zeta delta [Z.eqb].
  assert (page_end (Z.of_nat (length (chars (body c)))) off 0 = off) as ->
    by (unfold page_end, sat_add; lia).
  rewrite page_slice_spec by lia. by rewrite Nat.sub_diag, take_0.
Qed.

End ops.
End Shaping.

(** ** Witnesses *)

(** A printer for the witnesses: no escapes, no spaces. *)
Fixpoint show_json (v : json) : string :=
  match v with
  | JNull => "null"
  | JBool b => if b then "true" else "false"
  | JNumber (PosInt n) | JNumber (NegInt n) => pretty n
  | JNumber (Float _) => "0.0"
  | JString s => Shaping.quote +:+ s +:+ Shaping.quote
  | JArray l => "[" +:+ String.concat "," (map show_json l) +:+ "]"
  | JObject o =>
      "{" +:+ String.concat ","
        (map (fun kv => Shaping.quote +:+ kv.1 +:+ Shaping.quote +:+ ":" +:+ show_json kv.2) o)
      +:+ "}"
  end.

Definition demo_print (v : json) : option string := Some (show_json v).
Definition demo_parse (_ : string) : option json := None.
Definition demo_str_capacity (s : string) : Z := slen s.
Definition demo_vec_capacity (l : list json) : Z := Z.of_nat (length l).

Definition demo_body : string := "h" +:+ bytes_str [195%N; 169%N] +:+ "llo world".

Definition demo_result : json :=
  Shaping.text_result (concat_str (replicate 300 demo_body)) false.

Definition demo_cached : Shaping.Cached :=
  {| Shaping.server := Some "files"; Shaping.body := demo_body; Shaping.structured := None;
     Shaping.projections_unavailable := false; Shaping.csize := 100;
     Shaping.owner := Some "alice" |}.

Definition demo_state : Shaping.state :=
  (Shaping.retain demo_str_capacity demo_vec_capacity 32 24 8 120 5 "r9" demo_cached
     Shaping.init).2.

Lemma demo_sizes : (0 <= 32 /\ 0 <= 24 /\ 0 <= 8 /\ 0 <= 120)%Z.
Proof. lia. Qed.

Lemma init_cache_ok : Shaping.cache_ok Shaping.init.
Proof.
  split; try (vm_compute; congruence).
  split; simpl; try (intros *; by rewrite lookup_empty); unfold u64_max; lia.
Qed.

Lemma head_within_bytes_longest_witness :
  Shaping.head_within_bytes demo_body 2 = Some "h".
Proof.
  destruct (Shaping.head_within_bytes_longest demo_body 2) as (k & H & _); [lia|].
  rewrite H. vm_compute in H. vm_compute. congruence.
Defined.

Lemma retain_in_bounded_witness :
  Store.len (Shaping.cache (Shaping.retain_in demo_str_capacity demo_vec_capacity 32 24 8 120 5
    "r9" demo_cached Shaping.init).2) <= 64.
Proof.
  pose proof (Shaping.retain_in_bounded demo_str_capacity demo_vec_capacity 32 24 8 120
    slen_nonneg (fun l => Zle_0_nat (length l)) demo_sizes 5 "r9" demo_cached Shaping.init
    init_cache_ok ltac:(vm_compute; discriminate) ltac:(vm_compute; reflexivity)) as H.
  destruct (Shaping.retain_in _ _ _ _ _ _ _ _ _ _) as [retained st']. apply H.
Defined.



Lemma fetch_scoped_witness :
  exists st', Shaping.fetch_result demo_print None 6 "r9" 0 4 (Some "bob") None demo_state =
  Some (Shaping.unknown_cursor "r9", st').
Proof.
  eexists. apply (Shaping.fetch_scoped demo_print None 6 "r9" 0 4 (Some "bob") None demo_state).
  intros c Hc. vm_compute in Hc. injection Hc as <-. discriminate.
Defined.

Lemma zero_budget_page_stalls_witness :
  Shaping.fetch_page (Some "0") demo_cached 0 0 =
  Some (Shaping.labelled (Some "files") (Shaping.text_result
    (Shaping.page_footer 0 0 11) false)).
Proof.
  apply (Shaping.zero_budget_page_stalls (Some "0") demo_cached 0);
    [reflexivity|vm_compute; split; congruence|vm_compute; congruence].
Defined.
