(* ===== verification/Usage.v ===== *)
(** Team usage (src/usage_report.rs, with audit.rs's [tool_call_ok]): UTC days
    and the per-server rows a member reports. *)

From S2P Require Import Prelude Text Json.

Module Usage.

(** Days since the epoch to (year, month, day).  Rust's [/] truncates. *)
Definition civil_from_days (z : Z) : Z * Z * Z :=
  let z := z + 719468 in
  let era := (if 0 <=? z then z else z - 146096) ÷ 146097 in
  let doe := z - era * 146097 in
  let yoe := (doe - doe / 1460 + doe / 36524 - doe / 146096) / 365 in
  let y := yoe + era * 400 in
  let doy := doe - (365 * yoe + yoe / 4 - yoe / 100) in
  let mp := (5 * doy + 2) / 153 in
  let d := doy - (153 * mp + 2) / 5 + 1 in
  let m := if mp <? 10 then mp + 3 else mp - 9 in
  (if m <=? 2 then y + 1 else y, m, d).

Definition format_day (ymd : Z * Z * Z) : string :=
  let '(y, m, d) := ymd in zero_pad 4 y +:+ "-" +:+ zero_pad 2 m +:+ "-" +:+ zero_pad 2 d.

Definition utc_day (ts_millis : Z) : string := format_day (civil_from_days (ts_millis / 86400000)).

Definition utc_day_back (now offset_back : Z) : string :=
  utc_day (sat_sub now (offset_back * 86400000)).

(** audit.rs: [None] is a line that is not a tool call. *)
Definition governance_kinds : list string :=
  ["approval"; "routine"; "advisor"; "suggestion"; "candidate"; "telemetry_gap"; "internal";
   "session"].

Definition str_field (k : string) (entry : json) : option string := v ← get k entry; as_str v.

Definition tool_call_ok (entry : json) : option bool :=
  ok ← (v ← get "ok" entry; as_bool v);
  if bool_decide (str_field "tool" entry = Some "sync_environment_refused") then None
  else match str_field "kind" entry with
       | Some kind => if existsb (String.eqb kind) governance_kinds then None else Some ok
       | None => Some ok
       end.

Record Row := mk_row { calls : Z; tokens_saved : Z }.

Definition empty_row : Row := {| calls := 0; tokens_saved := 0 |}.

Definition ts_day (day : string) (e : json) : bool :=
  match ts ← get "ts" e; as_u64 ts with
  | Some ts => String.eqb (utc_day ts) day
  | None => false
  end.

(** [e.get("serverId").or_else(|| e.get("server")).and_then(Value::as_str)] *)
Definition call_server (e : json) : option string :=
  v ← (match get "serverId" e with Some v => Some v | None => get "server" e end); as_str v.

Definition count_call (team_servers : gset string) (rows : gmap string Row) (e : json) :
    gmap string Row :=
  match tool_call_ok e with
  | None => rows
  | Some _ =>
      match call_server e with
      | None => rows
      | Some server =>
          if bool_decide (server ∈ team_servers) then
            let row := default empty_row (rows !! server) in
            <[server := {| calls := calls row + 1; tokens_saved := tokens_saved row |}]> rows
          else rows
      end
  end.

Definition savings_day (day : string) (e : json) : bool :=
  if bool_decide (str_field "kind" e = Some "team_daily")
  then bool_decide (str_field "day" e = Some day)
  else ts_day day e.

Definition add_tokens (team_servers : gset string) (rows : gmap string Row)
    (kv : string * json) : gmap string Row :=
  let (server, tokens) := kv in
  if bool_decide (server ∈ team_servers) then
    let row := default empty_row (rows !! server) in
    <[server := {| calls := calls row;
                   tokens_saved := sat_add (tokens_saved row) (default 0 (as_u64 tokens)) |}]> rows
  else rows.

Definition add_savings (team_servers : gset string) (rows : gmap string Row) (e : json) :
    gmap string Row :=
  match v ← get "byServer" e; as_object v with
  | None => rows
  | Some by_server => foldl (add_tokens team_servers) rows by_server
  end.

Definition rollup (day : string) (audit_lines savings_lines : list json)
    (team_servers : gset string) : gmap string Row :=
  let rows := foldl (count_call team_servers) ∅ (List.filter (ts_day day) audit_lines) in
  foldl (add_savings team_servers) rows (List.filter (savings_day day) savings_lines).

(** ** The calendar *)

Definition is_leap (y : Z) : bool :=
  (y mod 4 =? 0) && (negb (y mod 100 =? 0) || (y mod 400 =? 0)).

Definition days_in_month (y m : Z) : Z :=
  if m =? 2 then (if is_leap y then 29 else 28)
  else if (m =? 4) || (m =? 6) || (m =? 9) || (m =? 11) then 30 else 31.

(** The day after, in the proleptic Gregorian calendar. *)
Definition next_date (ymd : Z * Z * Z) : Z * Z * Z :=
  let '(y, m, d) := ymd in
  if d <? days_in_month y m then (y, m, d + 1)
  else if m <? 12 then (y, m + 1, 1) else (y + 1, 1, 1).

Definition valid_date (ymd : Z * Z * Z) : bool :=
  let '(y, m, d) := ymd in (1 <=? m) && (m <=? 12) && (1 <=? d) && (d <=? days_in_month y m).

(** The date of day [doe] of the 400-year era that starts on 1 March of year 0:
    the year (counted from March), the day of that year, and its month and day. *)
Definition era_days (doe : Z) : Z := doe - doe / 1460 + doe / 36524 - doe / 146096.
Definition era_year (doe : Z) : Z := era_days doe / 365.
Definition year_start (y : Z) : Z := 365 * y + y / 4 - y / 100.
Definition month_of (doy : Z) : Z :=
  let mp := (5 * doy + 2) / 153 in if mp <? 10 then mp + 3 else mp - 9.
Definition day_of (doy : Z) : Z :=
  let mp := (5 * doy + 2) / 153 in doy - (153 * mp + 2) / 5 + 1.
Definition march_date (y doy : Z) : Z * Z * Z :=
  (if month_of doy <=? 2 then y + 1 else y, month_of doy, day_of doy).
Definition era_date (doe : Z) : Z * Z * Z :=
  march_date (era_year doe) (doe - year_start (era_year doe)).

Definition add_years (n : Z) (ymd : Z * Z * Z) : Z * Z * Z :=
  let '(y, m, d) := ymd in (y + n, m, d).

Lemma civil_era z :
  civil_from_days z =
  add_years (400 * ((z + 719468) / 146097)) (era_date ((z + 719468) mod 146097)).
Proof.
  unfold civil_from_days, era_date, march_date, add_years.
  assert ((if 0 <=? z + 719468 then z + 719468 else z + 719468 - 146096) ÷ 146097 =
          (z + 719468) / 146097) as ->.
  { destruct (Z.leb_spec 0 (z + 719468)).
    - apply Z.quot_div_nonneg; lia.
    - Z.quot_rem_to_equations; Z.div_mod_to_equations; lia. }
  replace (z + 719468 - (z + 719468) / 146097 * 146097) with ((z + 719468) mod 146097)
    by (rewrite Z.mod_eq by lia; lia).
  set (doe := (z + 719468) mod 146097). unfold month_of, day_of, year_start, era_year, era_days.
  cbv zeta. destruct (_ <=? 2); f_equal; f_equal; lia.
Qed.

Definition year_end (y : Z) : Z := if y =? 399 then 146097 else year_start (y + 1).

(** [p] holds on [n] consecutive integers from [k]. *)
Fixpoint forallZ (p : Z -> bool) (n : nat) (k : Z) : bool :=
  match n with O => true | S n => p k && forallZ p n (k + 1) end.

Lemma forallZ_spec p n k x : forallZ p n k = true -> k <= x < k + Z.of_nat n -> p x = true.
Proof.
  revert k. induction n as [|n IH]; intros k H Hx; [lia|].
  cbn [forallZ] in H. apply andb_prop in H as [H1 H2].
  destruct (Z.eq_dec x k) as [->|]; [done|]. apply (IH (k + 1)); [done|lia].
Qed.

(** The facts of each of the era's 400 years: where it starts and ends, and that
    it is a leap year exactly when it holds a 29 February. *)
Definition year_ok (y : Z) : bool :=
  (365 * y <=? era_days (year_start y)) && (era_days (year_end y - 1) <? 365 * (y + 1)) &&
  (year_end y - year_start y =? (if is_leap (y + 1) then 366 else 365)) && (year_start y <? 146096).

Lemma years_ok y : 0 <= y < 400 -> year_ok y = true.
Proof. intros H. apply (forallZ_spec year_ok 400 0); [by vm_compute|lia]. Qed.

Lemma era_days_mono a b : 0 <= a <= b -> b < 146097 -> a < 146096 -> era_days a <= era_days b.
Proof.
  intros Ha Hb Hl. unfold era_days.
  assert (a / 146096 = 0) as -> by (apply Z.div_small; lia).
  destruct (Z.eq_dec b 146096) as [->|]; [Z.div_mod_to_equations; lia|].
  assert (b / 146096 = 0) as -> by (apply Z.div_small; lia).
  assert (a / 36524 <= b / 36524) by (apply Z.div_le_mono; lia).
  assert (b / 1460 - a / 1460 <= b - a) by (Z.div_mod_to_equations; lia). lia.
Qed.

Lemma era_year_spec y doe :
  0 <= y < 400 -> year_start y <= doe < year_end y -> era_year doe = y.
Proof.
  intros Hy Hd. pose proof (years_ok y Hy) as Hok. unfold year_ok in Hok.
  apply andb_prop in Hok as [[[H1 H2]%andb_prop H3]%andb_prop H4].
  apply Z.leb_le in H1. apply Z.ltb_lt in H2, H4.
  assert (Hend : year_end y <= 146097).
  { unfold year_end, year_start. destruct (Z.eqb_spec y 399); [lia|]. Z.div_mod_to_equations; lia. }
  assert (Hs : 0 <= year_start y) by (unfold year_start; Z.div_mod_to_equations; lia).
  assert (H5 : era_days (year_start y) <= era_days doe) by (apply era_days_mono; lia).
  assert (H6 : era_days doe <= era_days (year_end y - 1)).
  { destruct (Z.eq_dec doe (year_end y - 1)) as [->|]; [lia|]. apply era_days_mono; lia. }
  unfold era_year. symmetry. apply (Z.div_unique _ _ _ (era_days doe - 365 * y)); lia.
Qed.

Lemma year_exists doe :
  0 <= doe < 146097 -> exists y, 0 <= y < 400 /\ year_start y <= doe < year_end y.
Proof.
  intros Hd.
  assert (H : forall n : nat, (n <= 399)%nat -> doe < year_end (Z.of_nat n) ->
    exists y, 0 <= y < 400 /\ year_start y <= doe < year_end y).
  { induction n as [|n IH]; intros Hn He.
    - exists 0. split; [lia|]. split; [vm_compute; congruence || apply Hd|done].
    - destruct (Z_lt_le_dec doe (year_start (Z.of_nat (S n)))) as [Hlt|Hge].
      + apply IH; [lia|]. unfold year_end. destruct (Z.eqb_spec (Z.of_nat n) 399); [lia|].
        by replace (Z.of_nat n + 1) with (Z.of_nat (S n)) by lia.
      + exists (Z.of_nat (S n)). split; [lia|done]. }
  apply (H 399%nat); [lia|]. apply Hd.
Qed.

(** The month table: the day after day [doy] of a year that starts in March. *)
Definition month_table_ok (leap : bool) (doy : Z) : bool :=
  let m := month_of doy in let d := day_of doy in
  let dim := if m =? 2 then (if leap then 29 else 28)
             else if (m =? 4) || (m =? 6) || (m =? 9) || (m =? 11) then 30 else 31 in
  (1 <=? m) && (m <=? 12) && (1 <=? d) && (d <=? dim) &&
  (if doy + 1 =? (if leap then 366 else 365) then (m =? 2) && (d =? dim)
   else if d <? dim then (month_of (doy + 1) =? m) && (day_of (doy + 1) =? d + 1)
        else (day_of (doy + 1) =? 1) &&
             (month_of (doy + 1) =? (if m <? 12 then m + 1 else 1)) && negb (m =? 2)).

Lemma month_table (leap : bool) doy :
  0 <= doy < (if leap then 366 else 365) -> month_table_ok leap doy = true.
Proof.
  intros H. destruct leap.
  - apply (forallZ_spec (month_table_ok true) 366 0); [by vm_compute|lia].
  - apply (forallZ_spec (month_table_ok false) 365 0); [by vm_compute|lia].
Qed.

Lemma is_leap_shift y n : is_leap (y + 400 * n) = is_leap y.
Proof.
  unfold is_leap.
  assert ((y + 400 * n) mod 4 = y mod 4 /\ (y + 400 * n) mod 100 = y mod 100 /\
          (y + 400 * n) mod 400 = y mod 400) as (-> & -> & ->); [|done].
  split_and!; Z.div_mod_to_equations; lia.
Qed.

Lemma next_date_shift n d : next_date (add_years (400 * n) d) = add_years (400 * n) (next_date d).
Proof.
  destruct d as [[y m] d]. unfold next_date, add_years, days_in_month. rewrite is_leap_shift.
  destruct (d <? _); [done|]. destruct (m <? 12); [done|]. f_equal; f_equal; lia.
Qed.

Lemma valid_date_shift n d : valid_date (add_years (400 * n) d) = valid_date d.
Proof.
  destruct d as [[y m] d]. unfold valid_date, add_years, days_in_month. by rewrite is_leap_shift.
Qed.

(** The day after a day of March-based year [y]. *)
Lemma march_next y doy :
  0 <= y -> let leap := is_leap (y + 1) in
  0 <= doy < (if leap then 366 else 365) ->
  valid_date (march_date y doy) = true /\
  next_date (march_date y doy) =
    if doy + 1 =? (if leap then 366 else 365) then (y + 1, 3, 1) else march_date y (doy + 1).
Proof.
  intros Hy leap Hd. pose proof (month_table leap doy Hd) as H. unfold month_table_ok in H.
  cbv zeta in H. apply andb_prop in H as [[[[H1 H2]%andb_prop H3]%andb_prop H4]%andb_prop H5].
  assert (Hdim : days_in_month (if month_of doy <=? 2 then y + 1 else y) (month_of doy) =
    if month_of doy =? 2 then (if leap then 29 else 28)
    else if (month_of doy =? 4) || (month_of doy =? 6) || (month_of doy =? 9)
            || (month_of doy =? 11) then 30 else 31).
  { unfold days_in_month. destruct (Z.eqb_spec (month_of doy) 2) as [->|]; [|done]. done. }
  unfold valid_date, next_date, march_date. rewrite Hdim, H1, H2, H3, H4. split; [done|].
  set (dim := if month_of doy =? 2 then _ else _) in *.
  destruct (doy + 1 =? _).
  - apply andb_prop in H5 as [Em%Z.eqb_eq Ed%Z.eqb_eq]. rewrite Ed, Z.ltb_irrefl, Em. done.
  - destruct (day_of doy <? dim).
    + apply andb_prop in H5 as [->%Z.eqb_eq ->%Z.eqb_eq]. done.
    + apply andb_prop in H5 as [[->%Z.eqb_eq ->%Z.eqb_eq]%andb_prop Hne].
      destruct (Z.eqb_spec (month_of doy) 2); [done|].
      apply Z.leb_le in H1. destruct (Z.ltb_spec (month_of doy) 12).
      * destruct (Z.leb_spec (month_of doy) 2), (Z.leb_spec (month_of doy + 1) 2);
          try lia; done.
      * destruct (Z.leb_spec (month_of doy) 2); [lia|done].
Qed.

Lemma era_next doe :
  0 <= doe < 146097 ->
  valid_date (era_date doe) = true /\
  next_date (era_date doe) =
    if doe =? 146096 then add_years 400 (era_date 0) else era_date (doe + 1).
Proof.
  intros Hd. destruct (year_exists doe Hd) as (y & Hy & Hyd).
  pose proof (years_ok y Hy) as Hok. unfold year_ok in Hok.
  apply andb_prop in Hok as [[_ Hlen%Z.eqb_eq]%andb_prop _].
  unfold era_date at 1 2. rewrite (era_year_spec y doe) by done.
  destruct (march_next y (doe - year_start y)) as [Hv Hn]; [lia|lia|].
  split; [done|]. rewrite Hn, <- Hlen.
  destruct (Z.eqb_spec (doe - year_start y + 1) (year_end y - year_start y)) as [E|E].
  - unfold year_end in *. destruct (Z.eqb_spec y 399) as [->|Hne].
    + destruct (Z.eqb_spec doe 146096); [done|lia].
    + destruct (Z.eqb_spec doe 146096) as [Ed|Ed].
      * exfalso. assert (year_start (y + 1) <= 145731); [|lia].
        unfold year_start. Z.div_mod_to_equations; lia.
      * unfold era_date. rewrite (era_year_spec (y + 1) (doe + 1)).
        -- replace (doe + 1 - year_start (y + 1)) with 0 by lia. done.
        -- lia.
        -- pose proof (years_ok (y + 1) ltac:(lia)) as Hok. unfold year_ok in Hok.
           apply andb_prop in Hok as [[_ Hl%Z.eqb_eq]%andb_prop _].
           destruct (is_leap (y + 1 + 1)); lia.
  - destruct (Z.eqb_spec doe 146096) as [Ed|Ed].
    + exfalso. destruct (Z.eq_dec y 399) as [->|]; [change (year_end 399) with 146097 in E; lia|].
      unfold year_end in *. destruct (Z.eqb_spec y 399); [lia|].
      assert (year_start (y + 1) <= 145731); [|lia].
      unfold year_start. Z.div_mod_to_equations; lia.
    + unfold era_date. rewrite (era_year_spec y (doe + 1)) by lia.
      by replace (doe - year_start y + 1) with (doe + 1 - year_start y) by lia.
Qed.

(** [civil_from_days] is the proleptic Gregorian calendar: day 0 is
    1970-01-01, every day is a valid date, and the date of the next day is the
    next date, leap years included, before and after the epoch. *)
Theorem civil_from_days_calendar z :
  civil_from_days 0 = (1970, 1, 1) /\ valid_date (civil_from_days z) = true /\
  civil_from_days (z + 1) = next_date (civil_from_days z).
Proof.
  split; [done|]. rewrite !civil_era, next_date_shift, valid_date_shift.
  set (w := z + 719468). replace (z + 1 + 719468) with (w + 1) by lia.
  pose proof (Z.mod_pos_bound w 146097 ltac:(lia)) as Hb.
  destruct (era_next (w mod 146097) Hb) as [-> ->]. split; [done|].
  destruct (Z.eqb_spec (w mod 146097) 146096) as [E|E].
  - assert ((w + 1) / 146097 = w / 146097 + 1 /\ (w + 1) mod 146097 = 0) as [-> ->]
      by (Z.div_mod_to_equations; lia).
    destruct (era_date 0) as [[y m] d]. simpl. f_equal; f_equal; lia.
  - assert ((w + 1) / 146097 = w / 146097 /\ (w + 1) mod 146097 = w mod 146097 + 1) as [-> ->]
      by (Z.div_mod_to_equations; lia). done.
Qed.

(** ** The rollup *)

Definition row_of (rows : gmap string Row) (s : string) : Row := default empty_row (rows !! s).

Definition counts_call (s : string) (e : json) : bool :=
  match tool_call_ok e with Some _ => bool_decide (call_server e = Some s) | None => false end.

(** The token figures a savings line carries for [s]. *)
Definition line_tokens (s : string) (e : json) : list Z :=
  match v ← get "byServer" e; as_object v with
  | Some o => map (fun kv => default 0 (as_u64 kv.2)) (List.filter (fun kv => String.eqb kv.1 s) o)
  | None => []
  end.

Lemma count_calls_spec team rows l s :
  (forall t, is_Some (rows !! t) -> t ∈ team) ->
  let rows' := foldl (count_call team) rows l in
  (forall t, is_Some (rows' !! t) -> t ∈ team) /\
  (s ∈ team ->
   calls (row_of rows' s) = calls (row_of rows s) + Z.of_nat (length (List.filter (counts_call s) l))
   /\ tokens_saved (row_of rows' s) = tokens_saved (row_of rows s)).
Proof.
  revert rows. induction l as [|e l IH]; intros rows Hteam; simpl.
  { split; [done|]. intros _. split; lia. }
  assert (Hstep : (forall t, is_Some (count_call team rows e !! t) -> t ∈ team) /\
    (s ∈ team -> calls (row_of (count_call team rows e) s) =
       calls (row_of rows s) + (if counts_call s e then 1 else 0) /\
       tokens_saved (row_of (count_call team rows e) s) = tokens_saved (row_of rows s))).
  { unfold count_call, counts_call.
    destruct (tool_call_ok e); [|split; [done|split; lia]].
    destruct (call_server e) as [sv|]; [|split; [done|]].
    2:{ rewrite bool_decide_false by done. split; lia. }
    destruct (decide (sv ∈ team)) as [Hin|Hin];
      [rewrite (bool_decide_true (sv ∈ team)) by done|rewrite (bool_decide_false (sv ∈ team)) by done].
    - split.
      + intros t [<-|[_ ?]]%lookup_insert_is_Some; [done|by apply Hteam].
      + intros _. unfold row_of. destruct (decide (sv = s)) as [->|Hne].
        * rewrite lookup_insert_eq, bool_decide_true by done. simpl. split; lia.
        * rewrite lookup_insert_ne by done. rewrite bool_decide_false by congruence. split; lia.
    - split; [done|]. intros Hs. rewrite bool_decide_false by congruence. split; lia. }
  destruct Hstep as [Hd Hv]. destruct (IH (count_call team rows e) Hd) as [Hd' Hv'].
  split; [done|]. intros Hs. destruct (Hv Hs) as [Hc Ht]. destruct (Hv' Hs) as [Hc' Ht'].
  rewrite Hc', Hc, Ht', Ht. destruct (counts_call s e); simpl; lia.
Qed.

(** Saturating additions of natural numbers are one saturated sum. *)
Lemma sat_add_sum a l :
  u64 a -> Forall (fun n => 0 <= n) l ->
  foldl sat_add a l = Z.min (a + Zsum l) u64_max.
Proof.
  revert a. induction l as [|n l IH]; intros a Ha Hl; simpl; [unfold u64 in Ha; lia|].
  apply Forall_cons_1 in Hl as [Hn Hl]. rewrite IH by auto with toolport.
  pose proof (Zsum_nonneg l Hl). unfold sat_add, u64 in *. lia.
Qed.

Lemma add_tokens_spec team rows o s :
  (forall t, is_Some (rows !! t) -> t ∈ team) ->
  let rows' := foldl (add_tokens team) rows o in
  (forall t, is_Some (rows' !! t) -> t ∈ team) /\
  (s ∈ team -> calls (row_of rows' s) = calls (row_of rows s) /\
   tokens_saved (row_of rows' s) = foldl sat_add (tokens_saved (row_of rows s))
     (map (fun kv => default 0 (as_u64 kv.2)) (List.filter (fun kv => String.eqb kv.1 s) o))).
Proof.
  revert rows. induction o as [|[k v] o IH]; intros rows Hteam; [done|].
  cbn [foldl List.filter fst]. unfold add_tokens at 2 4 6. case_bool_decide as Hk.
  - destruct (IH (<[k := {| calls := calls (row_of rows k);
      tokens_saved := sat_add (tokens_saved (row_of rows k)) (default 0 (as_u64 v)) |}]> rows))
      as [Hd Hv].
    { intros t [<-|[_ ?]]%lookup_insert_is_Some; [done|by apply Hteam]. }
    split; [done|]. intros Hs. destruct (Hv Hs) as [Hc Ht]. unfold row_of in *. rewrite Hc, Ht.
    destruct (String.eqb_spec k s) as [->|Hne].
    + by rewrite lookup_insert_eq.
    + by rewrite lookup_insert_ne.
  - destruct (IH rows Hteam) as [Hd Hv]. split; [done|]. intros Hs.
    destruct (String.eqb_spec k s) as [->|Hne]; [done|]. by apply Hv.
Qed.

Lemma add_savings_spec team rows l s :
  (forall t, is_Some (rows !! t) -> t ∈ team) ->
  let rows' := foldl (add_savings team) rows l in
  (forall t, is_Some (rows' !! t) -> t ∈ team) /\
  (s ∈ team -> calls (row_of rows' s) = calls (row_of rows s) /\
   tokens_saved (row_of rows' s) =
     foldl sat_add (tokens_saved (row_of rows s)) (concat (map (line_tokens s) l))).
Proof.
  revert rows. induction l as [|e l IH]; intros rows Hteam; [done|].
  cbn [foldl map concat]. rewrite foldl_app.
  unfold add_savings at 2 4 6. unfold line_tokens at 1.
  destruct (v ← get "byServer" e; as_object v) as [o|]; [|by apply IH].
  destruct (add_tokens_spec team rows o s Hteam) as [Hd Hv].
  destruct (IH _ Hd) as [Hd' Hv']. split; [done|]. intros Hs.
  destruct (Hv Hs) as [Hc Ht]. destruct (Hv' Hs) as [Hc' Ht']. by rewrite Hc', Hc, Ht', Ht.
Qed.

(** The report counts what it says.  Only servers of the team get a row; a
    team server's row holds the number of routed tool-call lines of that UTC day
    that name it, failed ones included and governance lines excluded, and the
    sum of the token figures of the day's savings lines, saturated at 2^64-1. *)
Theorem rollup_counts day audit_lines savings_lines team s :
  Forall (fun e => Forall (fun n => 0 <= n) (line_tokens s e)) savings_lines ->
  let rows := rollup day audit_lines savings_lines team in
  (s ∉ team -> rows !! s = None) /\
  (s ∈ team ->
   calls (row_of rows s) =
     Z.of_nat (length (List.filter (counts_call s) (List.filter (ts_day day) audit_lines))) /\
   tokens_saved (row_of rows s) =
     Z.min (Zsum (concat (map (line_tokens s) (List.filter (savings_day day) savings_lines))))
       u64_max).
Proof.
  intros Htok rows.
  destruct (count_calls_spec team ∅ (List.filter (ts_day day) audit_lines) s) as [Hd Hv].
  { intros t [x Hx]. by rewrite lookup_empty in Hx. }
  destruct (add_savings_spec team _ (List.filter (savings_day day) savings_lines) s Hd)
    as [Hd' Hv']. split.
  - intros Hs. apply eq_None_not_Some. intros H. apply Hs, Hd', H.
  - intros Hs. destruct (Hv Hs) as [Hc Ht]. destruct (Hv' Hs) as [Hc' Ht'].
    assert (row_of ∅ s = empty_row) as E by (unfold row_of; by rewrite lookup_empty).
    unfold rows, rollup. rewrite Hc', Ht', Hc, Ht, E. split; [done|].
    rewrite sat_add_sum; [done|unfold u64, u64_max; simpl; lia|].
    apply Forall_concat, Forall_map, Forall_forall. intros e He.
    apply list_elem_of_In, filter_In in He as [He _].
    rewrite Forall_forall in Htok. apply Htok. by apply list_elem_of_In.
Qed.

End Usage.

(** ** Witnesses *)

Definition demo_audit : list json :=
  [JObject [("ok", JBool true); ("server", JString "github"); ("ts", JNumber (PosInt 1783470600000))];
   JObject [("ok", JBool false); ("server", JString "github"); ("ts", JNumber (PosInt 1783470660000))];
   JObject [("kind", JString "approval"); ("ok", JBool true); ("server", JString "github");
            ("ts", JNumber (PosInt 1783470660000))]].

Definition demo_savings : list json :=
  [JObject [("byServer", JObject [("github", JNumber (PosInt 120)); ("home", JNumber (PosInt 7))]);
            ("ts", JNumber (PosInt 1783470600000))]].

Lemma rollup_counts_witness :
  Usage.row_of (Usage.rollup "2026-07-08" demo_audit demo_savings {["github"]}) "github" =
  {| Usage.calls := 2; Usage.tokens_saved := 120 |}.
Proof.
  destruct (Usage.rollup_counts "2026-07-08" demo_audit demo_savings {["github"]} "github")
    as [_ H].
  - repeat constructor; vm_compute; congruence.
  - destruct H as [Hc Ht]; [set_solver|].
    destruct (Usage.row_of _ _) as [c t]. cbn [Usage.calls Usage.tokens_saved] in Hc, Ht.
    rewrite Hc, Ht. vm_compute. reflexivity.
Defined.
