(* ===== verification/RateLimits.v ===== *)
(** Tool-call rate limits (src/rate_limits.rs): calendar-window caps whose
    counters are shared by every gateway process through one file.

    serde's encoding of the counter file is a parameter; the file system is a map
    from paths to contents, and an operation's I/O errors and clock readings are
    its arguments.  The file lock spans each read-merge-write, so one operation
    is one step on the file system. *)

From S2P Require Import Prelude Text Json Usage.

Module RateLimits.

Record Cap := mk_cap {
  id : string;
  window : string;
  max_calls : Z;
  tool : option string;
  unknown_fields : list (string * json)
}.

(** One entry of [rateLimits]; [None] is skipped. *)
Definition parse_cap (v : json) : option Cap :=
  let id := default "" (x ← get "id" v; as_str x) in
  let window := to_ascii_lowercase (default "" (x ← get "window" v; as_str x)) in
  if negb (String.eqb window "day" || String.eqb window "month") then None
  else
    let max := default 0 (x ← (match get "maxCalls" v with
                               | Some x => Some x | None => get "max_calls" v end); as_u64 x) in
    if max =? 0 then None
    else
      let tool := match trim <$> (x ← get "tool" v; as_str x) with
                  | Some t => if String.eqb t "" then None else Some t
                  | None => None
                  end in
      Some {| id := if String.eqb id ""
                    then "anon-" +:+ window +:+ "-" +:+ pretty max +:+ "-" +:+ default "*" tool
                    else id;
              window := window; max_calls := max; tool := tool; unknown_fields := [] |}.

Definition parse_caps (team_cfg : json) : list Cap :=
  match a ← get "rateLimits" team_cfg; as_array a with
  | Some arr => omap parse_cap arr
  | None => []
  end.

Definition tool_matches (cap_tool server_id orig_tool : string) : bool :=
  String.eqb cap_tool orig_tool ||
  String.eqb cap_tool (server_id +:+ "__" +:+ orig_tool) ||
  bool_decide ((s ← strip_suffix orig_tool cap_tool; strip_suffix "/" s) = Some server_id).

Definition ymd_from_ms (ms : Z) : Z * Z * Z := Usage.civil_from_days (ms / 86400000).

(** [window_key], with the clock reading it takes. *)
Definition window_key (window : string) (ms : Z) : string :=
  let '(y, m, d) := ymd_from_ms ms in
  if String.eqb window "month" then zero_pad 4 y +:+ "-" +:+ zero_pad 2 m
  else zero_pad 4 y +:+ "-" +:+ zero_pad 2 m +:+ "-" +:+ zero_pad 2 d.

Definition counter_key (window : string) (tool : option string) (ms : Z) : string :=
  window +:+ ":" +:+ window_key window ms +:+ ":" +:+ default "*" tool.

Abbreviation CounterFile := (gmap string Z).

Record CounterState := mk_state {
  path : option string;
  file : CounterFile;
  pending_merge : bool
}.

(** The clock readings of one operation: two for each prune, one for each cap
    when it is checked and one when it is counted. *)
Record Clock := mk_clock {
  prune_day : Z;
  prune_month : Z;
  merge_day : Z;
  merge_month : Z;
  check_at : nat -> Z;
  count_at : nat -> Z
}.

(** The I/O errors one operation meets. *)
Record IO := mk_io {
  lock_err : option string;
  read_err : option string;
  merge_write_err : option string;
  write_err : option string
}.

Definition keep_key (day month k : string) : bool :=
  match strip_prefix "day:" k with
  | Some rest => starts_with day rest
  | None =>
      match strip_prefix "month:" k with
      | Some rest => starts_with month rest
      | None => false
      end
  end.

Definition prune (day_ms month_ms : Z) (file : CounterFile) : CounterFile :=
  let day := window_key "day" day_ms in
  let month := window_key "month" month_ms in
  filter (fun kv => keep_key day month kv.1 = true) file.

(** [for (key, pending) in counts { entry(key).or_insert(0) += pending }], saturating. *)
Definition merge (pending disk : CounterFile) : CounterFile :=
  fold_entries sat_add pending disk.

Section io.
(** serde_json on [CounterFile]. *)
Context {codec : Codec CounterFile}.

Abbreviation fs := (gmap string string).

Definition load_file (io : IO) (path : string) (disk : fs) : result CounterFile string :=
  match read_err io with
  | Some e => Err ("Toolport could not read rate-limit counters; refusing the call: " +:+ e)
  | None =>
      match disk !! path with
      | None => Ok ∅
      | Some raw =>
          match serde_decode raw with
          | Ok file => Ok file
          | Err e => Err ("Toolport rate-limit counters cannot be parsed; refusing the call rather than resetting usage: " +:+ e)
          end
      end
  end.

Definition save_file (err : option string) (path : string) (file : CounterFile) (disk : fs) :
    result fs string :=
  match err with
  | Some e => Err ("Could not persist rate-limit counters: " +:+ e)
  | None => Ok (<[path := serde_encode file]> disk)
  end.

Definition lock_counters (io : IO) : result unit string :=
  match lock_err io with
  | Some e => Err ("Toolport rate-limit counters are busy; try again (" +:+ e +:+ ")")
  | None => Ok tt
  end.

(** Under the lock: re-read the file, prune it, and merge the calls accepted
    before the directory was known. *)
Definition refresh (t : Clock) (io : IO) (path' : string) (disk : fs) (st : CounterState) :
    fs * CounterState * result unit string :=
  match load_file io path' disk with
  | Err e => (disk, st, Err e)
  | Ok counts =>
      let counts := prune (prune_day t) (prune_month t) counts in
      if pending_merge st then
        let pending := prune (merge_day t) (merge_month t) (file st) in
        let counts := merge pending counts in
        match save_file (merge_write_err io) path' counts disk with
        | Err e => (disk, {| path := path st; file := pending; pending_merge := true |}, Err e)
        | Ok disk => (disk, {| path := path st; file := counts; pending_merge := false |}, Ok tt)
        end
      else (disk, {| path := path st; file := counts; pending_merge := false |}, Ok tt)
  end.

Definition sync_bound_state (t : Clock) (io : IO) (disk : fs) (st : CounterState) :
    fs * CounterState * result unit string :=
  match path st with
  | None => (disk, st, Ok tt)
  | Some p =>
      match lock_counters io with
      | Err e => (disk, st, Err e)
      | Ok _ => refresh t io p disk st
      end
  end.

Definition COUNTERS_FILE : string := "rate_limit_counters.json".

(** [None] is the state of a process that has not used the counters yet. *)
Definition bind_data_dir (t : Clock) (io : IO) (dir : string) (disk : fs)
    (guard : option CounterState) : fs * option CounterState :=
  let p := dir +:+ "/" +:+ COUNTERS_FILE in
  match guard with
  | Some st =>
      match path st with
      | Some _ => (disk, guard)
      | None =>
          let st := {| path := Some p; file := file st;
                       pending_merge := negb (bool_decide (file st = ∅)) |} in
          let '(disk, st, _) := sync_bound_state t io disk st in (disk, Some st)
      end
  | None =>
      let '(disk, st, _) :=
        sync_bound_state t io disk {| path := Some p; file := ∅; pending_merge := false |} in
      (disk, Some st)
  end.

Definition applicable (caps : list Cap) (server_id orig_tool : string) : list Cap :=
  List.filter (fun c => match tool c with
                   | None => true
                   | Some t => tool_matches t server_id orig_tool
                   end) caps.

Definition limit_message (cap : Cap) (used : Z) : string :=
  "Toolport: org rate limit reached for " +:+
  match tool cap with Some t => "tool `" +:+ t +:+ "`" | None => "all tools" end +:+
  " (" +:+ pretty used +:+ "/" +:+ pretty (max_calls cap) +:+ " calls " +:+
  (if String.eqb (window cap) "month" then "this month" else "today") +:+
  "). Ask a team admin to raise the cap, or wait for the next window.".

(** The first cap that is already at its maximum. *)
Fixpoint check_caps (counts : CounterFile) (check_at : nat -> Z) (i : nat) (caps : list Cap) :
    result unit string :=
  match caps with
  | [] => Ok tt
  | cap :: caps =>
      let used := default 0 (counts !! counter_key (window cap) (tool cap) (check_at i)) in
      if max_calls cap <=? used then Err (limit_message cap used)
      else check_caps counts check_at (S i) caps
  end.

(** Every distinct counter is incremented once. *)
Fixpoint count_caps (incremented : gset string) (counts : CounterFile) (count_at : nat -> Z)
    (i : nat) (caps : list Cap) : CounterFile :=
  match caps with
  | [] => counts
  | cap :: caps =>
      let key := counter_key (window cap) (tool cap) (count_at i) in
      if bool_decide (key ∈ incremented) then count_caps incremented counts count_at (S i) caps
      else count_caps ({[key]} ∪ incremented)
             (<[key := sat_add (default 0 (counts !! key)) 1]> counts) count_at (S i) caps
  end.

Definition check_and_count (t : Clock) (io : IO) (caps : list Cap) (server_id orig_tool : string)
    (disk : fs) (guard : option CounterState) :
    fs * option CounterState * result unit string :=
  if bool_decide (caps = []) then (disk, guard, Ok tt)
  else
  let caps := applicable caps server_id orig_tool in
  if bool_decide (caps = []) then (disk, guard, Ok tt)
  else
  let st := default {| path := None; file := ∅; pending_merge := false |} guard in
  let '(disk, st, refreshed) :=
    match path st with
    | Some p =>
        match lock_counters io with
        | Err e => (disk, st, Err e)
        | Ok _ => refresh t io p disk st
        end
    | None =>
        (disk, {| path := None; file := prune (prune_day t) (prune_month t) (file st);
                  pending_merge := pending_merge st |}, Ok tt)
    end in
  match refreshed with
  | Err e => (disk, Some st, Err e)
  | Ok _ =>
      match check_caps (file st) (check_at t) 0 caps with
      | Err e => (disk, Some st, Err e)
      | Ok _ =>
          let counts := count_caps ∅ (file st) (count_at t) 0 caps in
          match path st with
          | Some p =>
              let st := {| path := path st; file := counts; pending_merge := pending_merge st |} in
              match save_file (write_err io) p counts disk with
              | Err e => (disk, Some st, Err e)
              | Ok disk => (disk, Some st, Ok tt)
              end
          | None =>
              (disk, Some {| path := None; file := counts; pending_merge := true |}, Ok tt)
          end
      end
  end.

(** ** Counters *)

Definition used (counts : CounterFile) (k : string) : Z := default 0 (counts !! k).
Definition counts_ok (counts : CounterFile) : Prop := map_Forall (fun _ n => u64 n) counts.

Lemma used_u64 counts k : counts_ok counts -> u64 (used counts k).
Proof.
  intros H. unfold used. destruct (counts !! k) eqn:E; simpl; [by eapply H|].
  unfold u64, u64_max. lia.
Qed.

Lemma used_insert_eq counts k n : used (<[k:=n]> counts) k = n.
Proof. unfold used. by rewrite lookup_insert_eq. Qed.

Lemma used_insert_ne counts a k n : a <> k -> used (<[a:=n]> counts) k = used counts k.
Proof. intros H. unfold used. by rewrite lookup_insert_ne. Qed.

Lemma counts_ok_insert counts k n : counts_ok counts -> u64 n -> counts_ok (<[k:=n]> counts).
Proof. intros H Hn. by apply map_Forall_insert_2. Qed.

Lemma counts_ok_prune d m counts : counts_ok counts -> counts_ok (prune d m counts).
Proof. intros H k n [Hk _]%map_lookup_filter_Some. by eapply H. Qed.

Lemma used_prune d m counts k :
  used (prune d m counts) k =
  if keep_key (window_key "day" d) (window_key "month" m) k then used counts k else 0.
Proof.
  unfold used, prune. destruct (keep_key _ _ k) eqn:E.
  - destruct (counts !! k) as [n|] eqn:Ek.
    + by rewrite (proj2 (map_lookup_filter_Some _ _ _ n)).
    + by rewrite (proj2 (map_lookup_filter_None _ _ _)) by auto.
  - rewrite (proj2 (map_lookup_filter_None _ _ _)); [done|]. right. intros n _. simpl. congruence.
Qed.

Lemma merge_lookup pending disk k :
  merge pending disk !! k =
  match pending !! k with
  | Some n => Some (sat_add (default 0 (disk !! k)) n)
  | None => disk !! k
  end.
Proof. apply lookup_fold_entries. Qed.

Lemma merge_ok pending disk :
  counts_ok pending -> counts_ok disk ->
  counts_ok (merge pending disk) /\ forall k, used disk k <= used (merge pending disk) k.
Proof.
  intros Hp Hd. split.
  - intros k n. rewrite merge_lookup. destruct (pending !! k) eqn:E; [|by apply Hd].
    intros [= <-]. apply sat_add_u64; [apply (used_u64 disk k Hd)|by eapply Hp].
  - intros k. unfold used. rewrite merge_lookup. destruct (pending !! k) eqn:E; [|done].
    apply sat_add_ge; [apply (used_u64 disk k Hd)|by eapply Hp].
Qed.

(** The counters a call of [caps] touches, with the clock reading of each. *)
Fixpoint keys_at (f : nat -> Z) (i : nat) (caps : list Cap) : list string :=
  match caps with
  | [] => []
  | cap :: caps => counter_key (window cap) (tool cap) (f i) :: keys_at f (S i) caps
  end.

Lemma keys_at_lookup f i caps j cap :
  caps !! j = Some cap ->
  counter_key (window cap) (tool cap) (f (i + j)%nat) ∈ keys_at f i caps.
Proof.
  revert i j. induction caps as [|c caps IH]; intros i j H; [done|].
  destruct j as [|j]; simpl in *.
  - injection H as ->. rewrite Nat.add_0_r. left.
  - right. replace (i + S j)%nat with (S i + j)%nat by lia. by apply IH.
Qed.

Lemma count_caps_used inc counts f i caps k :
  used (count_caps inc counts f i caps) k =
  if bool_decide (k ∈ keys_at f i caps /\ k ∉ inc) then sat_add (used counts k) 1
  else used counts k.
Proof.
  revert inc counts i. induction caps as [|c caps IH]; intros inc counts i; cbn [count_caps keys_at].
  { rewrite bool_decide_false by (intros [[]%not_elem_of_nil _]). done. }
  set (key := counter_key (window c) (tool c) (f i)).
  destruct (decide (key ∈ inc)) as [Hin|Hin];
    [rewrite (bool_decide_true (key ∈ inc)) by done|rewrite (bool_decide_false (key ∈ inc)) by done];
    rewrite IH.
  - rewrite (bool_decide_ext (k ∈ key :: _ /\ _) (k ∈ keys_at f (S i) caps /\ k ∉ inc)); [done|].
    rewrite elem_of_cons. naive_solver.
  - fold (used counts key). destruct (decide (key = k)) as [<-|Hne].
    + rewrite (bool_decide_false (_ /\ key ∉ {[key]} ∪ inc)) by set_solver.
      rewrite bool_decide_true by (split; [left|done]). by rewrite used_insert_eq.
    + rewrite used_insert_ne by done.
      rewrite (bool_decide_ext (k ∈ key :: _ /\ _)
        (k ∈ keys_at f (S i) caps /\ k ∉ {[key]} ∪ inc)); [done|].
      rewrite elem_of_cons. set_solver.
Qed.

Lemma count_caps_ok inc counts f i caps :
  counts_ok counts -> counts_ok (count_caps inc counts f i caps).
Proof.
  revert inc counts i. induction caps as [|c caps IH]; intros inc counts i H; [done|].
  cbn [count_caps]. case_bool_decide; [by apply IH|]. apply IH, counts_ok_insert; [done|].
  apply sat_add_u64; [apply (used_u64 counts _ H)|lia].
Qed.

Lemma check_caps_spec counts f i caps :
  is_ok (check_caps counts f i caps) = true <->
  forall j cap, caps !! j = Some cap ->
    used counts (counter_key (window cap) (tool cap) (f (i + j)%nat)) < max_calls cap.
Proof.
  revert i. induction caps as [|c caps IH]; intros i; cbn [check_caps]; [by split|].
  fold (used counts (counter_key (window c) (tool c) (f i))).
  destruct (Z.leb_spec (max_calls c) (used counts (counter_key (window c) (tool c) (f i)))) as [H|H].
  - split; [done|]. intros Hall. specialize (Hall O c eq_refl). rewrite Nat.add_0_r in Hall. lia.
  - rewrite IH. split.
    + intros Hall [|j] cap; simpl; [intros [= <-]; by rewrite Nat.add_0_r|].
      intros Hj. replace (i + S j)%nat with (S i + j)%nat by lia. by apply Hall.
    + intros Hall j cap Hj. replace (S i + j)%nat with (i + S j)%nat by lia. by apply Hall.
Qed.

(** ** Operations *)

(** A written file reads back, and counts are [u64]. *)
Context {laws : CodecLaws counts_ok}.

Lemma load_file_ok io p disk counts : load_file io p disk = Ok counts -> counts_ok counts.
Proof.
  unfold load_file. destruct (read_err io); [done|].
  destruct (disk !! p) as [raw|]; [|intros [= <-]; apply map_Forall_empty].
  destruct (serde_decode raw) eqn:E; [|done]. intros [= <-]. by eapply serde_typed.
Qed.

(** The persisted count of a counter is at least [n]; an unreadable file is no
    claim. *)
Definition persisted_ge (p k : string) (n : Z) (disk : fs) : Prop :=
  match disk !! p with
  | None => n <= 0
  | Some raw => forall counts, serde_decode raw = Ok counts -> n <= used counts k
  end.

Lemma persisted_ge_load io p k n disk counts :
  persisted_ge p k n disk -> load_file io p disk = Ok counts -> n <= used counts k.
Proof.
  unfold persisted_ge, load_file. destruct (read_err io); [done|].
  destruct (disk !! p) as [raw|].
  - intros H. destruct (serde_decode raw) eqn:E; [|done]. intros [= <-]. by apply H.
  - intros H [= <-]. unfold used. by rewrite lookup_empty.
Qed.

Lemma persisted_ge_save err p k n counts disk disk' :
  counts_ok counts -> n <= used counts k ->
  save_file err p counts disk = Ok disk' -> persisted_ge p k n disk'.
Proof.
  unfold save_file, persisted_ge. intros Hok Hn. destruct err; [done|]. intros [= <-].
  rewrite lookup_insert_eq. intros c. rewrite serde_roundtrip by done. by intros [= <-].
Qed.

Lemma save_file_frame err p p' counts disk disk' :
  p <> p' -> save_file err p counts disk = Ok disk' -> disk' !! p' = disk !! p'.
Proof.
  unfold save_file. intros Hne. destruct err; [done|]. intros [= <-]. by rewrite lookup_insert_ne.
Qed.

(** A counter that is current at every prune of an operation. *)
Definition current (t : Clock) (k : string) : Prop :=
  keep_key (window_key "day" (prune_day t)) (window_key "month" (prune_month t)) k = true.

(** The state an operation leaves: [u64] counts in memory, the same path, and,
    for the file at [p], no count of [k] lost. *)
Lemma refresh_spec t io q disk st p k n :
  counts_ok (file st) -> persisted_ge p k n disk -> current t k ->
  let '(disk', st', r) := refresh t io q disk st in
  counts_ok (file st') /\ path st' = path st /\ persisted_ge p k n disk' /\
  (r = Ok tt -> pending_merge st' = false /\ (q = p -> n <= used (file st') k)).
Proof.
  intros Hst Hp Hk. unfold refresh.
  destruct (load_file io q disk) as [counts|e] eqn:El; [|done].
  pose proof (load_file_ok _ _ _ _ El) as Hc.
  pose proof (counts_ok_prune (prune_day t) (prune_month t) counts Hc) as Hpr.
  set (counts' := prune _ _ counts) in *.
  assert (Hn : q = p -> n <= used counts' k).
  { intros ->. unfold counts'. rewrite used_prune, Hk. by eapply persisted_ge_load. }
  destruct (pending_merge st); [|done].
  pose proof (counts_ok_prune (merge_day t) (merge_month t) _ Hst) as Hpp.
  destruct (merge_ok _ _ Hpp Hpr) as [Hm1 Hm2].
  destruct (save_file _ q _ disk) as [disk'|e] eqn:Es; [|done].
  cbn [file path pending_merge].
  assert (Hn' : q = p -> n <= used (merge (prune (merge_day t) (merge_month t) (file st)) counts') k)
    by (intros E; specialize (Hn E); specialize (Hm2 k); lia).
  split_and!; try done.
  destruct (decide (q = p)) as [->|Hne].
  - eapply persisted_ge_save; [apply Hm1|by apply Hn'|done].
  - unfold persisted_ge. by rewrite (save_file_frame _ _ _ _ _ _ Hne Es).
Qed.

Lemma bind_spec t io dir disk guard p k n :
  (forall st, guard = Some st -> counts_ok (file st)) -> persisted_ge p k n disk -> current t k ->
  let '(disk', guard') := bind_data_dir t io dir disk guard in
  persisted_ge p k n disk' /\ forall st, guard' = Some st -> counts_ok (file st).
Proof.
  intros Hg Hp Hk. unfold bind_data_dir.
  assert (Hsync : forall st, counts_ok (file st) ->
    let '(disk', st', _) := sync_bound_state t io disk st in
    persisted_ge p k n disk' /\ counts_ok (file st')).
  { intros st Hst. unfold sync_bound_state. destruct (path st) as [q|]; [|done].
    destruct (lock_counters io); [|done].
    pose proof (refresh_spec t io q disk st p k n Hst Hp Hk) as H.
    destruct (refresh _ _ _ _ _) as [[??]?]. naive_solver. }
  destruct guard as [st|].
  - destruct (path st); [done|].
    specialize (Hsync {| path := Some (dir +:+ "/" +:+ COUNTERS_FILE); file := file st;
                         pending_merge := negb (bool_decide (file st = ∅)) |} (Hg st eq_refl)).
    destruct (sync_bound_state _ _ _ _) as [[??]?]. naive_solver.
  - specialize (Hsync {| path := Some (dir +:+ "/" +:+ COUNTERS_FILE); file := ∅;
                         pending_merge := false |} (map_Forall_empty _)).
    destruct (sync_bound_state _ _ _ _) as [[??]?]. naive_solver.
Qed.

(** A call that finds its file readable and its counters settled. *)
Definition fresh_counts (t : Clock) (io : IO) (p : string) (disk : fs) (st : CounterState)
    (counts : CounterFile) : Prop :=
  path st = Some p /\ pending_merge st = false /\ lock_err io = None /\
  exists raw_counts, load_file io p disk = Ok raw_counts /\
    counts = prune (prune_day t) (prune_month t) raw_counts.

Lemma check_and_count_fresh t io caps server_id orig_tool disk st p counts :
  fresh_counts t io p disk st counts -> caps <> [] -> applicable caps server_id orig_tool <> [] ->
  let app := applicable caps server_id orig_tool in
  let st' := {| path := path st; file := counts; pending_merge := false |} in
  check_and_count t io caps server_id orig_tool disk (Some st) =
  match check_caps counts (check_at t) 0 app with
  | Err e => (disk, Some st', Err e)
  | Ok _ =>
      let counts' := count_caps ∅ counts (count_at t) 0 app in
      let st'' := {| path := path st; file := counts'; pending_merge := false |} in
      match save_file (write_err io) p counts' disk with
      | Err e => (disk, Some st'', Err e)
      | Ok disk' => (disk', Some st'', Ok tt)
      end
  end.
Proof.
  intros (Hp & Hm & Hl & raw & Hraw & ->) Hc Ha app st'. unfold check_and_count.
  rewrite !bool_decide_false by done. fold app. cbn [from_option Datatypes.id].
  rewrite Hp. unfold lock_counters. rewrite Hl. unfold refresh.
  cbv beta iota. rewrite ?Hp. cbv beta iota. rewrite Hraw, Hm.
  cbn [file path pending_merge]. unfold st'. rewrite Hp.
  destruct (check_caps _ _ 0 app); [|done]. destruct (save_file _ _ _ _); done.
Qed.

(** A call is decided against the shared file and charged once.  With the
    file readable, it is admitted exactly when every cap that applies to it is
    below its maximum; an admitted call adds one to each distinct counter of its
    caps and to no other, and the file read back holds exactly the new counts; a
    refused call changes nothing on disk. *)
Theorem check_and_count_decides t io caps server_id orig_tool disk st p counts :
  fresh_counts t io p disk st counts -> write_err io = None ->
  caps <> [] -> applicable caps server_id orig_tool <> [] ->
  let app := applicable caps server_id orig_tool in
  let '(disk', guard', r) := check_and_count t io caps server_id orig_tool disk (Some st) in
  (is_ok r = true <-> forall j cap, app !! j = Some cap ->
     used counts (counter_key (window cap) (tool cap) (check_at t j)) < max_calls cap) /\
  if is_ok r
  then exists counts', disk' = <[p := serde_encode counts']> disk /\ serde_decode (serde_encode counts') = Ok counts' /\
         forall k, used counts' k = if bool_decide (k ∈ keys_at (count_at t) 0 app)
                                    then sat_add (used counts k) 1 else used counts k
  else disk' = disk.
Proof.
  intros Hf Hw Hc Ha app. rewrite (check_and_count_fresh _ _ _ _ _ _ _ _ _ Hf Hc Ha).
  fold app. pose proof (check_caps_spec counts (check_at t) 0 app) as Hcheck. cbn in Hcheck.
  assert (Hok : counts_ok counts).
  { destruct Hf as (_ & _ & _ & raw & Hraw & ->). by eapply counts_ok_prune, load_file_ok. }
  destruct (check_caps counts (check_at t) 0 app) as [[]|e]; unfold save_file; rewrite ?Hw;
    (split; [exact Hcheck|]); [|done].
  eexists. split; [done|]. split; [by apply serde_roundtrip, count_caps_ok|].
  intros k. rewrite count_caps_used. by rewrite (bool_decide_ext _ (k ∈ keys_at (count_at t) 0 app))
    by set_solver.
Qed.

(** Unreadable usage refuses the call.  When a cap applies and the counter
    file cannot be read, is not a counter file, or is locked by others, the call
    is an error and neither the file nor the counters in memory change: a corrupt
    file never resets a budget. *)
Theorem unreadable_counters_refuse t io caps server_id orig_tool disk st p :
  path st = Some p -> caps <> [] -> applicable caps server_id orig_tool <> [] ->
  is_ok (load_file io p disk) = false \/ is_Some (lock_err io) ->
  exists e, check_and_count t io caps server_id orig_tool disk (Some st) =
            (disk, Some st, Err e).
Proof.
  intros Hp Hc Ha Hbad. unfold check_and_count. rewrite !bool_decide_false by done.
  cbn [from_option Datatypes.id]. rewrite Hp. unfold lock_counters.
  destruct (lock_err io) as [e|]; [by eexists|].
  destruct Hbad as [Hbad|[? ?]]; [|done]. unfold refresh.
  destruct (load_file io p disk); [done|]. by eexists.
Qed.

(** The same operation on any state: what a later call can rely on. *)
Lemma check_and_count_spec t io caps server_id orig_tool disk guard p k n :
  (forall st, guard = Some st -> counts_ok (file st)) -> persisted_ge p k n disk -> current t k ->
  let '(disk', guard', r) := check_and_count t io caps server_id orig_tool disk guard in
  (forall st, guard' = Some st -> counts_ok (file st)) /\ persisted_ge p k n disk' /\
  forall cap j, r = Ok tt -> (guard ≫= path) = Some p ->
    applicable caps server_id orig_tool !! j = Some cap ->
    k = counter_key (window cap) (tool cap) (check_at t j) ->
    k = counter_key (window cap) (tool cap) (count_at t j) -> max_calls cap <= u64_max ->
    n < max_calls cap /\ persisted_ge p k (n + 1) disk'.
Proof.
  intros Hg Hp Hk. unfold check_and_count. case_bool_decide as Hc; [by subst|].
  case_bool_decide as Ha; [rewrite Ha; done|].
  set (app := applicable caps server_id orig_tool) in *. set (st := default _ guard).
  assert (Hst : counts_ok (file st))
    by (destruct guard; [by apply Hg|apply map_Forall_empty]).
  assert (Hpath : (guard ≫= path) = path st) by (by destruct guard). rewrite Hpath.
  destruct (path st) as [q|] eqn:Eq.
  - destruct (lock_counters io) as [[]|e]; [|naive_solver].
    pose proof (refresh_spec t io q disk st p k n Hst Hp Hk) as H.
    destruct (refresh t io q disk st) as [[disk1 st1] r1].
    destruct H as (Hf1 & Hp1 & Hd1 & Hr1). rewrite Hp1, Eq.
    destruct r1 as [[]|e]; [|naive_solver]. destruct (Hr1 eq_refl) as [_ Hn].
    pose proof (check_caps_spec (file st1) (check_at t) 0 app) as Hcheck. cbn in Hcheck.
    destruct (check_caps (file st1) (check_at t) 0 app) as [[]|e]; [|naive_solver].
    set (counts := count_caps ∅ (file st1) (count_at t) 0 app).
    pose proof (count_caps_ok ∅ _ (count_at t) 0 app Hf1) as Hcok. fold counts in Hcok.
    destruct (save_file (write_err io) q counts disk1) as [disk2|e] eqn:Es;
      [|split_and!; naive_solver].
    assert (Hused : forall k, used (file st1) k <= used counts k).
    { intros k'. unfold counts. rewrite count_caps_used. case_bool_decide; [|done].
      apply sat_add_ge; [by apply used_u64|lia]. }
    split_and!; [naive_solver| |].
    + destruct (decide (q = p)) as [->|Hne].
      * eapply persisted_ge_save; [done| |exact Es]. specialize (Hn eq_refl).
        specialize (Hused k). lia.
      * unfold persisted_ge. by rewrite (save_file_frame _ _ _ _ _ _ Hne Es).
    + intros cap j _ [= ->] Hj Hk1 Hk2 Hmax. specialize (Hn eq_refl).
      pose proof (proj1 Hcheck eq_refl j cap Hj) as Hlt. rewrite <- Hk1 in Hlt.
      split; [lia|]. eapply persisted_ge_save; [done| |exact Es].
      unfold counts. rewrite count_caps_used. rewrite bool_decide_true.
      * pose proof (used_u64 (file st1) k Hf1). unfold sat_add, u64 in *. lia.
      * split; [|set_solver]. rewrite Hk2. by apply (keys_at_lookup (count_at t) 0).
  - pose proof (counts_ok_prune (prune_day t) (prune_month t) _ Hst) as Hpr.
    destruct (check_caps _ _ _ _) as [[]|e]; cbn [path]; [|naive_solver].
    split_and!; [|done|naive_solver]. intros ? [= <-]. by apply count_caps_ok.
Qed.

(** ** Many processes, one file *)

(** What the gateways of one machine do to the counters. *)
Inductive event :=
| EBind (pid : string) (t : Clock) (io : IO) (dir : string)
| ECall (pid : string) (t : Clock) (io : IO) (caps : list Cap) (server_id orig_tool : string).

Definition system : Type := fs * gmap string CounterState.

Definition clock_of (e : event) : Clock :=
  match e with EBind _ t _ _ => t | ECall _ t _ _ _ _ => t end.

(** One event; the boolean says whether it is a call that cap [c] constrains,
    made by a process bound to [p], and admitted. *)
Definition exec (p : string) (c : Cap) (s : system) (e : event) : system * bool :=
  let (disk, procs) := s in
  let put pid guard := match guard with Some st => <[pid := st]> procs | None => procs end in
  match e with
  | EBind pid t io dir =>
      let (disk, guard) := bind_data_dir t io dir disk (procs !! pid) in
      ((disk, put pid guard), false)
  | ECall pid t io caps server_id orig_tool =>
      let '(disk, guard, r) := check_and_count t io caps server_id orig_tool disk (procs !! pid) in
      ((disk, put pid guard),
       is_ok r && bool_decide ((procs !! pid ≫= path) = Some p) &&
       existsb (fun c' => String.eqb (window c') (window c) && bool_decide (tool c' = tool c)
                          && (max_calls c' =? max_calls c))
         (applicable caps server_id orig_tool))
  end.

Fixpoint admitted (p : string) (c : Cap) (s : system) (es : list event) : Z :=
  match es with
  | [] => 0
  | e :: es => let (s, ok) := exec p c s e in (if ok then 1 else 0) + admitted p c s es
  end.

(** Every clock reading of the event is in window [w] of the cap. *)
Definition in_window (c : Cap) (w : string) (t : Clock) : Prop :=
  window_key (window c) (prune_day t) = w /\ window_key (window c) (prune_month t) = w /\
  (forall i, window_key (window c) (check_at t i) = w) /\
  (forall i, window_key (window c) (count_at t i) = w).

Definition procs_ok (s : system) : Prop := map_Forall (fun _ st => counts_ok (file st)) s.2.

Lemma in_window_current c w t :
  window c = "day" \/ window c = "month" -> in_window c w t ->
  current t (window c +:+ ":" +:+ w +:+ ":" +:+ default "*" (tool c)).
Proof.
  intros Hw (H1 & H2 & _). unfold current, keep_key. destruct Hw as [Hw|Hw]; rewrite Hw in *.
  - rewrite H1. change ("day" +:+ ":" +:+ ?r) with ("day:" +:+ r).
    rewrite (proj2 (strip_prefix_spec "day:" _ _) eq_refl). apply prefix_app.
  - rewrite H2. change ("month" +:+ ":" +:+ ?r) with ("month:" +:+ r).
    rewrite (proj2 (strip_prefix_spec "month:" _ _) eq_refl). apply prefix_app.
Qed.

Lemma exec_spec p c w s e n :
  window c = "day" \/ window c = "month" -> max_calls c <= u64_max -> in_window c w (clock_of e) ->
  let k := window c +:+ ":" +:+ w +:+ ":" +:+ default "*" (tool c) in
  procs_ok s -> persisted_ge p k n s.1 ->
  let (s', ok) := exec p c s e in
  procs_ok s' /\ persisted_ge p k (if ok then n + 1 else n) s'.1 /\
  (ok = true -> n < max_calls c).
Proof.
  intros Hw Hmax Hin k Hprocs Hp. pose proof (in_window_current c w _ Hw Hin) as Hcur. fold k in Hcur.
  destruct s as [disk procs]. unfold procs_ok in *. cbn [fst snd] in *.
  destruct e as [pid t io dir|pid t io caps sv tl]; cbn [exec clock_of] in *.
  - pose proof (bind_spec t io dir disk (procs !! pid) p k n
      (fun st E => Hprocs pid st E) Hp Hcur) as H.
    destruct (bind_data_dir t io dir disk (procs !! pid)) as [disk' guard'].
    destruct H as [Hd Hg]. cbn [fst snd]. split_and!; [|done|done].
    destruct guard'; [|done]. apply map_Forall_insert_2; [by apply Hg|done].
  - pose proof (check_and_count_spec t io caps sv tl disk (procs !! pid) p k n
      (fun st E => Hprocs pid st E) Hp Hcur) as H.
    destruct (check_and_count t io caps sv tl disk (procs !! pid)) as [[disk' guard'] r].
    destruct H as (Hg & Hd & Hadm). cbn [fst snd].
    split; [destruct guard'; [apply map_Forall_insert_2; [by apply Hg|done]|done]|].
    destruct (is_ok r && _ && _) eqn:E; [|split; [done|done]].
    apply andb_prop in E as [[Er Epath]%andb_prop Ecap].
    apply existsb_exists in Ecap as (cap & Hcap & E).
    apply andb_prop in E as [[Ew%String.eqb_eq Et%bool_decide_eq_true]%andb_prop Em%Z.eqb_eq].
    apply list_elem_of_In, list_elem_of_lookup in Hcap as [j Hj].
    destruct Hin as (_ & _ & Hchk & Hcnt).
    destruct (Hadm cap j) as [Hlt Hge]; [by destruct r as [[]|]|by apply bool_decide_eq_true in Epath
      |done|unfold k, counter_key; by rewrite Ew, Et, Hchk
      |unfold k, counter_key; by rewrite Ew, Et, Hcnt|lia|].
    rewrite Em in Hlt. done.
Qed.

(** C21. A cap is never exceeded.  Take any interleaving of binds and calls of any
    number of gateway processes sharing the counter file [p], with any I/O
    failures, all within one window of a day or month cap [c]: the calls that [c]
    constrains and that processes bound to the file admit number at most
    [max_calls c]. *)
Theorem cap_never_exceeded p c w s es :
  window c = "day" \/ window c = "month" -> 0 <= max_calls c <= u64_max ->
  Forall (fun e => in_window c w (clock_of e)) es -> procs_ok s ->
  admitted p c s es <= max_calls c.
Proof.
  intros Hw Hmax Hin Hprocs.
  set (k := window c +:+ ":" +:+ w +:+ ":" +:+ default "*" (tool c)).
  assert (H : forall n, 0 <= n <= max_calls c -> persisted_ge p k n s.1 ->
    n + admitted p c s es <= max_calls c).
  { revert s Hprocs. induction Hin as [|e es He Hin IH]; intros s Hprocs n Hn Hp; cbn [admitted];
      [lia|].
    pose proof (exec_spec p c w s e n Hw ltac:(lia) He Hprocs Hp) as Hx.
    destruct (exec p c s e) as [s' ok]. destruct Hx as (Hprocs' & Hp' & Hlt). fold k in Hp'.
    destruct ok.
    - specialize (Hlt eq_refl). specialize (IH s' Hprocs' (n + 1) ltac:(lia) Hp'). lia.
    - specialize (IH s' Hprocs' n Hn Hp'). lia. }
  specialize (H 0 ltac:(lia)). rewrite Z.add_0_l in H. apply H.
  unfold persisted_ge. destruct (s.1 !! p) as [raw|]; [|done].
  intros counts E. apply (used_u64 counts k). by eapply serde_typed.
Qed.

End io.
End RateLimits.

(** ** Witnesses *)

#[global] Instance counts_ok_dec counts : Decision (RateLimits.counts_ok counts).
Proof. unfold RateLimits.counts_ok, u64. apply _. Defined.

#[local] Instance demo_codec : Codec RateLimits.CounterFile := bits_codec RateLimits.counts_ok.
#[local] Instance demo_codec_laws : CodecLaws RateLimits.counts_ok :=
  bits_codec_laws RateLimits.counts_ok.

Definition demo_clock (ms : Z) : RateLimits.Clock :=
  {| RateLimits.prune_day := ms; RateLimits.prune_month := ms; RateLimits.merge_day := ms;
     RateLimits.merge_month := ms; RateLimits.check_at := fun _ => ms;
     RateLimits.count_at := fun _ => ms |}.

Definition demo_io : RateLimits.IO :=
  {| RateLimits.lock_err := None; RateLimits.read_err := None;
     RateLimits.merge_write_err := None; RateLimits.write_err := None |}.

Definition demo_cap : RateLimits.Cap :=
  {| RateLimits.id := "cap"; RateLimits.window := "day"; RateLimits.max_calls := 1;
     RateLimits.tool := None; RateLimits.unknown_fields := [] |}.

Definition demo_proc : RateLimits.CounterState :=
  {| RateLimits.path := Some "d/counters"; RateLimits.file := ∅;
     RateLimits.pending_merge := false |}.

Definition demo_now : Z := 1783470600000.

Lemma check_and_count_decides_witness :
  let '(_, _, r) := RateLimits.check_and_count (demo_clock demo_now) demo_io
    [demo_cap] "github" "list" ∅ (Some demo_proc) in is_ok r = true.
Proof.
  pose proof (RateLimits.check_and_count_decides (demo_clock demo_now) demo_io [demo_cap] "github" "list" ∅ demo_proc
    "d/counters" ∅) as H.
  destruct (RateLimits.check_and_count _ _ _ _ _ _ _) as [[disk' guard'] r].
  apply H; [|done..|].
  - split_and!; [done..|]. exists ∅. split; [done|]. vm_compute. reflexivity.
  - intros [|[]] cap [= <-]. vm_compute. reflexivity.
Defined.

Lemma unreadable_counters_refuse_witness :
  exists e, RateLimits.check_and_count (demo_clock demo_now) demo_io
    [demo_cap] "github" "list" {["d/counters" := "{"]} (Some demo_proc) =
    ({["d/counters" := "{"]}, Some demo_proc, Err e).
Proof.
  apply (RateLimits.unreadable_counters_refuse (demo_clock demo_now)
    demo_io [demo_cap] "github" "list" _ demo_proc "d/counters"); [done|done|done|].
  left. vm_compute. reflexivity.
Defined.

Lemma cap_never_exceeded_witness :
  RateLimits.admitted "d/counters" demo_cap
    (∅, {["g1" := demo_proc; "g2" := demo_proc]})
    [RateLimits.ECall "g1" (demo_clock demo_now) demo_io [demo_cap] "github" "list";
     RateLimits.ECall "g2" (demo_clock demo_now) demo_io [demo_cap] "github" "list"] <= 1.
Proof.
  apply (RateLimits.cap_never_exceeded
    "d/counters" demo_cap "2026-07-08").
  - by left.
  - vm_compute. split; congruence.
  - repeat constructor; intros; vm_compute; reflexivity.
  - unfold RateLimits.procs_ok. cbn [snd].
    repeat (apply map_Forall_insert_2; [apply map_Forall_empty|]). apply map_Forall_empty.
Defined.
