(* ===== verification/Backoff.v ===== *)
(** Shared 429 backoff (src/downstream_backoff.rs, with [retry_after_delay] and
    [backoff_delay] of src/downstream.rs): gateway processes publish
    retry-not-before times per provider in one file and consult it before they
    send.

    URL parsing, serde and HTTP-date parsing are parameters; clock readings and
    I/O outcomes are arguments.  A [Duration] is a number of nanoseconds. *)

From S2P Require Import Prelude Text.

Module Backoff.

Definition ns_per_ms : Z := 1000000.
Definition as_millis (d : Z) : Z := d / ns_per_ms.
Definition from_millis (ms : Z) : Z := ms * ns_per_ms.
Definition from_secs (s : Z) : Z := s * 1000000000.
Definition duration_max : Z := u64_max * 1000000000 + 999999999.

Definition HTTP_RETRY_CAP : Z := from_secs 10.
Definition HTTP_RETRY_BASE : Z := from_millis 250.

(** Exponential backoff of retry [attempt]: [1u32 << attempt.min(6)]. *)
Definition backoff_delay (attempt : Z) : Z :=
  Z.min (Z.min (HTTP_RETRY_BASE * Z.shiftl 1 (Z.min attempt 6)) duration_max) HTTP_RETRY_CAP.

Definition FILE_NAME : string := "downstream_backoff.json".

Record BackoffState := mk_state {
  path : option string;
  not_before : gmap string Z
}.

Definition init : BackoffState := {| path := None; not_before := ∅ |}.

Definition later (entry ts : Z) : Z := if entry <? ts then ts else entry.

Definition merge_max (kept incoming : gmap string Z) : gmap string Z :=
  fold_entries later incoming kept.

Definition sanitize (now : Z) (file : gmap string Z) : gmap string Z :=
  let ceiling := sat_add now (as_millis HTTP_RETRY_CAP) in
  omap (fun ts => if ts <=? now then None else Some (if ceiling <? ts then ceiling else ts)) file.

(** The I/O outcomes and clock readings of one operation. *)
Record Env := mk_env {
  lock_ok : bool;
  read_err : option string;
  write_err : option string;
  now_record : Z;
  now_sanitize : Z;
  now_answer : Z
}.

Section io.
(** [serde_json] on the file, [url::Url] ([None]: not parsed, or neither http nor
    https; otherwise the serialized origin) and [httpdate]. *)
Context {codec : Codec (gmap string Z)}.
Variable origin_key : string -> option string.
Variable parse_http_date : string -> option Z.

Abbreviation fs := (gmap string string).

(** [now] is the system time, a date the nanoseconds since the epoch. *)
Definition retry_after_delay (now : Z) (value : string) : option Z :=
  let value := trim value in
  match parse_unsigned u64_max value with
  | Some seconds => Some (Z.min (from_secs seconds) HTTP_RETRY_CAP)
  | None =>
      target ← parse_http_date value;
      Some (Z.min (if now <=? target then target - now else 0) HTTP_RETRY_CAP)
  end.

Definition load_file (env : Env) (p : string) (disk : fs) : result (gmap string Z) string :=
  match read_err env with
  | Some err => Err err
  | None =>
      match disk !! p with
      | Some raw => serde_decode raw
      | None => Ok ∅
      end
  end.

Definition save_file (env : Env) (p : string) (file : gmap string Z) (disk : fs) :
    result fs string :=
  match write_err env with
  | Some err => Err err
  | None => Ok (<[p := serde_encode file]> disk)
  end.

(** Merge the sanitized file into memory, when it can be read. *)
Definition reload (env : Env) (p : string) (disk : fs) (not_before : gmap string Z) :
    gmap string Z :=
  match load_file env p disk with
  | Ok file => merge_max not_before (sanitize (now_sanitize env) file)
  | Err _ => not_before
  end.

Definition bind_data_dir (env : Env) (dir : string) (disk : fs) (st : BackoffState) :
    BackoffState :=
  match path st with
  | Some _ => st
  | None =>
      let p := dir +:+ "/" +:+ FILE_NAME in
      {| path := Some p; not_before := reload env p disk (not_before st) |}
  end.

(** The deadline a 429 at [now] opens. *)
Definition deadline (now : Z) (retry_after : option Z) : Z :=
  sat_add now (as_millis (Z.min (default HTTP_RETRY_CAP retry_after) HTTP_RETRY_CAP)).

Definition record_rate_limited (env : Env) (url : string) (retry_after : option Z) (disk : fs)
    (st : BackoffState) : fs * BackoffState :=
  match origin_key url with
  | None => (disk, st)
  | Some key =>
      let ts := deadline (now_record env) retry_after in
      let memory := <[key := later (default 0 (not_before st !! key)) ts]> (not_before st) in
      let st := {| path := path st; not_before := memory |} in
      match path st with
      | None => (disk, st)
      | Some p =>
          if negb (lock_ok env) then (disk, st)
          else
            let file := unwrap_or ∅ (load_file env p disk) in
            let file := sanitize (now_sanitize env) (merge_max file memory) in
            match save_file env p file disk with
            | Ok disk => (disk, {| path := path st; not_before := file |})
            | Err _ => (disk, st)
            end
      end
  end.

Definition remaining_for_url (env : Env) (url : string) (disk : fs) (st : BackoffState) :
    option Z * BackoffState :=
  match origin_key url with
  | None => (None, st)
  | Some key =>
      let memory := match path st with
                    | Some p => reload env p disk (not_before st)
                    | None => not_before st
                    end in
      let st := {| path := path st; not_before := memory |} in
      (ts ← memory !! key;
       let remaining := sat_sub ts (now_answer env) in
       if 0 <? remaining then Some (Z.min (from_millis remaining) HTTP_RETRY_CAP) else None, st)
  end.

(** ** Windows *)

Definition until (m : gmap string Z) (k : string) : Z := default 0 (m !! k).

Definition window_map (m : gmap string Z) : Prop := map_Forall (fun _ ts => u64 ts) m.

Lemma later_max a b : later a b = Z.max a b.
Proof. unfold later. destruct (Z.ltb_spec a b); lia. Qed.

Lemma until_nonneg m k : window_map m -> 0 <= until m k.
Proof.
  intros H. unfold until. destruct (m !! k) eqn:E; [|done]. by apply H in E as [? _].
Qed.

Lemma until_merge kept incoming k :
  window_map incoming -> window_map kept ->
  until (merge_max kept incoming) k = Z.max (until kept k) (until incoming k).
Proof.
  intros Hi Hk. pose proof (until_nonneg kept k Hk). unfold until, merge_max in *.
  rewrite lookup_fold_entries. destruct (incoming !! k); simpl; rewrite ?later_max; lia.
Qed.

Lemma until_sanitize now m k T :
  now < T <= now + 10000 -> T <= u64_max -> T <= until m k -> T <= until (sanitize now m) k.
Proof.
  intros HT Hmax. unfold until, sanitize. rewrite lookup_omap.
  destruct (m !! k) as [ts|] eqn:E; simpl; [|intros; lia]. intros Hts.
  destruct (Z.leb_spec ts now); [lia|]. cbn [default from_option id].
  unfold sat_add. change (as_millis HTTP_RETRY_CAP) with 10000.
  destruct (Z.ltb_spec (Z.min (now + 10000) u64_max) ts); simpl; lia.
Qed.

Lemma window_map_insert m k ts : window_map m -> u64 ts -> window_map (<[k:=ts]> m).
Proof. intros H Hts. by apply map_Forall_insert_2. Qed.

Lemma window_map_merge kept incoming :
  window_map kept -> window_map incoming -> window_map (merge_max kept incoming).
Proof.
  intros Hk Hi k ts. unfold merge_max. rewrite lookup_fold_entries.
  destruct (incoming !! k) as [n|] eqn:E; [|by apply Hk]. intros [= <-]. rewrite later_max.
  apply Hi in E. assert (u64 (default 0 (kept !! k))).
  { destruct (kept !! k) eqn:E'; [by apply Hk in E'|unfold u64, u64_max; simpl; lia]. }
  unfold u64 in *. lia.
Qed.

Lemma window_map_sanitize now m : 0 <= now -> window_map m -> window_map (sanitize now m).
Proof.
  intros Hn Hm k ts. unfold sanitize. rewrite lookup_omap.
  destruct (m !! k) as [n|] eqn:E; simpl; [|done]. destruct (n <=? now); [done|].
  apply Hm in E. intros [= <-]. unfold u64, sat_add, u64_max in *.
  change (as_millis HTTP_RETRY_CAP) with 10000. destruct (_ <? n); lia.
Qed.

(** ** A consult *)

(** A consult never asks for more than the cap: an open window of whatever
    origin, a hand-edited file or a moved clock included, answers a positive wait
    of at most ten seconds. *)
Theorem remaining_bounded env url disk st d :
  (remaining_for_url env url disk st).1 = Some d -> 0 < d <= from_secs 10.
Proof.
  unfold remaining_for_url. destruct (origin_key url) as [key|]; [|done]. cbn [fst].
  destruct (_ !! key) as [ts|]; [|done]. cbn [mbind option_bind].
  destruct (Z.ltb_spec 0 (sat_sub ts (now_answer env))) as [H|]; [|done].
  intros [= <-]. unfold from_millis, ns_per_ms, HTTP_RETRY_CAP, from_secs. lia.
Qed.

(** ** Many processes, one file *)

Context {laws : CodecLaws window_map}.

Inductive event :=
| EBind (pid : string) (env : Env) (dir : string)
| ERecord (pid : string) (env : Env) (url : string) (retry_after : option Z)
| EConsult (pid : string) (env : Env) (url : string).

Definition system : Type := fs * gmap string BackoffState.

Definition process (s : system) (pid : string) : BackoffState := default init (s.2 !! pid).

Definition exec (s : system) (e : event) : system :=
  let (disk, procs) := s in
  match e with
  | EBind pid env dir =>
      (disk, <[pid := bind_data_dir env dir disk (process s pid)]> procs)
  | ERecord pid env url retry_after =>
      let (disk, st) := record_rate_limited env url retry_after disk (process s pid) in
      (disk, <[pid := st]> procs)
  | EConsult pid env url =>
      (disk, <[pid := (remaining_for_url env url disk (process s pid)).2]> procs)
  end.

Definition env_of (e : event) : Env :=
  match e with EBind _ env _ | ERecord _ env _ _ | EConsult _ env _ => env end.

(** The file at [p] holds a window for [k] open until [T] or later. *)
Definition published (p k : string) (T : Z) (disk : fs) : Prop :=
  exists raw m, disk !! p = Some raw /\ serde_decode raw = Ok m /\ T <= until m k.

Definition sys_ok (s : system) : Prop := map_Forall (fun _ st => window_map (not_before st)) s.2.

Lemma process_ok s pid : sys_ok s -> window_map (not_before (process s pid)).
Proof.
  intros H. unfold process. destruct (s.2 !! pid) eqn:E; [by apply H in E|apply map_Forall_empty].
Qed.

Lemma load_windows_ok env p disk m : load_file env p disk = Ok m -> window_map m.
Proof.
  unfold load_file. destruct (read_err env); [done|]. destruct (disk !! p).
  - apply serde_typed.
  - intros [= <-]. apply map_Forall_empty.
Qed.

Lemma reload_ok env p disk m :
  0 <= now_sanitize env -> window_map m -> window_map (reload env p disk m).
Proof.
  intros Hn Hm. unfold reload. destruct (load_file env p disk) eqn:E; [|done].
  apply window_map_merge, window_map_sanitize; eauto using load_windows_ok.
Qed.

Lemma load_published env p k T disk :
  published p k T disk -> read_err env = None ->
  exists m, load_file env p disk = Ok m /\ T <= until m k.
Proof. intros (raw & m & H1 & H2 & H3) Hr. exists m. unfold load_file. by rewrite Hr, H1. Qed.

Lemma deadline_u64 now retry_after :
  u64 now -> (forall d, retry_after = Some d -> 0 <= d) -> u64 (deadline now retry_after).
Proof.
  intros Hn Hd. apply sat_add_u64; [done|]. apply Z.div_pos; [|done].
  unfold HTTP_RETRY_CAP, from_secs.
  destruct retry_after; cbn [default from_option id]; [specialize (Hd _ eq_refl)|]; lia.
Qed.

(** The readings of an operation lie in the window \[lo, T) and its file is
    readable. *)
Definition within (lo T : Z) (env : Env) : Prop :=
  read_err env = None /\ lo <= now_record env < T /\ lo <= now_sanitize env < T /\
  lo <= now_answer env < T.

Lemma record_spec env url retry_after disk st p k T lo :
  window_map (not_before st) -> 0 <= lo -> T <= lo + 10000 -> T <= u64_max -> within lo T env ->
  (forall d, retry_after = Some d -> 0 <= d) ->
  let '(disk', st') := record_rate_limited env url retry_after disk st in
  window_map (not_before st') /\
  (published p k T disk -> published p k T disk') /\
  (path st = Some p -> origin_key url = Some k -> lock_ok env = true -> write_err env = None ->
   T <= deadline (now_record env) retry_after -> published p k T disk').
Proof.
  intros Hst Hlo HT Hmax (Hread & Hnr & Hns & _) Hra. unfold record_rate_limited.
  destruct (origin_key url) as [key|]; [|done]. cbn [path].
  assert (Hu : u64 (now_record env)) by (unfold u64; lia).
  pose proof (deadline_u64 _ _ Hu Hra) as Hdl.
  set (ts := deadline (now_record env) retry_after) in *.
  set (memory := <[key := _]> (not_before st)).
  assert (Hmem : window_map memory).
  { apply window_map_insert; [done|]. rewrite later_max. pose proof (until_nonneg _ key Hst).
    unfold until in *. destruct (not_before st !! key) as [o|] eqn:E; simpl; unfold u64 in *; [|lia].
    apply Hst in E. unfold u64 in E. lia. }
  assert (Hmts : ts <= until memory key).
  { unfold until, memory. rewrite lookup_insert_eq. simpl. rewrite later_max. lia. }
  destruct (path st) as [q|]; [|split_and!; done]. destruct (lock_ok env) eqn:El; [|done].
  cbn [negb]. set (file := unwrap_or ∅ (load_file env q disk)).
  assert (Hfile : window_map file).
  { unfold file. destruct (load_file env q disk) eqn:E; [by eapply load_windows_ok|apply map_Forall_empty]. }
  pose proof (window_map_merge _ _ Hfile Hmem) as Hm.
  assert (Hsan : window_map (sanitize (now_sanitize env) (merge_max file memory)))
    by (apply window_map_sanitize; [lia|done]).
  assert (Hpub : T <= until (merge_max file memory) k -> write_err env = None -> q = p ->
    published p k T (<[q := serde_encode (sanitize (now_sanitize env) (merge_max file memory))]> disk)).
  { intros HTk _ ->. eexists _, _. rewrite lookup_insert_eq. split; [done|].
    split; [by apply serde_roundtrip|]. apply until_sanitize; lia. }
  rewrite until_merge in Hpub by done. unfold save_file in *.
  destruct (write_err env) eqn:Ew; [split_and!; done|]. split_and!; [done| |].
  - intros Hp. destruct (decide (q = p)) as [->|Hne].
    + apply Hpub; [|done..]. destruct (load_published env p k T disk Hp Hread) as (m & Hm' & Ht).
      unfold file. rewrite Hm'. cbn [unwrap_or]. lia.
    + destruct Hp as (raw & m & H). exists raw, m. by rewrite lookup_insert_ne.
  - intros [= ->] [= ->] _ _ Hdead. apply Hpub; [|done..]. lia.
Qed.

Definition valid_event (e : event) : Prop :=
  match e with ERecord _ _ _ (Some d) => 0 <= d | _ => True end.

Lemma exec_published s e p k T lo :
  sys_ok s -> 0 <= lo -> T <= lo + 10000 -> T <= u64_max -> within lo T (env_of e) ->
  valid_event e -> published p k T s.1 ->
  sys_ok (exec s e) /\ published p k T (exec s e).1 /\
  forall pid, path (process s pid) = Some p -> path (process (exec s e) pid) = Some p.
Proof.
  intros Hs Hlo HT Hmax Hw Hv Hp. destruct s as [disk procs].
  assert (Hput : forall pid st, window_map (not_before st) ->
    (forall q, path (process (disk, procs) pid) = Some q -> path st = Some q) -> forall disk',
    sys_ok (disk', <[pid := st]> procs) /\ forall pid',
      path (process (disk, procs) pid') = Some p ->
      path (process (disk', <[pid := st]> procs) pid') = Some p).
  { intros pid st Hst Hpath disk'. split; [by apply map_Forall_insert_2|]. intros pid'.
    unfold process. cbn [snd]. destruct (decide (pid = pid')) as [->|Hne].
    - rewrite lookup_insert_eq. apply Hpath.
    - by rewrite lookup_insert_ne. }
  destruct e as [pid env dir|pid env url ra|pid env url]; cbn [exec env_of valid_event] in *;
    pose proof (process_ok _ pid Hs) as Hproc.
  - destruct (Hput pid (bind_data_dir env dir disk (process (disk, procs) pid))) with (disk' := disk)
      as [H1 H2]; [| |done].
    + unfold bind_data_dir. destruct (path _); [done|]. apply reload_ok; [|done].
      destruct Hw as (_ & _ & ? & _). lia.
    + unfold bind_data_dir. intros q.
      destruct (path (process _ pid)) eqn:Ep; [intros [= ->]; exact Ep|done].
  - assert (Hra : forall d, ra = Some d -> 0 <= d) by (intros d ->; exact Hv).
    pose proof (record_spec env url ra disk _ p k T lo Hproc Hlo HT Hmax Hw Hra) as H.
    destruct (record_rate_limited env url ra disk _) as [disk' st'] eqn:E.
    destruct H as (Hst & Hpub & _).
    destruct (Hput pid st') with (disk' := disk') as [H1 H2]; [done| |].
    + intros q Hq. revert E. unfold record_rate_limited. rewrite Hq.
      destruct (origin_key url); [|by intros [= _ <-]]. cbn [path].
      destruct (negb _); [by intros [= _ <-]|]. destruct (save_file _ _ _ _); by intros [= _ <-].
    + split_and!; [done|by apply Hpub|done].
  - destruct (Hput pid (remaining_for_url env url disk (process (disk, procs) pid)).2)
      with (disk' := disk) as [H1 H2]; [| |done].
    + unfold remaining_for_url. destruct (origin_key url); [|done]. cbn [snd not_before].
      destruct (path _); [|done]. apply reload_ok; [|done]. destruct Hw as (_ & _ & ? & _). lia.
    + intros q Hq. unfold remaining_for_url. by destruct (origin_key url).
Qed.

(** C38. A recorded window is honoured by every gateway of the host.  When one
    process writes a 429 for a provider into the shared file, then after any
    further binds, records and consults of any processes, while the clock is
    before the window's end and the file stays readable, every process bound to
    the file that asks about a URL of that provider waits at least until then. *)
Theorem window_honoured s pid env url retry_after es env' url' pid' p k :
  let T := deadline (now_record env) retry_after in
  let s1 := exec s (ERecord pid env url retry_after) in
  let s2 := foldl exec s1 es in
  sys_ok s -> path (process s pid) = Some p -> path (process s2 pid') = Some p ->
  origin_key url = Some k -> origin_key url' = Some k ->
  lock_ok env = true -> write_err env = None ->
  0 <= now_record env -> (forall d, retry_after = Some d -> 0 <= d) ->
  Forall (fun e => within (now_record env) T (env_of e) /\ valid_event e) es ->
  within (now_record env) T env -> within (now_record env) T env' ->
  exists d, (remaining_for_url env' url' s2.1 (process s2 pid')).1 = Some d /\
            from_millis (T - now_answer env') <= d.
Proof.
  intros T s1 s2 Hs Hpath Hpath' Hk Hk' Hl Hwr Hnow Hra Hes Hw Hw'.
  assert (HT : T <= now_record env + 10000).
  { unfold T, deadline, sat_add. change 10000 with (as_millis HTTP_RETRY_CAP).
    assert (as_millis (Z.min (default HTTP_RETRY_CAP retry_after) HTTP_RETRY_CAP) <=
            as_millis HTTP_RETRY_CAP) by (apply Z.div_le_mono; unfold ns_per_ms; lia). lia. }
  assert (Hmax : T <= u64_max) by (unfold T, deadline, sat_add; lia).
  assert (H1 : sys_ok s1 /\ published p k T s1.1).
  { destruct s as [disk procs]. unfold s1. cbn [exec].
    pose proof (record_spec env url retry_after disk _ p k T (now_record env)
      (process_ok _ pid Hs) Hnow HT Hmax Hw Hra) as H.
    destruct (record_rate_limited _ _ _ _ _) as [disk' st']. destruct H as (H1 & _ & H2).
    split; [by apply map_Forall_insert_2|]. cbn [fst]. by apply H2. }
  assert (H2 : sys_ok s2 /\ published p k T s2.1).
  { unfold s2. clear Hpath'. revert H1. generalize s1. clear s1 s2. intros s1.
    revert s1. induction Hes as [|e es [He Hv] _ IH]; intros s1 [Hs1 Hp1]; [done|].
    cbn [foldl]. apply IH.
    destruct (exec_published s1 e p k T (now_record env) Hs1 Hnow HT Hmax He Hv Hp1) as (? & ? & _).
    done. }
  destruct H2 as [Hs2 Hp2]. destruct Hw' as (Hr' & _ & Hns' & Hna').
  destruct (load_published env' p k T s2.1 Hp2 Hr') as (m & Hm & HTm).
  unfold remaining_for_url. rewrite Hk', Hpath'. cbn [fst]. unfold reload. rewrite Hm.
  pose proof (process_ok _ pid' Hs2) as Hmem. pose proof (load_windows_ok _ _ _ _ Hm) as Hmok.
  set (mem' := merge_max _ _).
  assert (Hfin : T <= until mem' k).
  { unfold mem'. rewrite until_merge; [|by apply window_map_sanitize; [lia|]|done].
    pose proof (until_sanitize (now_sanitize env') m k T ltac:(lia) Hmax HTm). lia. }
  unfold until in Hfin. destruct (mem' !! k) as [ts|]; cbn [default from_option id] in Hfin; [|lia].
  cbn [mbind option_bind]. unfold sat_sub.
  destruct (Z.ltb_spec 0 (Z.max (ts - now_answer env') 0)); [|lia].
  eexists. split; [done|]. unfold from_millis, ns_per_ms, HTTP_RETRY_CAP, from_secs. lia.
Qed.

(** The copy in memory is not capped when the clock moves back.  The file's
    deadlines are cut to ten seconds from now, but a deadline already in a
    process's memory is kept as it is: a consult made long before it, after the
    clock was set back, waits the full ten seconds each time, for as long as the
    clock takes to catch up. *)
Theorem clock_step_back_parks env url disk st k ts :
  origin_key url = Some k -> window_map (not_before st) -> 0 <= now_sanitize env ->
  not_before st !! k = Some ts -> now_answer env + 10000 <= ts ->
  (remaining_for_url env url disk st).1 = Some (from_secs 10) /\
  until (not_before (remaining_for_url env url disk st).2) k >= ts.
Proof.
  intros Hk Hst Hns Hts Hlate. unfold remaining_for_url. rewrite Hk. cbn [fst snd not_before].
  set (memory := match path st with Some p => _ | None => _ end).
  assert (Hge : ts <= until memory k).
  { assert (H0 : until (not_before st) k = ts) by (unfold until; by rewrite Hts).
    unfold memory. destruct (path st) as [p|]; [|lia]. unfold reload.
    destruct (load_file env p disk) as [m|] eqn:E; [|lia].
    rewrite until_merge; [lia| |done]. apply window_map_sanitize; [lia|by eapply load_windows_ok]. }
  split; [|lia]. unfold until in Hge.
  assert (0 <= ts) by (apply Hst in Hts; unfold u64 in Hts; lia).
  destruct (memory !! k) as [t'|] eqn:E; cbn [default from_option id] in Hge.
  - cbn [mbind option_bind]. unfold sat_sub.
    destruct (Z.ltb_spec 0 (Z.max (t' - now_answer env) 0)); [|lia].
    f_equal. unfold from_millis, ns_per_ms, HTTP_RETRY_CAP, from_secs. lia.
  - exfalso. unfold memory in E. destruct (path st) as [p|]; [|congruence].
    unfold reload in E. destruct (load_file env p disk); [|congruence].
    unfold merge_max in E. rewrite lookup_fold_entries, Hts in E. by destruct (_ !! k) in E.
Qed.

End io.
End Backoff.

(** ** Witnesses *)

#[global] Instance window_map_dec m : Decision (Backoff.window_map m).
Proof. unfold Backoff.window_map, u64. apply _. Defined.

#[local] Instance demo_codec : Codec (gmap string Z) := bits_codec Backoff.window_map.
#[local] Instance demo_codec_laws : CodecLaws Backoff.window_map :=
  bits_codec_laws Backoff.window_map.

Definition demo_origin (url : string) : option string :=
  if starts_with "https://api.example.com/" url then Some "https://api.example.com" else None.

Definition demo_env (now : Z) : Backoff.Env :=
  {| Backoff.lock_ok := true; Backoff.read_err := None; Backoff.write_err := None;
     Backoff.now_record := now; Backoff.now_sanitize := now; Backoff.now_answer := now |}.

Definition demo_gateway : Backoff.BackoffState :=
  {| Backoff.path := Some "d/backoff"; Backoff.not_before := ∅ |}.

Definition demo_system : Backoff.system := (∅, {["g1" := demo_gateway; "g2" := demo_gateway]}).

Definition demo_url : string := "https://api.example.com/mcp".

Definition demo_limited : Backoff.BackoffState :=
  (Backoff.record_rate_limited demo_origin (demo_env 90000) demo_url None ∅
     Backoff.init).2.

Lemma remaining_bounded_witness :
  (Backoff.remaining_for_url demo_origin (demo_env 95000) demo_url ∅ demo_limited).1
    = Some (Backoff.from_secs 5) /\ 0 < Backoff.from_secs 5 <= Backoff.from_secs 10.
Proof.
  split; [vm_compute; reflexivity|].
  apply (Backoff.remaining_bounded demo_origin (demo_env 95000) demo_url ∅
    demo_limited). vm_compute. reflexivity.
Defined.

Lemma window_honoured_witness :
  let s2 := Backoff.exec demo_origin demo_system
    (Backoff.ERecord "g1" (demo_env 1000) demo_url (Some (Backoff.from_secs 3))) in
  exists d, (Backoff.remaining_for_url demo_origin (demo_env 2000) demo_url s2.1
    (Backoff.process s2 "g2")).1 = Some d /\ Backoff.from_secs 2 <= d.
Proof.
  apply (Backoff.window_honoured demo_origin
    demo_system "g1" (demo_env 1000) demo_url (Some (Backoff.from_secs 3)) [] (demo_env 2000)
    demo_url "g2" "d/backoff" "https://api.example.com").
  - unfold Backoff.sys_ok, demo_system. cbn [snd].
    repeat (apply map_Forall_insert_2; [apply map_Forall_empty|]). apply map_Forall_empty.
  - reflexivity.
  - vm_compute. reflexivity.
  - reflexivity.
  - reflexivity.
  - reflexivity.
  - reflexivity.
  - vm_compute. congruence.
  - intros d [= <-]. vm_compute. congruence.
  - constructor.
  - vm_compute. repeat split; congruence.
  - vm_compute. repeat split; congruence.
Defined.

Lemma clock_step_back_parks_witness :
  (Backoff.remaining_for_url demo_origin (demo_env 10000) demo_url ∅ demo_limited).1
    = Some (Backoff.from_secs 10).
Proof.
  apply (Backoff.clock_step_back_parks demo_origin (demo_env 10000)
    demo_url ∅ demo_limited "https://api.example.com" 100000).
  - reflexivity.
  - apply (bool_decide_eq_true_1 (Backoff.window_map _)). vm_compute. reflexivity.
  - vm_compute. congruence.
  - vm_compute. reflexivity.
  - vm_compute. congruence.
Defined.
