(* ===== verification/CallFailure.v ===== *)
(** Call failures (src/call_failure.rs): failures are classified by codes and
    schema fields, never by prose a downstream server supplies, and what a client
    reads is fixed text with bounded field names. *)

From S2P Require Import Prelude Text Json.

Module CallFailure.

Inductive AuthTarget := Endpoint | ServiceCredential | Scope | OAuthRefresh.

Inductive CallFailureKind :=
| InvalidInput (missing invalid : list string)
| NotFound
| Auth (target : AuthTarget)
| Quota
| Conflict
| Timeout (after_send : bool)
| Unavailable (after_send : bool)
| ServerError (after_send : bool)
| Cancelled
| Internal.

Record CallFailure := mk_failure { kind : CallFailureKind; detail : string }.

Definition http_status (status : Z) (endpoint : bool) : CallFailureKind :=
  if ((status =? 400) || (status =? 404)) && endpoint then Unavailable true
  else if (status =? 400) || (status =? 422) then InvalidInput [] []
  else if status =? 401 then Auth (if endpoint then Endpoint else ServiceCredential)
  else if status =? 403 then Auth Scope
  else if status =? 404 then NotFound
  else if (status =? 402) || (status =? 429) then Quota
  else if (status =? 409) || (status =? 412) then Conflict
  else if status =? 408 then ServerError true
  else if status =? 504 then Unavailable true
  else if (status =? 502) || (status =? 503) then Unavailable true
  else if (500 <=? status) && (status <=? 599) then ServerError true
  else Internal.

(** [b"_.-'".contains] and [is_ascii_alphanumeric]. *)
Definition field_byte (b : ascii) : bool :=
  is_alnum b || existsb (Stdlib.Strings.Ascii.eqb b) ["_"; "."; "-"; "'"]%char.

Definition safe_field (field : string) : bool :=
  negb (String.eqb field "") && (slen field <=? 48) && all_bytes field_byte field.

Definition error_fields (value : option json) : list string :=
  match v ← value; as_array v with
  | Some l => List.filter safe_field (omap as_str (take 6 l))
  | None => []
  end.

(** [error["code"].as_u64().unwrap() as u16]; [None] is a panic. *)
Definition rpc_code (error : json) : option Z :=
  n ← as_u64 (default JNull (get "code" error)); Some (n mod 65536).

Definition rpc (error : json) : option CallFailureKind :=
  match c ← get "code" error; as_i64 c with
  | Some code =>
      if code =? -32602 then
        let data := default JNull (get "data" error) in
        let missing := error_fields (get "missing" data) in
        let invalid := error_fields (get "invalid" data) in
        let invalid :=
          match f ← get "field" data; as_str f with
          | Some field => if safe_field field then invalid ++ [field] else invalid
          | None => invalid
          end in
        Some (InvalidInput missing invalid)
      else if code =? -32601 then Some NotFound
      else if (400 <=? code) && (code <=? 599) then
        status ← rpc_code error; Some (http_status status false)
      else Some Internal
  | None => Some Internal
  end.

Definition is_one_of (code : string) (names : list string) : bool :=
  existsb (String.eqb code) names.

Definition service_error (data : json) : option CallFailureKind :=
  match s ← get "status" data; n ← as_u64 s; if (400 <=? n) && (n <=? 599) then Some n else None with
  | Some status => Some (http_status (status mod 65536) false)
  | None =>
      let found := match pointer ["error"; "code"] data with
                   | Some v => Some v
                   | None => pointer ["errors"; "0"; "extensions"; "code"] data
                   end in
      match v ← found; as_str v with
      | Some code =>
          if is_one_of code ["invalid_api_key"; "authentication_error"; "UNAUTHENTICATED";
               "AUTHENTICATION_ERROR"; "missing_token"; "invalid_token"]
          then Some (Auth ServiceCredential)
          else if is_one_of code ["insufficient_scope"; "insufficient_permissions"; "FORBIDDEN"]
          then Some (Auth Scope)
          else if is_one_of code ["rate_limit_exceeded"; "quota_exceeded"; "insufficient_quota";
               "plan_limit_exceeded"]
          then Some Quota
          else if is_one_of code ["resource_missing"; "not_found"; "NOT_FOUND"] then Some NotFound
          else if is_one_of code ["conflict"; "CONFLICT"] then Some Conflict
          else None
      | None => None
      end
  end.

Definition is_health_failure (k : CallFailureKind) : bool :=
  match k with Timeout _ | Unavailable _ => true | _ => false end.

Definition uncertain (k : CallFailureKind) : bool :=
  match k with
  | Timeout true | Unavailable true | ServerError true => true
  | _ => false
  end.

(** The first element on which [f] answers. *)
Fixpoint find_map {A B} (f : A -> option B) (l : list A) : option B :=
  match l with
  | [] => None
  | x :: l => match f x with Some y => Some y | None => find_map f l end
  end.

Section parse.
(** [serde_json::from_str::<Value>]. *)
Variable from_str : string -> option json.

Definition block_error (block : json) : option CallFailureKind :=
  text ← (t ← get "text" block; s ← as_str t; if slen s <=? 16 * 1024 then Some s else None);
  data ← from_str text; service_error data.

Definition tool_result (result : json) : CallFailureKind :=
  let structured := match get "structuredContent" result with
                    | Some data => service_error data
                    | None => None
                    end in
  match structured with
  | Some kind => kind
  | None =>
      match c ← get "content" result; as_array c with
      | Some content => default Internal (find_map block_error (take 4 content))
      | None => Internal
      end
  end.
End parse.

Definition known_field_body (known_field : json -> string -> bool) (schema : json)
    (field : string) : bool :=
  if negb (safe_field field) then false
  else
    match get "properties" schema with
    | None => false
    | Some properties =>
        match get field properties with
        | Some _ => true
        | None =>
            match split_once "."%char field with
            | None => false
            | Some (parent, child) =>
                match get parent properties with
                | Some schema => known_field schema child
                | None => false
                end
            end
        end
    end.

(** Each step drops a segment of [field], so its length is fuel enough
    ([known_field_unfold]). *)
Fixpoint known_field_fuel (fuel : nat) : json -> string -> bool :=
  match fuel with
  | O => fun _ _ => false
  | S fuel => known_field_body (known_field_fuel fuel)
  end.

Definition known_field (schema : json) (field : string) : bool :=
  known_field_fuel (S (String.length field)) schema field.

Definition safe_name (name : string) : bool :=
  negb (String.eqb name "") && (slen name <=? 40) && all_bytes field_byte name.

Definition required (schema : json) (name : string) : bool :=
  match r ← get "required" schema; as_array r with
  | Some r => existsb (fun v => bool_decide (as_str v = Some name)) r
  | None => false
  end.

Definition wrong_type (child value : json) : bool :=
  match t ← get "type" child; as_str t with
  | Some t =>
      if String.eqb t "string" then negb (is_string value)
      else if String.eqb t "object" then negb (is_object value)
      else if String.eqb t "array" then negb (is_array value)
      else if String.eqb t "boolean" then negb (is_boolean value)
      else if String.eqb t "integer" then negb (is_integer value)
      else if String.eqb t "number" then negb (is_number value)
      else if String.eqb t "null" then negb (is_null value)
      else false
  | None => false
  end.

Definition wrong_enum (child value : json) : bool :=
  match e ← get "enum" child; as_array e with
  | Some values => negb (existsb (fun v => json_eqb v value) values)
  | None => false
  end.

(** The accumulators [missing] and [invalid]. *)
Definition fields : Type := list string * list string.
Definition full (acc : fields) : bool := (12 <=? length acc.1 + length acc.2)%nat.

(** One property; [None] is [continue]. *)
Definition visit_field (nested : json -> json -> string -> fields -> fields)
    (schema args : json) (prefix name : string) (child : json) (acc : fields) : option fields :=
  if negb (safe_name name) then None
  else
    let path := prefix +:+ name in
    if 48 <? slen path then None
    else
      match get name args with
      | None => Some (if required schema name then (acc.1 ++ [path], acc.2) else acc)
      | Some value =>
          Some (if wrong_type child value || wrong_enum child value
                then (acc.1, acc.2 ++ [path])
                else if is_object value then nested child value (path +:+ ".") acc
                else acc)
      end.

Fixpoint visit_fields (nested : json -> json -> string -> fields -> fields)
    (schema args : json) (prefix : string) (properties : list (string * json)) (acc : fields) :
    fields :=
  match properties with
  | [] => acc
  | (name, child) :: properties =>
      match visit_field nested schema args prefix name child acc with
      | None => visit_fields nested schema args prefix properties acc
      | Some acc =>
          if full acc then acc else visit_fields nested schema args prefix properties acc
      end
  end.

(** [n] is [5 - depth]: at [depth > 4] nothing is collected. *)
Fixpoint collect_fields (n : nat) (schema args : json) (prefix : string) (acc : fields) : fields :=
  match n with
  | O => acc
  | S n =>
      if full acc then acc
      else match p ← get "properties" schema; as_object p with
           | None => acc
           | Some properties =>
               visit_fields (collect_fields n) schema args prefix properties acc
           end
  end.

(** [retain] against the running budget. *)
Fixpoint fit (budget : Z) (l : list string) : list string * Z :=
  match l with
  | [] => ([], budget)
  | field :: l =>
      if slen field + 2 <=? budget
      then let (kept, budget) := fit (budget - (slen field + 2)) l in (field :: kept, budget)
      else fit budget l
  end.

Definition tidy (l : list string) : list string := take 6 (dedup (sort_strings l)).

Definition with_schema (k : CallFailureKind) (schema arguments : json) : CallFailureKind :=
  match k with
  | InvalidInput missing invalid =>
      let missing := List.filter (known_field schema) missing in
      let invalid := List.filter (known_field schema) invalid in
      let (missing, invalid) := collect_fields 5 schema arguments "" (missing, invalid) in
      let (missing, budget) := fit 128 (tidy missing) in
      let (invalid, _) := fit budget (tidy invalid) in
      InvalidInput missing invalid
  | _ => k
  end.

Definition last_segment (field : string) : string := List.last (split_on "."%char field) field.

Definition identifier_field (field : string) : bool :=
  let field := last_segment field in
  eq_ignore_ascii_case field "id" || ends_with "_id" field || ends_with "Id" field ||
  ends_with "ID" field || String.eqb field "slug" || ends_with "_slug" field ||
  ends_with "Slug" field.

Definition identifier_failure (k : CallFailureKind) : bool :=
  match k with
  | NotFound => false
  | InvalidInput missing invalid => existsb identifier_field (missing ++ invalid)
  | _ => false
  end.

Definition guidance (k : CallFailureKind) (read_only : bool) : string :=
  match k with
  | InvalidInput missing invalid =>
      "Check tool input." +:+
      (if bool_decide (missing = []) then ""
       else " Missing: " +:+ String.concat ", " missing +:+ ".") +:+
      (if bool_decide (invalid = []) then ""
       else " Invalid: " +:+ String.concat ", " invalid +:+ ".")
  | NotFound => "Resource or tool not found. Check its identifier."
  | Auth Endpoint =>
      "Toolport cannot authenticate the MCP endpoint. Check its connection auth."
  | Auth ServiceCredential =>
      "The server reports its API credential was rejected. Check the service key."
  | Auth Scope => "The server reports access was denied. Check scopes and permissions."
  | Auth OAuthRefresh => "MCP OAuth refresh failed. Reconnect in Toolport."
  | Quota => "Quota or rate limit reached. Check limits before retrying."
  | Conflict => "State conflict. Check current state before retrying."
  | Timeout false => "Timed out before send. Retry when the endpoint is reachable."
  | Timeout true =>
      if negb read_only then "Timed out after send; may have completed, check before retrying."
      else "Timed out waiting for the endpoint. Retry the read later."
  | Unavailable after_send =>
      if after_send && negb read_only
      then "Downstream failed after send; may have completed, check before retrying."
      else "Downstream unavailable. Check its connection or service status."
  | ServerError after_send =>
      if after_send && negb read_only
      then "Server error after send; may have completed, check before retrying."
      else "Server returned an error. Check the error details."
  | Cancelled => "Call cancelled. Check state before repeating a write."
  | Internal => ""
  end.

(** ** Classification *)

(** Classification never panics: [rpc]'s [unwrap] is guarded by the range its
    branch was chosen on, and a status in 400..=599 is classified as such.  (A
    [NegInt] is negative: serde_json's representation of numbers.) *)
Theorem rpc_total error :
  (forall n, get "code" error = Some (JNumber (NegInt n)) -> n < 0) ->
  exists k, rpc error = Some k /\
  forall code, (c ← get "code" error; as_i64 c) = Some code -> 400 <= code <= 599 ->
    k = http_status code false.
Proof.
  intros Hneg. unfold rpc, rpc_code. destruct (get "code" error) as [c|] eqn:E; [|by eexists].
  cbn [mbind option_bind default from_option id].
  destruct (as_i64 c) as [code|] eqn:Ec; [|by eexists].
  assert (Hu : 400 <= code -> as_u64 c = Some code).
  { intros Hc. destruct c as [| |[n|n|f]| | |]; try done; cbn [as_i64 as_u64] in *.
    - by destruct (n <=? _).
    - injection Ec as ->. specialize (Hneg code eq_refl). lia. }
  destruct (Z.eqb_spec code (-32602)); [eexists; split; [done|]; intros ? [= <-]; lia|].
  destruct (Z.eqb_spec code (-32601)); [eexists; split; [done|]; intros ? [= <-]; lia|].
  destruct (Z.leb_spec 400 code), (Z.leb_spec code 599); cbn [andb];
    [|eexists; split; [done|]; intros ? [= <-]; lia..].
  rewrite Hu by lia. cbn [mbind option_bind]. eexists. split; [done|]. intros ? [= <-] _.
  rewrite Z.mod_small; [done|lia].
Qed.

(** A failure that may have reached the server is never presented as safe to
    repeat.  Every 5xx status is classified uncertain, and the guidance of an
    uncertain failure of a call that may write tells the client to check first. *)
Theorem uncertain_guidance_warns :
  (forall status endpoint, 500 <= status <= 599 -> uncertain (http_status status endpoint) = true) /\
  (forall k, uncertain k = true ->
     contains "may have completed, check before retrying." (guidance k false) = true).
Proof.
  split.
  - intros status endpoint Hs. unfold http_status.
    destruct (Z.eqb_spec status 400), (Z.eqb_spec status 404), (Z.eqb_spec status 422),
      (Z.eqb_spec status 401), (Z.eqb_spec status 403), (Z.eqb_spec status 402),
      (Z.eqb_spec status 429), (Z.eqb_spec status 409), (Z.eqb_spec status 412),
      (Z.eqb_spec status 408); try lia.
    cbn [orb andb]. destruct (status =? 504); [done|]. destruct (_ || _); [done|].
    destruct (Z.leb_spec 500 status), (Z.leb_spec status 599); [done|lia..].
  - intros k. destruct k as [| | | | |[]|[]|[]| |]; try done; intros _; by vm_compute.
Qed.

(** ** Field names *)

Definition safe (l : list string) : Prop := Forall (fun f => safe_field f = true) l.

Lemma known_field_fuel_enough n m schema field :
  (String.length field < n)%nat -> (String.length field < m)%nat ->
  known_field_fuel n schema field = known_field_fuel m schema field.
Proof.
  revert m schema field. induction n as [|n IH]; intros [|m] schema field Hn Hm; [lia..|].
  cbn [known_field_fuel]. unfold known_field_body. destruct (negb _); [done|].
  destruct (get "properties" schema) as [properties|]; [|done].
  destruct (get field properties); [done|].
  destruct (split_once _ field) as [[parent child]|] eqn:E; [|done].
  apply split_once_length in E. destruct (get parent properties); [|done]. apply IH; lia.
Qed.

(** The source's recursive equation holds at every input. *)
Lemma known_field_unfold schema field :
  known_field schema field = known_field_body known_field schema field.
Proof.
  unfold known_field at 1. cbn [known_field_fuel]. unfold known_field_body. destruct (negb _); [done|].
  destruct (get "properties" schema) as [properties|]; [|done].
  destruct (get field properties); [done|].
  destruct (split_once _ field) as [[parent child]|] eqn:E; [|done].
  apply split_once_length in E. destruct (get parent properties); [|done].
  apply known_field_fuel_enough; lia.
Qed.

Lemma known_field_safe schema field : known_field schema field = true -> safe_field field = true.
Proof. rewrite known_field_unfold. unfold known_field_body. by destruct (safe_field field). Qed.

Lemma safe_filter_known schema l : safe (List.filter (known_field schema) l).
Proof.
  apply Forall_forall. intros x [_ Hx]%list_elem_of_In%filter_In. by eapply known_field_safe.
Qed.

Lemma safe_path prefix name :
  all_bytes field_byte prefix = true -> safe_name name = true -> slen (prefix +:+ name) <= 48 ->
  safe_field (prefix +:+ name) = true /\ all_bytes field_byte ((prefix +:+ name) +:+ ".") = true.
Proof.
  unfold safe_name, safe_field. intros Hp [[Hne _]%andb_prop Hn]%andb_prop Hlen.
  rewrite !all_bytes_app, Hp, Hn. split; [|done].
  destruct (Z.leb_spec (slen (prefix +:+ name)) 48); [|lia].
  destruct (String.eqb_spec (prefix +:+ name) "") as [E|]; [|done].
  destruct name; [done|]. apply (f_equal slen) in E. rewrite slen_app, slen_cons in E.
  change (slen "") with 0 in E. pose proof (slen_nonneg prefix). pose proof (slen_nonneg name). lia.
Qed.

Lemma collect_fields_safe n schema args prefix acc :
  all_bytes field_byte prefix = true -> safe acc.1 -> safe acc.2 ->
  safe (collect_fields n schema args prefix acc).1 /\
  safe (collect_fields n schema args prefix acc).2.
Proof.
  revert schema args prefix acc. induction n as [|n IH]; intros schema args prefix acc Hp H1 H2;
    cbn [collect_fields]; [done|].
  destruct (full acc); [done|]. destruct (p ← get "properties" schema; as_object p) as [props|]; [|done].
  revert acc H1 H2. induction props as [|[name child] props IHp]; intros acc H1 H2; [done|].
  cbn [visit_fields]. unfold visit_field.
  destruct (safe_name name) eqn:Hn; cbn [negb]; [|by apply IHp].
  destruct (Z.ltb_spec 48 (slen (prefix +:+ name))) as [|Hlen]; [by apply IHp|].
  destruct (safe_path _ _ Hp Hn Hlen) as [Hs Hdot].
  assert (Hstep : forall acc, safe acc.1 -> safe acc.2 ->
    safe (if full acc then acc else
      visit_fields (collect_fields n) schema args prefix props acc).1 /\
    safe (if full acc then acc else
      visit_fields (collect_fields n) schema args prefix props acc).2)
    by (intros acc' ??; destruct (full acc'); [done|by apply IHp]).
  destruct (get name args) as [value|]; cbv beta iota zeta.
  - apply Hstep; destruct (_ || _); cbn [fst snd]; try done;
      try (apply Forall_app; split; [done|by repeat constructor]);
      (destruct (is_object value); [by apply IH|done]).
  - apply Hstep; destruct (required schema name); cbn [fst snd]; try done.
    apply Forall_app; split; [done|by repeat constructor].
Qed.

Lemma tidy_spec l : safe l -> safe (tidy l) /\ (length (tidy l) <= 6)%nat.
Proof.
  intros H. unfold tidy. split; [|rewrite length_take; lia].
  apply Forall_forall. intros x (i & Hx & _)%elem_of_take.
  unfold safe in H. rewrite Forall_forall in H. apply H, sort_strings_in, dedup_incl.
  by eapply list_elem_of_lookup_2.
Qed.

Definition cost (l : list string) : Z := Zsum (map (fun f => slen f + 2) l).

Lemma fit_spec budget l :
  0 <= budget -> safe l ->
  let (kept, rest) := fit budget l in
  cost kept + rest = budget /\ 0 <= rest /\ safe kept /\ (length kept <= length l)%nat.
Proof.
  revert budget. induction l as [|f l IH]; intros budget Hb Hs; cbn [fit]; [by repeat split|].
  apply Forall_cons_1 in Hs as [Hf Hs]. destruct (Z.leb_spec (slen f + 2) budget).
  - specialize (IH (budget - (slen f + 2)) ltac:(lia) Hs).
    destruct (fit (budget - (slen f + 2)) l) as [kept rest]. destruct IH as (H1 & H2 & H3 & H4).
    unfold cost in *. cbn [map Zsum foldr length]. change (foldr Z.add 0) with Zsum.
    split_and!; [lia|done|by constructor|lia].
  - specialize (IH budget Hb Hs). destruct (fit budget l). cbn [length]. intuition.
Qed.

(** The fields a client may read. *)
Definition bounded_kind (k : CallFailureKind) : Prop :=
  match k with
  | InvalidInput missing invalid =>
      safe missing /\ safe invalid /\ (length missing <= 6)%nat /\ (length invalid <= 6)%nat /\
      cost missing + cost invalid <= 128
  | _ => True
  end.

Lemma with_schema_spec k schema arguments : bounded_kind (with_schema k schema arguments).
Proof.
  destruct k as [missing invalid| | | | | | | | |]; try done. cbn [with_schema].
  pose proof (collect_fields_safe 5 schema arguments ""
    (List.filter (known_field schema) missing, List.filter (known_field schema) invalid)
    eq_refl (safe_filter_known _ _) (safe_filter_known _ _)) as [H1 H2].
  destruct (collect_fields _ _ _ _ _) as [missing' invalid']. cbn [fst snd] in *.
  apply tidy_spec in H1 as [H1 L1], H2 as [H2 L2].
  pose proof (fit_spec 128 (tidy missing') ltac:(lia) H1) as F1.
  destruct (fit 128 (tidy missing')) as [m rest]. destruct F1 as (C1 & R1 & S1 & M1).
  pose proof (fit_spec rest (tidy invalid') R1 H2) as F2.
  destruct (fit rest (tidy invalid')) as [i rest']. destruct F2 as (C2 & R2 & S2 & M2).
  simpl. split_and!; try done; lia.
Qed.

(** Printable ASCII. *)
Definition printable (b : ascii) : bool := byte_in 32 126 b.

Lemma field_byte_printable b : field_byte b = true -> printable b = true.
Proof. destruct b as [[] [] [] [] [] [] [] []]; vm_compute; congruence. Qed.

Lemma join_spec l :
  safe l -> l <> [] ->
  all_bytes printable (String.concat ", " l) = true /\ slen (String.concat ", " l) + 2 <= cost l.
Proof.
  intros Hs Hl. split.
  - apply all_bytes_concat; [done|]. eapply Forall_impl; [exact Hs|]. intros f.
    unfold safe_field. intros [_ Hf]%andb_prop. eapply all_bytes_impl; [|exact Hf].
    apply field_byte_printable.
  - rewrite slen_concat. change (slen ", ") with 2. unfold cost.
    assert (Hsum : Zsum (map (fun f => slen f + 2) l) = Zsum (map slen l) + 2 * Z.of_nat (length l)).
    { clear. induction l as [|x l IH]; [done|]. cbn [map Zsum foldr length] in *.
      change (foldr Z.add 0) with Zsum in *. lia. }
    destruct l; [done|]. cbn [length] in *. lia.
Qed.

(** What a client reads about a failure is bounded and inert.  Whatever the
    downstream error, the published schema and the arguments hold, the guidance
    of the enriched failure is at most 163 bytes of printable ASCII, with at most
    six missing and six invalid names of letters, digits and [_.-']. *)
Theorem guidance_bounded k schema arguments read_only :
  bounded_kind (with_schema k schema arguments) /\
  slen (guidance (with_schema k schema arguments) read_only) <= 163 /\
  all_bytes printable (guidance (with_schema k schema arguments) read_only) = true.
Proof.
  pose proof (with_schema_spec k schema arguments) as H. split; [done|].
  destruct (with_schema k schema arguments) as [m i| |[]| | |[]|[]|[]| |]; cbn [guidance];
    try (destruct read_only); try (vm_compute; split; congruence).
  all: destruct H as (Sm & Si & _ & _ & Hc).
  all: assert (Hpart : forall l label, all_bytes printable label = true -> safe l -> 1 <= slen label ->
    let part := if bool_decide (l = []) then "" else label +:+ String.concat ", " l +:+ "." in
    all_bytes printable part = true /\ slen part + 1 <= cost l + slen label).
  1,3: intros l label Hlabel Hl H1 part; unfold part; case_bool_decide as E;
    [subst l; split; [done|]; change (slen "") with 0; change (cost []) with 0; lia|];
    destruct (join_spec l Hl E) as [J1 J2]; rewrite !all_bytes_app, !slen_app, Hlabel, J1;
    change (slen ".") with 1; split; [done|lia].
  all: destruct (Hpart m " Missing: " eq_refl Sm ltac:(vm_compute; congruence)) as [P1 L1];
    destruct (Hpart i " Invalid: " eq_refl Si ltac:(vm_compute; congruence)) as [P2 L2];
    rewrite !all_bytes_app, !slen_app, P1, P2;
    change (slen " Missing: ") with 10 in L1; change (slen " Invalid: ") with 10 in L2;
    change (slen "Check tool input.") with 17; split; [lia|done].
Qed.

End CallFailure.

(** ** Witnesses *)

Definition demo_rpc_error : json :=
  JObject [("code", JNumber (PosInt 503)); ("message", JString "down")].

Lemma rpc_total_witness :
  CallFailure.rpc demo_rpc_error = Some (CallFailure.http_status 503 false).
Proof.
  destruct (CallFailure.rpc_total demo_rpc_error) as (k & -> & H); [intros n [=]|].
  f_equal. apply H; [reflexivity|lia].
Defined.
