(* ===== verification/Registry.v ===== *)
(** The registry's server entries (src/registry.rs): the data every other part
    reads, launch setups and their validation, timeouts, and the stripping of secrets
    from client credentials. *)

From S2P Require Import Prelude Text Json.

Module Registry.

Definition fields : Type := list (string * json).

Record EnvVar := mk_env {
  env_key : string;
  env_value : option string;
  env_secret : bool;
  env_unknown : fields
}.

Record LaunchInput := mk_input {
  input_key : string;
  label : string;
  input_secret : bool;
  required : bool;
  input_value : option string;
  input_unknown : fields
}.

Inductive ArgPart :=
| Literal (value : string) (unknown_fields : fields)
| Input (key : string) (unknown_fields : fields).

Record ArgBinding := mk_binding { index : nat; parts : list ArgPart; binding_unknown : fields }.

Record LaunchConfig := mk_launch {
  inputs : list LaunchInput;
  bindings : list ArgBinding;
  required_env : list string;
  template : option string;
  revision : option Z;
  launch_unknown : fields
}.

Record ClientCredentials := mk_credentials {
  client_id : string;
  token_endpoint_auth_method : option string;
  scope : option string;
  credentials_unknown : fields
}.

Record ServerEntry := mk_server {
  enabled : bool;
  server_id : string;
  server_name : string;
  transport : string;
  command : option string;
  args : list string;
  launch : option LaunchConfig;
  env : list EnvVar;
  url : option string;
  cwd : option string;
  inherit_env : bool;
  source : option string;
  disabled_tools : list string;
  client_credentials : option ClientCredentials;
  request_timeout_ms : option Z;
  initialize_timeout_ms : option Z;
  unknown_fields : fields
}.

Definition set_input_value (v : option string) (i : LaunchInput) : LaunchInput :=
  {| input_key := input_key i; label := label i; input_secret := input_secret i;
     required := required i; input_value := v; input_unknown := input_unknown i |}.

Definition set_env_value (v : option string) (e : EnvVar) : EnvVar :=
  {| env_key := env_key e; env_value := v; env_secret := env_secret e; env_unknown := env_unknown e |}.

Definition set_inputs (l : list LaunchInput) (c : LaunchConfig) : LaunchConfig :=
  {| inputs := l; bindings := bindings c; required_env := required_env c; template := template c;
     revision := revision c; launch_unknown := launch_unknown c |}.

Definition set_env (l : list EnvVar) (s : ServerEntry) : ServerEntry :=
  {| enabled := enabled s; server_id := server_id s; server_name := server_name s;
     transport := transport s; command := command s; args := args s; launch := launch s; env := l;
     url := url s; cwd := cwd s; inherit_env := inherit_env s; source := source s;
     disabled_tools := disabled_tools s; client_credentials := client_credentials s;
     request_timeout_ms := request_timeout_ms s;
     initialize_timeout_ms := initialize_timeout_ms s; unknown_fields := unknown_fields s |}.

Definition set_launch (l : option LaunchConfig) (s : ServerEntry) : ServerEntry :=
  {| enabled := enabled s; server_id := server_id s; server_name := server_name s;
     transport := transport s; command := command s; args := args s; launch := l; env := env s;
     url := url s; cwd := cwd s; inherit_env := inherit_env s; source := source s;
     disabled_tools := disabled_tools s; client_credentials := client_credentials s;
     request_timeout_ms := request_timeout_ms s;
     initialize_timeout_ms := initialize_timeout_ms s; unknown_fields := unknown_fields s |}.

Definition set_unknown (u : fields) (s : ServerEntry) : ServerEntry :=
  {| enabled := enabled s; server_id := server_id s; server_name := server_name s;
     transport := transport s; command := command s; args := args s; launch := launch s;
     env := env s; url := url s; cwd := cwd s; inherit_env := inherit_env s; source := source s;
     disabled_tools := disabled_tools s; client_credentials := client_credentials s;
     request_timeout_ms := request_timeout_ms s;
     initialize_timeout_ms := initialize_timeout_ms s; unknown_fields := u |}.

(** The launch inputs of an entry: [launch.iter().flat_map(|l| &l.inputs)]. *)
Definition launch_inputs (s : ServerEntry) : list LaunchInput :=
  match launch s with Some l => inputs l | None => [] end.

Definition without_values (c : LaunchConfig) : LaunchConfig :=
  set_inputs (map (set_input_value None) (inputs c)) c.

(** ** Launch setups *)

Definition LAUNCH_MARKER : string := "<launch-input>".

Definition input_key_ok (key : string) : bool :=
  match key with
  | EmptyString => false
  | String b _ =>
      all_bytes (fun b => is_upper b || is_digit b || Stdlib.Strings.Ascii.eqb b "_") key &&
      is_upper b
  end.

Definition label_ok (l : string) : bool :=
  negb (String.eqb l "") && (slen l <=? 80) && negb (existsb is_control (chars l)).

Definition is_some {A} (x : option A) : bool := match x with Some _ => true | None => false end.

(** The keys of the inputs checked so far, in the order of the loop. *)
Fixpoint check_inputs (stored : bool) (keys : list string) (l : list LaunchInput) :
    result (list string) string :=
  match l with
  | [] => Ok keys
  | i :: l =>
      if negb (input_key_ok (input_key i)) || listed (input_key i) keys
      then Err "launch inputs need unique, nonempty keys"
      else if negb (label_ok (label i)) then Err "launch input has an invalid label"
      else if stored && input_secret i && is_some (input_value i)
      then Err ("secret launch input '" +:+ label i +:+ "' must be vaulted")
      else check_inputs stored (input_key i :: keys) l
  end.

Section unicode.
(** [char::is_alphanumeric] beyond ASCII is Unicode data. *)
Variable is_alphanumeric : string -> bool.

Fixpoint check_parts (keys used : list string) (l : list ArgPart) : result (list string) string :=
  match l with
  | [] => Ok used
  | Literal value _ :: l =>
      if (32 <? slen value) ||
         existsb (fun c => is_alphanumeric c || is_control c) (chars value)
      then Err "launch argument literals may contain punctuation only"
      else check_parts keys used l
  | Input key _ :: l =>
      if listed key keys then check_parts keys (key :: used) l
      else Err ("launch argument refers to missing input '" +:+ key +:+ "'")
  end.

Fixpoint check_bindings (args keys : list string) (indexes : list nat) (used : list string)
    (l : list ArgBinding) : result (list nat * list string) string :=
  match l with
  | [] => Ok (indexes, used)
  | b :: l =>
      if (length args <=? index b)%nat ||
         negb (bool_decide (args !! index b = Some LAUNCH_MARKER)) ||
         bool_decide (index b ∈ indexes) || match parts b with [] => true | _ => false end
      then Err "launch argument binding has an invalid or duplicate index"
      else match check_parts keys used (parts b) with
           | Err e => Err e
           | Ok used => check_bindings args keys (index b :: indexes) used l
           end
  end.

(** [args.iter().enumerate().any(..)]: a marker that no binding fills. *)
Fixpoint unbound_marker (i : nat) (indexes : list nat) (args : list string) : bool :=
  match args with
  | [] => false
  | a :: args =>
      (String.eqb a LAUNCH_MARKER && negb (bool_decide (i ∈ indexes))) ||
      unbound_marker (S i) indexes args
  end.

Definition validate (args : list string) (stored : bool) (c : LaunchConfig) : result () string :=
  match check_inputs stored [] (inputs c) with
  | Err e => Err e
  | Ok keys =>
      match check_bindings args keys [] [] (bindings c) with
      | Err e => Err e
      | Ok (indexes, used) =>
          if unbound_marker 0 indexes args then Err "launch argument marker has no binding"
          else if existsb (fun i => negb (listed (input_key i) used)) (inputs c)
          then Err "launch setup declares an unused input"
          else Ok ()
      end
  end.

End unicode.

(** ** Timeouts *)

Definition MAX_REQUEST_TIMEOUT_MS : Z := 24 * 60 * 60 * 1000.
Definition MAX_INITIALIZE_TIMEOUT_MS : Z := 24 * 60 * 60 * 1000.

Definition validate_timeout (field : string) (max milliseconds : Z) : result Z string :=
  if milliseconds =? 0 then Err (field +:+ " must be greater than zero")
  else if max <? milliseconds
  then Err (field +:+ " must not exceed " +:+ pretty max +:+ " (24 hours)")
  else Ok milliseconds.

Definition validate_request_timeout_ms : Z -> result Z string :=
  validate_timeout "requestTimeoutMs" MAX_REQUEST_TIMEOUT_MS.
Definition validate_initialize_timeout_ms : Z -> result Z string :=
  validate_timeout "initializeTimeoutMs" MAX_INITIALIZE_TIMEOUT_MS.

(** [initialize_timeout], in milliseconds. *)
Definition initialize_timeout (s : ServerEntry) : result (option Z) string :=
  match initialize_timeout_ms s with
  | None => Ok None
  | Some ms => match validate_initialize_timeout_ms ms with Ok ms => Ok (Some ms) | Err e => Err e end
  end.

(** ** Secrets in client credentials *)

Definition strip_secret_fields (c : ClientCredentials) : ClientCredentials :=
  {| client_id := client_id c; token_endpoint_auth_method := token_endpoint_auth_method c;
     scope := scope c;
     credentials_unknown :=
       List.filter (fun kv => negb (contains "secret" (to_ascii_lowercase kv.1)))
         (credentials_unknown c) |}.

(** ** What a valid launch setup is *)

(** The specification of [validate]: distinct well-formed inputs, each used by a
    binding; bindings of distinct argument positions that hold the marker; and no
    marker left over. *)
Record well_formed (is_alphanumeric : string -> bool) (args : list string) (stored : bool)
    (c : LaunchConfig) : Prop := {
  wf_keys : NoDup (map input_key (inputs c));
  wf_inputs : forall i, In i (inputs c) ->
    input_key_ok (input_key i) = true /\ label_ok (label i) = true /\
    ~ (stored = true /\ input_secret i = true /\ input_value i <> None);
  wf_indexes : NoDup (map index (bindings c));
  wf_bindings : forall b, In b (bindings c) ->
    args !! index b = Some LAUNCH_MARKER /\ parts b <> [] /\
    (forall v u, In (Literal v u) (parts b) ->
       slen v <= 32 /\ forall ch, In ch (chars v) -> is_alphanumeric ch = false /\ is_control ch = false) /\
    (forall k u, In (Input k u) (parts b) -> In k (map input_key (inputs c)));
  wf_markers : forall i, args !! i = Some LAUNCH_MARKER ->
    In i (map index (bindings c));
  wf_used : forall i, In i (inputs c) ->
    exists b u, In b (bindings c) /\ In (Input (input_key i) u) (parts b)
}.

Definition part_keys (l : list ArgPart) : list string :=
  omap (fun p => match p with Input k _ => Some k | Literal _ _ => None end) l.

Lemma part_keys_spec l k : In k (part_keys l) <-> exists u, In (Input k u) l.
Proof.
  unfold part_keys. rewrite <- list_elem_of_In, list_elem_of_omap. split.
  - intros ([v u|k' u] & Hin & E); [done|]. injection E as ->. exists u. by apply list_elem_of_In.
  - intros [u Hin%list_elem_of_In]. by exists (Input k u).
Qed.

Lemma listed_false x l : listed x l = false <-> ~ In x l.
Proof. rewrite <- not_true_iff_false, listed_spec. done. Qed.

Lemma check_inputs_spec stored l keys keys' :
  check_inputs stored keys l = Ok keys' <->
  keys' = rev (map input_key l) ++ keys /\ NoDup (map input_key l) /\
  (forall i, In i l -> ~ In (input_key i) keys /\ input_key_ok (input_key i) = true /\
     label_ok (label i) = true /\ ~ (stored = true /\ input_secret i = true /\ input_value i <> None)).
Proof.
  revert keys. induction l as [|i l IH]; intros keys; cbn [check_inputs map rev].
  - split; [intros [= <-]; split_and!; [done|constructor|done]|by intros (-> & _)].
  - destruct (negb (input_key_ok (input_key i)) || listed (input_key i) keys) eqn:E1.
    { split; [done|]. intros (_ & _ & H). destruct (H i) as (H1 & H2 & _); [by left|].
      apply listed_false in H1. by rewrite H1, H2 in E1. }
    apply orb_false_elim in E1 as [E1%negb_false_iff E2%listed_false].
    destruct (label_ok (label i)) eqn:E3; cbn [negb].
    2: { split; [done|]. intros (_ & _ & H). destruct (H i) as (_ & _ & H2 & _); [by left|]. congruence. }
    destruct (stored && input_secret i && is_some (input_value i)) eqn:E4.
    { split; [done|]. intros (_ & _ & H). destruct (H i) as (_ & _ & _ & H2); [by left|].
      apply andb_prop in E4 as [[? ?]%andb_prop E4]. exfalso. apply H2. split_and!; [done..|].
      by destruct (input_value i). }
    rewrite IH. rewrite <- app_assoc. cbn [app]. rewrite NoDup_cons, list_elem_of_In.
    split.
    + intros (-> & Hn & H). split_and!; [done|..].
      * intros (j & Hj & Hin)%in_map_iff. destruct (H j Hin) as [Hj' _]. apply Hj'. left. done.
      * done.
      * intros j [<-|Hin].
        -- split_and!; [done..|]. intros (Hs & Hsec & Hv). rewrite Hs, Hsec in E4. by destruct (input_value i).
        -- destruct (H j Hin) as (Hj & ?). split; [|done]. intros Hk. apply Hj. by right.
    + intros (-> & [Hi Hn] & H). split_and!; [done..|]. intros j Hin.
      destruct (H j (or_intror Hin)) as (Hj & ?). split; [|done]. intros [E|Hk]; [|done].
      apply Hi. rewrite E. by apply in_map.
Qed.

Section unicode_lemmas.
Variable is_alphanumeric : string -> bool.

Definition parts_ok (keys : list string) (l : list ArgPart) : Prop :=
  (forall v u, In (Literal v u) l ->
     slen v <= 32 /\ forall ch, In ch (chars v) -> is_alphanumeric ch = false /\ is_control ch = false) /\
  (forall k u, In (Input k u) l -> In k keys).

Lemma literal_spec v :
  (32 <? slen v) || existsb (fun c => is_alphanumeric c || is_control c) (chars v) = false <->
  slen v <= 32 /\ forall ch, In ch (chars v) -> is_alphanumeric ch = false /\ is_control ch = false.
Proof.
  rewrite orb_false_iff, Z.ltb_ge, <- not_true_iff_false, existsb_exists. apply and_iff_compat_l. split.
  - intros H ch Hin. apply orb_false_iff, not_true_iff_false. intros E. apply H. by exists ch.
  - intros H (ch & Hin & E). destruct (H ch Hin) as [E1 E2]. by rewrite E1, E2 in E.
Qed.

Lemma check_parts_spec keys l used used' :
  check_parts is_alphanumeric keys used l = Ok used' <->
  used' = rev (part_keys l) ++ used /\ parts_ok keys l.
Proof.
  revert used. induction l as [|[v u|k u] l IH]; intros used; cbn [check_parts].
  - split; [intros [= <-]; split; [done|by split]|by intros [-> _]].
  - change (part_keys (Literal v u :: l)) with (part_keys l). destruct (_ || _) eqn:E.
    + split; [done|]. intros (_ & H & _). specialize (H v u (or_introl eq_refl)).
      apply literal_spec in H. congruence.
    + apply literal_spec in E. rewrite IH. apply and_iff_compat_l. unfold parts_ok. split.
      * intros [H1 H2]. split; [intros v' u' [[= <- <-]|Hin]; [done|by eapply H1]|].
        intros k' u' [|Hin]; [done|by eapply H2].
      * intros [H1 H2]. split; [intros v' u' Hin; eapply H1; by right|intros k' u' Hin; eapply H2; by right].
  - change (part_keys (Input k u :: l)) with (k :: part_keys l). cbn [rev].
    destruct (listed k keys) eqn:E.
    + apply listed_spec in E. rewrite IH, <- app_assoc. apply and_iff_compat_l. unfold parts_ok. split.
      * intros [H1 H2]. split; [intros v' u' [|Hin]; [done|by eapply H1]|].
        intros k' u' [[= <- <-]|Hin]; [done|by eapply H2].
      * intros [H1 H2]. split; [intros v' u' Hin; eapply H1; by right|intros k' u' Hin; eapply H2; by right].
    + apply listed_false in E. split; [done|]. intros (_ & _ & H). exfalso. apply E.
      apply (H k u). by left.
Qed.

Lemma check_bindings_spec args keys l indexes used indexes' used' :
  check_bindings is_alphanumeric args keys indexes used l = Ok (indexes', used') <->
  indexes' = rev (map index l) ++ indexes /\
  used' = rev (concat (map (fun b => part_keys (parts b)) l)) ++ used /\
  NoDup (map index l) /\
  (forall b, In b l -> ~ In (index b) indexes /\ args !! index b = Some LAUNCH_MARKER /\
     parts b <> [] /\ parts_ok keys (parts b)).
Proof.
  revert indexes used. induction l as [|b l IH]; intros indexes used; cbn [check_bindings map rev concat].
  - split; [intros [= <- <-]; split_and!; [done|done|constructor|done]|by intros (-> & -> & _)].
  - destruct (_ || match parts b with [] => true | _ => false end) eqn:E.
    { split; [done|]. intros (_ & _ & _ & H). destruct (H b) as (H1 & H2 & H3 & _); [by left|].
      assert ((index b < length args)%nat) by (by eapply lookup_lt_Some).
      replace (length args <=? index b)%nat with false in E by (symmetry; apply Nat.leb_gt; lia).
      rewrite (bool_decide_true _ H2) in E.
      rewrite (bool_decide_false (index b ∈ indexes)) in E by (by rewrite list_elem_of_In).
      by destruct (parts b). }
    apply orb_false_elim in E as [[[_ E2%negb_false_iff]%orb_false_elim E3]%orb_false_elim E4].
    apply bool_decide_eq_true in E2. apply bool_decide_eq_false in E3. rewrite list_elem_of_In in E3.
    destruct (check_parts is_alphanumeric keys used (parts b)) as [used1|e] eqn:Ep.
    2: { split; [done|]. intros (_ & _ & _ & H). destruct (H b) as (_ & _ & _ & H4); [by left|].
         pose proof (proj2 (check_parts_spec keys (parts b) used _) (conj eq_refl H4)). congruence. }
    apply check_parts_spec in Ep as [-> Hp]. rewrite IH, rev_app_distr, <- !app_assoc. cbn [app].
    rewrite NoDup_cons, list_elem_of_In. split.
    + intros (-> & -> & Hn & H). split_and!; [done|done| |done|].
      * intros (b' & Hb' & Hin)%in_map_iff. destruct (H b' Hin) as [Hnot _]. apply Hnot. by left.
      * intros b' [<-|Hin]; [split_and!; [done|done|by destruct (parts b)|done]|].
        destruct (H b' Hin) as (H1 & ?). split; [|done]. intros Hk. apply H1. by right.
    + intros (-> & -> & [Hb Hn] & H). split_and!; [done..|]. intros b' Hin.
      destruct (H b' (or_intror Hin)) as (H1 & ?). split; [|done]. intros [Ei|Hk]; [|done].
      apply Hb. rewrite Ei. by apply in_map.
Qed.

Lemma unbound_marker_spec indexes args i :
  unbound_marker i indexes args = false <->
  forall j, args !! j = Some LAUNCH_MARKER -> In (i + j)%nat indexes.
Proof.
  revert i. induction args as [|a args IH]; intros i; cbn [unbound_marker]; [done|].
  rewrite orb_false_iff, IH, andb_false_iff, negb_false_iff, bool_decide_eq_true, list_elem_of_In. split.
  - intros [Ha H] [|j] Hj.
    + injection Hj as ->. rewrite Nat.add_0_r. destruct Ha as [Ha|]; [discriminate Ha|done].
    + rewrite Nat.add_succ_r. by apply (H j).
  - intros H. split.
    + destruct (String.eqb_spec a LAUNCH_MARKER) as [->|]; [right|by left].
      specialize (H 0%nat eq_refl). by rewrite Nat.add_0_r in H.
    + intros j Hj. specialize (H (S j) Hj). by rewrite Nat.add_succ_r in H.
Qed.

Lemma validate_spec args stored c :
  validate is_alphanumeric args stored c = Ok () <-> well_formed is_alphanumeric args stored c.
Proof.
  unfold validate. destruct (check_inputs stored [] (inputs c)) as [keys|e] eqn:Ei.
  2: { split; [done|]. intros [Hk Hi _ _ _ _].
       pose proof (proj2 (check_inputs_spec stored (inputs c) [] _)
         (conj eq_refl (conj Hk (fun i Hin => conj (fun H => H) (Hi i Hin))))). congruence. }
  apply check_inputs_spec in Ei as (-> & Hn & Hi). rewrite app_nil_r.
  assert (Hkeys : forall k, In k (rev (map input_key (inputs c))) <-> In k (map input_key (inputs c)))
    by (intros k; by rewrite <- in_rev).
  assert (Hparts : forall l, parts_ok (rev (map input_key (inputs c))) l <->
    parts_ok (map input_key (inputs c)) l).
  { intros l. unfold parts_ok. apply and_iff_compat_l. split; intros H k u Hin; apply Hkeys; eauto. }
  destruct (check_bindings _ _ _ _ _ _) as [[indexes used]|e] eqn:Eb.
  2: { split; [done|]. intros [_ _ Hx Hb _ _].
       pose proof (proj2 (check_bindings_spec args (rev (map input_key (inputs c))) (bindings c) [] [] _ _)
         (conj eq_refl (conj eq_refl (conj Hx (fun b Hin => conj (fun H => H)
           (let '(conj m (conj p q)) := Hb b Hin in conj m (conj p (proj2 (Hparts _) q)))))))).
       congruence. }
  apply check_bindings_spec in Eb as (-> & -> & Hx & Hb). rewrite !app_nil_r.
  assert (Hused : forall k, listed k (rev (concat (map (fun b => part_keys (parts b)) (bindings c)))) = true <->
    exists b u, In b (bindings c) /\ In (Input k u) (parts b)).
  { intros k. rewrite listed_spec, <- in_rev, in_concat. split.
    - intros (l & (b & <- & Hin)%in_map_iff & Hk). apply part_keys_spec in Hk as [u Hu]. by exists b, u.
    - intros (b & u & Hin & Hu). exists (part_keys (parts b)). split; [by apply in_map_iff; exists b|].
      apply part_keys_spec. by exists u. }
  assert (Hm : unbound_marker 0 (rev (map index (bindings c))) args = false <->
    forall j, args !! j = Some LAUNCH_MARKER -> In j (map index (bindings c))).
  { rewrite unbound_marker_spec. apply forall_proper. intros j. apply imp_iff_compat_l.
    symmetry. apply in_rev. }
  destruct (unbound_marker _ _ _) eqn:Em.
  { split; [done|]. intros [_ _ _ _ Hall _]. by apply Hm in Hall. }
  apply proj1 in Hm. specialize (Hm eq_refl).
  destruct (existsb _ (inputs c)) eqn:Eu.
  - split; [done|]. intros [_ _ _ _ _ Hu]. apply existsb_exists in Eu as (i & Hin & E).
    apply Hu, Hused in Hin. by rewrite Hin in E.
  - split; [|done]. intros _. split; [done| |done| |done|].
    + intros i Hin. destruct (Hi i Hin) as (_ & ? & ? & ?). done.
    + intros b Hin. destruct (Hb b Hin) as (_ & ? & ? & Hp). apply Hparts in Hp as [? ?]. done.
    + intros i Hin. apply Hused. destruct (listed _ _) eqn:El; [done|]. exfalso.
      assert (Ht : existsb (fun i => negb (listed (input_key i)
        (rev (concat (map (fun b => part_keys (parts b)) (bindings c)))))) (inputs c) = true)
        by (apply existsb_exists; exists i; by rewrite El). congruence.
Qed.

(** A launch setup is accepted exactly when it is well formed: its inputs have
    distinct well-formed keys and labels and, when stored, no inline secret; its
    bindings fill distinct positions of the argument list that hold the marker, with
    punctuation and declared inputs only; no marker is left unfilled; and every
    input is used. *)
Theorem validate_iff args stored c :
  validate is_alphanumeric args stored c = Ok () <-> well_formed is_alphanumeric args stored c.
Proof. exact (validate_spec args stored c). Qed.

End unicode_lemmas.

End Registry.
