(* ===== verification/SecretRefs.v ===== *)
(** Secret references (src/secret_refs.rs): locations of machine-local secrets,
    their grammar, the argument vectors of the provider programs built from them, and
    the errors that reading them reports.  What gates a read is in SecretGate.v. *)

From S2P Require Import Prelude Text Json.

Module SecretRefs.

Record Provider := mk_provider { scheme : string; pname : string; binary : string; sign_in : string }.

Definition PROVIDERS : list Provider :=
  [mk_provider "op://" "1Password" "op" "Sign in to 1Password CLI or unlock the desktop app with CLI integration enabled.";
   mk_provider "doppler://" "Doppler" "doppler" "Run doppler login on this machine.";
   mk_provider "infisical://" "Infisical" "infisical" "Run infisical login on this machine. The project component is the project ID.";
   mk_provider "vault://" "HashiCorp Vault" "vault" "Run vault login and configure VAULT_ADDR locally.";
   mk_provider "bws://" "Bitwarden Secrets Manager" "bws" "Configure BWS_ACCESS_TOKEN in the local Toolport process environment.";
   mk_provider "bw://" "Bitwarden Password Manager" "bw" "Run bw login and bw unlock, then start Toolport with BW_SESSION in its environment.";
   mk_provider "keeper://" "Keeper Secrets Manager" "ksm" "Initialize a local Keeper Secrets Manager CLI profile before testing the reference.";
   mk_provider "dl://" "Dashlane" "dcli" "Sign in locally with dcli and unlock your Dashlane vault.";
   mk_provider "lpass://" "LastPass" "lpass" "Run lpass login on this machine and unlock its agent.";
   mk_provider "env:" "Environment variable" "" "Set the named environment variable before starting Toolport."].

Inductive ErrorState :=
| InvalidReference | PolicyDenied | ApprovalRequired | NotInstalled | Locked | NotFound | Timeout
| InvalidOutput | Failed.

Record ResolveError := mk_error { state : ErrorState; message : string }.

Definition ENV_SYNC_BLOCKED : string :=
  "Environment references are local only. Servers received through personal Pro sync, Teams or imports are Blocked. Use a password manager reference instead.".

Definition error (provider : option Provider) (st : ErrorState) : ResolveError :=
  let name := match provider with Some p => pname p | None => "Secret reference" end in
  let detail :=
    match st with
    | InvalidReference => "Use a supported reference with no outer whitespace, controls or option-like path components."
    | PolicyDenied => "This reference is not allowed by your team's secret source policy."
    | ApprovalRequired => "Review the reference and its destination before enabling this server."
    | NotInstalled => "Install the official " +:+
        match provider with Some p => binary p | None => "provider" end +:+
        " CLI on this machine."
    | Locked => match provider with
                | Some p => sign_in p
                | None => "Sign in or unlock the provider locally."
                end
    | NotFound => "Reference not found. Check the entry, field and your access to it."
    | Timeout => "The read timed out. Finish unlocking locally, then test or restart the server."
    | InvalidOutput => "The CLI did not return one nonempty API key. Check the field and CLI version."
    | Failed => "The CLI read failed. Check the provider locally, then test again."
    end in
  {| state := st; message := name +:+ ": " +:+ detail |}.

(** Only messages this module constructs may bypass the redaction of prose. *)
Definition safe_status (msg : string) : option string :=
  if String.eqb msg ENV_SYNC_BLOCKED then Some msg
  else
    if existsb (fun p => existsb (fun st => String.eqb msg (message (error (Some p) st)))
         [InvalidReference; PolicyDenied; NotInstalled; Locked; NotFound; Timeout; InvalidOutput;
          Failed]) PROVIDERS
    then Some msg else None.

Definition safe (s : string) : bool :=
  negb (String.eqb s "") && (length (chars s) <=? 512)%nat && String.eqb (trim s) s &&
  negb (existsb (fun c => is_control c || (is_whitespace c && negb (String.eqb c " "))) (chars s)).

Definition name (s : string) : bool :=
  match s with
  | EmptyString => false
  | String b s =>
      (is_upper b || is_lower b || Stdlib.Strings.Ascii.eqb b "_") &&
      all_bytes (fun b => is_alnum b || Stdlib.Strings.Ascii.eqb b "_") s
  end.

(** The characters of a path segment. *)
Definition path_byte (b : ascii) : bool :=
  is_alnum b || existsb (Stdlib.Strings.Ascii.eqb b) ["_"; "-"; "."; "{"; "}"; "["; "]"; " "]%char.

Definition path_segment (p : string) : bool :=
  negb (String.eqb p "") && String.eqb (trim p) p && negb (contains "  " p) &&
  negb (starts_with "-" p) && negb (String.eqb p ".") && negb (String.eqb p "..") &&
  all_bytes path_byte p.

Definition forbidden_byte (b : ascii) : bool :=
  existsb (Stdlib.Strings.Ascii.eqb b) ["?"; "#"; "@"; "\"; "%"; ":"]%char.

Definition path (s : string) : bool :=
  all_bytes (fun b => negb (forbidden_byte b)) s && forallb path_segment (split_on "/" s).

Fixpoint uuid_from (i : Z) (s : string) : bool :=
  match s with
  | EmptyString => true
  | String b s =>
      (if (i =? 8) || (i =? 13) || (i =? 18) || (i =? 23)
       then Stdlib.Strings.Ascii.eqb b "-" else is_hexdigit b) && uuid_from (i + 1) s
  end.

Definition uuid (s : string) : bool := (slen s =? 36) && uuid_from 0 s.

(** The part of a reference after its scheme. *)
Definition rest_of (p : Provider) (reference : string) : string :=
  default "" (strip_prefix (scheme p) reference).

Definition part (parts : list string) (i : nat) : string := default "" (parts !! i).

Definition valid_rest (p : Provider) (r : string) : bool :=
  let parts := split_on "/" r in
  let n := length parts in
  let s := scheme p in
  if String.eqb s "env:" then name r
  else if String.eqb s "vault://" then
    match split_once "#" r with
    | Some (loc, field) =>
        path loc && (2 <=? length (split_on "/" loc))%nat && path field
        && negb (contains "/" field)
    | None => false
    end
  else if String.eqb s "op://" then path r && (3 <=? n)%nat && (n <=? 4)%nat
  else if String.eqb s "doppler://" then path r && (n =? 3)%nat
  else if String.eqb s "infisical://" then path r && (4 <=? n)%nat
  else if String.eqb s "bws://" then uuid r
  else if String.eqb s "bw://" then
    (n =? 2)%nat && uuid (part parts 0) && String.eqb (part parts 1) "password"
  else if String.eqb s "keeper://" then
    negb (contains " " r) && path r && (n =? 3)%nat &&
    (String.eqb (part parts 1) "field" || String.eqb (part parts 1) "custom_field") &&
    (slen (part parts 0) =? 22)
  else if String.eqb s "dl://" then path r && (n =? 2)%nat
  else if String.eqb s "lpass://" then
    (n =? 2)%nat && all_bytes is_digit (part parts 0) && negb (String.eqb (part parts 0) "")
    && String.eqb (part parts 1) "password"
  else false.

Definition parse (reference : string) : result Provider ResolveError :=
  match List.find (fun p => starts_with (scheme p) reference) PROVIDERS with
  | None => Err (error None InvalidReference)
  | Some p =>
      if safe reference && valid_rest p (rest_of p reference) then Ok p
      else Err (error (Some p) InvalidReference)
  end.

(** The provider's command line; [None] is an index or [unwrap] that panics. *)
Definition arguments (p : Provider) (reference : string) : option (list string) :=
  let r := rest_of p reference in
  let parts := split_on "/" r in
  let s := scheme p in
  if String.eqb s "op://" then Some ["read"; "--no-newline"; reference]
  else if String.eqb s "doppler://" then
    p0 ← parts !! 0%nat; p1 ← parts !! 1%nat; p2 ← parts !! 2%nat;
    Some ["secrets"; "get"; p2; "--plain"; "--project"; p0; "--config"; p1]
  else if String.eqb s "infisical://" then
    final ← last parts; p0 ← parts !! 0%nat; p1 ← parts !! 1%nat;
    if (length parts <? 3)%nat then None
    else Some ["secrets"; "get"; final; "--plain"; "--silent"; "--telemetry=false"; "--projectId"; p0;
               "--env"; p1; "--path";
               "/" +:+ String.concat "/" (take (length parts - 1 - 2) (drop 2 parts))]
  else if String.eqb s "vault://" then
    lf ← split_once "#" r;
    Some ["kv"; "get"; "-field=" +:+ lf.2; lf.1]
  else if String.eqb s "bws://" then Some ["secret"; "get"; r; "--output"; "json"]
  else if String.eqb s "bw://" then p0 ← parts !! 0%nat; Some ["get"; "password"; p0]
  else if String.eqb s "keeper://" then Some ["secret"; "notation"; reference]
  else if String.eqb s "dl://" then Some ["read"; reference]
  else if String.eqb s "lpass://" then
    p0 ← parts !! 0%nat; Some ["show"; "--password"; "--color=never"; p0]
  else Some [].

(** The reference of a field map: only the closed [{"ref": ..}] form. *)
Definition source (fields : list (string * json)) : result (option string) ResolveError :=
  match obj_get "source" fields with
  | None => Ok None
  | Some value =>
      match as_object value with
      | Some ([_] as obj) =>
          match obj_get "ref" obj with
          | Some (JString reference) =>
              match parse reference with
              | Ok _ => Ok (Some reference)
              | Err e => Err e
              end
          | _ => Err (error None InvalidReference)
          end
      | _ => Err (error None InvalidReference)
      end
  end.

(** The options the table writes itself. *)
Definition FLAGS : list string :=
  ["--no-newline"; "--plain"; "--project"; "--config"; "--silent"; "--telemetry=false";
   "--projectId"; "--env"; "--path"; "--output"; "--password"; "--color=never"].

(** ** Command lines *)

Definition dashed (a : string) : bool := starts_with "-" a.

Lemma path_segments s seg : path s = true -> seg ∈ split_on "/" s -> dashed seg = false.
Proof.
  unfold path. intros [_ H]%andb_prop Hin. rewrite forallb_forall in H.
  apply list_elem_of_In in Hin. specialize (H _ Hin). unfold path_segment in H.
  repeat (apply andb_prop in H as [H ?]). unfold dashed. by destruct (starts_with "-" seg).
Qed.

Lemma dashed_head b s : b <> "-"%char -> dashed (String b s) = false.
Proof.
  intros Hb. unfold dashed, starts_with. cbn [String.prefix].
  destruct (Stdlib.Strings.Ascii.ascii_dec "-" b); [congruence|done].
Qed.

Lemma dashed_dash s : dashed (String "-" s) = true.
Proof.
  unfold dashed, starts_with. cbn [String.prefix].
  destruct (Stdlib.Strings.Ascii.ascii_dec "-" "-"); [by destruct s|done].
Qed.

Lemma path_undashed s : path s = true -> dashed s = false.
Proof.
  intros H. destruct s as [|b s]; [done|].
  destruct (Stdlib.Strings.Ascii.eqb_spec b "-") as [->|Hb]; [|by apply dashed_head].
  destruct (split_on_first "/" "-" s) as (seg & rest & E); [done|].
  pose proof (path_segments _ (String "-" seg) H) as Hd. rewrite E in Hd.
  specialize (Hd ltac:(left)). by rewrite dashed_dash in Hd.
Qed.

Lemma uuid_undashed s : uuid s = true -> dashed s = false.
Proof.
  unfold uuid. intros [_ H]%andb_prop. destruct s as [|b s]; [done|]. apply dashed_head.
  intros ->. cbn in H. done.
Qed.

Lemma digits_undashed s : all_bytes is_digit s = true -> dashed s = false.
Proof. destruct s as [|b s]; [done|]. intros H. apply dashed_head. by intros ->. Qed.

Lemma part_lookup parts i x : parts !! i = Some x -> part parts i = x.
Proof. unfold part. by intros ->. Qed.

Lemma parse_spec reference p :
  parse reference = Ok p ->
  In p PROVIDERS /\ starts_with (scheme p) reference = true /\ safe reference = true /\
  valid_rest p (rest_of p reference) = true.
Proof.
  unfold parse. destruct (List.find _ PROVIDERS) as [q|] eqn:E; [|done].
  apply List.find_some in E as [Hin Hs]. destruct (safe reference && _) eqn:Ev; [|done].
  intros [= <-]. by apply andb_prop in Ev as [? ?].
Qed.

(** A text that starts with a scheme does not start with a dash. *)
Lemma scheme_undashed p reference :
  In p PROVIDERS -> starts_with (scheme p) reference = true -> dashed reference = false.
Proof.
  intros Hin [r ->]%prefix_spec. simpl in Hin.
  repeat (destruct Hin as [<-|Hin]; [reflexivity|]). done.
Qed.

(** An argument the table's author wrote, or one that is no option. *)
Definition harmless (a : string) : Prop :=
  In a FLAGS \/ (exists f, a = "-field=" +:+ f) \/ dashed a = false.

Lemma undashed_harmless a : dashed a = false -> harmless a.
Proof. intros H. right. by right. Qed.

Lemma last_in {A} (l : list A) x : last l = Some x -> x ∈ l.
Proof. intros H. apply last_Some in H as [l' ->]. apply elem_of_app. right. by left. Qed.

(** Close an argument list word by word. *)
Ltac words :=
  repeat (constructor;
    [first [ apply undashed_harmless; (reflexivity || assumption)
           | left; unfold FLAGS; simpl; tauto
           | assumption ]|]);
  try apply Forall_nil_2.

Ltac inv_words :=
  repeat match goal with H : Forall harmless (_ :: _) |- _ => apply Forall_cons_1 in H as [? H] end;
  words.

(** A configured reference cannot smuggle an option into a password manager's
    command line.  For every reference that parses, building the command does not
    panic, and each argument is one of the options the table itself writes,
    vault's [-field=] with its field, or a word that does not start with a dash. *)
Theorem arguments_no_injection reference p :
  parse reference = Ok p ->
  exists args, arguments p reference = Some args /\ Forall harmless args.
Proof.
  intros H. apply parse_spec in H as (Hin & Hs & _ & Hv).
  pose proof (scheme_undashed p reference Hin Hs) as Href.
  unfold arguments. set (r := rest_of p reference) in *.
  assert (Hpath : path r = true -> Forall harmless (split_on "/" r)).
  { intros Hp. apply Forall_forall. intros seg Hseg. eapply undashed_harmless, path_segments; eauto. }
  unfold valid_rest in Hv. set (parts := split_on "/" r) in *. clearbody parts.
  simpl in Hin. repeat (destruct Hin as [<-|Hin]); try done; cbn in Hv |- *.
  - eexists. split; [done|]. words.
  - apply andb_prop in Hv as [Hp Hn]. specialize (Hpath Hp).
    destruct parts as [|x [|y [|z [|]]]]; try done. eexists. split; [done|]. inv_words.
  - apply andb_prop in Hv as [Hp Hn]. specialize (Hpath Hp).
    destruct parts as [|x [|y [|z [|w rest]]]]; try done.
    destruct (last (x :: y :: z :: w :: rest)) as [final|] eqn:El; [|by apply last_None in El].
    cbn. eexists. split; [done|]. apply last_in in El.
    pose proof (proj1 (Forall_forall _ _) Hpath final El) as Hf. inv_words.
  - destruct (split_once "#" r) as [[loc field]|]; [|done]. cbn in *.
    apply andb_prop in Hv as [[[Hp _]%andb_prop _]%andb_prop _].
    eexists. split; [done|]. pose proof (path_undashed _ Hp). words.
    constructor; [right; left; by exists field|words].
  - pose proof (uuid_undashed _ Hv). eexists. split; [done|]. words.
  - apply andb_prop in Hv as [[Hn Hu]%andb_prop _]. apply uuid_undashed in Hu.
    destruct parts as [|x [|y [|]]]; try done. eexists. split; [done|]. words.
  - eexists. split; [done|]. words.
  - eexists. split; [done|]. words.
  - apply andb_prop in Hv as [[[Hn Hd]%andb_prop _]%andb_prop _]. apply digits_undashed in Hd.
    destruct parts as [|x [|y [|]]]; try done. eexists. split; [done|]. words.
  - eexists. split; [done|constructor].
Qed.

End SecretRefs.

(** ** Witnesses *)

Lemma arguments_no_injection_witness :
  exists args, SecretRefs.arguments
    (SecretRefs.mk_provider "vault://" "HashiCorp Vault" "vault"
       "Run vault login and configure VAULT_ADDR locally.") "vault://secret/docs#token" = Some args /\
    Forall SecretRefs.harmless args.
Proof. apply SecretRefs.arguments_no_injection. vm_compute. reflexivity. Defined.
