(* ===== verification/SecretGate.v ===== *)
(** Reading secret references (src/secret_refs.rs): the references of a server, the
    policy, validation and approval that gate every read, and the resolution of a
    connection's references into values.

    serde's derived decoding of [headerKeys] and encoding of launch setups, the
    digest of an identity, the vault, and the read of one reference are parameters;
    the approvals file is a map with the outcome of its I/O as arguments. *)

From S2P Require Import Prelude Text Json Registry SecretRefs.

Module SecretGate.
Import Registry SecretRefs.

(** An ordered map of strings. *)
Fixpoint bt_insert (k v : string) (m : list (string * string)) : list (string * string) :=
  match m with
  | [] => [(k, v)]
  | (k', v') :: m' =>
      match String.compare k k' with
      | Lt => (k, v) :: m
      | Eq => (k, v) :: m'
      | Gt => (k', v') :: bt_insert k v m'
      end
  end.

Record HeaderKey := mk_header {
  header_key : string;
  header_env : option string;
  header_source : option string
}.

Definition header_name (s : string) : bool :=
  negb (String.eqb s "") &&
  all_bytes (fun b => is_alnum b ||
    existsb (Stdlib.Strings.Ascii.eqb b)
      ["!"; "#"; "$"; "%"; "&"; "'"; "*"; "+"; "-"; "."; "^"; "_"; "`"; "|"; "~"]%char) s.

Definition prefix_matches (prefix reference : string) : bool :=
  match strip_prefix prefix reference with
  | None => false
  | Some rest =>
      String.eqb rest "" || ends_with "/" prefix || ends_with ":" prefix ||
      starts_with "/" rest || starts_with "#" rest
  end.

Definition is_shared (s : ServerEntry) : bool :=
  match Registry.source s with
  | Some src => starts_with "team:" src || String.eqb src "shared"
  | None => false
  end.

(** The first error of a loop. *)
Fixpoint try_all {A} (f : A -> result () ResolveError) (l : list A) : result () ResolveError :=
  match l with
  | [] => Ok ()
  | x :: l => match f x with Ok _ => try_all f l | Err e => Err e end
  end.

Definition invalid {A} : result A ResolveError := Err (error None InvalidReference).
Definition denied {A} : result A ResolveError := Err (error None PolicyDenied).

Section gate.
(** serde's derived decoding of [Vec<HeaderKey>]. *)
Variable decode_headers : json -> option (list HeaderKey).

Definition check_header (h : HeaderKey) : result () ResolveError :=
  if negb (header_name (header_key h)) ||
     match header_env h with Some e => negb (name e) | None => false end
  then invalid
  else match header_source h with
       | Some r => match parse r with Ok _ => Ok () | Err e => Err e end
       | None => Ok ()
       end.

Definition headers (s : ServerEntry) : result (list HeaderKey) ResolveError :=
  match obj_get "headerKeys" (unknown_fields s) with
  | None => Ok []
  | Some v =>
      match decode_headers v with
      | None => invalid
      | Some l => match try_all check_header l with Ok _ => Ok l | Err e => Err e end
      end
  end.

Definition reference_for (e : EnvVar) : option string :=
  match SecretRefs.source (env_unknown e) with Ok r => r | Err _ => None end.

Definition header_reference (s : ServerEntry) (h : HeaderKey) : option string :=
  match header_source h with
  | Some r => Some r
  | None =>
      key ← header_env h;
      e ← List.find (fun e => String.eqb (env_key e) key) (env s);
      reference_for e
  end.

Definition Uses : Type := list (string * string).

(** One [for] loop over entries with a field map. *)
Fixpoint add_uses {A} (label : string) (key : A -> string) (unknown : A -> list (string * json))
    (l : list A) (uses : Uses) : result Uses ResolveError :=
  match l with
  | [] => Ok uses
  | x :: l =>
      match SecretRefs.source (unknown x) with
      | Err e => Err e
      | Ok None => add_uses label key unknown l uses
      | Ok (Some r) => add_uses label key unknown l (bt_insert (label +:+ key x) r uses)
      end
  end.

(** The legacy bearer: the first secret variable with a source. *)
Definition legacy_use (s : ServerEntry) (uses : Uses) : Uses :=
  match List.find (fun e => env_secret e && obj_contains "source" (env_unknown e)) (env s) with
  | Some e => match reference_for e with
              | Some r => bt_insert ("header:Authorization (env:" +:+ env_key e +:+ ")") r uses
              | None => uses
              end
  | None => uses
  end.

Fixpoint header_uses (s : ServerEntry) (l : list HeaderKey) (uses : Uses) : Uses :=
  match l with
  | [] => uses
  | h :: l =>
      header_uses s l
        match header_reference s h with
        | Some r => bt_insert ("header:" +:+ header_key h) r uses
        | None => uses
        end
  end.

Definition reference_uses (s : ServerEntry) : result Uses ResolveError :=
  match add_uses "env:" env_key env_unknown (env s) [] with
  | Err e => Err e
  | Ok uses =>
      match add_uses "input:" input_key input_unknown (launch_inputs s) uses with
      | Err e => Err e
      | Ok uses =>
          match headers s with
          | Err e => Err e
          | Ok hs =>
              let uses := if negb (is_some (command s)) && negb (String.eqb (transport s) "stdio") &&
                             match hs with [] => true | _ => false end
                          then legacy_use s uses else uses in
              Ok (header_uses s hs uses)
          end
      end
  end.

Definition has_references (s : ServerEntry) : bool :=
  existsb (fun e => obj_contains "source" (env_unknown e)) (env s) ||
  existsb (fun i => obj_contains "source" (input_unknown i)) (launch_inputs s) ||
  match headers s with
  | Ok hs => existsb (fun h => is_some (header_source h)) hs
  | Err _ => false
  end.

(** ** Policy *)

Definition prefix_allowed (v : json) : bool :=
  match v with
  | JString p => safe p && existsb (fun pr => starts_with (scheme pr) p) PROVIDERS
  | _ => false
  end.

Definition prefix_covers (reference : string) (v : json) : bool :=
  match v with JString p => prefix_matches p reference | _ => false end.

Definition check_prefixes (s : ServerEntry) (reference : string) : result () ResolveError :=
  match obj_get "secretSources" (unknown_fields s) with
  | None => Ok ()
  | Some (JObject obj) =>
      match obj_get "allowedPrefixes" obj with
      | None => Ok ()
      | Some (JArray prefixes) =>
          if negb (forallb prefix_allowed prefixes) || negb (existsb (prefix_covers reference) prefixes)
          then denied else Ok ()
      | Some _ => denied
      end
  | Some _ => denied
  end.

Definition check_policy (s : ServerEntry) (reference : string) : result () ResolveError :=
  match parse reference with
  | Err e => Err e
  | Ok _ =>
      if is_shared s && starts_with "env:" reference
      then Err {| state := PolicyDenied; message := ENV_SYNC_BLOCKED |}
      else check_prefixes s reference
  end.

Definition validate_env (s : ServerEntry) (e : EnvVar) : result () ResolveError :=
  match SecretRefs.source (env_unknown e) with
  | Err e => Err e
  | Ok None => Ok ()
  | Ok (Some r) =>
      if negb (env_secret e) || is_some (env_value e) || negb (name (env_key e)) then invalid
      else check_policy s r
  end.

Definition validate_input (s : ServerEntry) (i : LaunchInput) : result () ResolveError :=
  match SecretRefs.source (input_unknown i) with
  | Err e => Err e
  | Ok None => Ok ()
  | Ok (Some r) =>
      if negb (input_secret i) || is_some (input_value i) then invalid else check_policy s r
  end.

Definition validate_header (s : ServerEntry) (h : HeaderKey) : result () ResolveError :=
  match header_source h with Some r => check_policy s r | None => Ok () end.

Definition validate_server (s : ServerEntry) : result () ResolveError :=
  match try_all (validate_env s) (env s) with
  | Err e => Err e
  | Ok _ =>
      match try_all (validate_input s) (launch_inputs s) with
      | Err e => Err e
      | Ok _ =>
          match headers s with
          | Err e => Err e
          | Ok hs => try_all (validate_header s) hs
          end
      end
  end.

(** ** Approval *)

(** serde's derived encoding of the launch setup, and the digest of the identity's text. *)
Variable launch_json : option LaunchConfig -> json.
Variable digest : json -> string.

Definition opt_str (o : option string) : json :=
  match o with Some s => JString s | None => JNull end.

Definition blank_secret (i : LaunchInput) : LaunchInput :=
  if input_secret i then set_input_value None i else i.

Definition blanked_launch (s : ServerEntry) : option LaunchConfig :=
  (fun l => set_inputs (map blank_secret (inputs l)) l) <$> launch s.

(** [json!] with these fields, in the order of the map. *)
Definition identity (s : ServerEntry) (uses : Uses) : json :=
  JObject
    [("args", JArray (map JString (args s))); ("command", opt_str (command s));
     ("cwd", opt_str (cwd s)); ("id", JString (server_id s)); ("inheritEnv", JBool (inherit_env s));
     ("launch", launch_json (blanked_launch s)); ("source", opt_str (Registry.source s));
     ("transport", JString (transport s)); ("url", opt_str (url s));
     ("uses", JObject (map (fun kv => (kv.1, JString kv.2)) uses))].

Definition approval_identity (s : ServerEntry) : result string ResolveError :=
  match reference_uses s with
  | Ok uses => Ok (digest (identity s uses))
  | Err e => Err e
  end.

Abbreviation Approvals := (gmap string string).

(** [file]: the approvals file's contents (empty when it cannot be read), or [None]
    when there is no data directory. *)
Definition check_approval (file : option Approvals) (s : ServerEntry) : result () ResolveError :=
  if negb (is_shared s) || negb (has_references s) then Ok ()
  else
    match file with
    | None => Err (error None ApprovalRequired)
    | Some approved =>
        match approval_identity s with
        | Err e => Err e
        | Ok d => if bool_decide (approved !! server_id s = Some d) then Ok ()
                  else Err (error None ApprovalRequired)
        end
    end.

(** [locked], [written]: the outcome of the file lock and of the atomic write. *)
Definition approve_at (locked written : bool) (approved : Approvals) (s : ServerEntry) :
    result () ResolveError * Approvals :=
  if negb locked then (Err (error None ApprovalRequired), approved)
  else
    match approval_identity s with
    | Err e => (Err e, approved)
    | Ok d => if written then (Ok (), <[server_id s := d]> approved)
              else (Err (error None ApprovalRequired), approved)
    end.

Definition approve_server (locked written : bool) (file : option Approvals) (s : ServerEntry) :
    result () ResolveError * option Approvals :=
  match validate_server s with
  | Err e => (Err e, file)
  | Ok _ =>
      if negb (has_references s) then (Ok (), file)
      else match file with
           | None => (Err (error None ApprovalRequired), None)
           | Some approved => let (r, approved) := approve_at locked written approved s in
                              (r, Some approved)
           end
  end.

Definition check_reviewed_definition (current : ServerEntry) (reviewed : option ServerEntry) :
    result () string :=
  if is_shared current && has_references current then
    if match reviewed with
       | Some r =>
           match approval_identity r, approval_identity current with
           | Ok d, Ok d' => String.eqb d d'
           | Err _, Err _ => true
           | _, _ => false
           end
       | None => false
       end
    then Ok ()
    else Err "The reference or destination changed. Review this server again."
  else Ok ().

(** ** Resolution *)

(** Reading one reference; [None] is a read that panics. *)
Variable read_ref : string -> option (result string ResolveError).
(** The OS vault: [get_secret_result]. *)
Variable vault : string -> string -> result (option string) string.

Abbreviation Values := (gmap string string).

(** The joins of one batch, in order. *)
Fixpoint join_batch (batch : list string) (values : Values) : result Values ResolveError :=
  match batch with
  | [] => Ok values
  | r :: batch =>
      match read_ref r with
      | None => Err (error None Failed)
      | Some (Err e) => Err e
      | Some (Ok v) => join_batch batch (<[r := v]> values)
      end
  end.

(** [chunks(4)]: every read of a batch is started before the first is joined.  The
    references read, with the result. *)
Fixpoint read_batches (fuel : nat) (refs : list string) (values : Values) :
    list string * result Values ResolveError :=
  match fuel, refs with
  | S fuel, _ :: _ =>
      let batch := take 4 refs in
      match join_batch batch values with
      | Err e => (batch, Err e)
      | Ok values =>
          let (log, r) := read_batches fuel (drop 4 refs) values in (batch ++ log, r)
      end
  | _, _ => ([], Ok values)
  end.

Definition refs_of (uses : Uses) : list string := dedup (sort_strings (map snd uses)).

Definition resolve_values_with (file : option Approvals) (s : ServerEntry) :
    list string * result Values ResolveError :=
  match reference_uses s with
  | Err e => ([], Err e)
  | Ok uses =>
      match try_all (fun r => check_policy s r) (map snd uses) with
      | Err e => ([], Err e)
      | Ok _ =>
          match check_approval file s with
          | Err e => ([], Err e)
          | Ok _ => read_batches (length (refs_of uses)) (refs_of uses) ∅
          end
      end
  end.

(** A result whose [None] is the panic of indexing a map with a missing key. *)
Definition Panics (A : Type) : Type := option (result A ResolveError).

Fixpoint fill {A} (unknown : A -> list (string * json)) (set : option string -> A -> A)
    (values : Values) (l : list A) : Panics (list A) :=
  match l with
  | [] => Some (Ok [])
  | x :: l =>
      match SecretRefs.source (unknown x) with
      | Err e => Some (Err e)
      | Ok r =>
          match (match r with
                 | Some r => match values !! r with
                             | Some v => Some (set (Some v) x)
                             | None => None
                             end
                 | None => Some x
                 end) with
          | None => None
          | Some x =>
              match fill unknown set values l with
              | Some (Ok l) => Some (Ok (x :: l))
              | e => e
              end
          end
      end
  end.

Definition resolved_server_with_values (s : ServerEntry) (values : Values) : Panics ServerEntry :=
  match fill env_unknown set_env_value values (env s) with
  | None => None
  | Some (Err e) => Some (Err e)
  | Some (Ok envs) =>
      match fill input_unknown set_input_value values (launch_inputs s) with
      | None => None
      | Some (Err e) => Some (Err e)
      | Some (Ok ins) => Some (Ok (set_env envs (set_launch (set_inputs ins <$> launch s) s)))
      end
  end.

Fixpoint fill_headers (s : ServerEntry) (values : Values) (hs : list HeaderKey) :
    Panics (list (string * string)) :=
  match hs with
  | [] => Some (Ok [])
  | h :: hs =>
      let more v := match fill_headers s values hs with
                    | Some (Ok l) => Some (Ok ((header_key h, v) :: l))
                    | e => e
                    end in
      match header_reference s h with
      | Some r =>
          match check_policy s r with
          | Err e => Some (Err e)
          | Ok _ => match values !! r with Some v => more v | None => None end
          end
      | None =>
          match vault (server_id s) (default (header_key h) (header_env h)) with
          | Err _ => Some (Err (error None Locked))
          | Ok v =>
              match (match v with Some v => if String.eqb v "" then None else Some v | None => None end) with
              | Some v => more v
              | None =>
                  if eq_ignore_ascii_case (header_key h) "Authorization"
                  then fill_headers s values hs
                  else Some (Err (error None NotFound))
              end
          end
      end
  end.

Definition headers_with_values (s : ServerEntry) (values : Values) : Panics (list (string * string)) :=
  match headers s with
  | Err e => Some (Err e)
  | Ok hs => fill_headers s values hs
  end.

(** The references read, and what the connection is given. *)
Definition resolve_connection_with (file : option Approvals) (s : ServerEntry) :
    list string * Panics (ServerEntry * list (string * string)) :=
  match validate_server s with
  | Err e => ([], Some (Err e))
  | Ok _ =>
      let (log, r) := resolve_values_with file s in
      (log,
       match r with
       | Err e => Some (Err e)
       | Ok values =>
           match resolved_server_with_values s values with
           | None => None
           | Some (Err e) => Some (Err e)
           | Some (Ok resolved) =>
               match headers_with_values s values with
               | None => None
               | Some (Err e) => Some (Err e)
               | Some (Ok hs) => Some (Ok (resolved, hs))
               end
           end
       end)
  end.

(** ** Lemmas *)

Lemma try_all_ok {A} (f : A -> result () ResolveError) l :
  try_all f l = Ok () <-> forall x, In x l -> f x = Ok ().
Proof.
  induction l as [|x l IH]; cbn [try_all]; [by split|].
  destruct (f x) as [[]|e] eqn:E.
  - rewrite IH. split; [intros H y [<-|Hy]; [done|by apply H]|intros H y Hy; apply H; by right].
  - split; [done|]. intros H. specialize (H x (or_introl eq_refl)). congruence.
Qed.

Lemma source_some fields r :
  SecretRefs.source fields = Ok (Some r) ->
  obj_contains "source" fields = true /\ exists p, parse r = Ok p.
Proof.
  unfold SecretRefs.source, obj_contains. destruct (obj_get "source" fields) as [v|]; [|done].
  destruct (as_object v) as [[|kv [|kv' obj]]|]; try done.
  destruct (obj_get "ref" [kv]) as [[]|]; try done. destruct (parse s) as [p|e] eqn:E; [|done].
  intros [= <-]. eauto.
Qed.

Lemma reference_for_some e r :
  reference_for e = Some r -> SecretRefs.source (env_unknown e) = Ok (Some r).
Proof. unfold reference_for. destruct (SecretRefs.source (env_unknown e)) as [x|]; [by intros ->|done]. Qed.

Lemma bt_insert_in k v m kv : In kv (bt_insert k v m) -> kv = (k, v) \/ In kv m.
Proof.
  induction m as [|[k' v'] m IH]; cbn [bt_insert]; [intros [<-|[]]; auto|].
  destruct (String.compare k k'); intros [<-|Hin]; simpl in *; auto; intuition.
Qed.

Lemma bt_insert_new k v m : In (k, v) (bt_insert k v m).
Proof.
  induction m as [|[k' v'] m IH]; cbn [bt_insert]; [by left|].
  destruct (String.compare k k'); [by left|by left|by right].
Qed.

Lemma bt_insert_old k v k' v' m : k' <> k -> In (k', v') m -> In (k', v') (bt_insert k v m).
Proof.
  intros Hne. induction m as [|[k1 v1] m IH]; [done|]. intros Hin. cbn [bt_insert].
  destruct (String.compare k k1) eqn:E.
  - apply String.compare_eq_iff in E as ->. destruct Hin as [[= -> ->]|Hin]; [done|by right].
  - by right.
  - destruct Hin as [[= -> ->]|Hin]; [by left|right; by apply IH].
Qed.

Lemma add_uses_from {A} label (key : A -> string) unknown l uses uses' kv :
  add_uses label key unknown l uses = Ok uses' -> In kv uses' ->
  In kv uses \/ exists x, In x l /\ SecretRefs.source (unknown x) = Ok (Some kv.2).
Proof.
  revert uses. induction l as [|x l IH]; intros uses; cbn [add_uses]; [intros [= ->]; auto|].
  destruct (SecretRefs.source (unknown x)) as [[r|]|e] eqn:E; [| |done]; intros H Hin.
  - destruct (IH _ H Hin) as [Hu|(y & Hy & Hs)]; [|right; exists y; split; [by right|done]].
    apply bt_insert_in in Hu as [->|Hu]; [|by left]. right. exists x. split; [by left|done].
  - destruct (IH _ H Hin) as [Hu|(y & Hy & Hs)]; [by left|right; exists y; split; [by right|done]].
Qed.

Lemma header_uses_from s l uses kv :
  In kv (header_uses s l uses) ->
  In kv uses \/ exists h, In h l /\ header_reference s h = Some kv.2.
Proof.
  revert uses. induction l as [|h l IH]; intros uses; cbn [header_uses]; [auto|].
  intros [Hin|(h' & Hh & Hr)]%IH; [|right; exists h'; split; [by right|done]].
  destruct (header_reference s h) as [r|] eqn:E; [|by left].
  apply bt_insert_in in Hin as [->|Hin]; [right; exists h; split; [by left|done]|by left].
Qed.

(** Where a server's references come from. *)
Definition declared (s : ServerEntry) (r : string) : Prop :=
  (exists e, In e (env s) /\ SecretRefs.source (env_unknown e) = Ok (Some r)) \/
  (exists i, In i (launch_inputs s) /\ SecretRefs.source (input_unknown i) = Ok (Some r)) \/
  (exists hs h, headers s = Ok hs /\ In h hs /\ header_source h = Some r).

Lemma header_reference_declared s hs h r :
  headers s = Ok hs -> In h hs -> header_reference s h = Some r -> declared s r.
Proof.
  intros Hhs Hh. unfold header_reference. destruct (header_source h) as [r'|] eqn:E.
  - intros [= ->]. right. right. by exists hs, h.
  - destruct (header_env h) as [key|]; [|done]. cbn.
    destruct (List.find _ (env s)) as [e|] eqn:Ef; [|done]. cbn. intros Hr.
    apply List.find_some in Ef as [Hin _]. left. exists e. split; [done|by apply reference_for_some].
Qed.

Lemma uses_declared s uses kv :
  reference_uses s = Ok uses -> In kv uses -> declared s kv.2.
Proof.
  unfold reference_uses.
  destruct (add_uses "env:" _ _ (env s) []) as [u1|] eqn:E1; [|done].
  destruct (add_uses "input:" _ _ (launch_inputs s) u1) as [u2|] eqn:E2; [|done].
  destruct (headers s) as [hs|] eqn:Eh; [|done].
  assert (H2 : In kv u2 -> declared s kv.2).
  { intros Hin. destruct (add_uses_from _ _ _ _ _ _ _ E2 Hin) as [Hu|(i & Hi & Hs)].
    - destruct (add_uses_from _ _ _ _ _ _ _ E1 Hu) as [[]|(e & He & Hs)]. left. by exists e.
    - right. left. by exists i. }
  intros [= <-] Hin. apply header_uses_from in Hin as [Hin|(h & Hh & Hr)].
  - destruct (_ && _) in Hin; [|by apply H2]. unfold legacy_use in Hin.
    destruct (List.find _ (env s)) as [e|] eqn:Ef; [|by apply H2].
    destruct (reference_for e) as [r|] eqn:Er; [|by apply H2].
    apply bt_insert_in in Hin as [->|Hin]; [|by apply H2]. left. exists e.
    apply List.find_some in Ef as [He _]. split; [done|by apply reference_for_some].
  - by eapply header_reference_declared.
Qed.

Lemma declared_has_references s r : declared s r -> has_references s = true.
Proof.
  unfold has_references. intros [(e & He & Hs)|[(i & Hi & Hs)|(hs & h & Hhs & Hh & Hr)]].
  - apply source_some in Hs as [Hs _]. apply orb_true_intro. left. apply orb_true_intro. left.
    apply existsb_exists. by exists e.
  - apply source_some in Hs as [Hs _]. apply orb_true_intro. left. apply orb_true_intro. right.
    apply existsb_exists. by exists i.
  - apply orb_true_intro. right. rewrite Hhs. apply existsb_exists. exists h. by rewrite Hr.
Qed.

Lemma refs_of_in uses r : In r (refs_of uses) <-> In r (map snd uses).
Proof.
  unfold refs_of. rewrite <- !list_elem_of_In. split.
  - intros H%dedup_incl. by apply (sort_strings_in (map snd uses)).
  - intros H. by apply dedup_superset, (sort_strings_in (map snd uses)).
Qed.

Lemma read_batches_log fuel refs values :
  exists n, (read_batches fuel refs values).1 = take n refs.
Proof.
  revert refs values. induction fuel as [|fuel IH]; intros refs values; [by exists 0%nat; destruct refs|].
  cbn [read_batches]. destruct refs as [|r refs]; [by exists 0%nat|].
  destruct (join_batch (take 4 (r :: refs)) values) as [values'|e]; [|by exists 4%nat].
  destruct (IH (drop 4 (r :: refs)) values') as [n Hn].
  destruct (read_batches fuel (drop 4 (r :: refs)) values') as [log res]. cbn [fst] in *.
  exists (4 + n)%nat. rewrite Hn. by rewrite take_take_drop.
Qed.

Lemma prefix_matches_spec p r :
  prefix_matches p r = true <->
  exists rest, r = p +:+ rest /\
    (rest = "" \/ ends_with "/" p = true \/ ends_with ":" p = true \/
     starts_with "/" rest = true \/ starts_with "#" rest = true).
Proof.
  unfold prefix_matches. destruct (strip_prefix p r) as [rest|] eqn:E.
  - apply strip_prefix_spec in E. rewrite !orb_true_iff. split.
    + intros H. exists rest. split; [done|]. rewrite String.eqb_eq in H. tauto.
    + intros (rest' & E' & H). rewrite E in E'. apply app_str_inj in E' as ->.
      rewrite String.eqb_eq. tauto.
  - split; [done|]. intros (rest & E' & _). apply strip_prefix_spec in E'. congruence.
Qed.

(** ** Reads pass the gates *)

(** What the policy of a server says of a reference. *)
Definition policy_admits (s : ServerEntry) (r : string) : Prop :=
  (exists p, parse r = Ok p) /\
  ~ (is_shared s = true /\ starts_with "env:" r = true) /\
  (forall o v, obj_get "secretSources" (unknown_fields s) = Some (JObject o) ->
     obj_get "allowedPrefixes" o = Some v ->
     exists prefixes p rest, v = JArray prefixes /\ In (JString p) prefixes /\ r = p +:+ rest /\
       (rest = "" \/ ends_with "/" p = true \/ ends_with ":" p = true \/
        starts_with "/" rest = true \/ starts_with "#" rest = true)).

Lemma check_policy_admits s r : check_policy s r = Ok () -> policy_admits s r.
Proof.
  unfold check_policy. destruct (parse r) as [p|] eqn:Ep; [|done].
  destruct (is_shared s && starts_with "env:" r) eqn:Es; [done|].
  unfold check_prefixes. intros H. split_and!; [eauto|intros [E1 E2]; by rewrite E1, E2 in Es|].
  intros o v Ho Hv. rewrite Ho, Hv in H. destruct v as [| | | |prefixes|]; try done.
  destruct (negb (forallb prefix_allowed prefixes) || negb (existsb (prefix_covers r) prefixes)) eqn:E;
    [done|]. apply orb_false_elim in E as [_ E%negb_false_iff].
  apply existsb_exists in E as (pv & Hin & Hp). destruct pv as [| | |pre| |]; try done.
  apply prefix_matches_spec in Hp as (rest & -> & Hr). by exists prefixes, pre, rest.
Qed.

Lemma resolve_log file s log out :
  resolve_connection_with file s = (log, out) -> log <> [] ->
  validate_server s = Ok () /\
  exists uses, reference_uses s = Ok uses /\ check_approval file s = Ok () /\
    (forall r, In r (map snd uses) -> check_policy s r = Ok ()) /\
    exists n, log = take n (refs_of uses).
Proof.
  unfold resolve_connection_with. destruct (validate_server s) as [[]|]; [|by intros [= <- _]].
  destruct (resolve_values_with file s) as [log' res] eqn:Er. intros [= <- _] Hne. split; [done|].
  unfold resolve_values_with in Er. destruct (reference_uses s) as [uses|]; [|by injection Er as <- _].
  destruct (try_all _ (map snd uses)) as [[]|] eqn:Ep; [|by injection Er as <- _].
  destruct (check_approval file s) as [[]|]; [|by injection Er as <- _].
  exists uses. split_and!; [done|done|by apply try_all_ok|].
  destruct (read_batches_log (length (refs_of uses)) (refs_of uses) ∅) as [n Hn].
  rewrite Er in Hn. by exists n.
Qed.

(** C6. No secret is read for a configuration that was not checked.  If resolving a
    connection reads any reference, the server's definition is valid; each
    reference read is one the server declares, parses, is inside the team's allowed
    prefixes at a segment boundary and, for a server that came from a team or sync,
    is no environment variable; and such a server's exact definition is the one
    whose digest was approved.  No reference is read twice. *)
Theorem reads_gated file s log out :
  resolve_connection_with file s = (log, out) -> log <> [] ->
  validate_server s = Ok () /\ NoDup log /\
  (forall r, In r log -> declared s r /\ policy_admits s r) /\
  (is_shared s = true ->
   exists approved d, file = Some approved /\ approval_identity s = Ok d /\
     approved !! server_id s = Some d).
Proof.
  intros H Hne. destruct (resolve_log _ _ _ _ H Hne) as (Hv & uses & Hu & Ha & Hp & n & ->).
  assert (Hin : forall r, In r (take n (refs_of uses)) -> In r (map snd uses)).
  { intros r Hr. apply refs_of_in. rewrite <- list_elem_of_In in *.
    rewrite <- (take_drop n (refs_of uses)). apply elem_of_app. by left. }
  assert (Hnd : NoDup (refs_of uses)) by apply dedup_NoDup, sort_strings_sorted.
  rewrite <- (take_drop n (refs_of uses)) in Hnd. apply NoDup_app in Hnd as [Hnd _].
  split_and!; [done|done| |].
  - intros r Hr%Hin. split; [|by apply check_policy_admits, Hp].
    apply in_map_iff in Hr as (kv & <- & Hkv). by eapply uses_declared.
  - intros Hs. unfold check_approval in Ha.
    assert (Hr : has_references s = true).
    { destruct (take n (refs_of uses)) as [|r log] eqn:El; [done|].
      apply (declared_has_references s r). specialize (Hin r (or_introl eq_refl)).
      apply in_map_iff in Hin as (kv & <- & Hkv). by eapply uses_declared. }
    rewrite Hs, Hr in Ha. cbn [negb orb] in Ha. destruct file as [approved|]; [|done].
    destruct (approval_identity s) as [d|]; [|done]. case_bool_decide as E; [|done].
    by exists approved, d.
Qed.

(** ** Approvals *)

(** What an approval binds: where the secrets go. *)
Definition same_destination (s s' : ServerEntry) : Prop :=
  server_id s = server_id s' /\ Registry.source s = Registry.source s' /\
  transport s = transport s' /\ url s = url s' /\ command s = command s' /\ args s = args s' /\
  cwd s = cwd s' /\ inherit_env s = inherit_env s' /\ blanked_launch s = blanked_launch s' /\
  exists uses, reference_uses s = Ok uses /\ reference_uses s' = Ok uses.

Lemma opt_str_inj a b : opt_str a = opt_str b -> a = b.
Proof. destruct a, b; cbn; congruence. Qed.

Lemma map_inj {A B} (f : A -> B) l l' :
  (forall x y, f x = f y -> x = y) -> map f l = map f l' -> l = l'.
Proof.
  intros Hf. revert l'. induction l as [|x l IH]; intros [|y l']; cbn; try done.
  intros [= H1 H2]. by rewrite (Hf _ _ H1), (IH _ H2).
Qed.

Lemma identity_inj s uses s' uses' :
  (forall a b, launch_json a = launch_json b -> a = b) ->
  reference_uses s = Ok uses -> reference_uses s' = Ok uses' ->
  identity s uses = identity s' uses' -> same_destination s s'.
Proof.
  intros Hl Hu Hu'. unfold identity. intros E. injection E.
  intros E10 E9%opt_str_inj E8 E7%opt_str_inj E6%Hl E5 E4 E3%opt_str_inj E2%opt_str_inj E1.
  apply map_inj in E1; [|by intros x y [= ->]].
  apply map_inj in E10; [|by intros [k v] [k' v'] [= -> ->]].
  subst uses'. unfold same_destination. split_and!; eauto.
Qed.

(** C24. Approving a server's references approves that definition only.  With a
    collision-free digest and encoding: after a successful approval the server
    passes the check, until it is approved again; and any later definition with its
    id that still needs approval and passes sends the same references, field by
    field, to the same command, arguments, directory and URL. *)
Theorem approval_binds_destination (approved approved' : Approvals) s s' :
  (forall a b, digest a = digest b -> a = b) ->
  (forall a b, launch_json a = launch_json b -> a = b) ->
  approve_at true true approved s = (Ok (), approved') ->
  server_id s' = server_id s -> is_shared s' = true -> has_references s' = true ->
  check_approval (Some approved') s = Ok () /\
  (check_approval (Some approved') s' = Ok () <-> same_destination s s').
Proof.
  intros Hd Hl H Hid Hs Hr. unfold approve_at in H. cbn [negb] in H.
  destruct (approval_identity s) as [d|] eqn:Ed; [|done]. injection H as <-.
  unfold check_approval. rewrite Hid, Ed, Hs, Hr, !lookup_insert_eq. cbn [negb orb]. split.
  - destruct (_ || _); [done|]. by rewrite bool_decide_true.
  - unfold approval_identity in *. destruct (reference_uses s) as [uses|] eqn:Eu; [|done].
    injection Ed as <-. split.
    + destruct (reference_uses s') as [uses'|] eqn:Eu'; [|done]. case_bool_decide as E; [|done].
      intros _. injection E as E. apply Hd in E. by apply (identity_inj s uses s' uses').
    + intros (H1 & H2 & H3 & H4 & H5 & H6 & H7 & H8 & H9 & uses' & E & E'). rewrite Eu in E.
      injection E as <-. rewrite E'. rewrite bool_decide_true; [done|]. unfold identity.
      by rewrite H1, H2, H3, H4, H5, H6, H7, H8, H9.
Qed.

(** ** Every declared reference gets its value *)

Lemma add_uses_keeps {A} label (key : A -> string) unknown l uses uses' kv :
  add_uses label key unknown l uses = Ok uses' -> In kv uses ->
  (forall x, In x l -> kv.1 <> label +:+ key x) -> In kv uses'.
Proof.
  revert uses. induction l as [|x l IH]; intros uses; cbn [add_uses]; [by intros [= <-]|].
  intros H Hin Hne. destruct (SecretRefs.source (unknown x)) as [[r|]|e]; [| |done];
    (eapply IH; [exact H| |intros y Hy; apply Hne; by right]); [|done].
  destruct kv as [k v]. apply bt_insert_old; [apply Hne; by left|done].
Qed.

Lemma add_uses_covers {A} label (key : A -> string) unknown l uses uses' x r :
  NoDup (map key l) -> add_uses label key unknown l uses = Ok uses' -> In x l ->
  SecretRefs.source (unknown x) = Ok (Some r) -> In (label +:+ key x, r) uses'.
Proof.
  intros Hn. revert uses. induction l as [|y l IH]; intros uses H Hx Hs; [done|].
  cbn [map] in Hn. apply NoDup_cons in Hn as [Hy Hn]. cbn [add_uses] in H. destruct Hx as [->|Hx].
  - rewrite Hs in H. eapply add_uses_keeps; [exact H|apply bt_insert_new|].
    intros z Hz E. apply app_str_inj in E. apply Hy. rewrite E. by apply list_elem_of_In, in_map.
  - destruct (SecretRefs.source (unknown y)) as [[r'|]|e]; [| |done]; by eapply IH.
Qed.

Lemma header_uses_keeps s l uses kv :
  In kv uses -> (forall h, In h l -> kv.1 <> "header:" +:+ header_key h) -> In kv (header_uses s l uses).
Proof.
  revert uses. induction l as [|h l IH]; intros uses Hin Hne; [done|]. cbn [header_uses].
  apply IH; [|intros h' Hh; apply Hne; by right].
  destruct (header_reference s h) as [r|]; [|done]. destruct kv as [k v].
  apply bt_insert_old; [apply Hne; by left|done].
Qed.

Lemma header_uses_covers s l uses h r :
  NoDup (map header_key l) -> In h l -> header_reference s h = Some r ->
  In ("header:" +:+ header_key h, r) (header_uses s l uses).
Proof.
  intros Hn. revert uses. induction l as [|h' l IH]; intros uses Hh Hr; [done|].
  cbn [map] in Hn. apply NoDup_cons in Hn as [Hh' Hn]. cbn [header_uses]. destruct Hh as [->|Hh].
  - rewrite Hr. apply header_uses_keeps; [apply bt_insert_new|]. intros h' Hin E.
    apply app_str_inj in E. apply Hh'. rewrite E. by apply list_elem_of_In, in_map.
  - by apply IH.
Qed.

(** No two entries of one kind share a key. *)
Record distinct_keys (s : ServerEntry) (hs : list HeaderKey) : Prop := {
  distinct_env : NoDup (map env_key (env s));
  distinct_inputs : NoDup (map input_key (launch_inputs s));
  distinct_headers : NoDup (map header_key hs)
}.

Lemma uses_cover s hs uses :
  distinct_keys s hs -> headers s = Ok hs -> reference_uses s = Ok uses ->
  (forall e r, In e (env s) -> SecretRefs.source (env_unknown e) = Ok (Some r) -> In r (map snd uses)) /\
  (forall i r, In i (launch_inputs s) -> SecretRefs.source (input_unknown i) = Ok (Some r) ->
     In r (map snd uses)) /\
  (forall h r, In h hs -> header_reference s h = Some r -> In r (map snd uses)).
Proof.
  intros [He Hi Hh] Hhs. unfold reference_uses. rewrite Hhs.
  destruct (add_uses "env:" _ _ (env s) []) as [u1|] eqn:E1; [|done].
  destruct (add_uses "input:" _ _ (launch_inputs s) u1) as [u2|] eqn:E2; [|done].
  set (u3 := if _ : bool then legacy_use s u2 else u2). intros [= <-].
  assert (H23 : forall k v, In (k, v) u2 -> (forall x, k <> "header:" +:+ x) -> In (k, v) (header_uses s hs u3)).
  { intros k v Hin Hk. apply header_uses_keeps; [|intros h _; apply Hk]. unfold u3.
    destruct (_ && _); [|done]. unfold legacy_use. destruct (List.find _ _); [|done].
    destruct (reference_for _); [|done]. apply bt_insert_old; [apply Hk|done]. }
  split_and!.
  - intros e r Hin Hs. apply in_map_iff. exists ("env:" +:+ env_key e, r). split; [done|].
    apply H23; [|by intros x [=]]. eapply add_uses_keeps; [exact E2| |by intros i _ [=]].
    by eapply add_uses_covers.
  - intros i r Hin Hs. apply in_map_iff. exists ("input:" +:+ input_key i, r). split; [done|].
    apply H23; [|by intros x [=]]. by eapply add_uses_covers.
  - intros h r Hin Hr. apply in_map_iff. exists ("header:" +:+ header_key h, r). split; [done|].
    by apply header_uses_covers.
Qed.

(** Values hold what was read. *)
Definition faithful (values : Values) : Prop :=
  forall r v, values !! r = Some v -> read_ref r = Some (Ok v).

Lemma join_batch_spec batch values values' :
  join_batch batch values = Ok values' -> faithful values ->
  faithful values' /\ (forall r, In r batch \/ is_Some (values !! r) -> is_Some (values' !! r)).
Proof.
  revert values. induction batch as [|r batch IH]; intros values; cbn [join_batch].
  - intros [= <-] Hf. split; [done|]. by intros r [[]|].
  - destruct (read_ref r) as [[v|e]|] eqn:Er; [|done|done]. intros H Hf.
    destruct (IH _ H) as [Hf' Hd].
    { intros r' v'. destruct (decide (r = r')) as [->|Hne]; [rewrite lookup_insert_eq; congruence|].
      rewrite lookup_insert_ne by done. apply Hf. }
    split; [done|]. intros r' Hr'. apply Hd. destruct (decide (r = r')) as [->|Hne].
    + right. rewrite lookup_insert_eq. eauto.
    + rewrite lookup_insert_ne by done. destruct Hr' as [[|]|]; [done|by left|by right].
Qed.

Lemma read_batches_spec fuel refs values values' :
  (length refs <= fuel)%nat -> (read_batches fuel refs values).2 = Ok values' -> faithful values ->
  faithful values' /\ (forall r, In r refs \/ is_Some (values !! r) -> is_Some (values' !! r)).
Proof.
  revert refs values. induction fuel as [|fuel IH]; intros refs values Hl.
  { destruct refs; [|cbn in Hl; lia]. intros [= <-] Hf. split; [done|]. by intros r [[]|]. }
  cbn [read_batches]. destruct refs as [|r0 refs].
  { intros [= <-] Hf. split; [done|]. by intros r [[]|]. }
  destruct (join_batch (take 4 (r0 :: refs)) values) as [values1|e] eqn:Ej; [|done].
  destruct (read_batches fuel (drop 4 (r0 :: refs)) values1) as [log res] eqn:Er. cbn [snd].
  intros -> Hf. destruct (join_batch_spec _ _ _ Ej Hf) as [Hf1 Hd1].
  destruct (IH (drop 4 (r0 :: refs)) values1) as [Hf2 Hd2]; [|by rewrite Er|done|].
  { rewrite length_drop. cbn in *. lia. }
  split; [done|]. intros r [Hr|Hr]; apply Hd2.
  - rewrite <- (take_drop 4 (r0 :: refs)) in Hr. apply in_app_or in Hr as [Hr|Hr]; [|by left].
    right. apply Hd1. by left.
  - right. apply Hd1. by right.
Qed.

(** An entry with a reference gets the value that was read, others are unchanged. *)
Definition filled {A} (unknown : A -> list (string * json)) (set : option string -> A -> A) (x x' : A) :
    Prop :=
  match SecretRefs.source (unknown x) with
  | Ok (Some r) => exists v, read_ref r = Some (Ok v) /\ x' = set (Some v) x
  | _ => x' = x
  end.

Lemma fill_spec {A} (unknown : A -> list (string * json)) set values l :
  faithful values ->
  (forall x r, In x l -> SecretRefs.source (unknown x) = Ok (Some r) -> is_Some (values !! r)) ->
  match fill unknown set values l with
  | None => False
  | Some (Ok l') => Forall2 (filled unknown set) l l'
  | Some (Err _) => True
  end.
Proof.
  intros Hf. induction l as [|x l IH]; intros Hd; cbn [fill]; [constructor|].
  specialize (IH (fun y r Hy => Hd y r (or_intror Hy))).
  destruct (SecretRefs.source (unknown x)) as [[r|]|e] eqn:Es; [| |done].
  - destruct (Hd x r (or_introl eq_refl) Es) as [v Hv]. rewrite Hv.
    destruct (fill unknown set values l) as [[l'|e]|]; [|done|done]. constructor; [|done].
    unfold filled. rewrite Es. exists v. split; [by apply Hf|done].
  - destruct (fill unknown set values l) as [[l'|e]|]; [|done|done]. constructor; [|done].
    unfold filled. by rewrite Es.
Qed.

Lemma fill_headers_spec s values hs :
  faithful values ->
  (forall h r, In h hs -> header_reference s h = Some r -> is_Some (values !! r)) ->
  match fill_headers s values hs with
  | None => False
  | Some (Ok sent) => forall k v, In (k, v) sent -> exists h, In h hs /\ header_key h = k /\
      match header_reference s h with
      | Some r => read_ref r = Some (Ok v)
      | None => vault (server_id s) (default (header_key h) (header_env h)) = Ok (Some v)
      end
  | Some (Err _) => True
  end.
Proof.
  intros Hf. induction hs as [|h hs IH]; intros Hd; cbn [fill_headers]; [done|].
  specialize (IH (fun y r Hy => Hd y r (or_intror Hy))).
  assert (Hmore : forall v,
    match header_reference s h with
    | Some r => read_ref r = Some (Ok v)
    | None => vault (server_id s) (default (header_key h) (header_env h)) = Ok (Some v)
    end ->
    match (match fill_headers s values hs with
           | Some (Ok l) => Some (Ok ((header_key h, v) :: l)) | e => e end) with
    | None => False
    | Some (Ok sent) => forall k v, In (k, v) sent -> exists h', In h' (h :: hs) /\ header_key h' = k /\
        match header_reference s h' with
        | Some r => read_ref r = Some (Ok v)
        | None => vault (server_id s) (default (header_key h') (header_env h')) = Ok (Some v)
        end
    | Some (Err _) => True
    end).
  { intros v Hv. destruct (fill_headers s values hs) as [[l|e]|]; [|done|done].
    intros k v' [[= <- <-]|Hin]; [by exists h; split; [left|]|].
    destruct (IH k v' Hin) as (h' & ? & ?). exists h'. split; [by right|done]. }
  destruct (header_reference s h) as [r|] eqn:Er.
  - destruct (check_policy s r); [|done].
    destruct (Hd h r (or_introl eq_refl) Er) as [v Hv]. rewrite Hv. by apply Hmore, Hf.
  - destruct (vault _ _) as [[v|]|e] eqn:Ev; [|..|done].
    + destruct (String.eqb v ""); [|by apply Hmore]. destruct (eq_ignore_ascii_case _ _); [|done].
      destruct (fill_headers s values hs) as [[l|e]|]; [|done|done]. intros k v' Hin.
      destruct (IH k v' Hin) as (h' & ? & ?). exists h'. split; [by right|done].
    + destruct (eq_ignore_ascii_case _ _); [|done].
      destruct (fill_headers s values hs) as [[l|e]|]; [|done|done]. intros k v' Hin.
      destruct (IH k v' Hin) as (h' & ? & ?). exists h'. split; [by right|done].
Qed.

Lemma resolved_values file s uses values :
  reference_uses s = Ok uses -> (resolve_values_with file s).2 = Ok values ->
  faithful values /\ forall r, In r (map snd uses) -> is_Some (values !! r).
Proof.
  intros Hu. unfold resolve_values_with. rewrite Hu. destruct (try_all _ _); [|done].
  destruct (check_approval file s); [|done]. intros H.
  destruct (read_batches_spec _ _ _ _ (le_n _) H) as [Hf Hd].
  { intros r v Hv. by rewrite lookup_empty in Hv. }
  split; [done|]. intros r Hr. apply Hd. left. by apply refs_of_in.
Qed.

(** A connection gets exactly the values of its references.  When no two
    variables, no two launch inputs and no two headers share a key: resolution does
    not panic, and when it succeeds each variable and input that declares a
    reference holds the value read for that reference, every other one is
    unchanged, and each header sent carries the value of its own reference or of
    its own vault entry. *)
Theorem connection_resolved file s hs :
  headers s = Ok hs -> distinct_keys s hs ->
  match (resolve_connection_with file s).2 with
  | None => False
  | Some (Err _) => True
  | Some (Ok (resolved, sent)) =>
      Forall2 (filled env_unknown set_env_value) (env s) (env resolved) /\
      Forall2 (filled input_unknown set_input_value) (launch_inputs s) (launch_inputs resolved) /\
      forall k v, In (k, v) sent -> exists h, In h hs /\ header_key h = k /\
        match header_reference s h with
        | Some r => read_ref r = Some (Ok v)
        | None => vault (server_id s) (default (header_key h) (header_env h)) = Ok (Some v)
        end
  end.
Proof.
  intros Hhs Hk. unfold resolve_connection_with. destruct (validate_server s); [|done].
  destruct (resolve_values_with file s) as [log [values|e]] eqn:Ev; [|done].
  assert (Hu : exists uses, reference_uses s = Ok uses).
  { unfold resolve_values_with in Ev. destruct (reference_uses s); [eauto|done]. }
  destruct Hu as [uses Hu]. destruct (uses_cover s hs uses Hk Hhs Hu) as (He & Hi & Hh).
  destruct (resolved_values file s uses values Hu) as [Hf Hd]; [by rewrite Ev|].
  unfold resolved_server_with_values, headers_with_values. rewrite Hhs. cbn [snd].
  pose proof (fill_spec env_unknown set_env_value values (env s) Hf
    (fun x r Hx Hs => Hd r (He x r Hx Hs))) as H1.
  destruct (fill env_unknown _ _ _) as [[envs|]|]; [|done|done].
  pose proof (fill_spec input_unknown set_input_value values (launch_inputs s) Hf
    (fun x r Hx Hs => Hd r (Hi x r Hx Hs))) as H2.
  destruct (fill input_unknown _ _ _) as [[ins|]|]; [|done|done].
  pose proof (fill_headers_spec s values hs Hf (fun x r Hx Hs => Hd r (Hh x r Hx Hs))) as H3.
  destruct (fill_headers s values hs) as [[sent|]|]; [|done|done]. split_and!; [done| |done].
  unfold launch_inputs in *. cbn. destruct (launch s) as [l|]; [done|]. by inversion H2.
Qed.

End gate.
End SecretGate.

(** ** Witnesses *)

Definition ref_field (reference : string) : list (string * json) :=
  [("source", JObject [("ref", JString reference)])].

Definition gate_env (key reference : string) : Registry.EnvVar :=
  {| Registry.env_key := key; Registry.env_value := None; Registry.env_secret := true;
     Registry.env_unknown := ref_field reference |}.

Definition gate_server (envs : list Registry.EnvVar) : Registry.ServerEntry :=
  {| Registry.enabled := true; Registry.server_id := "docs"; Registry.server_name := "Docs";
     Registry.transport := "stdio"; Registry.command := Some "npx"; Registry.args := ["-y"; "docs"];
     Registry.launch := None; Registry.env := envs; Registry.url := None; Registry.cwd := None;
     Registry.inherit_env := false; Registry.source := Some "team:acme";
     Registry.disabled_tools := []; Registry.client_credentials := None;
     Registry.request_timeout_ms := None; Registry.initialize_timeout_ms := None;
     Registry.unknown_fields :=
       [("secretSources", JObject [("allowedPrefixes", JArray [JString "op://Team"])])] |}.

Definition team_server : Registry.ServerEntry :=
  gate_server [gate_env "TOKEN" "op://Team/docs/key"].

Definition no_headers (v : json) : option (list SecretGate.HeaderKey) := None.
Definition gate_launch_json (l : option Registry.LaunchConfig) : json := JNull.
Definition gate_digest (v : json) : string := "d1".
Definition gate_read (r : string) : option (result string SecretRefs.ResolveError) :=
  Some (Ok ("value of " +:+ r)).
Definition gate_vault (id key : string) : result (option string) string := Ok None.

Definition gate_resolve (file : option (gmap string string)) (s : Registry.ServerEntry) :=
  SecretGate.resolve_connection_with no_headers gate_launch_json gate_digest gate_read gate_vault
    file s.

Lemma reads_gated_witness :
  (gate_resolve (Some {["docs" := "d1"]}) team_server).1 = ["op://Team/docs/key"] /\
  SecretGate.validate_server no_headers team_server = Ok ().
Proof.
  split; [vm_compute; reflexivity|].
  apply (SecretGate.reads_gated no_headers gate_launch_json gate_digest gate_read gate_vault
    (Some {["docs" := "d1"]}) team_server ["op://Team/docs/key"]
    (gate_resolve (Some {["docs" := "d1"]}) team_server).2); [vm_compute; reflexivity|discriminate].
Defined.

Lemma connection_resolved_witness :
  (gate_resolve (Some {["docs" := "d1"]}) team_server).2 <> None.
Proof.
  intros E. pose proof (SecretGate.connection_resolved no_headers gate_launch_json gate_digest gate_read
    gate_vault (Some {["docs" := "d1"]}) team_server []) as H.
  unfold gate_resolve in E. rewrite E in H. apply H; [reflexivity|].
  split; cbn; repeat constructor; set_solver.
Defined.

(** Two variables with one key and different references: [values[r]] panics. *)
Example duplicate_key_panics :
  (gate_resolve (Some {["docs" := "d1"]})
     (gate_server [gate_env "TOKEN" "op://Team/docs/key"; gate_env "TOKEN" "op://Team/docs/new"])).2
  = None.
Proof. vm_compute. reflexivity. Qed.

(** An injective encoding of launch setups, and an injective digest. *)
Definition opt_json (o : option string) : json :=
  match o with Some s => JArray [JString s] | None => JNull end.

Definition input_json (i : Registry.LaunchInput) : json :=
  JArray [JString (Registry.input_key i); JString (Registry.label i);
          JBool (Registry.input_secret i); JBool (Registry.required i);
          opt_json (Registry.input_value i); JObject (Registry.input_unknown i)].

Definition part_json (p : Registry.ArgPart) : json :=
  match p with
  | Registry.Literal v u => JArray [JNull; JString v; JObject u]
  | Registry.Input k u => JArray [JString k; JObject u]
  end.

Definition binding_json (b : Registry.ArgBinding) : json :=
  JArray [JNumber (PosInt (Z.of_nat (Registry.index b))); JArray (map part_json (Registry.parts b));
          JObject (Registry.binding_unknown b)].

Definition config_json (l : option Registry.LaunchConfig) : json :=
  match l with
  | None => JNull
  | Some l =>
      JArray [JArray (map input_json (Registry.inputs l)); JArray (map binding_json (Registry.bindings l));
              JArray (map JString (Registry.required_env l)); opt_json (Registry.template l);
              match Registry.revision l with Some n => JNumber (PosInt n) | None => JNull end;
              JObject (Registry.launch_unknown l)]
  end.

Lemma opt_json_inj a b : opt_json a = opt_json b -> a = b.
Proof. destruct a, b; cbn; congruence. Qed.

Lemma config_json_inj a b : config_json a = config_json b -> a = b.
Proof.
  assert (Hi : forall x y, input_json x = input_json y -> x = y).
  { intros [] []. cbn. intros [= -> -> -> -> E%opt_json_inj ->]. by rewrite E. }
  assert (Hp : forall x y, part_json x = part_json y -> x = y).
  { intros [] []; cbn; congruence. }
  assert (Hb : forall x y, binding_json x = binding_json y -> x = y).
  { intros [i ps u] [i' ps' u']. cbn. intros E. injection E. intros -> E2 E1.
    apply Nat2Z.inj in E1. apply SecretGate.map_inj in E2; [congruence|done]. }
  destruct a as [[]|], b as [[]|]; cbn; try done. intros H. injection H.
  intros -> E5 E4%opt_json_inj E3 E2 E1.
  apply SecretGate.map_inj in E1; [|done]. apply SecretGate.map_inj in E2; [|done].
  apply SecretGate.map_inj in E3; [|by intros x y [= ->]]. subst. f_equal. f_equal.
  repeat match goal with x : option Z |- _ => destruct x end; congruence.
Qed.

Lemma approval_binds_destination_witness :
  SecretGate.check_approval no_headers config_json json_code
    (Some {["docs" := json_code (SecretGate.identity config_json team_server
       [("env:TOKEN", "op://Team/docs/key")])]}) team_server = Ok ().
Proof.
  refine (proj1 (SecretGate.approval_binds_destination no_headers config_json json_code ∅ _ team_server
    team_server json_code_inj config_json_inj _ _ _ _)); reflexivity.
Defined.
