(* ===== verification/Approval.v ===== *)
(** Human approval of tool calls (src/approval.rs): what a request carries, when a
    call is gated, the allow keys, the labels an approver reads, and the gateway's
    side of the conversation with the desktop's broker.

    Unicode's character classes, the decoding of the broker's answers and HMAC are
    parameters; what the socket does is the argument [Dial] of one attempt. *)

From S2P Require Import Prelude Text Json.

Module Approval.

Inductive ApprovalReason :=
| Destructive | UntrustedSource | DestructiveAndUntrusted | PiiCrossServer.

Record PiiReleaseValue := mk_value { rtoken : string; value : string; origins : list string }.
Record PiiReleaseRequest := mk_release { rserver : string; values : list PiiReleaseValue }.
Record UrlElicitationRequest := mk_elicitation { url : string; origin : string; umessage : string }.

Record ApprovalRequest := mk_request {
  token : string;
  id : string;
  client : option string;
  client_name : option string;
  client_label : option string;
  server : string;
  tool : string;
  reason : ApprovalReason;
  arguments : json;
  tool_fingerprint : option string;
  url_elicitation : option UrlElicitationRequest;
  pii_release : option PiiReleaseRequest
}.

Definition with_token (t : string) (r : ApprovalRequest) : ApprovalRequest :=
  {| token := t; id := id r; client := client r; client_name := client_name r;
     client_label := client_label r; server := server r; tool := tool r; reason := reason r;
     arguments := arguments r; tool_fingerprint := tool_fingerprint r;
     url_elicitation := url_elicitation r; pii_release := pii_release r |}.

Inductive ApprovalDecision := Approved | Denied | Timeout | Unreachable | StaleState | Withdrawn.

#[global] Instance ApprovalDecision_eq : EqDecision ApprovalDecision.
Proof. solve_decision. Defined.

Definition is_approved (d : ApprovalDecision) : bool :=
  match d with Approved => true | _ => false end.

Definition DEFAULT_TIMEOUT_SECS : Z := 120.

Definition gate_reason (enabled is_destructive untrusted_source : bool) : option ApprovalReason :=
  if negb enabled then None
  else
    match is_destructive, untrusted_source with
    | true, true => Some DestructiveAndUntrusted
    | true, false => Some Destructive
    | false, true => Some UntrustedSource
    | false, false => None
    end.

Definition allow_key (server tool : string) : string := server +:+ "/" +:+ tool.

Definition fingerprint_allow_key (server tool fingerprint : string) : string :=
  server +:+ "/" +:+ tool +:+ "/" +:+ fingerprint.

(** ** Labels *)

Definition CLIENT_LABEL_MAX_BYTES : Z := 200.
Definition CLIENT_LABEL_MAX_CHARS : Z := 120.

Definition char_count (s : string) : Z := Z.of_nat (length (chars s)).

Definition client_label_within_bounds (text : string) : bool :=
  (slen text <=? CLIENT_LABEL_MAX_BYTES) &&
  (Z.of_nat (length (take (Z.to_nat CLIENT_LABEL_MAX_CHARS + 1) (chars text)))
     <=? CLIENT_LABEL_MAX_CHARS).

Section unicode.
(** The category [Cf] and the combining marks. *)
Variable is_format : string -> bool.
Variable is_combining_mark : string -> bool.

(** One pass over the characters: [label] holds the kept ones, newest first. *)
Fixpoint label_loop (text label : list string) (len nchars marks : Z) : list string :=
  match text with
  | [] => label
  | c :: text =>
      let c' := if is_whitespace c then " " else c in
      if negb (is_whitespace c) && (is_control c || is_format c)
      then label_loop text label len nchars marks
      else if String.eqb c' " " &&
              match label with [] => true | l :: _ => String.eqb l " " end
      then label_loop text label len nchars marks
      else
        let marks := if is_combining_mark c' then marks + 1 else 0 in
        if is_combining_mark c' && (2 <? marks) then label_loop text label len nchars marks
        else if (nchars =? CLIENT_LABEL_MAX_CHARS) || (CLIENT_LABEL_MAX_BYTES <? len + slen c')
        then label
        else label_loop text (c' :: label) (len + slen c') (nchars + 1) marks
  end.

Definition sanitize_client_label (text : string) : option string :=
  let label := concat_str (rev (drop_while is_whitespace (label_loop (chars text) [] 0 0 0))) in
  if String.eqb label "" then None else Some label.

Definition shorten_client_label (label : string) (limit : Z) : string :=
  if char_count label <=? limit then label
  else concat_str (take (Z.to_nat (sat_sub limit 1)) (chars label)) +:+
       bytes_str [226%N; 128%N; 166%N].

(** [params] is the client's [initialize] parameters. *)
Definition client_info_label (params : option json) : option string :=
  params ← params;
  info ← get "clientInfo" params;
  name ← (n ← get "name" info; as_str n);
  let version := v ← get "version" info; as_str v in
  if negb (client_label_within_bounds name) ||
     match version with Some v => negb (client_label_within_bounds v) | None => false end
  then Some "[private]"
  else
    name ← sanitize_client_label name;
    let version := v ← version; sanitize_client_label v in
    let label := match version with
                 | Some version => name +:+ " " +:+ version
                 | None => name
                 end in
    if negb (client_label_within_bounds label) then Some "[private]"
    else sanitize_client_label label.
End unicode.

(** ** The gateway's side of the broker conversation *)

Record EndpointDescriptor := mk_descriptor {
  endpoint : string;
  unix_endpoint : option string;
  dtoken : string
}.

(** One read of the answer: a line, the end of the stream, a read timeout (or
    would-block), or another error. *)
Inductive Read := Line (text : string) | Eof | ReadTimedOut | ReadFailed.

(** What the sockets, the random source, the clock and the cancel flag answer during
    one attempt: [connects] says which endpoints accept, [proof_line] is the peer's
    answer to the challenge, [before] the cancel flag before the dial and after it,
    [reads] the reads of the answer with the cancel flag and the clock before each. *)
Record Dial := mk_dial {
  cancel_before : bool;
  nonce : option string;
  connects : string -> bool;
  handshake_sent : bool;
  proof_line : option string;
  cloned : bool;
  cancel_dialed : bool;
  request_sent : bool;
  reads : list (bool * bool * Read);
  cancel_after : bool
}.

(** What crossed the wire. *)
Inductive Wire :=
| SentChallenge (peer nonce : string)
| SentRequest (peer nonce : string) (request : ApprovalRequest).

Inductive BrokerAttempt := Decided (d : ApprovalDecision) | NotReached.

Section client.
(** HMAC-SHA256 in hexadecimal, and serde on the proof line and the decision. *)
Variable challenge_proof : string -> string -> string.
Variable parse_proof : string -> option string.
Variable parse_decision : string -> option ApprovalDecision.

Definition proof_matches (expected presented : string) : bool := String.eqb expected presented.

(** [BrokerStream::connect], the socket file first. *)
Definition dialled (dial : Dial) (desc : EndpointDescriptor) : option string :=
  match unix_endpoint desc with
  | Some unix =>
      if connects dial unix then Some unix
      else if connects dial (endpoint desc) then Some (endpoint desc) else None
  | None => if connects dial (endpoint desc) then Some (endpoint desc) else None
  end.

(** The connected peer and the nonce it proved, or nothing. *)
Definition dial_broker (dial : Dial) (desc : EndpointDescriptor) :
    list Wire * option (string * string) :=
  if String.eqb (dtoken desc) "" then ([], None)
  else
    match nonce dial, dialled dial desc with
    | Some nonce, Some peer =>
        if handshake_sent dial then
          ([SentChallenge peer nonce],
           reply ← proof_line dial;
           proof ← parse_proof (trim reply);
           if proof_matches (challenge_proof (dtoken desc) nonce) proof
           then Some (peer, nonce) else None)
        else ([], None)
    | _, _ => ([], None)
    end.

(** [cancellable]: a cancel context was passed. *)
Fixpoint read_answer (cancellable : bool) (reads : list (bool * bool * Read)) : BrokerAttempt :=
  match reads with
  | [] => Decided Timeout
  | (cancelled, expired, r) :: reads =>
      if cancellable && cancelled then Decided Withdrawn
      else if expired then Decided Timeout
      else
        match r with
        | Eof => NotReached
        | Line resp =>
            let t := trim resp in
            if String.eqb t "" then NotReached
            else Decided (default Timeout (parse_decision t))
        | ReadTimedOut => if cancellable then read_answer cancellable reads else Decided Timeout
        | ReadFailed => Decided Timeout
        end
  end.

Definition exchange_approval_request (cancellable : bool) (dial : Dial) : BrokerAttempt :=
  if request_sent dial then read_answer cancellable (reads dial) else NotReached.

Definition broker_attempt_after_cancel (decision : BrokerAttempt) (cancelled : bool) :
    BrokerAttempt :=
  match decision with
  | Decided Approved | Decided Denied => decision
  | _ => if cancelled then Decided Withdrawn else decision
  end.

Definition try_decide_once_with_cancel (cancellable : bool) (dial : Dial)
    (desc : option EndpointDescriptor) (req : ApprovalRequest) : list Wire * BrokerAttempt :=
  if cancellable && cancel_before dial then ([], Decided Withdrawn)
  else
    match desc with
    | None => ([], NotReached)
    | Some desc =>
        let req := with_token (dtoken desc) req in
        match dial_broker dial desc with
        | (sent, Some (peer, nonce)) =>
            if negb (cloned dial) then (sent, NotReached)
            else if cancellable && cancel_dialed dial then (sent, Decided Withdrawn)
            else
              (sent ++ (if request_sent dial then [SentRequest peer nonce req] else []),
               broker_attempt_after_cancel (exchange_approval_request cancellable dial)
                 (cancellable && cancel_after dial))
        | (sent, None) => (sent, NotReached)
        end
    end.

(** The descriptor is read anew before each of the two dials. *)
Definition request_human_decision (dial1 dial2 : Dial)
    (desc1 desc2 : option EndpointDescriptor) (req : ApprovalRequest) :
    list Wire * ApprovalDecision :=
  match try_decide_once_with_cancel false dial1 desc1 req with
  | (sent, Decided d) => (sent, d)
  | (sent, NotReached) =>
      match try_decide_once_with_cancel false dial2 desc2 req with
      | (sent2, Decided d) => (sent ++ sent2, d)
      | (sent2, NotReached) => (sent ++ sent2, Unreachable)
      end
  end.

Definition request_human_decision_with_cancel (cancelled : bool) (dial1 dial2 : Dial)
    (cancelled1 cancelled2 : bool) (desc1 desc2 : option EndpointDescriptor)
    (req : ApprovalRequest) : list Wire * ApprovalDecision :=
  if cancelled then ([], Withdrawn)
  else
    match try_decide_once_with_cancel true dial1 desc1 req with
    | (sent, Decided d) => (sent, d)
    | (sent, NotReached) =>
        if cancelled1 then (sent, Withdrawn)
        else
          match try_decide_once_with_cancel true dial2 desc2 req with
          | (sent2, Decided d) => (sent ++ sent2, d)
          | (sent2, NotReached) =>
              (sent ++ sent2, if cancelled2 then Withdrawn else Unreachable)
          end
    end.
End client.

(** ** Labels are bounded, clean and stable *)

Section label_theory.
Variable is_format : string -> bool.
Variable is_combining_mark : string -> bool.

(** A character a label keeps: a space, or neither white space nor invisible. *)
Definition printable (c : string) : Prop :=
  c = " " \/ (is_whitespace c = false /\ is_control c = false /\ is_format c = false).

(** What may follow [prev] and [m] marks: no space at the start or after a space, no
    third mark in a row. *)
Fixpoint clean (prev : option string) (m : Z) (cs : list string) : Prop :=
  match cs with
  | [] => True
  | c :: cs =>
      printable c /\ (c = " " -> prev <> None /\ prev <> Some " ") /\
      let m := if is_combining_mark c then m + 1 else 0 in
      (is_combining_mark c = true -> m <= 2) /\ clean (Some c) m cs
  end.

Lemma clean_take prev m cs k : clean prev m cs -> clean prev m (take k cs).
Proof.
  revert prev m cs. induction k as [|k IH]; intros prev m [|c cs]; cbn; try done.
  intros (H1 & H2 & H3 & H4). auto.
Qed.

Lemma clean_printable prev m cs : clean prev m cs -> Forall printable cs.
Proof.
  revert prev m. induction cs as [|c cs IH]; intros prev m; [constructor|].
  intros (H & _ & _ & Hc). constructor; eauto.
Qed.

(** What one pass appends is clean, keeps whole characters and respects the limits;
    [m0] counts the marks that were kept. *)
Lemma label_loop_clean text label len nchars marks m0 :
  m0 <= marks -> 0 <= m0 -> len <= 200 -> nchars <= 120 -> Forall is_char text ->
  exists cs, label_loop is_format is_combining_mark text label len nchars marks = rev cs ++ label /\
    clean (head label) m0 cs /\ len + slen (concat_str cs) <= 200 /\
    nchars + Z.of_nat (length cs) <= 120 /\ Forall is_char cs.
Proof.
  revert label len nchars marks m0. induction text as [|c text IH];
    intros label len nchars marks m0 Hm Hm0 Hlen Hn Htext.
  { exists []. cbn. split_and!; try done; change (slen "") with 0; lia. }
  apply Forall_cons in Htext as [Hc Htext]. cbn [label_loop].
  set (c' := if is_whitespace c then " " else c).
  assert (Hc' : is_char c') by (unfold c'; by destruct (is_whitespace c)).
  assert (Hstop : exists cs, label = rev cs ++ label /\ clean (head label) m0 cs /\
    len + slen (concat_str cs) <= 200 /\ nchars + Z.of_nat (length cs) <= 120 /\ Forall is_char cs).
  { exists []. cbn. split_and!; try done; change (slen "") with 0; lia. }
  destruct (negb (is_whitespace c) && (is_control c || is_format c)) eqn:Hinv.
  { apply IH; done. }
  assert (Hpr : printable c').
  { unfold c', printable. destruct (is_whitespace c) eqn:Ew; [by left|right]. cbn in Hinv.
    by apply orb_false_iff in Hinv. }
  destruct (String.eqb c' " " && match label with [] => true | l :: _ => String.eqb l " " end) eqn:Hskip.
  { apply IH; done. }
  assert (Hsp : c' = " " -> head label <> None /\ head label <> Some " ").
  { intros E. rewrite E in Hskip. cbn in Hskip. destruct label as [|l label]; [done|].
    destruct (String.eqb_spec l " "); [done|]. cbn. split; congruence. }
  set (marks' := if is_combining_mark c' then marks + 1 else 0).
  destruct (is_combining_mark c' && (2 <? marks')) eqn:Hmark.
  { apply IH; try done. unfold marks'. apply andb_prop in Hmark as [-> _]. lia. }
  destruct ((nchars =? CLIENT_LABEL_MAX_CHARS) || (CLIENT_LABEL_MAX_BYTES <? len + slen c')) eqn:Hfull;
    [done|].
  apply orb_false_iff in Hfull as [Hf1 Hf2]. apply Z.eqb_neq in Hf1. apply Z.ltb_ge in Hf2.
  unfold CLIENT_LABEL_MAX_CHARS, CLIENT_LABEL_MAX_BYTES in *.
  set (m' := if is_combining_mark c' then m0 + 1 else 0).
  destruct (IH (c' :: label) (len + slen c') (nchars + 1) marks' m') as (cs & -> & Hcl & Hb & Hk & Hch);
    [unfold m', marks'; destruct (is_combining_mark c'); lia|unfold m'; destruct (is_combining_mark c'); lia
    |lia|lia|done|].
  exists (c' :: cs). cbn [rev]. rewrite <- app_assoc. split_and!; [done| | |cbn; lia|by constructor].
  - cbn. split_and!; try done. intros E. unfold marks' in Hmark. rewrite E in *. cbn in Hmark.
    apply Z.ltb_ge in Hmark. fold m'. unfold m'. lia.
  - change (concat_str (c' :: cs)) with (c' +:+ concat_str cs). rewrite slen_app. lia.
Qed.

(** A clean text within the limits passes unchanged. *)
Lemma label_loop_stable cs label len nchars marks :
  clean (head label) marks cs -> len + slen (concat_str cs) <= 200 ->
  nchars + Z.of_nat (length cs) <= 120 ->
  label_loop is_format is_combining_mark cs label len nchars marks = rev cs ++ label.
Proof.
  revert label len nchars marks. induction cs as [|c cs IH]; intros label len nchars marks; [done|].
  intros (Hpr & Hsp & Hmark & Hcl) Hlen Hn. cbn [label_loop rev].
  change (concat_str (c :: cs)) with (c +:+ concat_str cs) in Hlen. rewrite slen_app in Hlen.
  pose proof (slen_nonneg (concat_str cs)). cbn [length] in Hn. rewrite Nat2Z.inj_succ in Hn.
  assert (Hvis : negb (is_whitespace c) && (is_control c || is_format c) = false).
  { destruct Hpr as [->|(-> & -> & ->)]; done. }
  assert (Hid : (if is_whitespace c then " " else c) = c).
  { destruct Hpr as [->|(-> & _)]; done. }
  rewrite Hvis, Hid.
  assert (Hskip : String.eqb c " " && match label with [] => true | l :: _ => String.eqb l " " end = false).
  { destruct (String.eqb_spec c " ") as [E|]; [|done]. destruct (Hsp E) as [H1 H2].
    destruct label as [|l label]; [done|]. destruct (String.eqb_spec l " ") as [->|]; done. }
  rewrite Hskip. unfold CLIENT_LABEL_MAX_CHARS, CLIENT_LABEL_MAX_BYTES.
  destruct (Z.eqb_spec nchars 120); [lia|]. destruct (Z.ltb_spec 200 (len + slen c)); [lia|].
  cbn [orb]. rewrite <- app_assoc. cbn [app].
  destruct (is_combining_mark c) eqn:Em; cbn [andb].
  - destruct (Z.ltb_spec 2 (marks + 1)); [by specialize (Hmark eq_refl); lia|].
    apply IH; [done|lia|lia].
  - apply IH; [done|lia|lia].
Qed.

Lemma drop_while_length (p : string -> bool) cs : (length (drop_while p cs) <= length cs)%nat.
Proof. induction cs as [|c cs IH]; cbn; [lia|]. destruct (p c); cbn; lia. Qed.

(** [drop_while] on the reversed list keeps a front part that is empty or ends in a
    character [p] refuses. *)
Lemma trim_rev (p : string -> bool) cs :
  exists k, rev (drop_while p (rev cs)) = take k cs /\
    drop_while p (rev (take k cs)) = rev (take k cs).
Proof.
  induction cs as [|c cs IH] using rev_ind; [by exists 0%nat|].
  rewrite rev_unit. cbn [drop_while]. destruct (p c) eqn:E.
  - destruct IH as (k & H1 & H2). exists (Nat.min k (length cs)).
    rewrite take_app_le by lia. rewrite <- take_take, (take_ge cs (length cs)) by lia. done.
  - exists (length (cs ++ [c])). rewrite take_ge by lia. rewrite rev_unit. cbn [drop_while rev].
    by rewrite E, rev_involutive.
Qed.

(** What an approver reads about a client is short, inert and stable.  Whatever text
    a client reports, the label made of it has at most 200 bytes and 120 characters,
    none of them a control or formatting character, does not start or end with white
    space, has no two spaces and no three combining marks in a row, and is left as it
    is when it is sanitized again, as each hop of the broker's protocol does. *)
Theorem client_label_stable text label :
  starts_cont text = false ->
  sanitize_client_label is_format is_combining_mark text = Some label ->
  slen label <= 200 /\ char_count label <= 120 /\ clean None 0 (chars label) /\
  (forall c, last (chars label) = Some c -> is_whitespace c = false) /\
  sanitize_client_label is_format is_combining_mark label = Some label.
Proof.
  intros Htext. unfold sanitize_client_label.
  destruct (label_loop_clean (chars text) [] 0 0 0 0 ltac:(lia) ltac:(lia) ltac:(lia) ltac:(lia)
    (chars_are_chars _ Htext)) as (cs & -> & Hcl & Hb & Hn & Hch).
  rewrite app_nil_r. destruct (trim_rev is_whitespace cs) as (k & -> & Hfix).
  destruct (String.eqb_spec (concat_str (take k cs)) "") as [|Hne]; [done|]. intros [= <-].
  assert (Hch' : Forall is_char (take k cs)) by (by apply Forall_take).
  pose proof (clean_take None 0 cs k Hcl) as Hcl'.
  pose proof (slen_concat_take_le cs k). pose proof (length_take_le cs k).
  assert (Hlen : (length (take k cs) <= length cs)%nat) by (rewrite length_take; lia).
  unfold char_count. rewrite chars_concat by done. split_and!; try done; try lia.
  - intros c Hc. destruct (take k cs) as [|c0 l] eqn:E using rev_ind; [done|clear IHl].
    rewrite last_snoc in Hc. injection Hc as ->. rewrite rev_unit in Hfix. cbn [drop_while] in Hfix.
    destruct (is_whitespace c); [|done].
    pose proof (drop_while_length is_whitespace (rev l)). rewrite Hfix in *. cbn in *. lia.
  - rewrite label_loop_stable by (cbn; first [done|lia]). rewrite app_nil_r, Hfix, rev_involutive.
    destruct (String.eqb_spec (concat_str (take k cs)) ""); done.
Qed.
End label_theory.

(** ** Allow keys *)

Definition no_slash (s : string) : bool := all_bytes (fun b => negb (Stdlib.Strings.Ascii.eqb b "/")) s.

Lemma slash_split_first s s' r r' :
  no_slash s = true -> no_slash s' = true ->
  s +:+ String "/" r = s' +:+ String "/" r' -> s = s' /\ r = r'.
Proof.
  revert s'. induction s as [|b s IH]; intros [|b' s']; cbn; intros H H' E; simplify_eq; try done.
  apply andb_prop in H as [_ H], H' as [_ H']. by destruct (IH s' H H' ltac:(done)) as [-> ->].
Qed.

Lemma slash_split_last t t' f f' :
  no_slash f = true -> no_slash f' = true ->
  t +:+ String "/" f = t' +:+ String "/" f' -> t = t' /\ f = f'.
Proof.
  assert (Hno : forall t f g, no_slash f = true -> f <> t +:+ String "/" g).
  { intros u g h Hg ->. unfold no_slash in Hg. rewrite all_bytes_app in Hg. cbn in Hg.
    by rewrite andb_false_r in Hg. }
  revert t'. induction t as [|b t IH]; intros [|b' t']; cbn; intros H H' E; simplify_eq.
  - done.
  - by eapply Hno in H.
  - by eapply Hno in H'.
  - by destruct (IH t' H H' ltac:(done)) as [-> ->].
Qed.

(** A key names one server, one tool and one definition: server names are sanitized
    and fingerprints hexadecimal, so neither holds the separator; a tool's name may. *)
Lemma fingerprint_allow_key_inj s t f s' t' f' :
  no_slash s = true -> no_slash s' = true -> no_slash f = true -> no_slash f' = true ->
  fingerprint_allow_key s t f = fingerprint_allow_key s' t' f' -> s = s' /\ t = t' /\ f = f'.
Proof.
  intros Hs Hs' Hf Hf' E. apply slash_split_first in E as [-> E]; [|done..].
  by apply slash_split_last in E as [-> ->].
Qed.

(** ** The gateway believes only the broker *)

Section client_theory.
Variable challenge_proof : string -> string -> string.
Variable parse_proof : string -> option string.
Variable parse_decision : string -> option ApprovalDecision.

(** In this attempt the peer proved that it holds the descriptor's token, on the
    nonce of this attempt, and is then sent the request with that token. *)
Definition proved (dial : Dial) (desc : option EndpointDescriptor) (req : ApprovalRequest)
    (w : Wire) : Prop :=
  exists desc' peer fresh reply, desc = Some desc' /\ dtoken desc' <> "" /\
    nonce dial = Some fresh /\ proof_line dial = Some reply /\
    parse_proof (trim reply) = Some (challenge_proof (dtoken desc') fresh) /\
    w = SentRequest peer fresh (with_token (dtoken desc') req).

Definition is_request (w : Wire) : bool := match w with SentRequest _ _ _ => true | _ => false end.

(** The answer of this attempt is the line [Approved]. *)
Definition said_approved (dial : Dial) : Prop :=
  exists cancelled expired resp, In (cancelled, expired, Line resp) (reads dial) /\
    parse_decision (trim resp) = Some Approved.

Lemma read_answer_approved cancellable rs :
  read_answer parse_decision cancellable rs = Decided Approved ->
  exists cancelled expired resp, In (cancelled, expired, Line resp) rs /\
    parse_decision (trim resp) = Some Approved.
Proof.
  induction rs as [|[[cancelled expired] r] rs IH]; cbn [read_answer]; [done|].
  destruct (cancellable && cancelled); [done|]. destruct expired; [done|].
  destruct r as [resp| | |]; [|done| |done].
  - destruct (String.eqb (trim resp) ""); [done|]. intros [= E]. exists cancelled, false, resp.
    split; [by left|]. destruct (parse_decision (trim resp)) as [d|]; cbn in E; congruence.
  - destruct cancellable; [|done]. intros H. destruct (IH H) as (a & b & c & Hin & Hp).
    exists a, b, c. split; [by right|done].
Qed.

(** The transcript of one attempt: a challenge at most, then at most one request,
    sent to a peer that proved the token; approval needs the request and the line. *)
Lemma try_once_spec cancellable dial desc req sent r :
  try_decide_once_with_cancel challenge_proof parse_proof parse_decision cancellable dial desc req
    = (sent, r) ->
  (length (List.filter is_request sent) <= 1)%nat /\
  (forall w, In w sent -> is_request w = true -> proved dial desc req w) /\
  (r = Decided Approved ->
     said_approved dial /\ exists w, In w sent /\ is_request w = true).
Proof.
  unfold try_decide_once_with_cancel. destruct (cancellable && cancel_before dial).
  { intros [= <- <-]. cbn. split_and!; [lia|done|done]. }
  destruct desc as [desc|]; [|intros [= <- <-]; cbn; split_and!; [lia|done|done]].
  unfold dial_broker. destruct (String.eqb_spec (dtoken desc) "") as [|Htok].
  { intros [= <- <-]. cbn. split_and!; [lia|done|done]. }
  destruct (nonce dial) as [fresh|] eqn:Hn; [|intros [= <- <-]; cbn; split_and!; [lia|done|done]].
  destruct (dialled dial desc) as [peer|]; [|intros [= <- <-]; cbn; split_and!; [lia|done|done]].
  destruct (handshake_sent dial); [|intros [= <- <-]; cbn; split_and!; [lia|done|done]].
  assert (Hnone : forall r', r' <> Decided Approved -> forall sent r,
    ([SentChallenge peer fresh], r') = (sent, r) ->
    (length (List.filter is_request sent) <= 1)%nat /\
    (forall w, In w sent -> is_request w = true -> proved dial (Some desc) req w) /\
    (r = Decided Approved -> said_approved dial /\ exists w, In w sent /\ is_request w = true)).
  { intros r' Hr' sent' r'' [= <- <-]. cbn. split_and!; [lia| |congruence].
    intros w [<-|[]]. done. }
  destruct (proof_line dial) as [reply|] eqn:Hl; [|by apply Hnone]. cbn [mbind option_bind].
  destruct (parse_proof (trim reply)) as [proof|] eqn:Hp; [|by apply Hnone].
  cbn [mbind option_bind]. unfold proof_matches.
  destruct (String.eqb_spec (challenge_proof (dtoken desc) fresh) proof) as [<-|]; [|by apply Hnone].
  destruct (cloned dial); cbn [negb]; [|by apply Hnone].
  destruct (cancellable && cancel_dialed dial); [by apply Hnone|].
  unfold exchange_approval_request. destruct (request_sent dial); cbn [app].
  - intros [= <- <-]. cbn. split_and!; [lia| |].
    + intros w [<-|[<-|[]]]; [done|]. intros _. exists desc, peer, fresh, reply. done.
    + intros H. split; [|eexists; split; [right; by left|done]].
      apply (read_answer_approved cancellable).
      unfold broker_attempt_after_cancel in H.
      destruct (read_answer parse_decision cancellable (reads dial)) as [[]|]; try done;
        by destruct (cancellable && cancel_after dial).
  - apply Hnone. cbn. by destruct (cancellable && cancel_after dial).
Qed.

(** What a conversation of two dials guarantees. *)
Definition fail_closed (dial1 dial2 : Dial) (desc1 desc2 : option EndpointDescriptor)
    (req : ApprovalRequest) (outcome : list Wire * ApprovalDecision) : Prop :=
  (length (List.filter is_request outcome.1) <= 2)%nat /\
  (forall w, In w outcome.1 -> is_request w = true ->
     proved dial1 desc1 req w \/ proved dial2 desc2 req w) /\
  (outcome.2 = Approved ->
     (said_approved dial1 \/ said_approved dial2) /\
     exists w, In w outcome.1 /\ is_request w = true).

Lemma fail_closed_both dial1 dial2 desc1 desc2 req cancellable sent r sent2 r2 d :
  try_decide_once_with_cancel challenge_proof parse_proof parse_decision cancellable dial1 desc1 req
    = (sent, r) ->
  try_decide_once_with_cancel challenge_proof parse_proof parse_decision cancellable dial2 desc2 req
    = (sent2, r2) ->
  (d = Approved -> r2 = Decided Approved) ->
  fail_closed dial1 dial2 desc1 desc2 req (sent ++ sent2, d).
Proof.
  intros (L1 & P1 & _)%try_once_spec (L2 & P2 & A2)%try_once_spec Hd. unfold fail_closed. cbn.
  rewrite List.filter_app, length_app. split_and!; [lia| |].
  - intros w [Hw|Hw]%in_app_iff Hr; eauto.
  - intros Ha. destruct (A2 (Hd Ha)) as (Hs & w & Hw & Hr). split; [by right|].
    exists w. rewrite in_app_iff. auto.
Qed.

Lemma fail_closed_one dial1 dial2 desc1 desc2 req cancellable sent r d :
  try_decide_once_with_cancel challenge_proof parse_proof parse_decision cancellable dial1 desc1 req
    = (sent, r) ->
  (d = Approved -> r = Decided Approved) ->
  fail_closed dial1 dial2 desc1 desc2 req (sent, d).
Proof.
  intros (L1 & P1 & A1)%try_once_spec Hd. unfold fail_closed. cbn. split_and!; [lia|eauto|].
  intros Ha. destruct (A1 (Hd Ha)) as (Hs & H). auto.
Qed.

(** The gateway believes only the broker.  Whatever listens on the published
    endpoints, whatever it answers and whenever the call is cancelled: a request is
    sent only to a peer that proved, on a nonce of that dial, that it holds the
    descriptor's nonempty token; at most two are sent; and the call is approved only
    when such a peer answered with the approval. *)
Theorem only_the_broker_decides dial1 dial2 desc1 desc2 req cancelled cancelled1 cancelled2 :
  fail_closed dial1 dial2 desc1 desc2 req
    (request_human_decision challenge_proof parse_proof parse_decision dial1 dial2 desc1 desc2 req) /\
  fail_closed dial1 dial2 desc1 desc2 req
    (request_human_decision_with_cancel challenge_proof parse_proof parse_decision cancelled
       dial1 dial2 cancelled1 cancelled2 desc1 desc2 req).
Proof.
  unfold request_human_decision, request_human_decision_with_cancel. split.
  - destruct (try_decide_once_with_cancel _ _ _ _ dial1 _ _) as [sent r] eqn:E1.
    destruct r as [d|]; [eapply fail_closed_one; [done|congruence]|].
    destruct (try_decide_once_with_cancel _ _ _ _ dial2 _ _) as [sent2 [d|]] eqn:E2;
      (eapply fail_closed_both; [done..|congruence]).
  - destruct cancelled; [unfold fail_closed; cbn; split_and!; [lia|done|done]|].
    destruct (try_decide_once_with_cancel _ _ _ _ dial1 _ _) as [sent r] eqn:E1.
    destruct r as [d|]; [eapply fail_closed_one; [done|congruence]|].
    destruct cancelled1; [eapply fail_closed_one; [done|congruence]|].
    destruct (try_decide_once_with_cancel _ _ _ _ dial2 _ _) as [sent2 [d|]] eqn:E2;
      (eapply fail_closed_both; [done..|destruct cancelled2; congruence]).
Qed.

(** An answer that never comes because the broker's stream ends after the request was
    sent counts as not reached: the request is sent again, and a person may be asked
    twice. *)
Lemma closed_stream_asks_again dial desc req peer fresh reply :
  dtoken desc <> "" -> nonce dial = Some fresh -> dialled dial desc = Some peer ->
  handshake_sent dial = true -> proof_line dial = Some reply ->
  parse_proof (trim reply) = Some (challenge_proof (dtoken desc) fresh) -> cloned dial = true ->
  request_sent dial = true -> reads dial = [(false, false, Eof)] ->
  length (List.filter is_request (request_human_decision challenge_proof parse_proof parse_decision
    dial dial (Some desc) (Some desc) req).1) = 2%nat.
Proof.
  intros H1 H2 H3 H4 H5 H6 H7 H8 H9.
  assert (E : try_decide_once_with_cancel challenge_proof parse_proof parse_decision false dial
    (Some desc) req = ([SentChallenge peer fresh; SentRequest peer fresh (with_token (dtoken desc) req)],
    NotReached)).
  { unfold try_decide_once_with_cancel, dial_broker. cbn [andb].
    destruct (String.eqb_spec (dtoken desc) ""); [done|]. rewrite H2, H3, H4, H5. cbn [mbind option_bind].
    rewrite H6. cbn [mbind option_bind]. unfold proof_matches. rewrite String.eqb_refl, H7, H8. cbn.
    unfold exchange_approval_request. by rewrite H8, H9. }
  unfold request_human_decision. by rewrite !E.
Qed.
End client_theory.
End Approval.

(** ** Witnesses *)

Definition demo_format (c : string) : bool := String.eqb c (bytes_str [226%N; 128%N; 174%N]).
Definition demo_mark (c : string) : bool := String.eqb c (bytes_str [204%N; 129%N]).

(** A right-to-left override, doubled spaces and trailing white space. *)
Lemma client_label_stable_witness :
  let text := " Claude" +:+ bytes_str [226%N; 128%N; 174%N; 32%N; 9%N] +:+ "Code " in
  Approval.sanitize_client_label demo_format demo_mark text = Some "Claude Code" /\
  Approval.sanitize_client_label demo_format demo_mark "Claude Code" = Some "Claude Code".
Proof.
  cbv zeta. match goal with |- ?a = _ /\ _ => assert (H : a = Some "Claude Code") by (vm_compute; reflexivity) end.
  split; [exact H|].
  refine (proj2 (proj2 (proj2 (proj2 (Approval.client_label_stable demo_format demo_mark _ "Claude Code"
    _ H))))). reflexivity.
Defined.
