(* ===== verification/Broker.v ===== *)
(** The approval broker (src/approval_broker.rs, with [decide_approval] and
    [revoke_allowed_tool] of src/desktop.rs): the desktop's queue of calls that wait
    for a person.

    A connection's thread, its watcher, the person's commands and other connections
    interleave; each step of [step] is one critical section of the source.  A channel
    is the number of the connection that receives from it.  What a socket reads, and
    the display name of a client, are arguments. *)

From S2P Require Import Prelude Text Json Approval.
From stdpp Require Import relations.

Module Broker.
Import Approval.

Definition MAX_PENDING : nat := 64.
Definition MAX_CONNECTION_WORKERS : nat := MAX_PENDING + 32.

Record PendingView := mk_view {
  vid : string;
  vclient : option string;
  vclient_name : string;
  vclient_label : option string;
  vserver : string;
  vtool : string;
  vtool_fingerprint : option string;
  vreason : ApprovalReason;
  varguments : json;
  vurl_elicitation : option UrlElicitationRequest;
  vpii_release : option PiiReleaseRequest;
  deadline_ms : Z
}.

(** A parked connection: [decide] is the channel its thread receives from. *)
Record Waiter := mk_waiter { view : PendingView; decide : nat }.

Definition token_eq (actual expected : string) : bool := String.eqb actual expected.

Inductive Preflight := Deny | AutoApprove | AskHuman.

(** The allow key [preflight] asks about, if any. *)
Definition preflight_key (req : ApprovalRequest) : option string :=
  match url_elicitation req, pii_release req with
  | None, None =>
      fp ← tool_fingerprint req; Some (fingerprint_allow_key (server req) (tool req) fp)
  | _, _ => None
  end.

Definition preflight (req : ApprovalRequest) (broker_token : string) (is_allowed : string -> bool) :
    Preflight :=
  if String.eqb (token req) "" || negb (token_eq (token req) broker_token) then Deny
  else
    match preflight_key req with
    | Some key => if is_allowed key then AutoApprove else AskHuman
    | None => AskHuman
    end.

(** What the watcher's read ends with: the read timeout, or anything else. *)
Definition disconnect_decision (timed_out : bool) : ApprovalDecision :=
  if timed_out then Timeout else Denied.

(** [deadline_ms_from_now], with the clock's reading. *)
Definition deadline_ms_from_now (now : Z) : Z := now + DEFAULT_TIMEOUT_SECS * 1000.

Definition view_of (client_name : string) (deadline : Z) (req : ApprovalRequest) : PendingView :=
  {| vid := id req; vclient := client req; vclient_name := client_name;
     vclient_label := client_label req; vserver := server req; vtool := tool req;
     vtool_fingerprint := tool_fingerprint req; vreason := reason req;
     varguments := arguments req; vurl_elicitation := url_elicitation req;
     vpii_release := pii_release req; deadline_ms := deadline |}.

(** ** A connection's thread

    [Reading]: accepted.  [Screening]: the request read, and whether the session's
    list holds its key.  [Screened]: [preflight] did not settle it.  [Parked]: its
    waiter inserted.  [Waiting]: its watcher spawned, in [recv_timeout].
    [Leaving d]: [d] received, the entry not yet removed.  [Cleaned d]: removed.
    [Answered d]: [d] written (or the write failed).  [Closed]: returned, its worker
    permit dropped. *)
Inductive Phase :=
| Reading
| Screening (req : ApprovalRequest) (hit : bool)
| Screened (req : ApprovalRequest)
| Parked (req : ApprovalRequest) (v : PendingView)
| Waiting (req : ApprovalRequest) (v : PendingView)
| Leaving (req : ApprovalRequest) (v : PendingView) (d : ApprovalDecision)
| Cleaned (req : ApprovalRequest) (v : PendingView) (d : ApprovalDecision)
| Answered (req : ApprovalRequest) (v : option PendingView) (d : ApprovalDecision)
| Closed.

(** [inbox]: sent and not received, oldest first; [watching]: the watcher thread has
    not finished. *)
Record Conn := mk_conn { phase : Phase; inbox : list ApprovalDecision; watching : bool }.

Definition set_phase (p : Phase) (c : Conn) : Conn :=
  {| phase := p; inbox := inbox c; watching := watching c |}.

(** What remains of a desktop command after its first critical section. *)
Inductive Todo :=
| RememberSession (key : string) (always : bool)
| RememberAlways (key : string)
| ForgetSession (key : string).

(** [log] lists what a person approved: the connection, what was shown, the scope. *)
Record state := mk_state {
  pending : gmap string Waiter;
  session_allow : gset string;
  human_approval_allow : list string;
  conns : gmap nat Conn;
  todo : list Todo;
  log : list (nat * PendingView * string)
}.

Definition with_conns (f : gmap nat Conn -> gmap nat Conn) (s : state) : state :=
  {| pending := pending s; session_allow := session_allow s;
     human_approval_allow := human_approval_allow s; conns := f (conns s); todo := todo s;
     log := log s |}.

Definition with_pending (f : gmap string Waiter -> gmap string Waiter) (s : state) : state :=
  {| pending := f (pending s); session_allow := session_allow s;
     human_approval_allow := human_approval_allow s; conns := conns s; todo := todo s;
     log := log s |}.

(** [Sender::send]; without a receiver the message is lost. *)
Definition send (n : nat) (d : ApprovalDecision) : state -> state :=
  with_conns (alter (fun c => {| phase := phase c; inbox := inbox c ++ [d]; watching := watching c |}) n).

Definition set_conn (n : nat) (f : Conn -> Conn) : state -> state := with_conns (alter f n).

(** [active]: the worker permits that are held. *)
Definition holds_permit (c : Conn) : bool := match phase c with Closed => false | _ => true end.

Definition active (s : state) : nat :=
  size (filter (fun nc => holds_permit nc.2 = true) (conns s)).

(** [pending.remove(&id)] and the send of [d] to the waiter that was there. *)
Definition take_and_send (wid : string) (d : ApprovalDecision) (s : state) :
    option Waiter * state :=
  match pending s !! wid with
  | Some w => (Some w, send (decide w) d (with_pending (delete wid) s))
  | None => (None, s)
  end.

(** [ApprovalBroker::decide]. *)
Definition decide_call (wid : string) (approved : bool) (s : state) : result PendingView string * state :=
  match take_and_send wid (if approved then Approved else Denied) s with
  | (Some w, s) => (Ok (view w), s)
  | (None, s) => (Err "no pending approval with that id (it may have expired)", s)
  end.

(** What [decide_approval] still does after [decide]. *)
Definition remember (v : PendingView) (approved : bool) (scope : string) : list Todo :=
  if approved && negb (String.eqb scope "once") &&
     match vurl_elicitation v with None => true | Some _ => false end
  then match vtool_fingerprint v with
       | Some fp => [RememberSession (fingerprint_allow_key (vserver v) (vtool v) fp)
                       (String.eqb scope "always")]
       | None => []
       end
  else [].

Definition decide_approval (wid : string) (approved : bool) (scope : string) (s : state) : state :=
  let target := pending s !! wid in
  match decide_call wid approved s with
  | (Ok v, s) =>
      {| pending := pending s; session_allow := session_allow s;
         human_approval_allow := human_approval_allow s; conns := conns s;
         todo := remember v approved scope ++ todo s;
         log := match target with
                | Some w => if approved then (decide w, v, scope) :: log s else log s
                | None => log s
                end |}
  | (Err _, s) => s
  end.

(** The rest of a command, one critical section at a time; [saved] is the outcome of
    [write_registry]. *)
Definition allow_tool (key : string) (l : list string) : list string :=
  if listed key l then l else l ++ [key].

Definition revoke_tool (key : string) (l : list string) : list string :=
  List.filter (fun k => negb (String.eqb k key)) l.

Definition is_tool_allowed (key : string) (l : list string) : bool := listed key l.

Definition set_allows (session : gset string) (registry : list string) (l : list Todo) (s : state) :
    state :=
  {| pending := pending s; session_allow := session; human_approval_allow := registry;
     conns := conns s; todo := l; log := log s |}.

Definition run_todo (t : Todo) (rest : list Todo) (saved : bool) (s : state) : state :=
  match t with
  | RememberSession key always =>
      set_allows ({[key]} ∪ session_allow s) (human_approval_allow s)
        (if always then RememberAlways key :: rest else rest) s
  | RememberAlways key =>
      set_allows (session_allow s)
        (if saved then allow_tool key (human_approval_allow s) else human_approval_allow s) rest s
  | ForgetSession key =>
      set_allows (session_allow s ∖ {[key]}) (human_approval_allow s) rest s
  end.

(** [revoke_allowed_tool]: the registry first; a failed save ends the command. *)
Definition revoke_allowed_tool (key : string) (saved : bool) (s : state) : state :=
  if saved
  then set_allows (session_allow s) (revoke_tool key (human_approval_allow s))
         (ForgetSession key :: todo s) s
  else s.

Definition init (registry : list string) : state :=
  {| pending := ∅; session_allow := ∅; human_approval_allow := registry; conns := ∅; todo := [];
     log := [] |}.

(** [session_contains] on the key of the request. *)
Definition session_hit (req : ApprovalRequest) (s : state) : bool :=
  match preflight_key req with
  | Some key => bool_decide (key ∈ session_allow s)
  | None => false
  end.

Definition screen (tok : string) (req : ApprovalRequest) (hit : bool) (s : state) : Phase :=
  match preflight req tok (fun key => hit || is_tool_allowed key (human_approval_allow s)) with
  | Deny => Answered req None Denied
  | AutoApprove => Answered req None Approved
  | AskHuman => Screened req
  end.

(** Insert the waiter, or deny: the queue is full, or the id is parked already. *)
Definition park (n : nat) (req : ApprovalRequest) (v : PendingView) (s : state) : state :=
  if (MAX_PENDING <=? size (pending s))%nat then set_conn n (set_phase (Answered req None Denied)) s
  else
    match pending s !! id req with
    | Some _ => set_conn n (set_phase (Answered req None Denied)) s
    | None =>
        set_conn n (set_phase (Parked req v))
          (with_pending <[id req := {| view := v; decide := n |}]> s)
    end.

(** The request and the view of a connection whose watcher may run. *)
Definition watched (p : Phase) : option (ApprovalRequest * PendingView) :=
  match p with
  | Waiting req v | Leaving req v _ | Cleaned req v _ | Answered req (Some v) _ => Some (req, v)
  | _ => None
  end.

Definition set_watching (b : bool) (c : Conn) : Conn :=
  {| phase := phase c; inbox := inbox c; watching := b |}.

Definition set_inbox (l : list ApprovalDecision) (c : Conn) : Conn :=
  {| phase := phase c; inbox := l; watching := watching c |}.

Inductive step (tok : string) : state -> state -> Prop :=
| accepts s n :
    conns s !! n = None -> (active s < MAX_CONNECTION_WORKERS)%nat ->
    step tok s (with_conns <[n := {| phase := Reading; inbox := []; watching := false |}]> s)
| hangs_up s n c :
    conns s !! n = Some c -> phase c = Reading -> step tok s (set_conn n (set_phase Closed) s)
| reads_request s n c req :
    conns s !! n = Some c -> phase c = Reading ->
    step tok s (set_conn n (set_phase (Screening req (session_hit req s))) s)
| screens s n c req hit :
    conns s !! n = Some c -> phase c = Screening req hit ->
    step tok s (set_conn n (set_phase (screen tok req hit s)) s)
| parks s n c req name now :
    conns s !! n = Some c -> phase c = Screened req ->
    step tok s (park n req (view_of name (deadline_ms_from_now now) req) s)
| watches s n c req v :
    conns s !! n = Some c -> phase c = Parked req v ->
    step tok s (set_conn n (fun c => set_watching true (set_phase (Waiting req v) c)) s)
| watcher_ends s n c req v timed_out :
    conns s !! n = Some c -> watched (phase c) = Some (req, v) -> watching c = true ->
    step tok s (set_conn n (set_watching false)
      (take_and_send (id req) (disconnect_decision timed_out) s).2)
| receives s n c req v d ds :
    conns s !! n = Some c -> phase c = Waiting req v -> inbox c = d :: ds ->
    step tok s (set_conn n (fun c => set_inbox ds (set_phase (Leaving req v d) c)) s)
(* Nothing was sent: the deadline, or the last sender is gone. *)
| times_out s n c req v :
    conns s !! n = Some c -> phase c = Waiting req v -> inbox c = [] ->
    step tok s (set_conn n (set_phase (Leaving req v Timeout)) s)
| cleans s n c req v d :
    conns s !! n = Some c -> phase c = Leaving req v d ->
    step tok s (set_conn n (set_phase (Cleaned req v d)) (with_pending (delete (id req)) s))
| answers s n c req v d :
    conns s !! n = Some c -> phase c = Cleaned req v d ->
    step tok s (set_conn n (set_phase (Answered req (Some v) d)) s)
| returns s n c req v d :
    conns s !! n = Some c -> phase c = Answered req v d -> watching c = false ->
    step tok s (set_conn n (set_phase Closed) s)
| decides s wid approved scope : step tok s (decide_approval wid approved scope s)
| revokes s key saved : step tok s (revoke_allowed_tool key saved s)
| continues s l1 t l2 saved :
    todo s = l1 ++ t :: l2 -> step tok s (run_todo t (l1 ++ l2) saved s).

(** ** What holds in every state *)

Section invariant.
Variable tok : string.
Variable saved_allows : list string.

Definition authentic (req : ApprovalRequest) : Prop := token req = tok /\ tok <> "".

(** A person approved what connection [n] showed. *)
Definition approved (l : list (nat * PendingView * string)) (n : nat) (v : PendingView) : Prop :=
  exists scope, (n, v, scope) ∈ l.

(** The allow key that remembering the approval of [v] would add. *)
Definition view_key (v : PendingView) : option string :=
  match vurl_elicitation v with
  | None => fp ← vtool_fingerprint v; Some (fingerprint_allow_key (vserver v) (vtool v) fp)
  | Some _ => None
  end.

(** [key] was allowed before the broker started, or a person approved a call of that
    tool definition for longer than once. *)
Definition granted (l : list (nat * PendingView * string)) (key : string) : Prop :=
  key ∈ saved_allows \/
  exists n v scope, (n, v, scope) ∈ l /\ scope <> "once" /\ view_key v = Some key.

Definition shows (req : ApprovalRequest) (v : PendingView) : Prop :=
  exists name now, v = view_of name (deadline_ms_from_now now) req.

Definition conn_ok (l : list (nat * PendingView * string)) (n : nat) (c : Conn) : Prop :=
  match phase c with
  | Reading => inbox c = []
  | Screening req hit =>
      inbox c = [] /\ (hit = true -> exists key, preflight_key req = Some key /\ granted l key)
  | Screened req => inbox c = [] /\ authentic req
  | Parked req v | Waiting req v =>
      authentic req /\ shows req v /\ (Approved ∈ inbox c -> approved l n v)
  | Leaving req v d | Cleaned req v d | Answered req (Some v) d =>
      authentic req /\ shows req v /\ (d = Approved -> approved l n v)
  | Answered req None d =>
      d = Approved -> authentic req /\ exists key, preflight_key req = Some key /\ granted l key
  | Closed => True
  end.

Definition queued (p : Phase) : option (ApprovalRequest * PendingView) :=
  match p with Parked req v | Waiting req v | Leaving req v _ => Some (req, v) | _ => None end.

Definition early (p : Phase) : bool :=
  match p with Reading | Screening _ _ | Screened _ => true | _ => false end.

Definition todo_key (t : Todo) : option string :=
  match t with
  | RememberSession key _ | RememberAlways key => Some key
  | ForgetSession _ => None
  end.

Record inv (s : state) : Prop := {
  inv_conns : map_Forall (conn_ok (log s)) (conns s);
  inv_pending : forall wid w, pending s !! wid = Some w ->
    exists c req, conns s !! decide w = Some c /\ queued (phase c) = Some (req, view w) /\
      id req = wid /\ inbox c = [] /\ decide w ∉ (log s).*1.*1;
  inv_session : forall key, key ∈ session_allow s -> granted (log s) key;
  inv_registry : forall key, key ∈ human_approval_allow s -> granted (log s) key;
  inv_todo : forall t key, t ∈ todo s -> todo_key t = Some key -> granted (log s) key;
  inv_log : NoDup (log s).*1.*1;
  inv_late : forall n, n ∈ (log s).*1.*1 ->
    exists c, conns s !! n = Some c /\ early (phase c) = false;
  inv_size : (size (pending s) <= MAX_PENDING)%nat;
  inv_active : (active s <= MAX_CONNECTION_WORKERS)%nat
}.

Lemma approved_mono l l' n v : l ⊆ l' -> approved l n v -> approved l' n v.
Proof. intros H [scope Hin]. exists scope. by apply H. Qed.

Lemma granted_mono l l' key : l ⊆ l' -> granted l key -> granted l' key.
Proof. intros H [Hk|(n & v & scope & Hin & Hs)]; [by left|]. right. exists n, v, scope. auto. Qed.

Lemma conn_ok_mono l l' n c : l ⊆ l' -> conn_ok l n c -> conn_ok l' n c.
Proof.
  intros H. unfold conn_ok.
  destruct (phase c) as [|r h|r|r v|r v|r v d|r v d|r [v|] d|];
    naive_solver eauto using approved_mono, granted_mono.
Qed.

Lemma active_le (m m' : gmap nat Conn) :
  (forall n c, m' !! n = Some c -> holds_permit c = true ->
    exists c0, m !! n = Some c0 /\ holds_permit c0 = true) ->
  (size (filter (fun nc => holds_permit nc.2 = true) m')
    <= size (filter (fun nc => holds_permit nc.2 = true) m))%nat.
Proof.
  intros H. rewrite <- !size_dom. apply subseteq_size. intros n.
  rewrite !elem_of_dom. intros [c [Hc Hp]%map_lookup_filter_Some].
  destruct (H n c Hc Hp) as (c0 & Hc0 & Hp0). exists c0. by apply map_lookup_filter_Some.
Qed.

(** Changing one connection. *)
Lemma inv_set_conn s n c f :
  inv s -> conns s !! n = Some c -> conn_ok (log s) n (f c) ->
  (queued (phase (f c)) = queued (phase c) /\ inbox (f c) = inbox c) \/
    (forall wid w, pending s !! wid = Some w -> decide w <> n) ->
  (early (phase c) = false -> early (phase (f c)) = false) ->
  (holds_permit (f c) = true -> holds_permit c = true) ->
  inv (set_conn n f s).
Proof.
  intros [H1 H2 H3 H4 H5 H6 H7 H8 H9] Hc Hok Hq He Hp. split; try done.
  - cbn. intros m c'. destruct (Nat.eq_dec n m) as [<-|Hne].
    + rewrite lookup_alter_eq, Hc. by intros [= <-].
    + rewrite lookup_alter_ne by done. apply H1.
  - cbn. intros wid w Hw. destruct (H2 wid w Hw) as (c' & req & Hc' & Hr).
    destruct (Nat.eq_dec n (decide w)) as [->|Hne].
    + destruct Hq as [[Hq Hi]|Hq]; [|by destruct (Hq wid w)].
      rewrite Hc in Hc'. injection Hc' as <-. exists (f c), req.
      rewrite lookup_alter_eq, Hc, Hq, Hi. done.
    + exists c', req. by rewrite lookup_alter_ne.
  - cbn. intros m Hm. destruct (H7 m Hm) as (c' & Hc' & Hl).
    destruct (Nat.eq_dec n m) as [<-|Hne].
    + rewrite Hc in Hc'. injection Hc' as <-. exists (f c). rewrite lookup_alter_eq, Hc. auto.
    + exists c'. by rewrite lookup_alter_ne.
  - etrans; [|exact H9]. apply active_le. cbn. intros m c'.
    destruct (Nat.eq_dec n m) as [<-|Hne].
    + rewrite lookup_alter_eq, Hc. intros [= <-]. eauto.
    + rewrite lookup_alter_ne by done. eauto.
Qed.

Lemma inv_init : inv (init saved_allows).
Proof.
  split; cbn.
  - intros n c. by rewrite lookup_empty.
  - intros wid w. by rewrite lookup_empty.
  - set_solver.
  - intros key Hk. by left.
  - set_solver.
  - constructor.
  - set_solver.
  - rewrite map_size_empty. lia.
  - unfold active. cbn. rewrite map_filter_empty, map_size_empty. lia.
Qed.

(** Removing a waiter keeps the invariant. *)
Lemma inv_delete s wid : inv s -> inv (with_pending (delete wid) s).
Proof.
  intros [H1 H2 H3 H4 H5 H6 H7 H8 H9]. split; try done.
  - cbn. intros wid' w [_ Hw]%lookup_delete_Some. by apply H2.
  - cbn. etrans; [|exact H8]. rewrite <- !size_dom. apply subseteq_size. set_solver.
Qed.

Definition with_log (l : list (nat * PendingView * string)) (s : state) : state :=
  {| pending := pending s; session_allow := session_allow s;
     human_approval_allow := human_approval_allow s; conns := conns s; todo := todo s; log := l |}.

(** Taking a waiter and sending it [d]; an approval is logged with it. *)
Lemma inv_take s wid w d scope :
  inv s -> pending s !! wid = Some w ->
  inv (with_log (if is_approved d then (decide w, view w, scope) :: log s else log s)
    (send (decide w) d (with_pending (delete wid) s))).
Proof.
  intros Hinv Hw. destruct Hinv as [H1 H2 H3 H4 H5 H6 H7 H8 H9] eqn:E. clear E.
  pose proof (inv_delete s wid Hinv) as [D1 D2 _ _ _ _ _ D8 _]. clear Hinv.
  destruct (H2 wid w Hw) as (c & req & Hc & Hq & Hid & Hi & Hn).
  set (l := if is_approved d then _ else _).
  assert (Hsub : log s ⊆ l) by (unfold l; destruct (is_approved d); set_solver).
  assert (Hnew : d = Approved -> approved l (decide w) (view w)).
  { intros ->. exists scope. unfold l. cbn. left. }
  split; cbn.
  - intros m c'. destruct (Nat.eq_dec (decide w) m) as [<-|Hne].
    + rewrite lookup_alter_eq, Hc. intros [= <-]. pose proof (H1 _ _ Hc) as Hok.
      apply (conn_ok_mono _ l) in Hok; [|done]. unfold conn_ok in *. cbn.
      destruct (phase c) as [|r h|r|r v|r v|r v dd|r v dd|r [v|] dd|]; try done;
        injection Hq as -> ->; destruct Hok as (Ha & Hv & Happ); split_and!; try done;
        rewrite Hi; intros Hin; apply Hnew; set_solver.
    + rewrite lookup_alter_ne by done. intros Hc'. eapply conn_ok_mono, H1; done.
  - intros wid' w' Hw'. destruct (D2 wid' w' Hw') as (c' & req' & Hc' & Hq' & Hid' & Hi' & Hn').
    assert (Hne : decide w <> decide w').
    { intros E. cbn in Hc'. rewrite <- E, Hc in Hc'. injection Hc' as <-.
      rewrite Hq in Hq'. injection Hq' as <- _. apply lookup_delete_Some in Hw' as [Hne _]. congruence. }
    exists c', req'. rewrite lookup_alter_ne by done. split_and!; try done.
    unfold l. destruct (is_approved d); cbn; set_solver.
  - intros key Hk. eapply granted_mono, H3; done.
  - intros key Hk. eapply granted_mono, H4; done.
  - intros t key Ht Hk. eapply granted_mono, H5; done.
  - unfold l. destruct (is_approved d); [|done]. cbn. by apply NoDup_cons.
  - intros m Hm. assert (Hcase : m = decide w \/ m ∈ (log s).*1.*1).
    { unfold l in Hm. destruct (is_approved d); cbn in Hm; set_solver. }
    destruct (Nat.eq_dec (decide w) m) as [<-|Hne].
    + eexists. rewrite lookup_alter_eq, Hc. split; [done|]. cbn.
      by destruct (phase c).
    + destruct Hcase as [->|Hin]; [done|]. rewrite lookup_alter_ne by done. by apply H7.
  - done.
  - etrans; [|exact H9]. apply active_le. cbn. intros m c'.
    destruct (Nat.eq_dec (decide w) m) as [<-|Hne].
    + rewrite lookup_alter_eq, Hc. intros [= <-]. eauto.
    + rewrite lookup_alter_ne by done. eauto.
Qed.

(** Changing the allow lists and the commands under way. *)
Lemma inv_set_allows s session registry l :
  inv s ->
  (forall key, key ∈ session -> granted (log s) key) ->
  (forall key, key ∈ registry -> granted (log s) key) ->
  (forall t key, t ∈ l -> todo_key t = Some key -> granted (log s) key) ->
  inv (set_allows session registry l s).
Proof. intros [] ? ? ?. by split. Qed.

Lemma allow_tool_in key key' l : key' ∈ allow_tool key l -> key' = key \/ key' ∈ l.
Proof. unfold allow_tool. destruct (listed key l); set_solver. Qed.

Lemma revoke_tool_in key key' l : key' ∈ revoke_tool key l -> key' ∈ l /\ key' <> key.
Proof.
  unfold revoke_tool. rewrite list_elem_of_In, filter_In, <- list_elem_of_In.
  destruct (String.eqb_spec key' key); naive_solver.
Qed.

Lemma inv_run_todo s l1 t l2 saved :
  inv s -> todo s = l1 ++ t :: l2 -> inv (run_todo t (l1 ++ l2) saved s).
Proof.
  intros Hinv Ht. pose proof (inv_session s Hinv) as Hs. pose proof (inv_registry s Hinv) as Hr.
  pose proof (inv_todo s Hinv) as Hl. rewrite Ht in Hl.
  assert (Hrest : forall t' key, t' ∈ l1 ++ l2 -> todo_key t' = Some key -> granted (log s) key)
    by (intros t' key Hin; apply Hl; set_solver).
  assert (Hkey : forall key, todo_key t = Some key -> granted (log s) key)
    by (intros key; apply Hl; set_solver).
  destruct t as [key []|key|key]; cbn [run_todo todo_key] in *; apply inv_set_allows; try done.
  - set_solver.
  - intros t' key' [->|Hin]%elem_of_cons; [by auto|by apply Hrest].
  - set_solver.
  - destruct saved; [|done]. intros key' [->|Hin]%allow_tool_in; auto.
  - set_solver.
Qed.

Lemma inv_decide s wid ok scope : inv s -> inv (decide_approval wid ok scope s).
Proof.
  intros Hinv. unfold decide_approval, decide_call, take_and_send.
  destruct (pending s !! wid) as [w|] eqn:Hw; [|done].
  pose proof (inv_take s wid w (if ok then Approved else Denied) scope Hinv Hw) as Ht.
  assert (Hin : inv (set_allows (session_allow s) (human_approval_allow s)
    (remember (view w) ok scope ++ todo s)
    (with_log (if ok then (decide w, view w, scope) :: log s else log s)
      (send (decide w) (if ok then Approved else Denied) (with_pending (delete wid) s))))).
  { destruct Ht as [T1 T2 T3 T4 T5 T6 T7 T8 T9] eqn:E. clear E.
    apply inv_set_allows; try (by destruct ok).
    intros t key [Hin|Hin]%elem_of_app Hk; [|by destruct ok; eapply T5].
    unfold remember in Hin. destruct ok; [|set_solver]. cbn in Hin |- *.
    destruct (String.eqb_spec scope "once"); [set_solver|]. cbn in Hin.
    right. exists (decide w), (view w), scope. split_and!; [left|done|]. unfold view_key.
    destruct (vurl_elicitation (view w)); [set_solver|].
    destruct (vtool_fingerprint (view w)); [|set_solver].
    apply list_elem_of_singleton in Hin as ->. done. }
  by destruct ok.
Qed.

(** Changing connection [n], known as [c] in the phase [Hp]: its new state and the
    waiters that name it are left. *)
Ltac on_conn n c Hp :=
  apply (inv_set_conn _ n c);
    [done|done| | |by rewrite Hp|by unfold holds_permit; rewrite Hp].

Lemma inv_park s n c req v :
  inv s -> conns s !! n = Some c -> phase c = Screened req -> shows req v -> inv (park n req v s).
Proof.
  intros Hinv Hc Hp Hv. unfold park.
  pose proof (inv_conns s Hinv n c Hc) as Hok. unfold conn_ok in Hok. rewrite Hp in Hok.
  assert (Hfree : forall wid w, pending s !! wid = Some w -> decide w <> n).
  { intros wid w Hw E. rewrite <- E in Hc. destruct (inv_pending s Hinv wid w Hw) as (c' & r & Hc' & Hq & _).
    rewrite Hc in Hc'. injection Hc' as <-. by rewrite Hp in Hq. }
  assert (Hdeny : inv (set_conn n (set_phase (Answered req None Denied)) s)).
  { on_conn n c Hp; [done|by right]. }
  destruct (Nat.leb_spec MAX_PENDING (size (pending s))); [done|].
  destruct (pending s !! id req) eqn:Hid; [done|].
  assert (Hn : n ∉ (log s).*1.*1).
  { intros Hin. destruct (inv_late s Hinv n Hin) as (c' & Hc' & He).
    rewrite Hc in Hc'. injection Hc' as <-. by rewrite Hp in He. }
  assert (H0 : inv (set_conn n (set_phase (Parked req v)) s)).
  { on_conn n c Hp; [|by right]. cbn. destruct Hok as [-> Ha]. split_and!; [done..|set_solver]. }
  destruct H0 as [H1 H2 H3 H4 H5 H6 H7 H8 H9]. split; try done.
  - cbn. intros wid w. rewrite lookup_insert_Some. intros [[<- <-]|[_ Hw]]; [|by apply H2].
    cbn. exists (set_phase (Parked req v) c), req. rewrite lookup_alter_eq, Hc.
    split_and!; try done. by destruct Hok.
  - cbn. rewrite map_size_insert_None by done. unfold MAX_PENDING in *. lia.
Qed.

Lemma inv_accept s n :
  inv s -> conns s !! n = None -> (active s < MAX_CONNECTION_WORKERS)%nat ->
  inv (with_conns <[n := {| phase := Reading; inbox := []; watching := false |}]> s).
Proof.
  intros [H1 H2 H3 H4 H5 H6 H7 H8 H9] Hn Ha. split; try done.
  - cbn. apply map_Forall_insert; [done|]. by split.
  - cbn. intros wid w Hw. destruct (H2 wid w Hw) as (c & req & Hc & Hr).
    exists c, req. rewrite lookup_insert_ne by congruence. done.
  - cbn. intros m Hm. destruct (H7 m Hm) as (c & Hc & He). exists c.
    rewrite lookup_insert_ne by congruence. done.
  - unfold active in *. cbn. rewrite map_filter_insert_True by done.
    rewrite map_size_insert_None; [exact Ha|]. apply map_lookup_filter_None. by left.
Qed.

(** The waiters of a connection are those of its phase. *)
Lemma waiter_phase s n c wid w :
  inv s -> conns s !! n = Some c -> pending s !! wid = Some w -> decide w = n ->
  inbox c = [] /\ exists req, queued (phase c) = Some (req, view w) /\ id req = wid.
Proof.
  intros Hinv Hc Hw E. destruct (inv_pending s Hinv wid w Hw) as (c' & req & Hc' & Hq & Hid & Hi & _).
  rewrite E, Hc in Hc'. injection Hc' as <-. eauto.
Qed.

Lemma inv_screen s n c req hit :
  inv s -> conns s !! n = Some c -> phase c = Screening req hit ->
  inv (set_conn n (set_phase (screen tok req hit s)) s).
Proof.
  intros Hinv Hc Hp. pose proof (inv_conns s Hinv n c Hc) as Hok. unfold conn_ok in Hok.
  rewrite Hp in Hok. destruct Hok as [Hi Hhit].
  on_conn n c Hp; [|right; intros wid w Hw E; destruct (waiter_phase s n c wid w) as (_ & r & Hq & _);
    [done..|by rewrite Hp in Hq]].
  unfold screen, preflight, token_eq. destruct (String.eqb_spec (token req) "") as [|Hne]; [by intros [=]|].
  destruct (String.eqb_spec (token req) tok) as [Htok|]; [|by intros [=]]. cbn [negb orb].
  assert (Ha : authentic req) by (split; congruence).
  destruct (preflight_key req) as [key|] eqn:Hk; [|by split].
  destruct (hit || _) eqn:Hal; [|by split]. intros _. split; [done|]. exists key. split; [done|].
  apply orb_true_iff in Hal as [->|Hin].
  - destruct (Hhit eq_refl) as (k & E & Hg). congruence.
  - apply (inv_registry s Hinv). unfold is_tool_allowed, listed in Hin.
    apply existsb_exists in Hin as (k & Hk' & ->%String.eqb_eq). by apply list_elem_of_In.
Qed.

Lemma inv_revoke s key saved : inv s -> inv (revoke_allowed_tool key saved s).
Proof.
  intros Hinv. unfold revoke_allowed_tool. destruct saved; [|done].
  apply inv_set_allows; [done|apply Hinv|..].
  - intros k [Hk _]%revoke_tool_in. by apply (inv_registry s Hinv).
  - intros t k [->|Ht]%elem_of_cons; [done|by apply (inv_todo s Hinv)].
Qed.

Lemma inv_watcher s n c req v timed_out :
  inv s -> conns s !! n = Some c -> watched (phase c) = Some (req, v) ->
  inv (set_conn n (set_watching false) (take_and_send (id req) (disconnect_decision timed_out) s).2).
Proof.
  intros Hinv Hc Hv.
  assert (Hw : forall s', inv s' -> inv (set_conn n (set_watching false) s')).
  { intros s' Hs'. destruct (conns s' !! n) as [c'|] eqn:Hc'.
    - apply (inv_set_conn s' n c'); try done; [|by left].
      pose proof (inv_conns s' Hs' n c' Hc') as H. exact H.
    - unfold set_conn, with_conns. rewrite alter_id; [by destruct s'|].
      intros x Hx. congruence. }
  unfold take_and_send. destruct (pending s !! id req) as [w|] eqn:Ew; [|by apply Hw].
  apply Hw. pose proof (inv_take s (id req) w (disconnect_decision timed_out) "" Hinv Ew) as Ht.
  by destruct timed_out.
Qed.

Lemma broker_step_inv s s' : inv s -> step tok s s' -> inv s'.
Proof.
  intros Hinv Hs. destruct Hs as [s n Hn Ha|s n c Hc Hp|s n c req Hc Hp|s n c req hit Hc Hp
    |s n c req name now Hc Hp|s n c req v Hc Hp|s n c req v timed_out Hc Hp _|s n c req v d ds Hc Hp Hi
    |s n c req v Hc Hp Hi|s n c req v d Hc Hp|s n c req v d Hc Hp|s n c req v d Hc Hp _
    |s wid ok scope|s key saved|s l1 t l2 saved Ht].
  all: try pose proof (inv_conns s Hinv n c Hc) as Hok; try (unfold conn_ok in Hok; rewrite ?Hp in Hok).
  all: try pose proof (waiter_phase s n c) as Hwait.
  - by apply inv_accept.
  - on_conn n c Hp; [done|]. right. intros wid w Hw E.
    destruct (Hwait wid w Hinv Hc Hw E) as (_ & r & Hq & _). by rewrite Hp in Hq.
  - on_conn n c Hp; [|right; intros wid w Hw E;
      destruct (Hwait wid w Hinv Hc Hw E) as (_ & r & Hq & _); by rewrite Hp in Hq].
    split; [done|]. unfold session_hit. destruct (preflight_key req) as [key|]; [|done].
    intros Hin%bool_decide_eq_true. exists key. split; [done|]. by apply (inv_session s Hinv).
  - by apply (inv_screen s n c req hit).
  - apply (inv_park s n c); try done. by exists name, now.
  - on_conn n c Hp; [done|]. left. by rewrite Hp.
  - by apply (inv_watcher s n c req v).
  - on_conn n c Hp.
    + destruct Hok as (Ha & Hv & Happ). split_and!; [done..|]. intros ->. apply Happ. rewrite Hi. left.
    + right. intros wid w Hw E. destruct (Hwait wid w Hinv Hc Hw E) as (Hi' & _). congruence.
  - on_conn n c Hp; [by split_and!; try apply Hok|]. left. by rewrite Hp.
  - apply (inv_delete s (id req)) in Hinv as Hdel.
    apply (inv_set_conn _ n c); [done|done| | |by rewrite Hp|by unfold holds_permit; rewrite Hp].
    + exact Hok.
    + right. cbn. intros wid w [Hne Hw]%lookup_delete_Some E.
      destruct (Hwait wid w Hinv Hc Hw E) as (_ & r & Hq & Hid). rewrite Hp in Hq.
      injection Hq as <- _. done.
  - on_conn n c Hp; [exact Hok|]. right. intros wid w Hw E.
    destruct (Hwait wid w Hinv Hc Hw E) as (_ & r & Hq & _). by rewrite Hp in Hq.
  - on_conn n c Hp; [done|]. right. intros wid w Hw E.
    destruct (Hwait wid w Hinv Hc Hw E) as (_ & r & Hq & _). by rewrite Hp in Hq.
  - by apply inv_decide.
  - by apply inv_revoke.
  - by apply inv_run_todo.
Qed.

Lemma reachable_inv s : rtc (step tok) (init saved_allows) s -> inv s.
Proof.
  intros H. remember (init saved_allows) as s0 eqn:E. pose proof inv_init as H0. rewrite <- E in H0.
  clear E. induction H; eauto using broker_step_inv.
Qed.
End invariant.

(** C3. A call runs only with consent.  However connections, watchers, the person's
    commands and revocations interleave, a connection is answered [Approved] only if
    it presented the broker's (nonempty) token, and either a person approved exactly
    what it asked for - its server, tool, arguments, values to release - while it was
    waiting, or the request concerns no value release and no browser action and the
    definition of its tool was allowed before, by the saved list or by a person who
    chose to be asked no more.  No approval is used by two connections. *)
Theorem approved_by_consent tok saved_allows s n c req v :
  rtc (step tok) (init saved_allows) s -> conns s !! n = Some c ->
  phase c = Answered req v Approved ->
  token req = tok /\ tok <> "" /\ NoDup (log s).*1.*1 /\
  match v with
  | Some v => (exists scope, (n, v, scope) ∈ log s) /\
      exists name now, v = view_of name (deadline_ms_from_now now) req
  | None => url_elicitation req = None /\ pii_release req = None /\
      exists fp, tool_fingerprint req = Some fp /\
        let key := fingerprint_allow_key (server req) (tool req) fp in
        key ∈ saved_allows \/
        exists m v scope, (m, v, scope) ∈ log s /\ scope <> "once" /\ view_key v = Some key
  end.
Proof.
  intros Hr Hc Hp. pose proof (reachable_inv tok saved_allows s Hr) as Hinv.
  pose proof (inv_conns _ _ s Hinv n c Hc) as Hok. unfold conn_ok in Hok. rewrite Hp in Hok.
  pose proof (inv_log _ _ s Hinv) as Hlog. destruct v as [v|].
  - destruct Hok as ([] & Hv & Ha). split_and!; try done. by apply Ha.
  - destruct (Hok eq_refl) as ([] & key & Hk & Hg). unfold preflight_key in Hk.
    destruct (url_elicitation req); [done|]. destruct (pii_release req); [done|].
    destruct (tool_fingerprint req) as [fp|]; [|done]. injection Hk as <-.
    split_and!; try done. by exists fp.
Qed.

(** ** A person's answer reaches the call *)

(** The connection shows [v], and what it will answer is [d]. *)
Definition settled (v : PendingView) (d : ApprovalDecision) (c : Conn) : Prop :=
  match phase c with
  | Parked _ v' | Waiting _ v' => v' = v /\ head (inbox c) = Some d
  | Leaving _ v' d' | Cleaned _ v' d' | Answered _ (Some v') d' => v' = v /\ d' = d
  | Closed => True
  | _ => False
  end.

Definition has_settled (n : nat) (v : PendingView) (d : ApprovalDecision) (s : state) : Prop :=
  exists c, conns s !! n = Some c /\ settled v d c.

Lemma settled_alter m f n v d s :
  (m = n -> forall c, conns s !! n = Some c -> settled v d c -> settled v d (f c)) ->
  has_settled n v d s -> has_settled n v d (set_conn m f s).
Proof.
  intros Hf (c & Hc & Hs). unfold has_settled. cbn. destruct (Nat.eq_dec m n) as [->|Hne].
  - exists (f c). rewrite lookup_alter_eq, Hc. auto.
  - exists c. by rewrite lookup_alter_ne.
Qed.

Lemma settled_send m d' n v d s : has_settled n v d s -> has_settled n v d (send m d' s).
Proof.
  apply (settled_alter m (fun c => {| phase := phase c; inbox := inbox c ++ [d']; watching := watching c |})).
  intros _ c _. unfold settled. cbn. destruct (phase c), (inbox c); naive_solver.
Qed.

Lemma settled_take wid d' n v d s : has_settled n v d s -> has_settled n v d (take_and_send wid d' s).2.
Proof. intros H. unfold take_and_send. destruct (pending s !! wid); [by apply settled_send|done]. Qed.

Lemma settled_step tok n v d s s' : has_settled n v d s -> step tok s s' -> has_settled n v d s'.
Proof.
  intros H Hs. destruct Hs as [s m Hn Ha|s m c Hc Hp|s m c req Hc Hp|s m c req hit Hc Hp
    |s m c req name now Hc Hp|s m c req w Hc Hp|s m c req w timed_out Hc Hp Hw|s m c req w e es Hc Hp Hi
    |s m c req w Hc Hp Hi|s m c req w e Hc Hp|s m c req w e Hc Hp|s m c req w e Hc Hp Hf
    |s wid ok scope|s key saved|s l1 t l2 saved Ht].
  (* The one connection the step changes, in the phase [Hp]. *)
  all: try (apply settled_alter; [intros ->; intros c' Hc' Hs; rewrite Hc in Hc'; injection Hc' as <-;
    revert Hs; unfold settled; cbn; rewrite Hp; rewrite ?Hi; cbn; by try naive_solver|exact H]).
  - destruct H as (c & Hc & Hs). exists c. cbn. rewrite lookup_insert_ne by congruence. done.
  - assert (Hset : forall f, has_settled n v d (set_conn m f s)).
    { intros f. apply settled_alter; [|done]. intros -> c' Hc' Hs. rewrite Hc in Hc'.
      injection Hc' as <-. unfold settled in Hs. by rewrite Hp in Hs. }
    unfold park. destruct (MAX_PENDING <=? _)%nat; [done|].
    destruct (pending s !! id req); [done|]. exact (Hset _).
  - apply settled_alter; [by intros _ c' _|]. by apply settled_take.
  - apply settled_alter; [|exact H]. intros -> c' Hc'. cbn in Hc'. rewrite Hc in Hc'.
    injection Hc' as <-. unfold settled. by rewrite Hp.
  - unfold decide_approval, decide_call, take_and_send. destruct (pending s !! wid); [|done].
    exact (settled_send _ _ n v d s H).
  - unfold revoke_allowed_tool. by destruct saved.
  - by destruct t.
Qed.

(** A person's answer is the call's answer.  If a person approves or denies a call
    that still waits, then whatever else happens - a hang-up, the deadline, another
    call with the same id, other answers - the call is answered with exactly that
    decision on exactly what the person was shown. *)
Theorem answer_delivered tok saved_allows s wid w c req v ok scope s' c' req' v' d :
  rtc (step tok) (init saved_allows) s -> pending s !! wid = Some w ->
  conns s !! decide w = Some c -> phase c = Waiting req v ->
  rtc (step tok) (decide_approval wid ok scope s) s' ->
  conns s' !! decide w = Some c' -> phase c' = Answered req' (Some v') d ->
  d = (if ok then Approved else Denied) /\ v' = view w.
Proof.
  intros Hr Hw Hc Hp Hr' Hc' Hp'.
  destruct (inv_pending _ _ s (reachable_inv _ _ s Hr) wid w Hw) as (c0 & r0 & Hc0 & Hq & _ & Hi & _).
  rewrite Hc in Hc0. injection Hc0 as <-. rewrite Hp in Hq. injection Hq as _ Hv.
  assert (H0 : has_settled (decide w) (view w) (if ok then Approved else Denied)
    (decide_approval wid ok scope s)).
  { unfold decide_approval, decide_call, take_and_send. rewrite Hw. cbn. unfold has_settled. cbn.
    eexists. rewrite lookup_alter_eq, Hc. split; [done|]. unfold settled. cbn. rewrite Hp, Hi. done. }
  assert (H1 : has_settled (decide w) (view w) (if ok then Approved else Denied) s').
  { clear -Hr' H0. induction Hr'; eauto using settled_step. }
  destruct H1 as (c1 & Hc1 & Hs). rewrite Hc' in Hc1. injection Hc1 as <-.
  unfold settled in Hs. rewrite Hp' in Hs. naive_solver.
Qed.
End Broker.

(** ** Witnesses *)

Definition demo_approval : Approval.ApprovalRequest :=
  {| Approval.token := "secret"; Approval.id := "call-1"; Approval.client := None;
     Approval.client_name := None; Approval.client_label := None; Approval.server := "files";
     Approval.tool := "delete"; Approval.reason := Approval.Destructive;
     Approval.arguments := JObject [("path", JString "a.txt")];
     Approval.tool_fingerprint := Some "v2:00"; Approval.url_elicitation := None;
     Approval.pii_release := None |}.

Definition demo_shown : Broker.PendingView :=
  Broker.view_of "Editor" (Broker.deadline_ms_from_now 0) demo_approval.

(** Run connection [n] up to its wait, one step at a time. *)
Ltac broker_step tac := eapply rtc_l; [tac; vm_compute; reflexivity|].

Ltac park_demo n :=
  eapply rtc_l; [apply (Broker.accepts "secret" _ n); [vm_compute; reflexivity|vm_compute; lia]|];
  broker_step ltac:(eapply (Broker.reads_request "secret" _ n _ demo_approval));
  broker_step ltac:(eapply (Broker.screens "secret" _ n _ demo_approval false));
  broker_step ltac:(eapply (Broker.parks "secret" _ n _ demo_approval "Editor" 0));
  broker_step ltac:(eapply (Broker.watches "secret" _ n _ demo_approval demo_shown)).

Definition answered_by (s : Broker.state) (n : nat) : Prop :=
  exists c, Broker.conns s !! n = Some c /\
    Broker.phase c = Broker.Answered demo_approval (Some demo_shown) Approval.Approved.

Lemma approved_by_consent_witness :
  exists s, answered_by s 1 /\ exists scope, (1%nat, demo_shown, scope) ∈ Broker.log s.
Proof.
  assert (H : exists s, rtc (Broker.step "secret") (Broker.init []) s /\ answered_by s 1).
  { eexists. split.
    - park_demo 1%nat.
      eapply rtc_l; [apply (Broker.decides "secret" _ "call-1" true "once")|].
      broker_step ltac:(eapply (Broker.receives "secret" _ 1 _ demo_approval demo_shown Approval.Approved [])).
      broker_step ltac:(eapply (Broker.cleans "secret" _ 1 _ demo_approval demo_shown Approval.Approved)).
      broker_step ltac:(eapply (Broker.answers "secret" _ 1 _ demo_approval demo_shown Approval.Approved)).
      apply rtc_refl.
    - eexists. split; vm_compute; reflexivity. }
  destruct H as (s & Hr & c & Hc & Hp). exists s. split; [by exists c|].
  exact (proj1 (proj2 (proj2 (proj2 (Broker.approved_by_consent "secret" [] s 1 c demo_approval
    (Some demo_shown) Hr Hc Hp))))).
Defined.

Lemma demo_parked :
  exists s, rtc (Broker.step "secret") (Broker.init []) s /\
    Broker.pending s !! "call-1" = Some {| Broker.view := demo_shown; Broker.decide := 1 |} /\
    Broker.conns s !! 1%nat = Some {| Broker.phase := Broker.Waiting demo_approval demo_shown;
      Broker.inbox := []; Broker.watching := true |} /\
    forall s', s' = Broker.decide_approval "call-1" false "once" s ->
      exists s'', rtc (Broker.step "secret") s' s'' /\
        exists c, Broker.conns s'' !! 1%nat = Some c /\
          Broker.phase c = Broker.Answered demo_approval (Some demo_shown) Approval.Denied.
Proof.
  eexists. split; [park_demo 1%nat; apply rtc_refl|]. split; [vm_compute; reflexivity|].
  split; [vm_compute; reflexivity|]. intros s' ->. eexists. split.
  - (* The client hangs up after the answer; the answer stands. *)
    broker_step ltac:(eapply (Broker.watcher_ends "secret" _ 1 _ demo_approval demo_shown false));
      [vm_compute; reflexivity..|].
    broker_step ltac:(eapply (Broker.receives "secret" _ 1 _ demo_approval demo_shown Approval.Denied [])).
    broker_step ltac:(eapply (Broker.cleans "secret" _ 1 _ demo_approval demo_shown Approval.Denied)).
    broker_step ltac:(eapply (Broker.answers "secret" _ 1 _ demo_approval demo_shown Approval.Denied)).
    apply rtc_refl.
  - eexists. split; vm_compute; reflexivity.
Qed.

Lemma answer_delivered_witness :
  exists s s' d, rtc (Broker.step "secret") (Broker.decide_approval "call-1" false "once" s) s' /\
    d = Approval.Denied /\ exists c, Broker.conns s' !! 1%nat = Some c /\
      Broker.phase c = Broker.Answered demo_approval (Some demo_shown) d.
Proof.
  destruct demo_parked as (s & Hr & Hw & Hc & H).
  destruct (H _ eq_refl) as (s' & Hr' & c & Hc' & Hp'). exists s, s', Approval.Denied.
  split; [done|]. split; [|by exists c].
  exact (proj1 (Broker.answer_delivered "secret" [] s "call-1" _ _ demo_approval demo_shown false
    "once" s' c demo_approval demo_shown Approval.Denied Hr Hw Hc eq_refl Hr' Hc' Hp')).
Defined.

(** An id that is used again while its first call cleans up: the first thread removes
    the second call's entry, which no answer can reach any more. *)
Lemma late_cleanup_unparks :
  exists s, rtc (Broker.step "secret") (Broker.init []) s /\
    (Broker.log s).*1.*1 = [1%nat] /\ Broker.pending s = ∅ /\
    Broker.conns s !! 2%nat = Some {| Broker.phase := Broker.Waiting demo_approval demo_shown;
      Broker.inbox := []; Broker.watching := true |}.
Proof.
  eexists. split.
  - park_demo 1%nat.
    eapply rtc_l; [apply (Broker.decides "secret" _ "call-1" true "once")|].
    broker_step ltac:(eapply (Broker.receives "secret" _ 1 _ demo_approval demo_shown Approval.Approved [])).
    park_demo 2%nat.
    broker_step ltac:(eapply (Broker.cleans "secret" _ 1 _ demo_approval demo_shown Approval.Approved)).
    apply rtc_refl.
  - split_and!; vm_compute; reflexivity.
Qed.
