(* ===== verification/SpawnGuard.v ===== *)
(** The spawn guard of stdio servers (src/downstream.rs): which commands,
    arguments and environment variables Toolport refuses to launch, and the
    environment injection of container runtimes. *)

From S2P Require Import Prelude Text.

Module SpawnGuard.

Definition LAUNCHER_WRAPPERS : list string :=
  ["sudo"; "doas"; "su"; "runuser"; "pkexec"; "time"; "nice"; "nohup"; "xargs"; "stdbuf"; "timeout";
   "setsid"; "ionice"; "chrt"; "taskset"; "setarch"; "unbuffer"; "script"; "watch"; "flock";
   "busybox"; "proxychains"; "proxychains4"; "torify"; "chroot"; "capsh"; "firejail"; "wine";
   "nsenter"; "unshare"; "systemd-run"; "setpriv"; "gosu"; "strace"; "ltrace"; "gdb"; "valgrind";
   "proot"; "bwrap"; "catchsegv"; "eatmydata"; "parallel"; "rlwrap"; "dbus-run-session"; "xvfb-run"].

(** ** Names of commands *)

Definition is_slash (b : ascii) : bool :=
  Stdlib.Strings.Ascii.eqb b "/" || Stdlib.Strings.Ascii.eqb b "\".
Definition is_byte (x b : ascii) : bool := Stdlib.Strings.Ascii.eqb b x.

Definition command_basename (command : string) : string :=
  let last := match rsplit_once_by is_slash command with Some (_, r) => r | None => command end in
  let stem := match rsplit_once_by (is_byte ".") last with
              | Some (s, _) => if String.eqb s "" then last else s
              | None => last
              end in
  to_ascii_lowercase stem.

Definition interpreter_family (base : string) : string :=
  let trimmed := trim_end_by (fun b => is_digit b || is_byte "." b) base in
  if String.eqb trimmed "" then base else trimmed.

(** ** Flags *)

(** The flag without an attached [=value]. *)
Definition head_of (al : string) : string := before_by (is_byte "=") al.

Definition first_flag (args flags : list string) : option string :=
  List.find (fun a =>
    let al := to_ascii_lowercase a in
    listed (head_of al) flags ||
    existsb (fun f => (slen f =? 2) && starts_with "-" f && (2 <? slen al) && starts_with f al)
      flags) args.

(** The characters of a single-dash cluster, walked to an evaluation flag. *)
Fixpoint cluster (eval boolean : list string) (cs : list string) : bool :=
  match cs with
  | [] => false
  | c :: cs => listed c eval || (listed c boolean && cluster eval boolean cs)
  end.

Fixpoint clustered_eval (args : list string) (eval boolean : list string) : option string :=
  match args with
  | [] => None
  | s :: rest =>
      if String.eqb s "--" then None
      else match s with
      | String "-" flags =>
          if starts_with "--" s || (slen s <=? 2) then clustered_eval rest eval boolean
          else if cluster eval boolean (chars flags) then Some s
          else clustered_eval rest eval boolean
      | _ => clustered_eval rest eval boolean
      end
  end.

Definition or_else {A} (x y : option A) : option A := match x with Some a => Some a | None => y end.

Definition SHELL_BOOL : list string :=
  ["a"; "b"; "e"; "f"; "h"; "i"; "k"; "m"; "n"; "p"; "r"; "s"; "t"; "u"; "v"; "x"; "B"; "C"; "E";
   "H"; "P"; "T"].
Definition PYTHON_BOOL : list string :=
  ["B"; "E"; "I"; "O"; "R"; "S"; "b"; "d"; "h"; "i"; "q"; "s"; "u"; "v"; "x"; "3"].
Definition RUBY_BOOL : list string := ["a"; "c"; "d"; "h"; "l"; "n"; "p"; "s"; "v"; "w"; "y"].
Definition PERL_BOOL : list string :=
  ["U"; "W"; "X"; "T"; "a"; "c"; "h"; "l"; "n"; "p"; "s"; "w"].
Definition NPX_BOOL : list string := ["y"; "q"].
Definition NPX_EVAL : list string := ["c"].

Definition NODE_FLAGS : list string :=
  ["-e"; "--eval"; "-p"; "--print"; "-r"; "--require"; "--import"; "--loader";
   "--experimental-loader"; "--preload"].

Definition node_dangerous (args : list string) : option string :=
  or_else
    (List.find (fun a =>
       let al := to_ascii_lowercase a in
       listed (head_of al) NODE_FLAGS ||
       (starts_with "-r" al && (2 <? slen al) && negb (starts_with "--" al))) args)
    (clustered_eval args ["e"; "p"] ["i"; "v"; "h"]).

Definition remote_specifier (arg : string) : bool :=
  let a := to_ascii_lowercase arg in
  starts_with "http://" a || starts_with "https://" a || starts_with "npm:" a ||
  starts_with "jsr:" a || starts_with "data:" a.

(** The operand at or after index [j], where [l] holds the arguments from [j] on. *)
Fixpoint next_operand (l : list string) (j : nat) (value_opts : list string) : option string * nat :=
  match l with
  | [] => (None, j)
  | a :: l =>
      if starts_with "-" a then
        if listed a value_opts then
          match l with
          | [] => (None, S (S j))
          | _ :: l => next_operand l (S (S j)) value_opts
          end
        else next_operand l (S j) value_opts
      else (Some a, j)
  end.

Definition DENO_VALUE_OPTS : list string :=
  ["--config"; "-c"; "--import-map"; "--lock"; "--cert"; "--v8-flags"; "--seed"; "--log-level";
   "-L"].

Definition deno_dangerous (args : list string) : option string :=
  let (sub, si) := next_operand args 0 DENO_VALUE_OPTS in
  sub ← sub;
  if eq_ignore_ascii_case sub "eval" then Some sub
  else if eq_ignore_ascii_case sub "run" || eq_ignore_ascii_case sub "serve" then
    match (next_operand (drop (S si) args) (S si) DENO_VALUE_OPTS).1 with
    | Some target => if remote_specifier target then Some target else None
    | None => None
    end
  else None.

Definition BUN_VALUE_OPTS : list string := ["--cwd"; "--config"; "-c"].

Definition bun_dangerous (args : list string) : option string :=
  match node_dangerous args with
  | Some f => Some f
  | None =>
      let (sub, si) := next_operand args 0 BUN_VALUE_OPTS in
      sub ← sub;
      let target :=
        if eq_ignore_ascii_case sub "run" || eq_ignore_ascii_case sub "x" ||
           eq_ignore_ascii_case sub "exec"
        then (next_operand (drop (S si) args) (S si) BUN_VALUE_OPTS).1
        else Some sub in
      match target with
      | Some target => if remote_specifier target then Some target else None
      | None => None
      end
  end.

Definition awk_dangerous (args : list string) : option string :=
  if existsb (fun a =>
       let al := to_ascii_lowercase a in
       String.eqb al "-f" || String.eqb al "--file" || starts_with "--file=" al ||
       (starts_with "-f" al && (2 <? slen al))) args
  then None
  else List.find (fun a => negb (starts_with "-" a)) args.

Definition pwsh_dangerous (args : list string) : option string :=
  List.find (fun a =>
    (starts_with "-" a || starts_with "/" a) &&
    let name := before_by (fun b => is_byte ":" b || is_byte "=" b)
                  (trim_start_by (fun b => is_byte "-" b || is_byte "/" b) (to_ascii_lowercase a)) in
    negb (String.eqb name "") &&
    (starts_with name "command" || starts_with name "encodedcommand" || String.eqb name "ec")) args.

Definition NAMESPACE_FLAGS : list string :=
  ["--pid"; "--ipc"; "--uts"; "--net"; "--network"; "--userns"].

Definition host_namespace (al : string) (next : option string) : bool :=
  listed (head_of al) NAMESPACE_FLAGS &&
  match split_once "=" al with
  | Some (_, v) => String.eqb v "host"
  | None => match next with
            | Some v => String.eqb (to_ascii_lowercase v) "host"
            | None => false
            end
  end.

Fixpoint container_escape_flag (args : list string) : option string :=
  match args with
  | [] => None
  | a :: rest =>
      let al := to_ascii_lowercase a in
      if listed (head_of al) ["--privileged"; "--cap-add"; "--device"] then Some a
      else if host_namespace al (head rest) then Some a
      else container_escape_flag rest
  end.

(** ** The environment *)

Definition BLOCKED : list string :=
  ["LD_PRELOAD"; "LD_AUDIT"; "DYLD_INSERT_LIBRARIES"; "BASH_ENV"; "ENV"; "ZDOTDIR"; "GCONV_PATH"].

Definition OPTION_VARS : list (string * list string) :=
  [("NODE_OPTIONS", ["--require"; "--import"; "--loader"; "--experimental-loader"; "--eval"; "-r"]);
   ("RUBYOPT", ["-r"]);
   ("JAVA_TOOL_OPTIONS", ["-javaagent"; "-agentlib"; "-agentpath"]);
   ("_JAVA_OPTIONS", ["-javaagent"; "-agentlib"; "-agentpath"]);
   ("PERL5OPT", ["-m"; "-d"])].

Definition bad_token (bad : list string) (tok : string) : bool :=
  let head := head_of (to_ascii_lowercase tok) in
  existsb (fun b => String.eqb head b || starts_with b head) bad.

Definition screen_variable (k v : string) : result () string :=
  let ku := to_ascii_uppercase (trim k) in
  if listed ku BLOCKED then
    Err ("refusing to launch: the environment variable '" +:+ k +:+
      "' preloads or injects code into the process. Remove it from the server's env.")
  else
    match List.find (fun o => String.eqb o.1 ku) OPTION_VARS with
    | Some (_, bad) =>
        match List.find (bad_token bad) (split_whitespace v) with
        | Some tok =>
            Err ("refusing to launch: " +:+ k +:+ " contains '" +:+ tok +:+
              "', which preloads or evaluates code. Remove it from the server's env.")
        | None => Ok ()
        end
    | None => Ok ()
    end.

Fixpoint screen_spawn_env (env : list (string * string)) : result () string :=
  match env with
  | [] => Ok ()
  | (k, v) :: env =>
      match screen_variable k v with
      | Ok _ => screen_spawn_env env
      | Err e => Err e
      end
  end.

(** ** The command

    [screen_spawn_command] calls itself on the command behind a launcher.  A
    screening answers how often it was called, itself included, with its result. *)

Definition Screen : Type := string -> list string -> nat * result () string.

(** The leading assignments of [env]'s arguments, and the rest; [Err] is a flag. *)
Definition is_assignment (k : string) : bool :=
  negb (String.eqb k "") && all_bytes (fun b => negb (is_slash b)) k.

Fixpoint env_assignments (args : list string) :
    result (list (string * string) * list string) string :=
  match args with
  | [] => Ok ([], [])
  | a :: rest =>
      if starts_with "-" a then
        Err ("refusing to launch 'env' with flags: set variables in the server's env " +:+
             "field and name the program directly.")
      else match split_once "=" a with
           | Some (k, v) =>
               if is_assignment k
               then match env_assignments rest with
                    | Ok (l, rest) => Ok ((k, v) :: l, rest)
                    | Err e => Err e
                    end
               else Ok ([], args)
           | None => Ok ([], args)
           end
  end.

Definition screen_env_wrapper (rec : Screen) (args : list string) : nat * result () string :=
  match env_assignments args with
  | Err e => (0%nat, Err e)
  | Ok (assignments, rest) =>
      match screen_spawn_env assignments with
      | Err e => (0%nat, Err e)
      | Ok _ => match rest with
                | cmd :: rest => rec cmd rest
                | [] => (0%nat, Ok ())
                end
      end
  end.

Fixpoint npx_launcher_args (args : list string) : list string :=
  match args with
  | [] => []
  | arg :: rest =>
      if String.eqb arg "--" || negb (starts_with "-" arg) then []
      else if listed arg ["-p"; "--package"] then
        match rest with
        | [] => [arg]
        | value :: rest => arg :: value :: npx_launcher_args rest
        end
      else arg :: npx_launcher_args rest
  end.

Fixpoint npx_launched_dangerous (rec : Screen) (args : list string) : nat * option string :=
  match args with
  | [] => (0%nat, None)
  | arg :: rest =>
      if String.eqb arg "--" || starts_with "-" arg then npx_launched_dangerous rec rest
      else
        let (n, r) := rec arg rest in
        match r with
        | Err _ =>
            (n, or_else (List.find (fun a => starts_with "-" a && negb (String.eqb a "--")) rest)
                  (Some arg))
        | Ok _ => let (n', r') := npx_launched_dangerous rec rest in ((n + n')%nat, r')
        end
  end.

Definition npx_dangerous (rec : Screen) (args : list string) : nat * option string :=
  let launcher_args := npx_launcher_args args in
  match or_else (first_flag launcher_args ["-c"; "--call"; "-n"; "--node-arg"; "--shell"])
          (clustered_eval launcher_args NPX_EVAL NPX_BOOL) with
  | Some flag => (0%nat, Some flag)
  | None => npx_launched_dangerous rec args
  end.

Definition npm_dangerous (rec : Screen) (args : list string) : nat * option string :=
  npx_dangerous rec
    match args with
    | a :: rest => if String.eqb a "exec" || String.eqb a "x" then rest else args
    | [] => args
    end.

Definition refused_flag (command flag : string) : string :=
  "refusing to launch '" +:+ command +:+ "': the argument '" +:+ flag +:+ "' can execute " +:+
  "arbitrary code or escape isolation. Toolport blocks inline-eval and " +:+
  "privileged-container flags on spawned servers as a supply-chain guard. " +:+
  "If this server is yours and you trust it, run it from a dedicated script " +:+
  "or launcher you control instead of an inline command.".

Definition refused_wrapper (command : string) : string :=
  "refusing to launch '" +:+ command +:+ "': wrapper programs like sudo/time/flock run " +:+
  "another command from their arguments, which would bypass Toolport's spawn " +:+
  "guard. Set environment variables in the server's env field, and name the " +:+
  "real program as the command.".

Definition SHELL_FLAGS : list string := ["-c"; "-command"; "/c"; "/k"; "/command"].

(** The dispatch on the interpreter family. *)
Definition dangerous (rec : Screen) (family : string) (args : list string) : nat * option string :=
  let here x := (0%nat, x) in
  if listed family ["node"; "nodejs"] then here (node_dangerous args)
  else if listed family ["bun"] then here (bun_dangerous args)
  else if listed family ["deno"] then here (deno_dangerous args)
  else if listed family ["python"; "python2"; "python3"; "pypy"; "pypy3"; "py"; "pyw"] then
    here (or_else (first_flag args ["-c"]) (clustered_eval args ["c"] PYTHON_BOOL))
  else if listed family ["ruby"] then
    here (or_else (first_flag args ["-e"]) (clustered_eval args ["e"] RUBY_BOOL))
  else if listed family ["perl"] then
    here (or_else (first_flag args ["-e"]) (clustered_eval args ["e"] PERL_BOOL))
  else if listed family ["php"] then here (first_flag args ["-r"; "-b"])
  else if listed family ["awk"; "gawk"; "mawk"; "nawk"] then here (awk_dangerous args)
  else if listed family ["osascript"; "elixir"; "iex"; "lua"; "luajit"; "rscript"; "r"; "julia";
                         "groovy"; "scala"; "clojure"; "bb"; "tclsh"; "wish"] then
    here (first_flag args ["-e"; "--eval"; "--eval-string"])
  else if listed family ["sh"; "bash"; "zsh"; "dash"; "ash"; "fish"; "ksh"] then
    here (or_else (first_flag args SHELL_FLAGS) (clustered_eval args ["c"] SHELL_BOOL))
  else if listed family ["cmd"] then here (first_flag args SHELL_FLAGS)
  else if listed family ["pwsh"; "powershell"] then here (pwsh_dangerous args)
  else if listed family ["docker"; "podman"; "nerdctl"] then here (container_escape_flag args)
  else if listed family ["npx"] then npx_dangerous rec args
  else if listed family ["npm"] then npm_dangerous rec args
  else here None.

Definition screen_body (rec : Screen) : Screen := fun command args =>
  let base := command_basename command in
  if String.eqb base "env" then
    let (n, r) := screen_env_wrapper rec args in (S n, r)
  else if listed base LAUNCHER_WRAPPERS || starts_with "qemu-" base then
    (1%nat, Err (refused_wrapper command))
  else
    let (n, flag) := dangerous rec (interpreter_family base) args in
    (S n, match flag with Some flag => Err (refused_flag command flag) | None => Ok () end).

(** Every recursive call is on a proper suffix of the arguments: [screen_unfold]
    shows that the fuel given is enough. *)
Fixpoint screen_fuel (n : nat) : Screen :=
  match n with
  | O => fun _ _ => (0%nat, Ok ())
  | S n => screen_body (screen_fuel n)
  end.

Definition screen_spawn_command (command : string) (args : list string) : nat * result () string :=
  screen_fuel (S (length args)) command args.

(** The command is launched. *)
Definition allowed (command : string) (args : list string) : bool :=
  is_ok (screen_spawn_command command args).2.

(** ** Containers *)

(** The keys that the first [n] words of the options after [run] pass already;
    the value of an option may lie beyond them. *)
Fixpoint already (n : nat) (tail : list string) : list string :=
  match n, tail with
  | S n, a :: tail =>
      let al := to_ascii_lowercase a in
      if String.eqb al "-e" || String.eqb al "--env" then
        match tail with
        | val :: tail => head_of val :: already (pred n) tail
        | [] => []
        end
      else if starts_with "--env=" al || starts_with "-e=" al then
        match split_once "=" a with
        | Some (_, rest) => head_of rest :: already n tail
        | None => already n tail
        end
      else if starts_with "-e" al && (2 <? slen al) then
        head_of (String.substring 2 (String.length a - 2) a) :: already n tail
      else already n tail
  | _, _ => []
  end.

(** The words before the first that satisfies [p], that word, and the rest. *)
Fixpoint split_at (p : string -> bool) (l : list string) :
    option (list string * string * list string) :=
  match l with
  | [] => None
  | a :: l =>
      if p a then Some ([], a, l)
      else match split_at p l with
           | Some (before, x, after) => Some (a :: before, x, after)
           | None => None
           end
  end.

Definition CONTAINERS : list string := ["docker"; "podman"; "nerdctl"].

Definition is_run (a : string) : bool :=
  eq_ignore_ascii_case a "run" || eq_ignore_ascii_case a "create".

(** How many words of a list come before the first that is not an option. *)
Fixpoint prefix_end (l : list string) : nat :=
  match l with
  | a :: l => if starts_with "-" a then S (prefix_end l) else O
  | [] => O
  end.

(** The keys to pass, in order. *)
Definition missing_keys (passed : list string) (env : list (string * string)) : list string :=
  List.filter (fun key => negb (String.eqb key "" || starts_with "-" key || listed key passed))
    (map fst env).

Definition inject_container_env (command : string) (args : list string)
    (env : list (string * string)) : list string :=
  if negb (listed (interpreter_family (command_basename command)) CONTAINERS) ||
     match env with [] => true | _ => false end
  then args
  else
    match split_at is_run args with
    | None => args
    | Some (before, run, option_tail) =>
        let passed := already (prefix_end option_tail) option_tail in
        match missing_keys passed env with
        | [] => args
        | keys => before ++ [run] ++ flat_map (fun key => ["-e"; key]) keys ++ option_tail
        end
    end.

(** ** Enough fuel *)

(** A screening uses its recursive calls on proper suffixes of the arguments only. *)
Definition agree (n : nat) (rec rec' : Screen) : Prop :=
  forall c a, (length a < n)%nat -> rec c a = rec' c a.

Lemma env_assignments_length args l rest :
  env_assignments args = Ok (l, rest) -> (length rest <= length args)%nat.
Proof.
  revert l. induction args as [|a args IH]; cbn [env_assignments]; intros l; [intros [= <- <-]; done|].
  destruct (starts_with "-" a); [done|]. destruct (split_once "=" a) as [[k v]|].
  - destruct (is_assignment k); [|intros [= <- <-]; done].
    destruct (env_assignments args) as [[l' rest']|] eqn:E; [|done]. intros [= <- <-].
    specialize (IH l' eq_refl). cbn. lia.
  - intros [= <- <-]. done.
Qed.

Lemma env_agree rec rec' args :
  agree (length args) rec rec' -> screen_env_wrapper rec args = screen_env_wrapper rec' args.
Proof.
  intros H. unfold screen_env_wrapper. destruct (env_assignments args) as [[l rest]|] eqn:E; [|done].
  apply env_assignments_length in E. destruct (screen_spawn_env l); [|done].
  destruct rest as [|cmd rest]; [done|]. apply H. cbn in E. lia.
Qed.

Lemma launched_agree rec rec' args :
  agree (length args) rec rec' -> npx_launched_dangerous rec args = npx_launched_dangerous rec' args.
Proof.
  induction args as [|a args IH]; [done|]. intros H. cbn [npx_launched_dangerous].
  rewrite IH by (intros c l Hl; apply H; cbn; lia).
  destruct (String.eqb a "--" || starts_with "-" a); [done|]. by rewrite H by (cbn; lia).
Qed.

Lemma dangerous_agree rec rec' family args :
  agree (length args) rec rec' -> dangerous rec family args = dangerous rec' family args.
Proof.
  intros H. assert (Hx : forall l, (length l <= length args)%nat ->
    npx_dangerous rec l = npx_dangerous rec' l).
  { intros l Hl. unfold npx_dangerous. destruct (or_else _ _); [done|].
    apply launched_agree. intros c a Ha. apply H. lia. }
  unfold dangerous. repeat (destruct (listed family _); [try done|]); try done; [by apply Hx|].
  unfold npm_dangerous. apply Hx. destruct args as [|a args]; [done|].
  destruct (_ || _); cbn; lia.
Qed.

Lemma screen_agree rec rec' c a :
  agree (length a) rec rec' -> screen_body rec c a = screen_body rec' c a.
Proof.
  intros H. unfold screen_body. by rewrite (env_agree rec rec'), (dangerous_agree rec rec') by done.
Qed.

Lemma fuel_enough n m : (n <= m)%nat -> agree n (screen_fuel n) (screen_fuel m).
Proof.
  revert m. induction n as [|n IH]; intros m Hm c a Ha; [lia|]. destruct m as [|m]; [lia|].
  cbn [screen_fuel]. apply screen_agree. intros c' a' Ha'. apply IH; lia.
Qed.

Lemma screen_unfold c a : screen_spawn_command c a = screen_body screen_spawn_command c a.
Proof.
  unfold screen_spawn_command. cbn [screen_fuel]. apply screen_agree. intros c' a' Ha'.
  symmetry. apply (fuel_enough (S (length a')) (length a)); lia.
Qed.

Definition family_of (command : string) : string := interpreter_family (command_basename command).

Lemma allowed_body c a :
  allowed c a = is_ok (screen_body screen_spawn_command c a).2.
Proof. unfold allowed. by rewrite screen_unfold. Qed.

Lemma trim_end_prefix p s : exists r, s = trim_end_by p s +:+ r.
Proof.
  induction s as [|b s [r IH]]; [by exists ""|]. simpl. destruct (trim_end_by p s) as [|b' s'].
  - destruct (p b); [by exists (String b s)|exists r; simpl; by rewrite IH].
  - exists r. simpl. by rewrite IH.
Qed.

Lemma family_prefix base : exists r, base = interpreter_family base +:+ r.
Proof.
  unfold interpreter_family. destruct (String.eqb _ ""); [by exists ""; rewrite app_str_nil_r|].
  apply trim_end_prefix.
Qed.

(** The families of the dispatch table. *)
Definition FAMILIES : list string :=
  ["node"; "nodejs"; "bun"; "deno"; "python"; "python2"; "python3"; "pypy"; "pypy3"; "py"; "pyw";
   "ruby"; "perl"; "php"; "awk"; "gawk"; "mawk"; "nawk"; "sh"; "bash"; "zsh"; "dash"; "ash"; "fish";
   "ksh"; "cmd"; "pwsh"; "powershell"; "docker"; "podman"; "nerdctl"; "npx"; "npm"].

(** A command of a listed family is no wrapper. *)
Lemma family_screened command :
  In (family_of command) FAMILIES ->
  String.eqb (command_basename command) "env" = false /\
  listed (command_basename command) LAUNCHER_WRAPPERS || starts_with "qemu-" (command_basename command)
    = false.
Proof.
  unfold family_of. set (base := command_basename command). clearbody base. intros Hin.
  destruct (family_prefix base) as [r Hr]. split.
  - destruct (String.eqb_spec base "env") as [->|]; [|done].
    exfalso. vm_compute in Hin. by repeat (destruct Hin as [Hin|Hin]; [discriminate Hin|]).
  - destruct (listed base LAUNCHER_WRAPPERS) eqn:El; cbn [orb].
    + exfalso. apply listed_spec in El. clear Hr.
      assert (Hall : Forall (fun w => listed (interpreter_family w) FAMILIES = false) LAUNCHER_WRAPPERS)
        by (repeat constructor).
      rewrite Forall_forall in Hall. apply list_elem_of_In in El. specialize (Hall _ El).
      apply listed_spec in Hin. congruence.
    + rewrite Hr. clear Hr El. revert Hin. generalize (interpreter_family base). intros f Hin.
      unfold FAMILIES in Hin. by repeat (destruct Hin as [<-|Hin]; [reflexivity|]).
Qed.

Lemma screened_command command args :
  In (family_of command) FAMILIES ->
  allowed command args =
    match (dangerous screen_spawn_command (family_of command) args).2 with
    | Some _ => false | None => true
    end.
Proof.
  intros Hin. destruct (family_screened command Hin) as [He Hw].
  rewrite allowed_body. unfold screen_body. rewrite He, Hw. unfold family_of in *.
  destruct (dangerous _ _ _) as [n [flag|]]; done.
Qed.

(** ** Launchers *)

Lemma launched_refused pre c a :
  starts_with "-" c = false -> allowed c a = false ->
  (npx_launched_dangerous screen_spawn_command (pre ++ c :: a)).2 <> None.
Proof.
  intros Hc Ha. induction pre as [|x pre IH]; cbn [app npx_launched_dangerous].
  - rewrite Hc, orb_false_r. destruct (String.eqb_spec c "--") as [->|_]; [done|].
    unfold allowed in Ha. destruct (screen_spawn_command c a) as [n [[]|e]]; [done|]. cbn.
    by destruct (List.find _ a).
  - destruct (_ || _); [done|]. destruct (screen_spawn_command x (pre ++ c :: a)) as [n [[]|e]].
    + by destruct (npx_launched_dangerous _ (pre ++ c :: a)).
    + cbn. by destruct (List.find _ _).
Qed.

Lemma npx_refused pre c a :
  starts_with "-" c = false -> allowed c a = false ->
  (npx_dangerous screen_spawn_command (pre ++ c :: a)).2 <> None.
Proof.
  intros Hc Ha. unfold npx_dangerous. destruct (or_else _ _); [done|].
  by apply launched_refused.
Qed.

(** A word that [env] takes for an assignment. *)
Definition assigns (w : string) : bool :=
  match split_once "=" w with Some (k, _) => is_assignment k | None => false end.

Lemma env_words pre c a :
  Forall (fun w => assigns w = true) pre -> assigns c = false ->
  (exists e, env_assignments (pre ++ c :: a) = Err e) \/
  (exists l, env_assignments (pre ++ c :: a) = Ok (l, c :: a)).
Proof.
  intros Hpre Hc. induction Hpre as [|w pre Hw Hpre IH]; cbn [app env_assignments].
  - destruct (starts_with "-" c); [eauto|]. unfold assigns in Hc.
    destruct (split_once "=" c) as [[k v]|]; [rewrite Hc|]; eauto.
  - destruct (starts_with "-" w); [eauto|]. unfold assigns in Hw.
    destruct (split_once "=" w) as [[k v]|]; [|done]. rewrite Hw.
    destruct IH as [[e ->]|[l ->]]; eauto.
Qed.

(** The launch [outer args] runs [c a] through launchers: npx and npm exec take the
    command anywhere among their words, [env] after its assignments. *)
Inductive launches (c : string) (a : list string) : string -> list string -> Prop :=
| launches_itself : launches c a c a
| launches_npx outer pre c' a' :
    family_of outer = "npx" -> starts_with "-" c' = false ->
    launches c a c' a' -> launches c a outer (pre ++ c' :: a')
| launches_npm outer sub pre c' a' :
    family_of outer = "npm" -> sub = "exec" \/ sub = "x" -> starts_with "-" c' = false ->
    launches c a c' a' -> launches c a outer (sub :: pre ++ c' :: a')
| launches_env outer pre c' a' :
    command_basename outer = "env" -> Forall (fun w => assigns w = true) pre ->
    assigns c' = false ->
    launches c a c' a' -> launches c a outer (pre ++ c' :: a')
| launches_wrapper outer args :
    In (command_basename outer) LAUNCHER_WRAPPERS -> launches c a outer args.

(** C10. A launcher hides nothing.  A command the guard refuses is refused behind any
    nesting of launchers: anywhere among the words of npx, npm exec or npm x (before
    or after their [--]), after the assignments of [env], or behind a wrapper
    program, however the launchers' paths are spelled. *)
Theorem launchers_hide_nothing c a outer args :
  launches c a outer args -> allowed c a = false -> allowed outer args = false.
Proof.
  intros Hl Hr. induction Hl as [|outer pre c' a' Hf Hc _ IH|outer sub pre c' a' Hf Hs Hc _ IH
    |outer pre c' a' Hb Hpre Hc _ IH|outer args Hw]; [done|..]; try specialize (IH).
  - rewrite screened_command by (rewrite Hf; unfold FAMILIES; simpl; tauto). rewrite Hf.
    change (dangerous screen_spawn_command "npx" ?l) with (npx_dangerous screen_spawn_command l).
    pose proof (npx_refused pre c' a' Hc IH) as H. by destruct (npx_dangerous _ _) as [n [f|]].
  - rewrite screened_command by (rewrite Hf; unfold FAMILIES; simpl; tauto). rewrite Hf.
    replace (dangerous screen_spawn_command "npm" (sub :: pre ++ c' :: a'))
      with (npx_dangerous screen_spawn_command (pre ++ c' :: a')) by (destruct Hs as [-> | ->]; done).
    pose proof (npx_refused pre c' a' Hc IH) as H. by destruct (npx_dangerous _ _) as [n [f|]].
  - rewrite allowed_body. unfold screen_body. rewrite Hb. cbn [String.eqb].
    unfold screen_env_wrapper.
    destruct (env_words pre c' a' Hpre Hc) as [[e ->]|[l ->]]; [done|].
    destruct (screen_spawn_env l); [|done]. unfold allowed in IH.
    by destruct (screen_spawn_command c' a').
  - rewrite allowed_body. unfold screen_body.
    destruct (String.eqb_spec (command_basename outer) "env") as [E|_].
    + exfalso. rewrite E in Hw. by repeat (destruct Hw as [Hw|Hw]; [discriminate Hw|]).
    + apply listed_spec in Hw. by rewrite Hw.
Qed.

(** ** Interpreters *)

(** The interpreters screened by a list of flags and by clusters: their families,
    the flags, the evaluation characters and the characters that take no value. *)
Definition INTERPRETERS : list (list string * list string * list string * list string) :=
  [(["python"; "python2"; "python3"; "pypy"; "pypy3"; "py"; "pyw"], ["-c"], ["c"], PYTHON_BOOL);
   (["ruby"], ["-e"], ["e"], RUBY_BOOL);
   (["perl"], ["-e"], ["e"], PERL_BOOL);
   (["sh"; "bash"; "zsh"; "dash"; "ash"; "fish"; "ksh"], SHELL_FLAGS, ["c"], SHELL_BOOL)].

(** A word that is one of the flags, whatever its letter case: alone, with [=value],
    or, for a two-byte dash flag, with the value attached. *)
Definition is_flag (flags : list string) (w : string) : Prop :=
  exists f, In f flags /\
    (to_ascii_lowercase w = f \/ (exists v, to_ascii_lowercase w = f +:+ "=" +:+ v) \/
     (slen f = 2 /\ starts_with "-" f = true /\
      exists v, v <> "" /\ to_ascii_lowercase w = f +:+ v)).

(** A single-dash word whose characters reach an evaluation character after
    characters that take no value. *)
Definition is_cluster (eval boolean : list string) (w : string) : Prop :=
  exists flags bs e rest, w = String "-" flags /\ starts_with "--" w = false /\ 2 < slen w /\
    chars flags = bs ++ e :: rest /\ Forall (fun b => In b boolean) bs /\ In e eval.

Lemma cluster_spec eval boolean cs :
  cluster eval boolean cs = true <->
  exists bs e rest, cs = bs ++ e :: rest /\ Forall (fun b => In b boolean) bs /\ In e eval.
Proof.
  induction cs as [|c cs IH]; cbn [cluster].
  - split; [done|]. intros ([|] & e & rest & E & _); discriminate E.
  - rewrite orb_true_iff, andb_true_iff, IH, !listed_spec. split.
    + intros [He|[Hb (bs & e & rest & -> & Hbs & He)]].
      * exists [], c, cs. auto.
      * exists (c :: bs), e, rest. auto.
    + intros ([|b bs] & e & rest & E & Hbs & He); injection E as -> ->; [by left|].
      inversion_clear Hbs. right. split; [done|]. by exists bs, e, rest.
Qed.

Lemma clustered_spec args eval boolean :
  clustered_eval args eval boolean = None <->
  forall before w after, args = before ++ w :: after -> ~ In "--" before -> ~ is_cluster eval boolean w.
Proof.
  induction args as [|s args IH]; cbn [clustered_eval].
  - split; [|done]. intros _ [|] w after E; discriminate E.
  - destruct (String.eqb_spec s "--") as [->|Hs].
    { split; [|done]. intros _ [|x before] w after [= <- E]; [|by intros []; left].
      intros _ (flags & _ & _ & _ & _ & H & _). discriminate H. }
    assert (Hstep : (~ is_cluster eval boolean s) ->
      (clustered_eval args eval boolean = None <->
       forall before w after, s :: args = before ++ w :: after -> ~ In "--" before ->
         ~ is_cluster eval boolean w)).
    { intros Hno. rewrite IH. split.
      - intros H [|x before] w after E Hb; injection E as <- E; [done|].
        apply (H before w after E). intros Hin. apply Hb. by right.
      - intros H before w after E Hb. apply (H (s :: before) w after); [by rewrite E|].
        intros [->|Hin]; done. }
    assert (Hskip : (forall flags, s <> String "-" flags) ->
      ~ is_cluster eval boolean s) by (intros H (flags & _ & _ & _ & -> & _); by apply (H flags)).
    destruct s as [|b flags]; [by apply Hstep, Hskip|].
    destruct (Stdlib.Strings.Ascii.eqb_spec b "-"%char) as [->|Hb].
    2: { assert (Hno : ~ is_cluster eval boolean (String b flags)) by (apply Hskip; congruence).
         rewrite <- (Hstep Hno). by destruct b as [[] [] [] [] [] [] [] []]. }
    destruct (starts_with "--" (String "-" flags)) eqn:E1; cbn [orb].
    { apply Hstep. intros (f & bs & e & rest & [= <-] & H & _). congruence. }
    destruct (slen (String "-" flags) <=? 2) eqn:E2; [apply Z.leb_le in E2|apply Z.leb_gt in E2].
    { apply Hstep. intros (f & bs & e & rest & [= <-] & _ & H & _). lia. }
    destruct (cluster eval boolean (chars flags)) eqn:Ec.
    + split; [done|]. intros H. exfalso. apply (H [] (String "-" flags) args); [done|intros []|].
      apply cluster_spec in Ec as (bs & e & rest & ? & ? & ?). by exists flags, bs, e, rest.
    + apply Hstep. intros (f & bs & e & rest & [= <-] & _ & _ & Hc).
      assert (cluster eval boolean (chars flags) = true) by (apply cluster_spec; eauto). congruence.
Qed.

Lemma head_of_spec al f :
  all_bytes (fun b => negb (is_byte "=" b)) f = true ->
  head_of al = f <-> al = f \/ exists v, al = f +:+ "=" +:+ v.
Proof.
  unfold head_of, is_byte. revert f. induction al as [|b al IH]; intros f Hf; cbn [before_by].
  - split; [intros <-; by left|]. intros [->|[v Hv]]; [done|]. by destruct f.
  - destruct (Stdlib.Strings.Ascii.eqb_spec b "="%char) as [->|Hb].
    + split; [intros <-; right; by exists al|]. intros [<-|[v Hv]]; [discriminate Hf|].
      destruct f as [|c f]; [done|]. injection Hv as <- _. discriminate Hf.
    + destruct f as [|c f].
      * split; [done|]. intros [|[v Hv]]; [done|]. injection Hv as -> _. done.
      * cbn [all_bytes] in Hf. apply andb_prop in Hf as [_ Hf]. specialize (IH f Hf).
        split.
        -- intros [= -> E]. apply IH in E as [->|[v ->]]; [by left|right; by exists v].
        -- intros [[= -> ->]|[v [= -> ->]]]; f_equal; apply IH; eauto.
Qed.

Lemma find_none {A} (p : A -> bool) l : List.find p l = None <-> forall x, In x l -> p x = false.
Proof.
  split; [intros H x Hx; by apply (List.find_none p l)|]. induction l as [|x l IH]; [done|].
  intros H. cbn. rewrite (H x) by (by left). apply IH. intros y Hy. apply H. by right.
Qed.

Lemma first_flag_spec args flags :
  Forall (fun f => all_bytes (fun b => negb (is_byte "=" b)) f = true) flags ->
  first_flag args flags = None <-> forall w, In w args -> ~ is_flag flags w.
Proof.
  intros Heq. rewrite Forall_forall in Heq. unfold first_flag. rewrite find_none.
  apply forall_proper. intros w. apply imp_iff_compat_l. cbv zeta.
  set (al := to_ascii_lowercase w). rewrite orb_false_iff, <- !not_true_iff_false.
  rewrite listed_spec, existsb_exists. split.
  - intros [H1 H2] (f & Hin & Hw). fold al in Hw. destruct Hw as [Hw|[[v Hw]|(Hf & Hd & v & Hv & Hw)]].
    + apply H1. replace (head_of al) with f; [done|]. symmetry. apply head_of_spec; [|by left].
      by apply Heq, list_elem_of_In.
    + apply H1. replace (head_of al) with f; [done|]. symmetry. apply head_of_spec; [|by right; exists v].
      by apply Heq, list_elem_of_In.
    + apply H2. exists f. split; [done|]. rewrite Hf, Hw, Hd. unfold starts_with.
      rewrite prefix_app, slen_app, Hf.
      assert (0 < slen v) by (pose proof (slen_nonneg v); destruct (Z.eq_dec (slen v) 0) as [E|];
        [by apply slen_zero in E|lia]).
      cbn. rewrite andb_true_r. apply Z.ltb_lt. lia.
  - intros H. split.
    + intros Hin. apply H. exists (head_of al). split; [done|]. fold al.
      destruct (proj1 (head_of_spec al (head_of al)
        (Heq _ (proj2 (list_elem_of_In _ _) Hin))) eq_refl) as [E|[v E]]; eauto.
    + intros (f & Hin & Hf). apply andb_prop in Hf as [[[Hf Hd]%andb_prop Hl]%andb_prop Hp].
      apply H. exists f. split; [done|]. fold al. right. right.
      apply Z.eqb_eq in Hf. split_and!; [done..|]. apply prefix_spec in Hp as [v Hv]. exists v.
      split; [|done]. intros ->. rewrite Hv, slen_app, Hf in Hl. done.
Qed.

Lemma interpreter_dangerous fams flags eval boolean f args :
  In (fams, flags, eval, boolean) INTERPRETERS -> In f fams ->
  dangerous screen_spawn_command f args =
    (0%nat, or_else (first_flag args flags) (clustered_eval args eval boolean)).
Proof.
  intros Hin Hf. unfold INTERPRETERS in Hin.
  repeat (destruct Hin as [[= <- <- <- <-]|Hin];
    [by repeat (destruct Hf as [<-|Hf]; [reflexivity|])|]). done.
Qed.

(** Inline code is refused, and nothing else, in the interpreters screened by
    flags.  For every python, ruby, perl and shell command, whatever its path,
    version suffix and letter case, the launch is allowed exactly when no word is an
    evaluation flag (alone, with [=value] or with its value attached, in any letter
    case) and no word before [--] packs an evaluation character behind characters
    that take no value. *)
Theorem interpreters_allowed_iff fams flags eval boolean command args :
  In (fams, flags, eval, boolean) INTERPRETERS -> In (family_of command) fams ->
  allowed command args = true <->
  (forall w, In w args -> ~ is_flag flags w) /\
  (forall before w after, args = before ++ w :: after -> ~ In "--" before ->
     ~ is_cluster eval boolean w).
Proof.
  intros Hin Hf.
  assert (Hfam : In (family_of command) FAMILIES).
  { clear -Hin Hf. unfold INTERPRETERS in Hin.
    repeat (destruct Hin as [[= <- <- <- <-]|Hin];
      [repeat (destruct Hf as [<-|Hf]; [unfold FAMILIES; simpl; tauto|]); done|]). done. }
  assert (Heq : Forall (fun f => all_bytes (fun b => negb (is_byte "=" b)) f = true) flags).
  { clear -Hin. unfold INTERPRETERS in Hin.
    by repeat (destruct Hin as [[= <- <- <- <-]|Hin]; [by repeat constructor|]). }
  rewrite screened_command by done. rewrite (interpreter_dangerous fams flags eval boolean) by done.
  rewrite <- first_flag_spec, <- clustered_spec by done. cbn.
  destruct (first_flag args flags), (clustered_eval args eval boolean); cbn; naive_solver.
Qed.

(** ** Containers *)

Lemma split_at_spec p l before x after :
  split_at p l = Some (before, x, after) -> l = before ++ x :: after /\ p x = true.
Proof.
  revert before. induction l as [|a l IH]; intros before; cbn [split_at]; [done|].
  destruct (p a) eqn:E; [by intros [= <- <- <-]|]. destruct (split_at p l) as [[[b y] c]|]; [|done].
  intros [= <- <- <-]. destruct (IH b eq_refl) as [-> ?]. done.
Qed.

(** A word that does not start with a dash is no container flag. *)
Lemma lower_undashed k : starts_with "-" k = false -> starts_with "-" (head_of (to_ascii_lowercase k)) = false.
Proof.
  destruct k as [|b k]; [done|]. intros H. unfold to_ascii_lowercase, head_of. cbn [map_bytes before_by].
  destruct (is_byte "=" (lower_byte b)); [done|]. unfold starts_with in *. cbn [String.prefix] in *.
  destruct (Stdlib.Strings.Ascii.ascii_dec "-" (lower_byte b)) as [E|]; [|done].
  assert (b = "-"%char) as ->; [|by destruct (Stdlib.Strings.Ascii.ascii_dec "-" "-"); destruct k].
  clear -E. revert E. by destruct b as [[] [] [] [] [] [] [] []].
Qed.

Lemma undashed_unlisted x flags :
  starts_with "-" x = false -> Forall (fun f => starts_with "-" f = true) flags -> listed x flags = false.
Proof.
  intros Hx Hf. destruct (listed x flags) eqn:E; [|done]. apply listed_spec, list_elem_of_In in E.
  rewrite Forall_forall in Hf. by rewrite (Hf _ E) in Hx.
Qed.

Lemma escape_undashed k l :
  starts_with "-" k = false -> container_escape_flag (k :: l) = container_escape_flag l.
Proof.
  intros Hk%lower_undashed. cbn [container_escape_flag]. unfold host_namespace.
  by rewrite !undashed_unlisted by (first [done | repeat constructor]).
Qed.

Lemma escape_extras keys l :
  Forall (fun k => starts_with "-" k = false) keys ->
  container_escape_flag (flat_map (fun key => ["-e"; key]) keys ++ l) = container_escape_flag l.
Proof.
  induction 1 as [|k keys Hk _ IH]; [done|].
  change (container_escape_flag ("-e" :: k :: (flat_map (fun key => ["-e"; key]) keys ++ l)) =
          container_escape_flag l).
  replace (container_escape_flag ("-e" :: k :: (flat_map (fun key => ["-e"; key]) keys ++ l)))
    with (container_escape_flag (k :: (flat_map (fun key => ["-e"; key]) keys ++ l))) by done.
  by rewrite escape_undashed.
Qed.

(** Only what follows [x] may differ. *)
Lemma escape_after before x l l' :
  container_escape_flag (x :: l) = container_escape_flag (x :: l') ->
  container_escape_flag (before ++ x :: l) = container_escape_flag (before ++ x :: l').
Proof.
  intros H. induction before as [|b before IH]; [done|]. cbn [app].
  assert (Hh : head (before ++ x :: l) = head (before ++ x :: l')) by (by destruct before).
  cbn [container_escape_flag]. by rewrite Hh, IH.
Qed.

Lemma run_undashed x : is_run x = true -> starts_with "-" x = false.
Proof.
  intros H. destruct (starts_with "-" x) eqn:E; [|done]. apply prefix_spec in E as [r ->].
  discriminate H.
Qed.

Lemma missing_usable passed env :
  Forall (fun k => starts_with "-" k = false) (missing_keys passed env).
Proof.
  apply Forall_forall. intros k Hk. apply list_elem_of_In, filter_In in Hk as [_ Hk].
  destruct (starts_with "-" k); [|done]. by rewrite orb_true_r in Hk.
Qed.

Lemma inject_cases command args env :
  inject_container_env command args env = args \/
  exists before run tail,
    split_at is_run args = Some (before, run, tail) /\
    inject_container_env command args env = before ++ [run] ++
      flat_map (fun key => ["-e"; key]) (missing_keys (already (prefix_end tail) tail) env) ++ tail.
Proof.
  unfold inject_container_env. destruct (_ || _); [by left|].
  destruct (split_at is_run args) as [[[before run] tail]|]; [|by left].
  destruct (missing_keys _ env) as [|k keys] eqn:E; [by left|]. right. exists before, run, tail.
  by rewrite E.
Qed.

(** Passing vaulted variables into a container changes nothing else.  For every
    container command: the verdict of the guard on the arguments is the one on the
    arguments with the variables injected; the values are never used, only the
    keys; and when the command runs or creates a container, each variable whose key
    is not empty and does not start with a dash is either passed by an option after
    [run] already, or by [-e KEY] directly after it. *)
Theorem container_env_injection command args env :
  In (family_of command) CONTAINERS ->
  allowed command (inject_container_env command args env) = allowed command args /\
  (forall env', map fst env' = map fst env ->
     inject_container_env command args env' = inject_container_env command args env) /\
  (forall before run tail key,
     split_at is_run args = Some (before, run, tail) -> In key (map fst env) ->
     key <> "" -> starts_with "-" key = false ->
     In key (already (prefix_end tail) tail) \/
     exists l r, inject_container_env command args env =
       before ++ [run] ++ flat_map (fun key => ["-e"; key]) (l ++ key :: r) ++ tail).
Proof.
  intros Hc. split_and!.
  - assert (Hfam : In (family_of command) FAMILIES).
    { unfold CONTAINERS in Hc. unfold FAMILIES.
      repeat (destruct Hc as [<-|Hc]; [simpl; tauto|]). done. }
    rewrite !screened_command by done.
    assert (Hd : forall l, dangerous screen_spawn_command (family_of command) l =
      (0%nat, container_escape_flag l)).
    { intros l. unfold CONTAINERS in Hc. by repeat (destruct Hc as [<-|Hc]; [reflexivity|]). }
    rewrite !Hd. cbn [snd]. destruct (inject_cases command args env) as [->|(b & x & tail & Hs & ->)]; [done|].
    apply split_at_spec in Hs as [-> Hx]. cbn [app].
    rewrite (escape_after b x (_ ++ tail) tail); [done|].
    rewrite !escape_undashed by (by apply run_undashed).
    by rewrite escape_extras by apply missing_usable.
  - intros env' He. unfold inject_container_env, missing_keys. rewrite He.
    by destruct env' as [|[]], env as [|[]].
  - intros before run tail key Hs Hin Hne Hd. unfold inject_container_env. rewrite Hs.
    replace (listed (interpreter_family (command_basename command)) CONTAINERS) with true
      by (symmetry; by apply listed_spec).
    destruct env as [|e env]; [done|]. cbn [negb orb].
    destruct (listed key (already (prefix_end tail) tail)) eqn:Ep;
      [left; by apply listed_spec|right].
    assert (Hm : In key (missing_keys (already (prefix_end tail) tail) (e :: env))).
    { apply filter_In. split; [done|]. rewrite Ep, Hd. by destruct (String.eqb_spec key ""). }
    apply in_split in Hm as (l & r & Hm). exists l, r. rewrite Hm. by destruct l.
Qed.

(** ** The cost of screening launchers of launchers *)

Lemma npx_chain_safe n :
  screen_spawn_command "npx" (replicate n "npx") = ((2 ^ n)%nat, Ok ()).
Proof.
  induction n as [n IH] using lt_wf_ind. rewrite screen_unfold. unfold screen_body.
  change (command_basename "npx") with "npx".
  change (interpreter_family "npx") with "npx".
  replace (String.eqb "npx" "env") with false by done.
  replace (listed "npx" LAUNCHER_WRAPPERS || starts_with "qemu-" "npx") with false by done.
  change (dangerous screen_spawn_command "npx" ?l) with (npx_dangerous screen_spawn_command l).
  assert (Hl : npx_dangerous screen_spawn_command (replicate n "npx") =
    npx_launched_dangerous screen_spawn_command (replicate n "npx")) by (by destruct n).
  rewrite Hl. clear Hl.
  assert (H : forall m, (m <= n)%nat ->
    npx_launched_dangerous screen_spawn_command (replicate m "npx") = ((2 ^ m - 1)%nat, None)).
  { induction m as [|m IHm]; intros Hm; [done|]. cbn [replicate npx_launched_dangerous].
    replace (String.eqb "npx" "--" || starts_with "-" "npx") with false by done.
    rewrite IH, IHm by lia. f_equal. pose proof (Nat.pow_nonzero 2 m). cbn [Nat.pow]. lia. }
  rewrite H by lia. f_equal. pose proof (Nat.pow_nonzero 2 n). lia.
Qed.

(** Screening a chain of npx launchers is exponential: for an argument list of
    [n] words [npx], all of which it allows, the guard screens [2 ^ n] commands.  (A
    configuration of forty such words keeps the launch from ever being decided.) *)
Theorem npx_chain_cost n : (screen_spawn_command "npx" (replicate n "npx")).1 = (2 ^ n)%nat.
Proof. by rewrite npx_chain_safe. Qed.

End SpawnGuard.

(** ** Witnesses *)

Lemma launchers_hide_nothing_witness :
  SpawnGuard.allowed "node" ["-e"; "evil()"] = false /\
  SpawnGuard.allowed "/usr/bin/env" ["A=1"; "npx"; "-y"; "node"; "-e"; "evil()"] = false.
Proof.
  split; [reflexivity|].
  apply (SpawnGuard.launchers_hide_nothing "node" ["-e"; "evil()"]); [|reflexivity].
  apply (SpawnGuard.launches_env _ _ "/usr/bin/env" ["A=1"] "npx" ["-y"; "node"; "-e"; "evil()"]);
    [reflexivity|repeat constructor|reflexivity|].
  apply (SpawnGuard.launches_npx _ _ "npx" ["-y"] "node" ["-e"; "evil()"]); [reflexivity..|].
  apply SpawnGuard.launches_itself.
Defined.

Lemma interpreters_allowed_iff_witness :
  SpawnGuard.allowed "Python3.10.exe" ["-m"; "server"] = true /\
  ~ SpawnGuard.is_flag ["-c"] "server".
Proof.
  assert (H : SpawnGuard.allowed "Python3.10.exe" ["-m"; "server"] = true) by reflexivity.
  split; [exact H|].
  refine (proj1 (proj1 (SpawnGuard.interpreters_allowed_iff _ _ _ _ "Python3.10.exe"
    ["-m"; "server"] _ _) H) "server" _); [left; reflexivity|vm_compute; tauto|vm_compute; tauto].
Defined.

Lemma container_env_injection_witness :
  SpawnGuard.allowed "docker" (SpawnGuard.inject_container_env "docker" ["run"; "-i"; "img"] [("TOKEN", "s3cret")])
  = true.
Proof.
  destruct (SpawnGuard.container_env_injection "docker" ["run"; "-i"; "img"] [("TOKEN", "s3cret")])
    as (E & _ & _); [vm_compute; tauto|].
  exact E.
Defined.

Example injected_after_run :
  SpawnGuard.inject_container_env "docker" ["run"; "-i"; "img"] [("TOKEN", "s3cret")]
  = ["run"; "-e"; "TOKEN"; "-i"; "img"].
Proof. reflexivity. Qed.
