(* ===== verification/Launch.v ===== *)
(** Launch arguments (src/launch_inputs.rs): the shell-free binding of launch inputs
    into a saved server's argument list, and the redaction of what its child prints.

    The vault is a parameter: reading a key answers a value, none, or an error. *)

From S2P Require Import Prelude Text Json Registry SecretRefs SpawnGuard.

Module Launch.
Import Registry.

Record ResolvedArgs := mk_resolved {
  resolved : list string;
  sensitive : list string;
  has_binding : bool
}.

(** ** Redaction *)

Definition START : string := "downstream server exited".

Definition is_number (code : string) : bool :=
  let digits := default code (strip_prefix "-" code) in
  negb (String.eqb digits "") && all_bytes is_digit digits.

(** The part of an exit message that Toolport wrote itself. *)
Definition exit_status_prefix (message : string) : option string :=
  rest ← strip_prefix START message;
  status ← match strip_prefix " (status " rest with
           | Some status =>
               cr ← split_once ")" status;
               if is_number cr.1 then Some (" (status " +:+ cr.1 +:+ ")", cr.2) else None
           | None => Some ("", rest)
           end;
  if starts_with (":" +:+ String (ascii_of_N 10) "") status.2 ||
     starts_with " without stderr output." status.2
  then Some (START +:+ status.1) else None.

Definition longer (a b : string) : Prop := slen b <= slen a.
#[global] Instance longer_dec : RelDecision longer.
Proof. intros a b. unfold longer. apply _. Defined.

Definition redact (r : ResolvedArgs) (message : string) : string :=
  if has_binding r then
    match exit_status_prefix message with
    | Some exit => exit +:+ " after launch; check its command and setup values"
    | None => "downstream server failed after launch; check its command and setup values"
    end
  else
    fold_left (fun m s => replace s "<redacted>" m)
      (List.filter (fun s => negb (String.eqb s "")) (dedup (merge_sort longer (sensitive r)))) message.

(** ** Names *)

Definition find_input (key : string) (l : list LaunchInput) : option LaunchInput :=
  List.find (fun i => String.eqb (input_key i) key) l.

Definition lone_input (key : string) (b : ArgBinding) : bool :=
  match parts b with [Input k _] => String.eqb k key | _ => false end.

Definition input_display_name (args : list string) (l : LaunchConfig) (key : string) : string :=
  let name := match find_input key (inputs l) with Some i => label i | None => key end in
  if negb (starts_with "Imported argument" name) then name
  else
    match List.find (lone_input key) (bindings l) with
    | None => name
    | Some b =>
        match index b with
        | S i =>
            match args !! i with
            | Some flag =>
                if starts_with "-" flag
                then "Value for " +:+ flag +:+ " (argument " +:+ pretty (Z.of_nat (S (S i))) +:+ ")"
                else "Secret argument " +:+ pretty (Z.of_nat (S (S i)))
            | None => "Secret argument " +:+ pretty (Z.of_nat (S (S i)))
            end
        | O => "Secret argument 1"
        end
    end.

(** ** Binding *)

Section vault.
Variable is_alphanumeric : string -> bool.
Variable vault : string -> string -> result (option string) string.

Definition blank (v : string) : bool := String.eqb (trim v) "".

Definition some_env_secret (s : ServerEntry) : bool := existsb env_secret (env s).

(** The value of an input before the blank check. *)
Definition raw_value (s : ServerEntry) (i : LaunchInput) : result (option string) string :=
  if input_secret i then
    match input_value i with
    | Some v => Ok (Some v)
    | None => match vault (server_id s) (input_key i) with
              | Ok v => Ok v
              | Err _ => Err ("could not read '" +:+ label i +:+ "' from the vault")
              end
    end
  else Ok (input_value i).

Definition resolve_input (s : ServerEntry) (l : LaunchConfig) (key : string) : result string string :=
  match find_input key (inputs l) with
  | None => Err ("launch argument refers to missing input '" +:+ key +:+ "'")
  | Some i =>
      match raw_value s i with
      | Err e => Err e
      | Ok v =>
          match (match v with Some v => if blank v then None else Some v | None => None end) with
          | Some v => Ok v
          | None =>
              if required i && input_secret i then
                Err (server_name s +:+ " needs " +:+
                     input_display_name (args s) l (input_key i) +:+ ". Add it in Servers > " +:+
                     server_name s +:+ " > Credentials.")
              else if required i then
                Err (server_name s +:+ " needs " +:+ label i +:+ ". Open server setup to add it.")
              else Ok ""
          end
      end
  end.

Fixpoint bind_parts (s : ServerEntry) (l : LaunchConfig) (ps : list ArgPart) (value : string)
    (sens : list string) : result (string * list string) string :=
  match ps with
  | [] => Ok (value, sens)
  | Literal literal _ :: ps => bind_parts s l ps (value +:+ literal) sens
  | Input key _ :: ps =>
      match resolve_input s l key with
      | Err e => Err e
      | Ok v => bind_parts s l ps (value +:+ v) (sens ++ [v])
      end
  end.

Fixpoint bind_all (s : ServerEntry) (l : LaunchConfig) (bs : list ArgBinding) (args : list string)
    (sens : list string) : result (list string * list string) string :=
  match bs with
  | [] => Ok (args, sens)
  | b :: bs =>
      match bind_parts s l (parts b) "" sens with
      | Err e => Err e
      | Ok (value, sens) => bind_all s l bs (<[index b := value]> args) (sens ++ [value])
      end
  end.

Definition resolve_args_with (s : ServerEntry) : result ResolvedArgs string :=
  match launch s with
  | None => Ok {| resolved := args s; sensitive := []; has_binding := some_env_secret s |}
  | Some l =>
      match validate is_alphanumeric (args s) false l with
      | Err e => Err e
      | Ok _ =>
          match bind_all s l (bindings l) (args s) [] with
          | Err e => Err e
          | Ok (args, sens) =>
              if match command s with
                 | Some c => negb (SpawnGuard.allowed c args)
                 | None => false
                 end
              then Err "launch arguments failed Toolport's spawn safety check"
              else Ok {| resolved := args; sensitive := sens;
                         has_binding := match bindings l with [] => false | _ => true end ||
                                        some_env_secret s |}
          end
      end
  end.

(** The environment settings a launch needs before it may start. *)
Definition env_present (s : ServerEntry) (key : string) : result () string :=
  match List.find (fun e => String.eqb (env_key e) key) (env s) with
  | None => Err (server_name s +:+ " needs environment setting " +:+ key +:+
                 ". Open server setup to add it.")
  | Some e =>
      match (match env_value e with
             | Some v => Ok (negb (blank v))
             | None =>
                 if env_secret e then
                   match vault (server_id s) key with
                   | Err _ => Err ("could not read '" +:+ key +:+ "' from the vault")
                   | Ok v => Ok (match v with Some v => negb (blank v) | None => false end)
                   end
                 else Ok false
             end) with
      | Err e => Err e
      | Ok true => Ok ()
      | Ok false => Err (server_name s +:+ " needs " +:+ key +:+ ". Open server setup to add it.")
      end
  end.

Fixpoint check_required_env (s : ServerEntry) (keys : list string) : result () string :=
  match keys with
  | [] => Ok ()
  | key :: keys =>
      match env_present s key with
      | Ok _ => check_required_env s keys
      | Err e => Err e
      end
  end.

Definition resolve_args (s : ServerEntry) : result ResolvedArgs string :=
  match resolve_args_with s with
  | Err e => Err e
  | Ok r =>
      match check_required_env s (match launch s with Some l => required_env l | None => [] end) with
      | Ok _ => Ok r
      | Err e => Err e
      end
  end.

(** Declared references stand in with a placeholder. *)
Fixpoint stage_inputs (l : list LaunchInput) : result (list LaunchInput) string :=
  match l with
  | [] => Ok []
  | i :: l =>
      match SecretRefs.source (input_unknown i) with
      | Err e => Err (SecretRefs.message e)
      | Ok r =>
          match stage_inputs l with
          | Err e => Err e
          | Ok l => Ok ((match r with
                         | Some _ => set_input_value (Some "<reference>") i
                         | None => i
                         end) :: l)
          end
      end
  end.

Definition check_ready_for_enable (s : ServerEntry) : result () string :=
  match launch s with
  | None => match resolve_args s with Ok _ => Ok () | Err e => Err e end
  | Some l =>
      match stage_inputs (inputs l) with
      | Err e => Err e
      | Ok ins =>
          match resolve_args (set_launch (Some (set_inputs ins l)) s) with
          | Ok _ => Ok ()
          | Err e => Err e
          end
      end
  end.

(** ** What the bound arguments are *)

(** The text of a part: a literal, or the one value of its input. *)
Definition part_value (s : ServerEntry) (l : LaunchConfig) (p : ArgPart) : result string string :=
  match p with Literal v _ => Ok v | Input k _ => resolve_input s l k end.

(** [v] is the text of the parts, in order. *)
Fixpoint composed (s : ServerEntry) (l : LaunchConfig) (ps : list ArgPart) (v : string) : Prop :=
  match ps with
  | [] => v = ""
  | p :: ps => exists x y, part_value s l p = Ok x /\ composed s l ps y /\ v = x +:+ y
  end.

Lemma bind_parts_spec s l ps value sens v sens' :
  bind_parts s l ps value sens = Ok (v, sens') -> exists y, composed s l ps y /\ v = value +:+ y.
Proof.
  revert value sens. induction ps as [|[x u|k u] ps IH]; intros value sens; cbn [bind_parts].
  - intros [= <- <-]. exists "". by rewrite app_str_nil_r.
  - intros (y & Hy & ->)%IH. exists (x +:+ y). split; [|by rewrite app_str_assoc].
    by exists x, y.
  - destruct (resolve_input s l k) as [x|e] eqn:E; [|done]. intros (y & Hy & ->)%IH.
    exists (x +:+ y). split; [|by rewrite app_str_assoc]. by exists x, y.
Qed.

Lemma bind_all_spec s l bs args sens args' sens' :
  bind_all s l bs args sens = Ok (args', sens') ->
  NoDup (map index bs) -> (forall b, In b bs -> (index b < length args)%nat) ->
  length args' = length args /\
  (forall b, In b bs -> exists v, args' !! index b = Some v /\ composed s l (parts b) v) /\
  (forall i, ~ In i (map index bs) -> args' !! i = args !! i).
Proof.
  revert args sens. induction bs as [|b bs IH]; intros args sens; cbn [bind_all map].
  - intros [= <- <-] _ _. split_and!; [done|by intros b []|done].
  - destruct (bind_parts s l (parts b) "" sens) as [[v sens1]|e] eqn:Eb; [|done].
    apply bind_parts_spec in Eb as (y & Hy & ->). cbn [String.append].
    intros H [Hb Hn]%NoDup_cons Hlt. rewrite list_elem_of_In in Hb. apply IH in H; [|done|].
    2: { intros b' Hin. rewrite length_insert. apply Hlt. by right. }
    destruct H as (Hlen & Hbs & Hrest). rewrite length_insert in Hlen. split_and!; [done|..].
    + intros b' [<-|Hin]; [|by apply Hbs]. exists y. split; [|done]. rewrite Hrest by done.
      apply list_lookup_insert_eq, Hlt. by left.
    + intros i Hi. rewrite Hrest by (intros Hin; apply Hi; by right).
      apply list_lookup_insert_ne. intros E. apply Hi. left. done.
Qed.

Lemma bind_all_none s l args sens : bind_all s l [] args sens = Ok (args, sens).
Proof. done. Qed.

(** A required input has a value that is not blank. *)
Lemma resolve_input_required s l k v i :
  resolve_input s l k = Ok v -> find_input k (inputs l) = Some i -> required i = true ->
  blank v = false.
Proof.
  unfold resolve_input. intros H Hi Hr. rewrite Hi, Hr in H.
  destruct (raw_value s i) as [[x|]|e]; [|by destruct (input_secret i)|done].
  destruct (blank x) eqn:Ex; [by destruct (input_secret i)|]. by injection H as <-.
Qed.

End vault.

(** ** Properties *)

Section properties.
Variable is_alphanumeric : string -> bool.
Variable vault : string -> string -> result (option string) string.

(** C25. Binding launch inputs cannot add, drop or split an argument.  When the
    arguments of a server with a launch setup resolve, there are as many as were
    saved; each bound position holds one word, the text of its parts in order,
    whatever characters the values hold, and all other positions are unchanged; a
    required input's value is not blank; and the spawn guard allows the resulting
    command line, not only the saved one. *)
Theorem resolve_args_correct s l r :
  resolve_args_with is_alphanumeric vault s = Ok r -> launch s = Some l ->
  length (resolved r) = length (args s) /\
  (forall b, In b (bindings l) ->
     exists v, resolved r !! index b = Some v /\ composed vault s l (parts b) v) /\
  (forall i, ~ In i (map index (bindings l)) -> resolved r !! i = args s !! i) /\
  (forall b k u i, In b (bindings l) -> In (Input k u) (parts b) ->
     find_input k (inputs l) = Some i -> required i = true ->
     exists v, resolve_input vault s l k = Ok v /\ blank v = false) /\
  (forall c, command s = Some c -> SpawnGuard.allowed c (resolved r) = true).
Proof.
  unfold resolve_args_with. intros H Hl. rewrite Hl in H.
  destruct (validate is_alphanumeric (args s) false l) as [[]|e] eqn:Ev; [|done].
  apply validate_spec in Ev. destruct Ev as [_ _ Hn Hb _ _].
  destruct (bind_all vault s l (bindings l) (args s) []) as [[args' sens]|e] eqn:Eb; [|done].
  apply bind_all_spec in Eb as (Hlen & Hbs & Hrest); [|done|].
  2: { intros b Hin. destruct (Hb b Hin) as [Hm _]. by eapply lookup_lt_Some. }
  destruct (match command s with Some c => negb (SpawnGuard.allowed c args') | None => false end) eqn:Es;
    [done|]. injection H as <-. cbn [resolved]. split_and!; [done|done|done| |].
  - intros b k u i Hin Hk Hi Hr. destruct (Hbs b Hin) as (v & _ & Hv). clear -Hk Hi Hr Hv.
    revert v Hv. induction (parts b) as [|p ps IH]; [done|]. intros v (x & y & Hx & Hy & _).
    destruct Hk as [->|Hk]; [|by apply (IH Hk y)]. exists x. split; [done|].
    by eapply resolve_input_required.
  - intros c Hc. rewrite Hc in Es. by apply negb_false_iff.
Qed.

(** The first words of an exit message Toolport may repeat. *)
Definition exit_text (m : string) : Prop :=
  m = START \/ exists code, is_number code = true /\ m = START +:+ " (status " +:+ code +:+ ")".

Lemma exit_status_text message m : exit_status_prefix message = Some m -> exit_text m.
Proof.
  unfold exit_status_prefix. destruct (strip_prefix START message) as [rest|]; [|done].
  cbn [mbind option_bind]. destruct (strip_prefix " (status " rest) as [status|].
  - destruct (split_once ")" status) as [[code after]|]; [|done]. cbn [mbind option_bind fst snd].
    destruct (is_number code) eqn:E; [|done]. cbn. destruct (_ || _); [|done]. intros [= <-].
    right. by exists code.
  - cbn. destruct (_ || _); [|done]. intros [= <-]. left. reflexivity.
Qed.

(** A secret put on a command line is not echoed back.  Whatever a child prints
    to its stderr, once arguments are bound or the server has secret environment
    variables the message shown is one fixed sentence, or Toolport's own exit text
    with a decimal status; and in the remaining case, where the message is passed
    through, no secret was resolved. *)
Theorem redact_opaque s r message :
  resolve_args_with is_alphanumeric vault s = Ok r ->
  redact r message = "downstream server failed after launch; check its command and setup values" \/
  (exists m, exit_text m /\
     redact r message = m +:+ " after launch; check its command and setup values") \/
  (sensitive r = [] /\ some_env_secret s = false /\ redact r message = message).
Proof.
  intros H. unfold redact. destruct (has_binding r) eqn:Eb.
  - destruct (exit_status_prefix message) as [m|] eqn:E; [right; left|by left].
    exists m. split; [by eapply exit_status_text|done].
  - right. right. unfold resolve_args_with in H. destruct (launch s) as [l|].
    + destruct (validate _ _ _ _); [|done]. destruct (bindings l) as [|b bs] eqn:El.
      * cbn [bind_all] in H. destruct (match command s with Some _ => _ | None => _ end); [done|].
        injection H as <-. cbn in *. by rewrite Eb.
      * destruct (bind_all _ _ _ _ _ _) as [[? ?]|]; [|done].
        destruct (match command s with Some _ => _ | None => _ end); [done|].
        injection H as <-. discriminate Eb.
    + injection H as <-. cbn in *. by rewrite Eb.
Qed.

End properties.
End Launch.

(** ** Witnesses *)

Definition demo_launch : Registry.LaunchConfig :=
  {| Registry.inputs :=
       [{| Registry.input_key := "SID"; Registry.label := "Account SID";
           Registry.input_secret := false; Registry.required := true;
           Registry.input_value := Some "AC 1"; Registry.input_unknown := [] |};
        {| Registry.input_key := "KEY"; Registry.label := "API Secret";
           Registry.input_secret := true; Registry.required := true;
           Registry.input_value := None; Registry.input_unknown := [] |}];
     Registry.bindings :=
       [{| Registry.index := 1;
           Registry.parts := [Registry.Input "SID" []; Registry.Literal "/" [];
                              Registry.Input "KEY" []];
           Registry.binding_unknown := [] |}];
     Registry.required_env := []; Registry.template := None; Registry.revision := None;
     Registry.launch_unknown := [] |}.

Definition demo_server : Registry.ServerEntry :=
  {| Registry.enabled := true; Registry.server_id := "twilio"; Registry.server_name := "Twilio";
     Registry.transport := "stdio"; Registry.command := Some "npx";
     Registry.args := ["-y"; "<launch-input>"]; Registry.launch := Some demo_launch;
     Registry.env := []; Registry.url := None; Registry.cwd := None; Registry.inherit_env := false;
     Registry.source := None; Registry.disabled_tools := []; Registry.client_credentials := None;
     Registry.request_timeout_ms := None; Registry.initialize_timeout_ms := None;
     Registry.unknown_fields := [] |}.

Definition demo_vault (id key : string) : result (option string) string := Ok (Some "s3 -c x").

Definition demo_resolved : Launch.ResolvedArgs :=
  {| Launch.resolved := ["-y"; "AC 1/s3 -c x"]; Launch.sensitive := ["AC 1"; "s3 -c x"; "AC 1/s3 -c x"];
     Launch.has_binding := true |}.

Lemma resolve_args_correct_witness :
  Launch.resolve_args_with char_is_alnum demo_vault demo_server = Ok demo_resolved /\
  length (Launch.resolved demo_resolved) = 2%nat.
Proof.
  split; [vm_compute; reflexivity|].
  apply (Launch.resolve_args_correct char_is_alnum demo_vault demo_server demo_launch demo_resolved);
    [vm_compute; reflexivity|reflexivity].
Defined.

Lemma redact_opaque_witness :
  Launch.redact demo_resolved "leak s3 -c x" <> "leak s3 -c x".
Proof.
  destruct (Launch.redact_opaque char_is_alnum demo_vault demo_server demo_resolved "leak s3 -c x")
    as [E|[(m & _ & E)|(E & _)]]; [vm_compute; reflexivity|rewrite E; discriminate| |discriminate E].
  rewrite E. intros H. apply (f_equal (String.substring 0 1)) in H.
  vm_compute in E. destruct m as [|b m]; [discriminate E|]. injection E as <- E. discriminate H.
Defined.
