(* ===== verification/Breaker.v ===== *)
(** Per-server health (src/router.rs, src/downstream.rs): the in-flight limit, the
    classes of transport errors, the replay policy and the circuit breaker.

    An [Instant] is a number of nanoseconds, a lock-protected transition one step. *)

From S2P Require Import Prelude Json CallFailure Backoff.

(** ** The in-flight limit *)
Module InFlight.

Definition MAX_IN_FLIGHT_PER_SERVER : Z := 64.

(** One look of [acquire] at the locked count: what it does next. *)
Inductive look :=
| Acquired (count : Z)
| Refused (e : CallFailure.CallFailureKind)
| Sleep (slice : Z).

Definition acquire_look (count : Z) (cancelled : bool) (now deadline : Z) : look :=
  if MAX_IN_FLIGHT_PER_SERVER <=? count then
    if cancelled then Refused CallFailure.Cancelled
    else if deadline <=? now then Refused (CallFailure.Unavailable false)
    else Sleep (Z.min (deadline - now) (Backoff.from_millis 250))
  else Acquired (count + 1).

(** [acquire]: one look per wake-up; each sees the count, the cancel flag and the
    clock of its moment.  [None] is a wait that has not ended yet. *)
Fixpoint acquire (deadline : Z) (wakes : list (Z * bool * Z)) : option look :=
  match wakes with
  | [] => None
  | (count, cancelled, now) :: wakes =>
      match acquire_look count cancelled now deadline with
      | Sleep _ => acquire deadline wakes
      | l => Some l
      end
  end.

(** Every permit taken and dropped: the counter and the permits alive. *)
Record state := mk_state { count : Z; permits : list nat }.

Inductive step : state -> state -> Prop :=
| step_acquire st call cancelled now deadline c :
    acquire_look (count st) cancelled now deadline = Acquired c ->
    step st {| count := c; permits := call :: permits st |}
| step_drop st call before after :
    permits st = before ++ call :: after ->
    step st {| count := count st - 1; permits := before ++ after |}.

(** The in-flight counter is exact and bounded: whatever calls acquire and
    drop, it equals the number of permits alive, stays within 0 and 64, and so
    never underflows when a permit is dropped. *)
Theorem in_flight_exact st :
  rtc step {| count := 0; permits := [] |} st ->
  count st = Z.of_nat (length (permits st)) /\ 0 <= count st <= 64.
Proof.
  intros H. remember {| count := 0; permits := [] |} as st0 eqn:E0.
  assert (H0 : count st0 = Z.of_nat (length (permits st0)) /\ count st0 <= 64) by (by subst st0).
  clear E0. assert (count st = Z.of_nat (length (permits st)) /\ count st <= 64) as [-> ?]; [|lia].
  induction H as [st|st1 st2 st3 Hs _ IH]; [done|]. apply IH. clear IH.
  destruct H0 as [Hc Hb]. inversion Hs as [? call cancelled now deadline c Hl|? call before after Hp];
    subst; cbn [count permits].
  - unfold acquire_look, MAX_IN_FLIGHT_PER_SERVER in Hl.
    destruct (Z.leb_spec 64 (count st1)).
    + destruct cancelled; [done|]. by destruct (deadline <=? now).
    + injection Hl as <-. cbn [length]. lia.
  - rewrite Hp in Hc. rewrite length_app in *. cbn [length] in Hc. lia.
Qed.

(** A waiting call ends: by its deadline at the latest it gets a slot or is
    refused, since the first look at or after the deadline does not sleep. *)
Theorem acquire_ends deadline wakes count cancelled now :
  (count, cancelled, now) ∈ wakes -> deadline <= now ->
  exists l, acquire deadline wakes = Some l /\ (forall s, l <> Sleep s).
Proof.
  intros Hin Hd. induction wakes as [|[[c k] n] wakes IH]; [by apply not_elem_of_nil in Hin|].
  cbn [acquire]. destruct (acquire_look c k n deadline) as [c'|e|s] eqn:E; [by eexists..|].
  apply elem_of_cons in Hin as [[= -> -> ->]|Hin]; [|by apply IH].
  unfold acquire_look in E. destruct (_ <=? c); [|done]. destruct k; [done|].
  destruct (Z.leb_spec deadline n); [done|lia].
Qed.

End InFlight.

(** ** Transport errors and replay *)
Module Transport.

Inductive TransportError :=
| Classified (kind : CallFailure.CallFailureKind) (message : string)
| Fatal (message : string)
| FrameRejected (message : string)
| Rpc (error : json)
| Unavailable (message : string)
| Retry (retry_after : option Z) (message : string)
| RateLimited (retry_after : option Z) (message : string)
| TCancelled (message : string)
| Busy (message : string).

Definition is_health_failure (e : TransportError) : bool :=
  match e with
  | Unavailable _ | FrameRejected _ | Retry _ _ | RateLimited _ _ => true
  | Classified (CallFailure.Timeout _ | CallFailure.Unavailable _) _ => true
  | _ => false
  end.

Section display.
(** [Value]'s [Display]. *)
Variable to_string : json -> string.

Definition message_of (e : TransportError) : string :=
  match e with
  | Classified _ m | Fatal m | FrameRejected m | Unavailable m | Retry _ m
  | RateLimited _ m | TCancelled m | Busy m => m
  | Rpc error => to_string error
  end.

(** [CallFailure.rpc_total]: [rpc] always answers. *)
Definition call_failure (e : TransportError) : CallFailure.CallFailure :=
  {| CallFailure.kind :=
       match e with
       | Classified kind _ => kind
       | Rpc error => default CallFailure.Internal (CallFailure.rpc error)
       | Unavailable _ | FrameRejected _ => CallFailure.Unavailable true
       | RateLimited _ _ => CallFailure.Quota
       | Retry _ _ => CallFailure.Unavailable false
       | TCancelled _ => CallFailure.Cancelled
       | Busy _ => CallFailure.Unavailable false
       | Fatal _ => CallFailure.Internal
       end;
     CallFailure.detail := message_of e |}.
End display.

Inductive ReplayPolicy := ReadOnly | NoAmbiguousReplay.

Definition for_task (method : string) : ReplayPolicy :=
  if String.eqb method "tasks/get" then ReadOnly else NoAmbiguousReplay.

Definition uncertain_failure (p : ReplayPolicy) (e : TransportError) : option TransportError :=
  match p, e with
  | NoAmbiguousReplay, Unavailable _ => Some e
  | _, Classified kind _ => if CallFailure.uncertain kind then Some e else None
  | _, _ => None
  end.

(** The delay before retry [attempt]. *)
Definition retry_wait (retry_after : option Z) (attempt : Z) : Z :=
  Z.min (match retry_after with Some d => d | None => Backoff.backoff_delay attempt end)
    Backoff.HTTP_RETRY_CAP.

End Transport.

(** ** The circuit breaker *)
Module Breaker.

Definition BREAKER_FAILURE_THRESHOLD : Z := 3.
Definition BREAKER_COOLDOWN : Z := Backoff.from_secs 20.

Record Breaker := mk_breaker {
  consecutive_failures : Z;
  open_until : option Z;
  last_failure : option Z
}.

Definition default_breaker : Breaker :=
  {| consecutive_failures := 0; open_until := None; last_failure := None |}.

Definition open_remaining (now : Z) (b : Breaker) : option Z * Breaker :=
  match open_until b with
  | Some t =>
      if now <? t then (Some (t - now), b)
      else (None, {| consecutive_failures := consecutive_failures b; open_until := None;
                     last_failure := last_failure b |})
  | None => (None, b)
  end.

Definition record_success (b : Breaker) : Breaker :=
  {| consecutive_failures := 0; open_until := None; last_failure := None |}.

Definition record_failure (now : Z) (b : Breaker) : Breaker :=
  let failures := sat_add32 (consecutive_failures b) 1 in
  {| consecutive_failures := failures;
     open_until := if BREAKER_FAILURE_THRESHOLD <=? failures then Some (now + BREAKER_COOLDOWN)
                   else open_until b;
     last_failure := Some now |}.

Definition record_concurrent_failure (started : option Z) (now : Z) (b : Breaker) : Breaker :=
  match started, last_failure b with
  | Some started, Some last => if started <? last then b else record_failure now b
  | _, _ => record_failure now b
  end.

(** What happens to a breaker. *)
Inductive event :=
| ESuccess
| EFailure (started : option Z) (now : Z)
| ECheck (now : Z).

Definition apply (b : Breaker) (e : event) : Breaker :=
  match e with
  | ESuccess => record_success b
  | EFailure started now => record_concurrent_failure started now b
  | ECheck now => (open_remaining now b).2
  end.

(** The times of the failures counted since the last success, latest first: a
    failure counts unless its call was already running at the last one. *)
Fixpoint streak (counted : list Z) (es : list event) : list Z :=
  match es with
  | [] => counted
  | ESuccess :: es => streak [] es
  | ECheck _ :: es => streak counted es
  | EFailure started now :: es =>
      streak (match started, counted with
              | Some s, last :: _ => if s <? last then counted else now :: counted
              | _, _ => now :: counted
              end) es
  end.

Definition agrees (b : Breaker) (counted : list Z) : Prop :=
  consecutive_failures b = Z.min (Z.of_nat (length counted)) u32_max /\
  last_failure b = head counted /\
  (forall t, open_until b = Some t ->
     3 <= Z.of_nat (length counted) /\ head counted = Some (t - BREAKER_COOLDOWN)).

Lemma agrees_apply b counted e :
  agrees b counted -> agrees (apply b e) (streak counted [e]).
Proof.
  intros (Hc & Hl & Ho). destruct e as [|started now|now]; cbn [apply streak].
  - split_and!; [done|done|]. done.
  - assert (Hrec : agrees (record_failure now b) (now :: counted)).
    { unfold record_failure, sat_add32. rewrite Hc. split_and!; cbn [consecutive_failures
        last_failure open_until head length].
      - unfold u32_max. lia.
      - done.
      - intros t. unfold BREAKER_FAILURE_THRESHOLD.
        destruct (Z.leb_spec 3 (Z.min (Z.min (Z.of_nat (length counted)) u32_max + 1) u32_max)).
        + intros [= <-]. unfold u32_max in *. split; [lia|]. f_equal. lia.
        + intros Ht. destruct (Ho t Ht) as [H3 _]. unfold u32_max in *. lia. }
    unfold record_concurrent_failure. rewrite Hl.
    destruct started as [s|], counted as [|last counted]; cbn [head]; try done.
    destruct (s <? last); [|done]. by split.
  - unfold open_remaining. destruct (open_until b) as [t|] eqn:E; [destruct (now <? t)|];
      cbn [snd]; unfold agrees; cbn [open_until]; rewrite ?E; split_and!; done.
Qed.

Lemma streak_app counted es1 es2 : streak counted (es1 ++ es2) = streak (streak counted es1) es2.
Proof.
  revert counted. induction es1 as [|e es1 IH]; intros counted; [done|].
  destruct e; cbn [app streak]; apply IH.
Qed.

Lemma agrees_run es : agrees (foldl apply default_breaker es) (streak [] es).
Proof.
  induction es as [|e es IH] using rev_ind; [by split_and!|].
  rewrite foldl_app, streak_app. by apply agrees_apply.
Qed.

Lemma run_snoc es e : foldl apply default_breaker (es ++ [e]) = apply (foldl apply default_breaker es) e.
Proof. by rewrite foldl_app. Qed.

(** A long streak leaves the circuit open, until a check past the cooldown. *)
Lemma streak_opens es last rest :
  streak [] es = last :: rest -> (2 <= length rest)%nat ->
  open_until (foldl apply default_breaker es) = Some (last + BREAKER_COOLDOWN) \/
  exists c, ECheck c ∈ es /\ last + BREAKER_COOLDOWN <= c.
Proof.
  revert last rest. induction es as [|e es IH] using rev_ind; intros last rest; [done|].
  rewrite streak_app, run_snoc. destruct (agrees_run es) as (Hc & Hl & _).
  set (b := foldl apply default_breaker es) in *. intros Hs Hrest.
  assert (Hmono : forall P : Prop, (P \/ exists c, ECheck c ∈ es /\ last + BREAKER_COOLDOWN <= c) ->
    P \/ exists c, ECheck c ∈ es ++ [e] /\ last + BREAKER_COOLDOWN <= c).
  { intros P [H|(c & Hin & H)]; [by left|right; exists c; split; [|done]].
    apply elem_of_app. by left. }
  assert (Hrec : forall now counted, streak [] es = counted -> now :: counted = last :: rest ->
    open_until (record_failure now b) = Some (last + BREAKER_COOLDOWN)).
  { intros now counted <- [= <- <-]. unfold record_failure, sat_add32. cbn [open_until].
    rewrite Hc. unfold BREAKER_FAILURE_THRESHOLD, u32_max.
    destruct (Z.leb_spec 3 (Z.min (Z.min (Z.of_nat (length (streak [] es))) 4294967295 + 1)
      4294967295)); [done|lia]. }
  destruct e as [|started now|now]; cbn [streak apply] in *; [done| |].
  - unfold record_concurrent_failure. rewrite Hl.
    destruct (streak [] es) as [|l0 counted]; destruct started as [s|]; cbn [head] in *;
      [left; by eapply Hrec..| |left; by eapply Hrec].
    destruct (s <? l0); [|left; by eapply Hrec]. apply Hmono, (IH _ _ Hs Hrest).
  - destruct (IH _ _ Hs Hrest) as [Ho|Hex]; [|apply Hmono; by right].
    unfold open_remaining. rewrite Ho. destruct (Z.ltb_spec now (last + BREAKER_COOLDOWN)).
    + by left.
    + right. exists now. split; [|done]. apply elem_of_app. right. by apply list_elem_of_singleton.
Qed.

(** The breaker opens on a real streak and only on one.  After any history
    whose checks are not later than [now], a call at [now] is refused exactly when
    fewer than twenty seconds have passed since the last counted failure of an
    unbroken streak of three or more; the wait it names is what is left of them. *)
Theorem breaker_open_iff_streak es now d :
  (forall c, ECheck c ∈ es -> c <= now) ->
  (open_remaining now (foldl apply default_breaker es)).1 = Some d <->
  exists last rest, streak [] es = last :: rest /\ (2 <= length rest)%nat /\
    d = last + 20000000000 - now /\ 0 < d.
Proof.
  intros Hchecks. split.
  - destruct (agrees_run es) as (_ & _ & Ho). unfold open_remaining.
    destruct (open_until (foldl apply default_breaker es)) as [t|]; [|done].
    destruct (Z.ltb_spec now t) as [Hlt|]; [|done]. intros [= <-].
    destruct (Ho t eq_refl) as [H3 Hh]. destruct (streak [] es) as [|last rest]; [done|].
    cbn [head length] in *. injection Hh as ->. exists (t - BREAKER_COOLDOWN), rest.
    change BREAKER_COOLDOWN with 20000000000. split_and!; [done|lia|lia|lia].
  - intros (last & rest & Hs & Hrest & -> & Hpos).
    change 20000000000 with BREAKER_COOLDOWN in *.
    destruct (streak_opens es last rest Hs Hrest) as [Ho|(c & Hc & Hle)].
    + unfold open_remaining. rewrite Ho. destruct (Z.ltb_spec now (last + BREAKER_COOLDOWN)); [done|lia].
    + specialize (Hchecks c Hc). lia.
Qed.

(** Calls that fail together count once: when a connection dies, the failures
    of any number of calls that were running before the first one was recorded
    leave the breaker as the first one left it. *)
Theorem concurrent_failures_count_once b now others :
  Forall (fun c => c.1 < now) others ->
  foldl (fun b c => record_concurrent_failure (Some c.1) c.2 b) (record_failure now b) others =
  record_failure now b.
Proof.
  intros H. assert (Hlast : last_failure (record_failure now b) = Some now) by done.
  revert Hlast. generalize (record_failure now b) as b'. intros b' Hlast.
  induction H as [|[s n] others Hs _ IH]; [done|]. cbn [foldl fst snd] in *.
  unfold record_concurrent_failure at 2. rewrite Hlast.
  destruct (Z.ltb_spec s now); [done|lia].
Qed.

End Breaker.

(** ** Witnesses *)

Lemma in_flight_exact_witness :
  InFlight.count {| InFlight.count := 1; InFlight.permits := [7%nat] |} = 1.
Proof.
  apply (InFlight.in_flight_exact {| InFlight.count := 1; InFlight.permits := [7%nat] |}).
  apply rtc_once.
  apply (InFlight.step_acquire {| InFlight.count := 0; InFlight.permits := [] |} 7 false 0 9).
  reflexivity.
Defined.

Lemma acquire_ends_witness :
  exists l, InFlight.acquire 100 [(64, false, 50); (64, false, 120)] = Some l /\
  (forall s, l <> InFlight.Sleep s).
Proof.
  apply (InFlight.acquire_ends 100 [(64, false, 50); (64, false, 120)] 64 false 120);
    [right; left|lia].
Defined.

Definition demo_history : list Breaker.event :=
  [Breaker.EFailure None 0; Breaker.EFailure (Some 5) 10; Breaker.EFailure (Some 3) 11;
   Breaker.ECheck 12; Breaker.EFailure (Some 12) 20].

Lemma breaker_open_iff_streak_witness :
  (Breaker.open_remaining 1000 (foldl Breaker.apply Breaker.default_breaker demo_history)).1 =
  Some 19999999020.
Proof.
  apply (Breaker.breaker_open_iff_streak demo_history 1000 19999999020).
  - unfold demo_history. intros c Hc.
    repeat (apply elem_of_cons in Hc as [E|Hc]; [first [discriminate E|injection E as ->; lia]|]).
    by apply not_elem_of_nil in Hc.
  - exists 20, [10; 0]. split; [reflexivity|]. split; [simpl; lia|]. lia.
Defined.

Lemma concurrent_failures_count_once_witness :
  Breaker.consecutive_failures
    (foldl (fun b c => Breaker.record_concurrent_failure (Some c.1) c.2 b)
       (Breaker.record_failure 50 Breaker.default_breaker) [(10, 51); (20, 52); (30, 60)]) = 1.
Proof.
  rewrite (Breaker.concurrent_failures_count_once Breaker.default_breaker 50
    [(10, 51); (20, 52); (30, 60)]); [reflexivity|repeat constructor].
Defined.
