(* ===== verification/Reconnect.v ===== *)
(** Servers that never connected (src/router.rs): their retry bookkeeping and the
    life of one pending server as its gateway, its attempt threads, its canceller
    and the adopting router interleave.

    Connections are a type parameter, [Duration::mul_f64] with the attempt's random
    jitter a function.  Each step is one critical section of the source. *)

From S2P Require Import Prelude CallFailure Backoff.

Module Reconnect.

Record ReconnectBackoff := mk_backoff { base : Z; cap : Z }.

Definition default_backoff : ReconnectBackoff :=
  {| base := Backoff.from_secs 2; cap := Backoff.from_secs 300 |}.

(** [1u32 << failures.saturating_sub(1).min(16)] times the base, saturating. *)
Definition delay (b : ReconnectBackoff) (failures : Z) : Z :=
  Z.min (Z.min (base b * Z.shiftl 1 (Z.min (sat_sub failures 1) 16)) Backoff.duration_max) (cap b).

Definition KICK_MAX_INTERVAL : Z := Backoff.from_secs 30.

Record ConnectFailure := mk_failure {
  message : string;
  failure_needs_auth : bool;
  failure_auth_target : option CallFailure.AuthTarget
}.

Section server.
Context {Server : Type}.

Record PendingState := mk_state {
  auth_target : option CallFailure.AuthTarget;
  failures : Z;
  last_error : string;
  needs_auth : bool;
  last_attempt : Z;
  next_attempt : Z;
  in_flight : bool;
  ready : option Server
}.

(** [mul_f64] is [Duration::mul_f64(jitter)]. *)
Definition record_failure (failure : ConnectFailure) (b : ReconnectBackoff) (now : Z)
    (mul_f64 : Z -> Z) (s : PendingState) : PendingState :=
  let failures := sat_add32 (failures s) 1 in
  {| auth_target := failure_auth_target failure;
     failures := failures;
     last_error := message failure;
     needs_auth := failure_needs_auth failure;
     last_attempt := last_attempt s;
     next_attempt := now + Z.min (mul_f64 (delay b failures)) (cap b);
     in_flight := false;
     ready := ready s |}.

Definition new (failure : ConnectFailure) (b : ReconnectBackoff) (now : Z) (mul_f64 : Z -> Z) :
    PendingState :=
  record_failure failure b now mul_f64
    {| auth_target := None; failures := 0; last_error := ""; needs_auth := false;
       last_attempt := now; next_attempt := now; in_flight := false; ready := None |}.

Definition idle (s : PendingState) : bool :=
  negb (needs_auth s) && negb (in_flight s) && match ready s with None => true | _ => false end.

Definition due (now : Z) (s : PendingState) : bool := idle s && (next_attempt s <=? now).

(** [duration_since] saturates at zero. *)
Definition kickable (b : ReconnectBackoff) (now : Z) (s : PendingState) : bool :=
  let floor := Z.min (delay b (failures s)) KICK_MAX_INTERVAL in
  idle s && (floor <=? Z.max (now - last_attempt s) 0).

Definition begin (now : Z) (s : PendingState) : PendingState :=
  {| auth_target := auth_target s; failures := failures s; last_error := last_error s;
     needs_auth := needs_auth s; last_attempt := now; next_attempt := next_attempt s;
     in_flight := true; ready := ready s |}.

Definition set_in_flight (f : bool) (s : PendingState) : PendingState :=
  {| auth_target := auth_target s; failures := failures s; last_error := last_error s;
     needs_auth := needs_auth s; last_attempt := last_attempt s; next_attempt := next_attempt s;
     in_flight := f; ready := ready s |}.

Definition set_ready (r : option Server) (s : PendingState) : PendingState :=
  {| auth_target := auth_target s; failures := failures s; last_error := last_error s;
     needs_auth := needs_auth s; last_attempt := last_attempt s; next_attempt := next_attempt s;
     in_flight := in_flight s; ready := r |}.

(** What one background attempt produced. *)
Definition finish (b : ReconnectBackoff) (cancelled : bool) (result : result Server ConnectFailure)
    (now : Z) (mul_f64 : Z -> Z) (s : PendingState) : PendingState :=
  if cancelled then set_in_flight false s
  else match result with
       | Ok server => set_ready (Some server) (set_in_flight false s)
       | Err failure => record_failure failure b now mul_f64 s
       end.

Record PendingStatus := mk_status {
  status_needs_auth : bool;
  status_auth_target : option CallFailure.AuthTarget;
  connecting : bool;
  status_failures : Z;
  status_last_error : string;
  retry_in : option Z
}.

Definition status (now : Z) (s : PendingState) : PendingStatus :=
  {| status_needs_auth := needs_auth s;
     status_auth_target := auth_target s;
     connecting := in_flight s || match ready s with Some _ => true | None => false end;
     status_failures := failures s;
     status_last_error := last_error s;
     retry_in := if needs_auth s then None else Some (Z.max (next_attempt s - now) 0) |}.

(** ** One pending server *)

(** The shared entry, with what the source keeps on threads: the attempts that
    run, the [try_start] calls that passed the cancel check and wait for the lock,
    the [cancel] calls past their store, and the servers handed to a router. *)
Record Pending := mk_pending {
  state : PendingState;
  cancelled : bool;
  starting : nat;
  running : nat;
  cancelling : nat;
  adopted : list Server
}.

Definition with_state (f : PendingState -> PendingState) (p : Pending) : Pending :=
  {| state := f (state p); cancelled := cancelled p; starting := starting p; running := running p;
     cancelling := cancelling p; adopted := adopted p |}.

Definition initial (failure : ConnectFailure) (b : ReconnectBackoff) (now : Z) (mul_f64 : Z -> Z) :
    Pending :=
  {| state := new failure b now mul_f64; cancelled := false; starting := 0; running := 0;
     cancelling := 0; adopted := [] |}.

Inductive step (b : ReconnectBackoff) : Pending -> Pending -> Prop :=
(* [try_start]: the cancel check, *)
| try_check p :
    cancelled p = false ->
    step b p {| state := state p; cancelled := cancelled p; starting := S (starting p);
                running := running p; cancelling := cancelling p; adopted := adopted p |}
(* the locked test ([ready_to_start] is [due] or [kickable]) that refuses, *)
| try_refuse p n now :
    starting p = S n -> due now (state p) = false \/ kickable b now (state p) = false ->
    step b p {| state := state p; cancelled := cancelled p; starting := n;
                running := running p; cancelling := cancelling p; adopted := adopted p |}
(* or begins an attempt; its thread may fail to spawn. *)
| try_begin p n now now' :
    starting p = S n -> due now (state p) = true \/ kickable b now (state p) = true ->
    step b p {| state := begin now' (state p); cancelled := cancelled p; starting := n;
                running := S (running p); cancelling := cancelling p; adopted := adopted p |}
| spawn_fails p n :
    running p = S n ->
    step b p {| state := set_in_flight false (state p); cancelled := cancelled p;
                starting := starting p; running := n; cancelling := cancelling p;
                adopted := adopted p |}
(* The attempt's thread reports. *)
| finishes p n result now mul_f64 :
    running p = S n ->
    step b p {| state := finish b (cancelled p) result now mul_f64 (state p);
                cancelled := cancelled p; starting := starting p; running := n;
                cancelling := cancelling p; adopted := adopted p |}
(* [PendingHandle::cancel]: the store, then the locked take. *)
| cancel_store p :
    step b p {| state := state p; cancelled := true; starting := starting p;
                running := running p; cancelling := S (cancelling p); adopted := adopted p |}
| cancel_take p n :
    cancelling p = S n ->
    step b p {| state := set_ready None (state p); cancelled := cancelled p;
                starting := starting p; running := running p; cancelling := n;
                adopted := adopted p |}
(* [adopt_ready_reconnects_for]: a ready connection moves into a slot.  (The
   cancel check, the take and the store run on the one thread that owns the
   router; a cancel between them is a cancel after the adoption.) *)
| adopt p server :
    cancelled p = false -> ready (state p) = Some server ->
    step b p {| state := set_ready None (state p); cancelled := true; starting := starting p;
                running := running p; cancelling := cancelling p;
                adopted := server :: adopted p |}.

(** ** What holds of every pending server *)

Record ok (p : Pending) : Prop := {
  ok_single : running p = if in_flight (state p) then 1%nat else 0%nat;
  ok_ready : is_Some (ready (state p)) -> in_flight (state p) = false;
  ok_adopted : (length (adopted p) <= 1)%nat;
  ok_adopted_cancelled : adopted p <> [] -> cancelled p = true /\ ready (state p) = None;
  ok_cancelled : cancelled p = true -> cancelling p = 0%nat -> ready (state p) = None
}.

Lemma idle_spec s : idle s = true -> in_flight s = false /\ ready s = None /\ needs_auth s = false.
Proof. unfold idle. by destruct (needs_auth s), (in_flight s), (ready s). Qed.

Lemma startable_idle b now s : due now s = true \/ kickable b now s = true -> idle s = true.
Proof. unfold due, kickable. intros [[H _]%andb_prop|[H _]%andb_prop]; done. Qed.

Lemma step_ok b p p' : ok p -> step b p p' -> ok p'.
Proof.
  intros [H1 H2 H3 H4 H5] Hs. destruct Hs as [p Hc|p n now Hn Hr|p n now now' Hn Hr|p n Hn
    |p n res now mul Hn|p|p n Hn|p server Hc Hr].
  - by split.
  - by split.
  - apply startable_idle, idle_spec in Hr as (Hf & Hrd & _). rewrite Hf in H1.
    split; cbn [state cancelled running cancelling adopted begin in_flight ready];
      rewrite ?H1, ?Hrd; naive_solver.
  - destruct (in_flight (state p)); [|lia].
    split; cbn [state cancelled running cancelling adopted set_in_flight in_flight ready];
      naive_solver lia.
  - destruct (in_flight (state p)) eqn:Ef; [|lia].
    assert (Hrd : ready (state p) = None)
      by (destruct (ready (state p)) eqn:E; [discriminate (H2 ltac:(eauto))|done]).
    unfold finish. destruct (cancelled p) eqn:Ec; [|destruct res];
      split; cbn [state cancelled running cancelling adopted in_flight ready set_ready
        set_in_flight record_failure]; naive_solver lia.
  - split; cbn [state cancelled running cancelling adopted]; naive_solver.
  - split; cbn [state cancelled running cancelling adopted in_flight ready set_ready];
      naive_solver.
  - assert (Ha : adopted p = []).
    { destruct (adopted p) eqn:E; [done|]. destruct (H4 ltac:(done)) as [Hc' _]. congruence. }
    split; cbn [state cancelled running cancelling adopted in_flight ready set_ready];
      rewrite ?Ha; naive_solver.
Qed.

Lemma initial_ok failure b now mul_f64 : ok (initial failure b now mul_f64).
Proof. split; try done; naive_solver. Qed.

(** The life of a pending server.  However starts, attempts, cancels and the
    adoption interleave: at most one connection attempt runs at a time, a server
    is adopted at most once, and once a cancel has completed, or the adoption has
    happened, no connection is left waiting in the entry. *)
Theorem pending_lifecycle failure b now mul_f64 p :
  rtc (step b) (initial failure b now mul_f64) p ->
  (running p <= 1)%nat /\ (length (adopted p) <= 1)%nat /\
  (cancelled p = true -> cancelling p = 0%nat -> ready (state p) = None).
Proof.
  intros H. assert (Hok : ok p).
  { remember (initial failure b now mul_f64) as p0 eqn:E.
    assert (H0 : ok p0) by (subst; apply initial_ok). clear E.
    induction H; eauto using step_ok. }
  destruct Hok. split_and!; [|done..]. destruct (in_flight (state p)); lia.
Qed.

(** Retries are spaced and bounded.  After any failure the next scheduled
    attempt is at most [cap] away whatever the jitter, the unjittered delay lies
    between [base] and [cap] and never shrinks as failures accumulate, and an
    attempt starts at once only for an idle server that does not wait for
    credentials. *)
Theorem retry_schedule_bounded failure b now mul_f64 s :
  0 <= base b <= cap b -> cap b <= Backoff.duration_max -> 0 <= failures s ->
  next_attempt (record_failure failure b now mul_f64 s) - now <= cap b /\
  base b <= delay b (failures s) <= cap b /\
  delay b (failures s) <= delay b (failures s + 1) /\
  (failure_needs_auth failure = true ->
   forall later, due later (record_failure failure b now mul_f64 s) = false /\
                 kickable b later (record_failure failure b now mul_f64 s) = false).
Proof.
  intros Hb Hcap Hf. split_and!.
  - unfold record_failure. cbn [next_attempt]. lia.
  - unfold delay. rewrite Z.shiftl_1_l.
    assert (1 <= 2 ^ Z.min (sat_sub (failures s) 1) 16)
      by (change 1 with (2 ^ 0) at 1; apply Z.pow_le_mono_r; unfold sat_sub; lia). nia.
  - unfold delay. lia.
  - unfold delay. rewrite !Z.shiftl_1_l.
    assert (2 ^ Z.min (sat_sub (failures s) 1) 16 <= 2 ^ Z.min (sat_sub (failures s + 1) 1) 16)
      by (apply Z.pow_le_mono_r; unfold sat_sub; lia). nia.
  - intros Ha later. unfold due, kickable, idle, record_failure. cbn [needs_auth].
    by rewrite Ha.
Qed.

End server.
End Reconnect.

(** ** Witnesses *)

Definition demo_failure : Reconnect.ConnectFailure :=
  {| Reconnect.message := "connection refused"; Reconnect.failure_needs_auth := true;
     Reconnect.failure_auth_target := None |}.

Definition demo_pending : Reconnect.Pending (Server := nat) :=
  Reconnect.initial demo_failure Reconnect.default_backoff 0 (fun d => d).

Lemma pending_lifecycle_witness : (Reconnect.running demo_pending <= 1)%nat.
Proof.
  apply (Reconnect.pending_lifecycle demo_failure Reconnect.default_backoff 0 (fun d => d)
    demo_pending).
  apply rtc_refl.
Defined.

Lemma retry_schedule_bounded_witness :
  Reconnect.delay Reconnect.default_backoff 1 <= Reconnect.delay Reconnect.default_backoff 2.
Proof.
  pose proof (Reconnect.retry_schedule_bounded demo_failure Reconnect.default_backoff 0
    (fun d => d) (Reconnect.state demo_pending)) as H.
  apply H; vm_compute; try split; congruence.
Defined.
