(* ===== verification/ClientError.v ===== *)
(** What an MCP client may see of a connect failure (src/router.rs): the fixed
    categories of [client_safe_error] and the status line of a server that is not
    ready.  The raw error can hold a child's stderr or a response body. *)

From S2P Require Import Prelude Text CallFailure SecretRefs Backoff Reconnect.

Module ClientError.

Fixpoint take_digits (s : string) : string :=
  match s with
  | EmptyString => EmptyString
  | String b s => if is_digit b then String b (take_digits s) else EmptyString
  end.

(** The digits after the first occurrence of [marker]. *)
Definition code_after (lower marker : string) : option string :=
  i ← String.index 0 marker lower;
  let at_ := (i + String.length marker)%nat in
  let code := take_digits (String.substring at_ (String.length lower - at_) lower) in
  if String.eqb code "" then None else Some code.

Definition summary (lower : string) : string :=
  if contains "blocked: private or local address" lower then "blocked: private or local address"
  else match code_after lower "http " with
  | Some code => "the server answered HTTP " +:+ code
  | None =>
  if contains "exited" lower then
    match code_after lower "status " with
    | Some code => "the server process exited (status " +:+ code +:+ ")"
    | None => "the server process exited"
    end
  else if contains "failed to spawn" lower then "the server command could not be started"
  else if contains "broken pipe" lower || contains "eof" lower || contains "closed" lower then
    "the server closed the connection"
  else if contains "vault" lower || contains "keychain" lower || contains "keyring" lower then
    "its stored credentials could not be read"
  else if contains "name resolution" lower || contains "dns" lower || contains "resolve" lower ||
          contains "host not found" lower then
    "the server's address could not be resolved"
  else if contains "connection refused" lower then "the connection was refused"
  else if contains "certificate" lower || contains "tls" lower then "the TLS connection failed"
  else if contains "timed out" lower || contains "timeout" lower then
    "the server did not answer in time"
  else "the connection failed"
  end.

Definition client_safe_error (error : string) : string :=
  match SecretRefs.safe_status error with
  | Some message => message
  | None => summary (to_ascii_lowercase error) +:+ "; details are in the Toolport log"
  end.

(** Whole seconds of a duration, plus one. *)
Definition seconds_left (d : Z) : string := pretty (d / 1000000000 + 1).

Definition describe (st : Reconnect.PendingStatus) : string :=
  let error := client_safe_error (Reconnect.status_last_error st) in
  if Reconnect.status_needs_auth st then
    match Reconnect.status_auth_target st with
    | Some CallFailure.Endpoint => "MCP endpoint needs sign-in in Toolport"
    | Some CallFailure.ServiceCredential => "service API credential required"
    | _ => "needs sign-in in Toolport"
    end +:+ " (last error: " +:+ error +:+ ")"
  else if Reconnect.connecting st && String.eqb (Reconnect.status_last_error st) "" then "connecting"
  else if Reconnect.connecting st then "connecting (last error: " +:+ error +:+ ")"
  else
    "retrying in " +:+ match Reconnect.retry_in st with Some d => seconds_left d | None => "0" end
    +:+ "s after " +:+ pretty (Reconnect.status_failures st) +:+
    " failed attempt(s) (last error: " +:+ error +:+ ")".

(** ** Nothing of the error's text but a run of digits is repeated *)

(** The categories without a code. *)
Definition CATEGORIES : list string :=
  ["blocked: private or local address"; "the server process exited";
   "the server command could not be started"; "the server closed the connection";
   "its stored credentials could not be read"; "the server's address could not be resolved";
   "the connection was refused"; "the TLS connection failed"; "the server did not answer in time";
   "the connection failed"].

(** The messages the secret references module writes. *)
Definition FIXED : list string :=
  SecretRefs.ENV_SYNC_BLOCKED ::
  flat_map (fun p => map (fun st => SecretRefs.message (SecretRefs.error (Some p) st))
    [SecretRefs.InvalidReference; SecretRefs.PolicyDenied; SecretRefs.NotInstalled;
     SecretRefs.Locked; SecretRefs.NotFound; SecretRefs.Timeout; SecretRefs.InvalidOutput;
     SecretRefs.Failed]) SecretRefs.PROVIDERS.

Lemma take_digits_all s : all_bytes is_digit (take_digits s) = true.
Proof. induction s as [|b s IH]; [done|]. simpl. destruct (is_digit b) eqn:E; simpl; rewrite ?E; done. Qed.

Lemma take_digits_id s : all_bytes is_digit s = true -> take_digits s = s.
Proof. induction s as [|b s IH]; [done|]. simpl. intros [-> H]%andb_prop. by rewrite IH. Qed.

Lemma code_after_digits lower marker code :
  code_after lower marker = Some code -> code <> "" /\ all_bytes is_digit code = true.
Proof.
  unfold code_after. destruct (String.index 0 marker lower) as [i|]; [|done]. cbn.
  destruct (String.eqb_spec (take_digits (String.substring (i + String.length marker)
    (String.length lower - (i + String.length marker)) lower)) "") as [|Hne]; [done|].
  intros [= <-]. split; [done|apply take_digits_all].
Qed.

Lemma safe_status_spec msg m : SecretRefs.safe_status msg = Some m -> m = msg /\ In msg FIXED.
Proof.
  unfold SecretRefs.safe_status, FIXED.
  destruct (String.eqb_spec msg SecretRefs.ENV_SYNC_BLOCKED) as [->|_]; [intros [= <-]; split; [done|by left]|].
  destruct (existsb _ SecretRefs.PROVIDERS) eqn:E; [|done]. intros [= <-]. split; [done|]. right.
  apply existsb_exists in E as (p & Hp & E). apply existsb_exists in E as (st & Hst & E).
  apply String.eqb_eq in E as ->. apply in_flat_map. exists p. split; [done|].
  by apply in_map_iff; exists st.
Qed.

(** The model is shown a fixed sentence: for every raw connect error, whatever
    stderr or response body it quotes, [client_safe_error] is one of the messages
    the secret references module writes itself, or one of ten fixed categories, or
    one of the two categories that carry a code, whose code is a non-empty run of
    digits.  Nothing else of the error is repeated. *)
Theorem client_safe_error_fixed error :
  In (client_safe_error error) FIXED \/
  (exists category, In category CATEGORIES /\
     client_safe_error error = category +:+ "; details are in the Toolport log") \/
  (exists code, code <> "" /\ all_bytes is_digit code = true /\
     (client_safe_error error =
        ("the server answered HTTP " +:+ code) +:+ "; details are in the Toolport log" \/
      client_safe_error error =
        ("the server process exited (status " +:+ code +:+ ")") +:+
        "; details are in the Toolport log")).
Proof.
  unfold client_safe_error. destruct (SecretRefs.safe_status error) as [m|] eqn:E.
  { left. by apply safe_status_spec in E as [-> ?]. }
  right. generalize (to_ascii_lowercase error). clear E. intros lower. unfold summary.
  destruct (contains _ lower); [left; eexists; split; [by left|done]|].
  destruct (code_after lower "http ") as [code|] eqn:Eh.
  { right. apply code_after_digits in Eh as [? ?]. exists code. auto. }
  destruct (contains "exited" lower).
  { destruct (code_after lower "status ") as [code|] eqn:Es.
    - right. apply code_after_digits in Es as [? ?]. exists code. auto.
    - left. eexists. split; [right; by left|done]. }
  left. repeat match goal with |- context [if ?b then _ else _] => destruct b end;
    (eexists; split; [|reflexivity]; unfold CATEGORIES; simpl; tauto).
Qed.

(** ** The run of digits is not bounded *)

Lemma code_after_marker digits :
  digits <> "" -> all_bytes is_digit digits = true ->
  code_after ("http " +:+ digits) "http " = Some digits.
Proof.
  intros Hne Hd. unfold code_after.
  replace (String.index 0 "http " ("http " +:+ digits)) with (Some 0%nat) by (by destruct digits).
  cbn [mbind option_bind].
  replace (String.length ("http " +:+ digits) - (0 + String.length "http "))%nat
    with (String.length digits) by (change (String.length ("http " +:+ digits))
      with (5 + String.length digits)%nat; change (String.length "http ") with 5%nat; lia).
  pose proof (substring_middle "http " digits "") as Hs. rewrite app_str_nil_r in Hs.
  cbn [Nat.add]. rewrite Hs, (take_digits_id _ Hd). by destruct (String.eqb_spec digits "").
Qed.

Lemma lower_digits digits : all_bytes is_digit digits = true -> to_ascii_lowercase digits = digits.
Proof.
  induction digits as [|b s IH]; [done|]. simpl. intros [Hb H]%andb_prop.
  unfold to_ascii_lowercase in *. simpl. rewrite (IH H). f_equal. revert Hb.
  unfold is_digit, lower_byte, is_upper, byte_in. intros Hb.
  replace ((65 <=? N_of_ascii b)%N && (N_of_ascii b <=? 90)%N) with false; [done|].
  symmetry. apply andb_prop in Hb as [_ Hb]. apply N.leb_le in Hb. apply andb_false_intro1.
  apply N.leb_gt. lia.
Qed.

Lemma contains_absent c p s :
  all_bytes (fun b => negb (Stdlib.Strings.Ascii.eqb c b)) s = true -> contains (String c p) s = false.
Proof.
  unfold contains. intros H. replace (String.index 0 (String c p) s) with (@None nat); [done|].
  induction s as [|b s IH]; [done|]. cbn [all_bytes] in H. apply andb_prop in H as [Hb H].
  cbn [String.index String.prefix]. destruct (Stdlib.Strings.Ascii.ascii_dec c b) as [->|_].
  - by rewrite Stdlib.Strings.Ascii.eqb_refl in Hb.
  - by rewrite <- (IH H).
Qed.

(** Whatever digits follow the first "http " of an error, they all reach the model. *)
Lemma digits_reach_model digits :
  digits <> "" -> all_bytes is_digit digits = true ->
  client_safe_error ("http " +:+ digits) =
  "the server answered HTTP " +:+ digits +:+ "; details are in the Toolport log".
Proof.
  intros Hne Hd. unfold client_safe_error.
  replace (SecretRefs.safe_status ("http " +:+ digits)) with (@None string) by (vm_compute; done).
  unfold summary. replace (to_ascii_lowercase ("http " +:+ digits)) with ("http " +:+ digits).
  2: { pose proof (lower_digits digits Hd) as E. unfold to_ascii_lowercase in *. simpl. by rewrite E. }
  rewrite contains_absent.
  2: { rewrite all_bytes_app. apply andb_true_intro. split; [reflexivity|].
       eapply all_bytes_impl; [|exact Hd]. intros b Hb.
       destruct (Stdlib.Strings.Ascii.eqb "b" b) eqn:E; [|reflexivity].
       apply Stdlib.Strings.Ascii.eqb_eq in E as <-. discriminate Hb. }
  by rewrite code_after_marker, app_str_assoc.
Qed.

End ClientError.
