(* ===== verification/Dispatch.v ===== *)
(** One downstream call (src/router.rs): the server slot, its supervisor, and the
    retry, breaker and re-spawn logic around a dispatch.

    The call's thread runs in a small state monad over the shared slot.  Before
    each of its critical sections the other threads of the gateway may have
    changed the slot in any way ([env]); clocks, the cancel flag, the downstream's
    answers, the reconnect factory and thread spawning are oracles indexed by the
    moment they are consulted.  The downstream connection is what the router sees
    of it ([Conn]). *)

From S2P Require Import Prelude Json CallFailure Backoff Breaker Reconnect ClientError.

Module Dispatch.
Import Transport.

Definition HTTP_MAX_RETRIES : nat := 2.
Definition RETRY_CANCEL_POLL : Z := Backoff.from_millis 25.
Definition SERVER_IDLE_TIMEOUT : Z := Backoff.from_secs 300.
Definition DEMAND_INTERVAL : Z := Backoff.from_secs 15.

Inductive SupervisorState :=
| Stopped | Starting | Ready | Degraded | BackoffState | NeedsAuth | Stopping.

#[global] Instance SupervisorState_eq : EqDecision SupervisorState.
Proof. solve_decision. Defined.
#[global] Instance AuthTarget_eq : EqDecision CallFailure.AuthTarget.
Proof. solve_decision. Defined.

(** What the router sees of a [DownstreamServer]. *)
Record Conn := mk_conn {
  reset_reason : option string;
  closed : option bool;
  response_count : Z;
  suspended_calls : Z;
  multiplexes : bool;
  stopped : bool
}.

Definition stop_conn (c : Conn) : Conn :=
  {| reset_reason := reset_reason c; closed := closed c; response_count := response_count c;
     suspended_calls := suspended_calls c; multiplexes := multiplexes c; stopped := true |}.

Record Supervisor := mk_supervisor {
  auth_target : option CallFailure.AuthTarget;
  sstate : SupervisorState;
  sbackoff : Reconnect.ReconnectBackoff;
  failures : Z;
  ever_ready : bool;
  last_error : string;
  next_attempt : Z;
  last_use : Z;
  last_attempt : Z;
  subscription_use : bool;
  sready : option Conn;
  publishing : bool
}.

Record Slot := mk_slot {
  sid : string;
  inner : Conn;
  inner_locked : bool;
  tool_revision : Z;
  sbreaker : Breaker.Breaker;
  generation : Z;
  successes : Z;
  responses : Z;
  handle_calls : Z;
  supervisor : option Supervisor;
  retired : bool
}.

(** Field updates. *)
Definition set_sstate (x : SupervisorState) (s : Supervisor) : Supervisor :=
  {| auth_target := auth_target s; sstate := x; sbackoff := sbackoff s; failures := failures s;
     ever_ready := ever_ready s; last_error := last_error s; next_attempt := next_attempt s;
     last_use := last_use s; last_attempt := last_attempt s;
     subscription_use := subscription_use s; sready := sready s; publishing := publishing s |}.
Definition set_last_use (x : Z) (s : Supervisor) : Supervisor :=
  {| auth_target := auth_target s; sstate := sstate s; sbackoff := sbackoff s;
     failures := failures s; ever_ready := ever_ready s; last_error := last_error s;
     next_attempt := next_attempt s; last_use := x; last_attempt := last_attempt s;
     subscription_use := subscription_use s; sready := sready s; publishing := publishing s |}.
Definition set_failures (x : Z) (s : Supervisor) : Supervisor :=
  {| auth_target := auth_target s; sstate := sstate s; sbackoff := sbackoff s; failures := x;
     ever_ready := ever_ready s; last_error := last_error s; next_attempt := next_attempt s;
     last_use := last_use s; last_attempt := last_attempt s;
     subscription_use := subscription_use s; sready := sready s; publishing := publishing s |}.
Definition set_problem (t : option CallFailure.AuthTarget) (e : string) (s : Supervisor) :
    Supervisor :=
  {| auth_target := t; sstate := sstate s; sbackoff := sbackoff s; failures := failures s;
     ever_ready := ever_ready s; last_error := e; next_attempt := next_attempt s;
     last_use := last_use s; last_attempt := last_attempt s;
     subscription_use := subscription_use s; sready := sready s; publishing := publishing s |}.
Definition set_schedule (attempt next : Z) (s : Supervisor) : Supervisor :=
  {| auth_target := auth_target s; sstate := sstate s; sbackoff := sbackoff s;
     failures := failures s; ever_ready := ever_ready s; last_error := last_error s;
     next_attempt := next; last_use := last_use s; last_attempt := attempt;
     subscription_use := subscription_use s; sready := sready s; publishing := publishing s |}.
Definition set_publishing (r : option Conn) (p : bool) (s : Supervisor) : Supervisor :=
  {| auth_target := auth_target s; sstate := sstate s; sbackoff := sbackoff s;
     failures := failures s; ever_ready := ever_ready s; last_error := last_error s;
     next_attempt := next_attempt s; last_use := last_use s; last_attempt := last_attempt s;
     subscription_use := subscription_use s; sready := r; publishing := p |}.
Definition set_ever_ready (s : Supervisor) : Supervisor :=
  {| auth_target := auth_target s; sstate := sstate s; sbackoff := sbackoff s;
     failures := failures s; ever_ready := true; last_error := last_error s;
     next_attempt := next_attempt s; last_use := last_use s; last_attempt := last_attempt s;
     subscription_use := subscription_use s; sready := sready s; publishing := publishing s |}.

Definition set_supervisor (x : option Supervisor) (s : Slot) : Slot :=
  {| sid := sid s; inner := inner s; inner_locked := inner_locked s;
     tool_revision := tool_revision s; sbreaker := sbreaker s; generation := generation s;
     successes := successes s; responses := responses s; handle_calls := handle_calls s;
     supervisor := x; retired := retired s |}.
Definition on_supervisor (f : Supervisor -> Supervisor) (s : Slot) : Slot :=
  set_supervisor (f <$> supervisor s) s.
Definition set_breaker (x : Breaker.Breaker) (s : Slot) : Slot :=
  {| sid := sid s; inner := inner s; inner_locked := inner_locked s;
     tool_revision := tool_revision s; sbreaker := x; generation := generation s;
     successes := successes s; responses := responses s; handle_calls := handle_calls s;
     supervisor := supervisor s; retired := retired s |}.
Definition on_breaker (f : Breaker.Breaker -> Breaker.Breaker) (s : Slot) : Slot :=
  set_breaker (f (sbreaker s)) s.
Definition set_inner (x : Conn) (s : Slot) : Slot :=
  {| sid := sid s; inner := x; inner_locked := inner_locked s; tool_revision := tool_revision s;
     sbreaker := sbreaker s; generation := generation s; successes := successes s;
     responses := responses s; handle_calls := handle_calls s; supervisor := supervisor s;
     retired := retired s |}.
Definition set_counters (gen rev succ resp calls : Z) (s : Slot) : Slot :=
  {| sid := sid s; inner := inner s; inner_locked := inner_locked s; tool_revision := rev;
     sbreaker := sbreaker s; generation := gen; successes := succ; responses := resp;
     handle_calls := calls; supervisor := supervisor s; retired := retired s |}.
Definition bump_connection (s : Slot) : Slot :=
  set_counters (wrap64 (generation s + 1)) (wrap64 (tool_revision s + 1)) (successes s)
    (responses s) (handle_calls s) s.
Definition add_success (s : Slot) : Slot :=
  set_counters (generation s) (tool_revision s) (wrap64 (successes s + 1)) (responses s)
    (handle_calls s) s.
Definition add_response (s : Slot) : Slot :=
  set_counters (generation s) (tool_revision s) (successes s) (wrap64 (responses s + 1))
    (handle_calls s) s.
Definition add_handle_calls (n : Z) (s : Slot) : Slot :=
  set_counters (generation s) (tool_revision s) (successes s) (responses s) (handle_calls s + n) s.

(** ** The slot *)

Definition quiescent_since (since : Z) (s : Slot) : bool :=
  (successes s =? since) && (handle_calls s =? 0) && (suspended_calls (inner s) =? 0).

Definition responses_now (s : Slot) : Z := wrap64 (responses s + response_count (inner s)).

Section slot.
Variable to_string : json -> string.

Definition is_timeout (k : CallFailure.CallFailureKind) : bool :=
  match k with CallFailure.Timeout _ => true | _ => false end.

Definition timeout_health (e : TransportError) (gen resp : Z) (s : Slot) : bool :=
  negb (is_timeout (CallFailure.kind (call_failure to_string e))) ||
  (negb (inner_locked s) && (generation s =? gen) && (responses_now s =? resp) &&
   (suspended_calls (inner s) =? 0)).

(** [mul_f64]: [Duration::mul_f64(reconnect_jitter())] of this moment. *)
Definition back_off (now : Z) (mul_f64 : Z -> Z) (error : string) (s : Supervisor) : Supervisor :=
  let failures := sat_add32 (failures s) 1 in
  set_sstate BackoffState (set_schedule (last_attempt s)
    (now + Z.min (mul_f64 (Reconnect.delay (sbackoff s) failures)) (Reconnect.cap (sbackoff s)))
    (set_failures failures (set_problem (auth_target s) error s))).

Definition degrade (gen succ : Z) (error : string) (probe : bool) (now : Z) (mul_f64 : Z -> Z)
    (s : Slot) : bool * Slot :=
  match supervisor s with
  | None => (false, s)
  | Some sup =>
      if negb (bool_decide (sstate sup = Ready) || bool_decide (sstate sup = NeedsAuth)) ||
         negb (generation s =? gen)
      then (negb (bool_decide (sstate sup = Ready)), s)
      else if inner_locked s then (false, s)
      else
        let is_closed := bool_decide (closed (inner s) = Some true) in
        if negb is_closed && negb (probe && quiescent_since succ s) then (false, s)
        else (true, set_inner (stop_conn (inner s))
                      (set_supervisor (Some (back_off now mul_f64 error sup)) s))
  end.

(** The guard of [start_at]. *)
Definition may_start (demand : bool) (now : Z) (sup : Supervisor) : bool :=
  negb (publishing sup) &&
  ((demand && bool_decide (sstate sup = Stopped)) ||
   ((bool_decide (sstate sup = BackoffState) ||
     (bool_decide (sstate sup = NeedsAuth) &&
      bool_decide (auth_target sup = Some CallFailure.Endpoint) && negb (ever_ready sup))) &&
    ((next_attempt sup <=? now) ||
     (demand && (DEMAND_INTERVAL <=? Z.max (now - last_attempt sup) 0))))).

(** [spawned]: whether the attempt's thread could be spawned, and when not, the
    error and the time. *)
Definition start_at (demand : bool) (now : Z) (spawned : option (string * Z)) (s : Slot) :
    bool * Slot :=
  match supervisor s with
  | None => (false, s)
  | Some sup =>
      if retired s then (false, s)
      else if negb (may_start demand now sup) then (false, s)
      else
        let sup := set_sstate Starting (set_schedule now (next_attempt sup) sup) in
        match spawned with
        | None => (true, set_supervisor (Some sup) s)
        | Some (error, at_) =>
            (false, set_supervisor (Some (set_sstate BackoffState (set_schedule (last_attempt sup)
               (at_ + Reconnect.base (sbackoff sup)) (set_problem (auth_target sup) error sup)))) s)
        end
  end.

(** The end of the attempt's thread. *)
Definition startup_result (result : result Conn Reconnect.ConnectFailure) (now : Z)
    (mul_f64 : Z -> Z) (s : Slot) : Slot :=
  match supervisor s with
  | None => s
  | Some sup =>
      set_supervisor (Some
        (if retired s then set_sstate Stopped sup
         else match result with
              | Ok server => set_publishing (Some server) (publishing sup) sup
              | Err failure =>
                  set_sstate (if Reconnect.failure_needs_auth failure then NeedsAuth
                              else BackoffState)
                    (back_off now mul_f64 (Reconnect.message failure)
                       (set_problem (Reconnect.failure_auth_target failure) (last_error sup) sup))
              end)) s
  end.

(** [adopt_ready_reconnects_for] on one supervised slot. *)
Definition adopt_slot (now : Z) (s : Slot) : bool * Slot :=
  match supervisor s with
  | None => (false, s)
  | Some sup =>
      match sready sup with
      | Some server =>
          (true, on_breaker Breaker.record_success (bump_connection (set_inner server
             (set_supervisor (Some (set_last_use now (set_publishing None true sup))) s))))
      | None => (publishing sup, s)
      end
  end.

Definition activate_slot (s : Slot) : Slot :=
  match supervisor s with
  | None => s
  | Some sup =>
      if publishing sup
      then on_breaker Breaker.record_success
             (set_supervisor (Some (set_problem None "" (set_failures 0 (set_ever_ready
                (set_sstate Ready (set_publishing (sready sup) false sup)))))) s)
      else s
  end.

Definition retire (s : Slot) : Slot :=
  {| sid := sid s; inner := inner s; inner_locked := inner_locked s;
     tool_revision := tool_revision s; sbreaker := sbreaker s; generation := generation s;
     successes := successes s; responses := responses s; handle_calls := handle_calls s;
     supervisor := supervisor s; retired := true |}.

(** The locked part of [maintain]; [start(false)] follows. *)
Definition maintain_slot (now : Z) (mul_f64 : Z -> Z) (s : Slot) : Slot :=
  match supervisor s with
  | None => s
  | Some sup =>
      if negb (bool_decide (sstate sup = Ready)) || inner_locked s then s
      else if bool_decide (closed (inner s) = Some true) then
        set_inner (stop_conn (inner s)) (set_supervisor
          (Some (back_off now mul_f64 "the server closed the connection" sup)) s)
      else if (SERVER_IDLE_TIMEOUT <=? Z.max (now - last_use sup) 0) && (handle_calls s =? 0)
              && (suspended_calls (inner s) =? 0) && negb (subscription_use sup)
      then set_inner (stop_conn (inner s))
             (set_supervisor (Some (set_failures 0 (set_sstate Stopped sup))) s)
      else s
  end.

Definition maintain (now : Z) (mul_f64 : Z -> Z) (now' : Z) (spawned : option (string * Z))
    (s : Slot) : Slot :=
  (start_at false now' spawned (maintain_slot now mul_f64 s)).2.

(** [ServerSlot::status]. *)
Definition status (now : Z) (s : Slot) : option Reconnect.PendingStatus :=
  sup ← supervisor s;
  Some {| Reconnect.status_needs_auth := bool_decide (sstate sup = NeedsAuth);
          Reconnect.status_auth_target := auth_target sup;
          Reconnect.connecting := bool_decide (sstate sup = Starting);
          Reconnect.status_failures := failures sup;
          Reconnect.status_last_error := last_error sup;
          Reconnect.retry_in := Some (Z.max (next_attempt sup - now) 0) |}.

Definition retry_message (now : Z) (error : string) (s : Slot) : string :=
  match supervisor s with
  | None => ""
  | Some sup =>
      let reason := if negb (ever_ready sup) && bool_decide (sstate sup = BackoffState)
                    then "has not connected yet" else "is restarting" in
      "server '" +:+ sid s +:+ "' " +:+ reason +:+ ", retry in " +:+
      ClientError.seconds_left
        (Z.max (Z.min (next_attempt sup) (last_attempt sup + DEMAND_INTERVAL) - now) 0) +:+
      "s (" +:+ error +:+ ")"
  end.

(** What a finished call tells the supervisor. *)
Definition mark_ready (gen : Z) (s : Slot) : Slot :=
  on_supervisor (fun sup =>
    let sup := set_failures 0 sup in
    if bool_decide (sstate sup = NeedsAuth) && (generation s =? gen)
    then set_problem None "" (set_sstate Ready sup) else sup) s.

Definition endpoint_auth (e : TransportError) : bool :=
  match CallFailure.kind (call_failure to_string e) with
  | CallFailure.Auth CallFailure.Endpoint => true
  | _ => false
  end.

Definition mark_auth_failure (e : TransportError) (gen succ : Z) (s : Slot) : Slot :=
  on_supervisor (fun sup =>
    if (bool_decide (sstate sup = Ready) || bool_decide (sstate sup = NeedsAuth)) &&
       (generation s =? gen) && (successes s =? succ)
    then set_problem (Some CallFailure.Endpoint) (message_of to_string e) (set_sstate NeedsAuth sup)
    else sup) s.

(** Whether a failed probe re-spawns the connection. *)
Definition respawn_after_failure (succ : Z) (s : Slot) : bool :=
  match closed (inner s) with
  | None | Some true => true
  | Some false => quiescent_since succ s
  end.

(** ** One call *)
Section call.
Context {T : Type}.
(** Other threads, before this thread's [n]th critical section. *)
Variable env : nat -> Slot -> Slot.
Variable clock : nat -> Z.
(** [cancel.is_some_and(CancelContext::is_cancelled)]. *)
Variable cancelled : nat -> bool.
(** What the dispatch closure returns when it is run. *)
Variable downstream : nat -> result T TransportError.
(** The error of [InFlightLimit::acquire], if it refuses. *)
Variable refused : nat -> option TransportError.
(** The reconnect factory, if the slot has one. *)
Variable factory : option (nat -> option Conn).
Variable spawn_error : nat -> option string.
Variable mul_f64 : nat -> Z -> Z.
(** Polls of a timed wait; [wait_polls] shows when they are enough. *)
Variable polls : nat.

(** The slot, the number of moments passed, and what each run of the closure
    returned, latest first. *)
Record World := mk_world {
  slot : Slot;
  tick : nat;
  attempts : list (result T TransportError)
}.

Definition M (A : Type) : Type := World -> A * World.

#[local] Instance M_ret : MRet M := fun A x w => (x, w).
#[local] Instance M_bind : MBind M := fun A B f m w => let (x, w) := m w in f x w.

(** One critical section on the slot. *)
Definition locked {A} (f : Slot -> A * Slot) : M A := fun w =>
  let (x, s) := f (env (tick w) (slot w)) in
  (x, {| slot := s; tick := S (tick w); attempts := attempts w |}).

Definition observe {A} (f : nat -> A) : M A := fun w =>
  (f (tick w), {| slot := slot w; tick := S (tick w); attempts := attempts w |}).

Definition read {A} (f : Slot -> A) : M A := locked (fun s => (f s, s)).
Definition modify (f : Slot -> Slot) : M () := locked (fun s => ((), f s)).

(** Run the dispatch closure. *)
Definition run_closure : M (result T TransportError) := fun w =>
  let r := downstream (tick w) in
  (r, {| slot := slot w; tick := S (tick w); attempts := r :: attempts w |}).

Definition fail (kind : CallFailure.CallFailureKind) (detail : string) :
    result T CallFailure.CallFailure :=
  Err {| CallFailure.kind := kind; CallFailure.detail := detail |}.

(** [ServerSlot::unavailable]: the lock is taken for the status, and again for the
    retry time.  (Both callers have seen the slot's supervisor, which never goes
    away; without one the source's [unwrap] panics.) *)
Definition unavailable : M string :=
  now ← observe clock;
  st ← read (status now);
  match st with
  | None => mret ""
  | Some st =>
      if Reconnect.status_needs_auth st
      then read (fun s => "server '" +:+ sid s +:+ "' " +:+ ClientError.describe st)
      else
        now ← observe clock;
        read (retry_message now (ClientError.client_safe_error (Reconnect.status_last_error st)))
  end.

(** [wait_for_retry_or_cancel]: true when cancelled during the wait. *)
Fixpoint wait_for_retry_or_cancel (n : nat) (deadline : Z) : M bool :=
  match n with
  | O => mret false
  | S n =>
      c ← observe cancelled;
      if (c : bool) then mret true
      else now ← observe clock;
           if deadline <=? now then mret false else wait_for_retry_or_cancel n deadline
  end.

Inductive SlotAccess := Shared | Locked.

Definition admits (sup : Supervisor) : bool :=
  bool_decide (sstate sup = Ready) || (bool_decide (sstate sup = NeedsAuth) && ever_ready sup).

(** Whether the supervisor admits a call; an admitted call is counted. *)
Definition begin_attempt (now : Z) (s : Slot) : bool * Slot :=
  match supervisor s with
  | Some sup =>
      if admits sup then (true, add_handle_calls 1 (on_supervisor (set_last_use now) s))
      else (false, s)
  | None => (true, add_handle_calls 1 s)
  end.

Definition end_attempt (now : Z) (s : Slot) : Slot :=
  add_handle_calls (-1) (on_supervisor (set_last_use now) s).

(** One dispatch attempt, with the start of a call on a handle. *)
Definition attempt (access : SlotAccess) : M (result T TransportError * option Z) :=
  now ← observe clock;
  admitted ← locked (begin_attempt now);
  if negb (admitted : bool) then message ← unavailable; mret (Err (Busy message), None)
  else
      shared ← read (fun s => multiplexes (inner s));
      result ←
        (if match access with Shared => shared | Locked => false end then
           full ← observe refused;
           match full with
           | Some error => mret (Err error, None)
           | None => started ← observe clock; r ← run_closure; mret (r, Some started)
           end
         else r ← run_closure; mret (r, None));
      now ← observe clock;
      _ ← modify (end_attempt now);
      mret result.

(** The poll loop of [wait_for_start]; the result says whether it failed, and the
    message. *)
Fixpoint wait_loop (n : nat) (continuation : bool) (deadline : Z) : M (option string) :=
  match n with
  | O => message ← unavailable; mret (Some message)
  | S n =>
      c ← observe cancelled;
      if negb continuation && (c : bool)
      then mret (Some "request cancelled while the server was starting")
      else
        now ← observe clock;
        state ← locked (fun s =>
          match supervisor s with
          | Some sup => if admits sup then (None, on_supervisor (set_last_use now) s)
                        else (Some (retired s, bool_decide (sstate sup = Starting)), s)
          | None => (None, s)
          end);
        match state with
        | None => mret None
        | Some (is_retired, starting) =>
            if (is_retired : bool) then
              read (fun s => Some ("server '" +:+ sid s +:+
                "' was reconfigured while starting; send the request again"))
            else
              now ← observe clock;
              if negb (starting : bool) || (deadline <=? now)
              then message ← unavailable; mret (Some message)
              else wait_loop n continuation deadline
        end
  end.

Definition wait_for_start (continuation : bool) : M (option string) :=
  supervised ← read (fun s => match supervisor s with Some _ => true | None => false end);
  if negb (supervised : bool) then mret None
  else
    c ← observe cancelled;
    if negb continuation && (c : bool)
    then mret (Some "request cancelled while the server was starting")
    else
      now ← observe clock;
      spawned ← observe spawn_error;
      at_ ← observe clock;
      _ ← locked (start_at true now ((fun e => (e, at_)) <$> spawned));
      start ← observe clock;
      wait_loop polls continuation (start + Backoff.from_secs 30).

Definition unavailable_for (id : string) (remaining : Z) : string :=
  "server '" +:+ id +:+ "' is temporarily unavailable (too many recent failures; retrying in "
  +:+ pretty (remaining / 1000000000 + 1) +:+ "s)".

Definition check_breaker (now : Z) (s : Slot) : option (string * Z) * Slot :=
  let (remaining, b) := Breaker.open_remaining now (sbreaker s) in
  ((fun d => (sid s, d)) <$> remaining, set_breaker b s).

Definition record_breaker_failure (started : option Z) : M () :=
  now ← observe clock;
  modify (on_breaker (Breaker.record_concurrent_failure started now)).

(** The exchange of the connection under the reconnect gate: whether to go on. *)
Inductive swap := Swapped | KeptAlive.

Definition swap_connection (fresh : Conn) (succ : Z) (s : Slot) : swap * Slot :=
  if bool_decide (closed (inner s) = Some false) && negb (quiescent_since succ s)
  then (KeptAlive, s)
  else (Swapped, set_inner fresh s).

(** [None]: no reconnect happened, the caller records the failure. *)
Definition replay (access : SlotAccess) : M (option (result T CallFailure.CallFailure)) :=
  c ← observe cancelled;
  if (c : bool) then
    mret (Some (fail CallFailure.Cancelled
      "request cancelled before retrying the reconnected downstream"))
  else
    seen ← read (fun s => (generation s, responses_now s));
    r ← attempt access;
    let '(retry, started) := r in
    match retry with
    | Ok v =>
        _ ← modify add_success;
        _ ← modify (on_breaker Breaker.record_success);
        mret (Some (Ok v))
    | Err e =>
        health ← read (timeout_health e seen.1 seen.2);
        _ ← (if is_health_failure e && (health : bool) then record_breaker_failure started
             else mret ());
        mret (Some (Err (call_failure to_string e)))
    end.

Definition reconnect_and_retry (uncertain : option TransportError) (gen succ : Z)
    (access : SlotAccess) : M (option (result T CallFailure.CallFailure)) :=
  match factory with
  | None => mret None
  | Some connect =>
      let recovered : M (option (result T CallFailure.CallFailure)) :=
        match uncertain with
        | Some error =>
            _ ← modify (on_breaker Breaker.record_success);
            mret (Some (Err (call_failure to_string error)))
        | None => replay access
        end in
      now ← observe clock;
      remaining ← locked (check_breaker now);
      match remaining with
      | Some (id, d) =>
          mret (Some (fail (CallFailure.Unavailable false) (unavailable_for id d)))
      | None =>
          same ← read (fun s => generation s =? gen);
          if negb (same : bool) then recovered
          else
            fresh ← observe connect;
            match fresh with
            | None => mret None
            | Some fresh =>
                c ← observe cancelled;
                if (c : bool) then
                  mret (Some (fail CallFailure.Cancelled
                    "request cancelled before retrying the reconnected downstream"))
                else
                  swapped ← locked (swap_connection fresh succ);
                  match swapped with
                  | KeptAlive => mret None
                  | Swapped => _ ← modify bump_connection; recovered
                  end
            end
      end
  end.

(** A health failure: degrade the supervisor, or re-spawn on a failed probe, or
    count it. *)
Definition failed_health (policy : ReplayPolicy) (access : SlotAccess) (is_probe : bool)
    (gen succ : Z) (started : option Z) (e : TransportError) :
    M (result T CallFailure.CallFailure) :=
  now ← observe clock;
  mul ← observe mul_f64;
  degraded ← locked (degrade gen succ (message_of to_string e) is_probe now mul);
  if (degraded : bool) then
    _ ← record_breaker_failure started;
    message ← unavailable;
    mret (fail (CallFailure.kind (call_failure to_string e))
      (message +:+ match uncertain_failure policy e with
                   | Some _ =>
                       match policy with
                       | ReadOnly => ". Retry the read after the endpoint recovers."
                       | NoAmbiguousReplay =>
                           ". The previous operation may have completed; check before retrying it."
                       end
                   | None => ""
                   end))
  else
    respawn ← read (respawn_after_failure succ);
    recovered ←
      (if is_probe && (respawn : bool) then
         c ← observe cancelled;
         if (c : bool) then
           mret (Some (fail CallFailure.Cancelled
             "request cancelled before downstream reconnect"))
         else reconnect_and_retry (uncertain_failure policy e) gen succ access
       else mret None);
    match recovered with
    | Some v => mret v
    | None => _ ← record_breaker_failure started; mret (Err (call_failure to_string e))
    end.

(** The tail of the loop: an error that is not retried. *)
Definition failed (policy : ReplayPolicy) (access : SlotAccess) (is_probe : bool)
    (gen succ resp : Z) (started : option Z) (e : TransportError) :
    M (result T CallFailure.CallFailure) :=
  _ ← (if endpoint_auth e then modify (mark_auth_failure e gen succ) else mret ());
  match e with
  | FrameRejected _ =>
      _ ← record_breaker_failure started; mret (Err (call_failure to_string e))
  | _ =>
      if is_health_failure e then
        health ← read (timeout_health e gen resp);
        if (health : bool) then failed_health policy access is_probe gen succ started e
        else mret (Err (call_failure to_string e))
      else mret (Err (call_failure to_string e))
  end.

(** What one turn of the loop saw: the connection's counters before the attempt,
    when a call on a handle began, and the result. *)
Record Turn := mk_turn {
  turn_generation : Z;
  turn_successes : Z;
  turn_responses : Z;
  turn_started : option Z;
  turn_result : result T TransportError
}.

(** Wire transports count completed replies. *)
Definition note_response (r : result T TransportError) : M () :=
  match r with Ok _ | Err (Rpc _) => modify add_response | _ => mret () end.

(** The head of the loop; [None] is a cancelled request. *)
Definition take_turn (continuation : bool) (access : SlotAccess) : M (option Turn) :=
  c ← observe cancelled;
  if negb continuation && (c : bool) then mret None
  else
    seen ← read (fun s => (generation s, successes s, responses_now s));
    let '(gen, succ, resp) := seen in
    r ← attempt access;
    _ ← note_response r.1;
    mret (Some {| turn_generation := gen; turn_successes := succ; turn_responses := resp;
                  turn_started := r.2; turn_result := r.1 |}).

Definition succeeded (gen : Z) (v : T) : M (result T CallFailure.CallFailure) :=
  _ ← modify add_success;
  _ ← modify (mark_ready gen);
  _ ← modify (on_breaker Breaker.record_success);
  mret (Ok v).

(** The loop; [retries] is [HTTP_MAX_RETRIES - attempt]. *)
Fixpoint attempt_loop (retries : nat) (continuation : bool) (policy : ReplayPolicy)
    (access : SlotAccess) (is_probe : bool) : M (result T CallFailure.CallFailure) :=
  turn ← take_turn continuation access;
  match turn with
  | None => mret (fail CallFailure.Cancelled "request cancelled before downstream attempt")
  | Some t =>
      match turn_result t with
      | Ok v => succeeded (turn_generation t) v
      | Err e =>
          match e, retries with
          | Retry retry_after _, S retries | RateLimited retry_after _, S retries =>
              now ← observe clock;
              stop ← wait_for_retry_or_cancel polls
                       (now + retry_wait retry_after (Z.of_nat (HTTP_MAX_RETRIES - S retries)));
              if (stop : bool)
              then mret (fail CallFailure.Cancelled
                "request cancelled during downstream retry wait")
              else attempt_loop retries continuation policy access is_probe
          | _, _ =>
              failed policy access is_probe (turn_generation t) (turn_successes t)
                (turn_responses t) (turn_started t) e
          end
      end
  end.

(** Why [wait_for_start] failed, as a call failure. *)
Definition start_failure (continuation was_cancelled : bool) (s : Slot) : CallFailure.CallFailureKind :=
  if negb continuation && was_cancelled then CallFailure.Cancelled
  else match supervisor s with
       | Some sup =>
           if bool_decide (sstate sup = NeedsAuth)
           then match auth_target sup with
                | Some target => CallFailure.Auth target
                | None => CallFailure.Internal
                end
           else CallFailure.Unavailable false
       | None => CallFailure.Unavailable false
       end.

Definition call_with_retry_typed (continuation : bool) (policy : ReplayPolicy)
    (access : SlotAccess) : M (result T CallFailure.CallFailure) :=
  c ← observe cancelled;
  if negb continuation && (c : bool)
  then mret (fail CallFailure.Cancelled "request cancelled before downstream attempt")
  else
  started ← wait_for_start continuation;
  match started with
  | Some detail =>
      c ← observe cancelled;
      kind ← read (start_failure continuation c);
      mret (fail kind detail)
  | None =>
      now ← observe clock;
      checked ← locked (fun s =>
        let (open, s) := check_breaker now s in
        ((open, Breaker.BREAKER_FAILURE_THRESHOLD <=?
                Breaker.consecutive_failures (sbreaker s)), s));
      let '(open, is_probe) := checked in
      match open with
      | Some (id, d) => mret (fail (CallFailure.Unavailable false) (unavailable_for id d))
      | None =>
          seen ← read (fun s => (reset_reason (inner s), generation s, successes s));
          let '(reset, gen, succ) := seen in
          match reset with
          | Some reason =>
              r ← reconnect_and_retry None gen succ access;
              match r with
              | Some result => mret result
              | None =>
                  now ← observe clock;
                  _ ← modify (on_breaker (Breaker.record_failure now));
                  mret (fail (CallFailure.Unavailable false)
                    (reason +:+ "; downstream reconnect required"))
              end
          | None => attempt_loop HTTP_MAX_RETRIES continuation policy access is_probe
          end
      end
  end.

(** ** The closure is run at most once with an effect *)

(** A part of the call that does not run the closure, or runs it at most once. *)
Definition quiet {A} (m : M A) : Prop := forall w, attempts (m w).2 = attempts w.
Definition once {A} (m : M A) : Prop :=
  forall w, attempts (m w).2 = attempts w \/ exists r, attempts (m w).2 = r :: attempts w.

Lemma quiet_once {A} (m : M A) : quiet m -> once m.
Proof. intros H w. left. apply H. Qed.

Lemma quiet_ret {A} (x : A) : quiet (mret x).
Proof. done. Qed.

Lemma quiet_locked {A} (f : Slot -> A * Slot) : quiet (locked f).
Proof. intros w. unfold locked. by destruct (f _). Qed.

Lemma quiet_observe {A} (f : nat -> A) : quiet (observe f).
Proof. done. Qed.

Lemma quiet_bind {A B} (m : M A) (f : A -> M B) :
  quiet m -> (forall x, quiet (f x)) -> quiet (x ← m; f x).
Proof.
  intros Hm Hf w. unfold mbind, M_bind. specialize (Hm w). destruct (m w) as [x w']. cbn [snd] in *.
  by rewrite Hf.
Qed.

Lemma once_bind_r {A B} (m : M A) (f : A -> M B) :
  quiet m -> (forall x, once (f x)) -> once (x ← m; f x).
Proof.
  intros Hm Hf w. unfold mbind, M_bind. specialize (Hm w). destruct (m w) as [x w'] eqn:E.
  cbn [snd] in *. rewrite <- Hm. apply Hf.
Qed.

Lemma once_bind_l {A B} (m : M A) (f : A -> M B) :
  once m -> (forall x, quiet (f x)) -> once (x ← m; f x).
Proof.
  intros Hm Hf w. unfold mbind, M_bind. specialize (Hm w). destruct (m w) as [x w'] eqn:E.
  cbn [snd] in *. rewrite (Hf x w'). exact Hm.
Qed.

Lemma quiet_if {A} (b : bool) (m1 m2 : M A) : quiet m1 -> quiet m2 -> quiet (if b then m1 else m2).
Proof. by destruct b. Qed.

Lemma quiet_read {A} (f : Slot -> A) : quiet (read f).
Proof. apply quiet_locked. Qed.

Lemma quiet_modify (f : Slot -> Slot) : quiet (modify f).
Proof. apply quiet_locked. Qed.

Create HintDb dispatch.
Hint Resolve quiet_ret quiet_locked quiet_observe quiet_if quiet_once quiet_read quiet_modify
  : dispatch.

(** Walk through a quiet computation. *)
Ltac quietly :=
  unfold record_breaker_failure;
  repeat (cbv beta iota zeta; first [ apply quiet_bind; [|intros ?]
                | progress (auto with dispatch)
                | apply quiet_if
                | match goal with |- quiet (match ?x with _ => _ end) => destruct x end ]).

Lemma quiet_unavailable : quiet unavailable.
Proof. unfold unavailable. quietly. Qed.
Hint Resolve quiet_unavailable : dispatch.

Lemma quiet_wait_retry n deadline : quiet (wait_for_retry_or_cancel n deadline).
Proof. induction n as [|n IH]; cbn [wait_for_retry_or_cancel]; quietly. Qed.

Lemma quiet_wait_loop n continuation deadline : quiet (wait_loop n continuation deadline).
Proof. induction n as [|n IH]; cbn [wait_loop]; quietly. Qed.

Lemma quiet_wait_for_start continuation : quiet (wait_for_start continuation).
Proof. pose proof quiet_wait_loop. unfold wait_for_start. quietly. Qed.

(** An attempt runs the closure at most once, and answers what it returned. *)
Lemma attempt_spec access w :
  let '(r, _, w') := attempt access w in
  attempts w' = attempts w \/ attempts w' = r :: attempts w.
Proof.
  pose proof quiet_unavailable as Hq. unfold quiet in Hq.
  unfold attempt, read, modify, locked, observe, run_closure, mbind, M_bind, mret, M_ret.
  cbn [slot tick attempts]. destruct (begin_attempt _ _) as [[|] s]; cbn [negb].
  2: { match goal with |- context [unavailable ?w'] => specialize (Hq w'); destruct (unavailable w') end. by left. }
  cbn [slot tick attempts]. destruct access; [destruct (multiplexes _)|]; cbn [slot tick attempts].
  - destruct (refused _); cbn [slot tick attempts]; auto.
  - auto.
  - auto.
Qed.

Lemma once_attempt access : once (attempt access).
Proof.
  intros w. pose proof (attempt_spec access w) as H. destruct (attempt access w) as [[r st] w'].
  cbn [snd]. destruct H as [H|H]; [by left|right; by eexists].
Qed.

Lemma once_replay access : once (replay access).
Proof.
  unfold replay. apply once_bind_r; [quietly|]. intros [].
  - by apply quiet_once.
  - apply once_bind_r; [quietly|]. intros seen. apply once_bind_l; [apply once_attempt|].
    intros [[v|e] started]; quietly.
Qed.

Lemma once_reconnect uncertain gen succ access :
  once (reconnect_and_retry uncertain gen succ access).
Proof.
  unfold reconnect_and_retry. destruct factory as [connect|]; [|by apply quiet_once].
  assert (Hrec : once (match uncertain with
    | Some error =>
        _ ← modify (on_breaker Breaker.record_success);
        mret (Some (Err (call_failure to_string error)))
    | None => replay access end)).
  { destruct uncertain; [apply quiet_once; quietly|apply once_replay]. }
  apply once_bind_r; [quietly|]. intros now. apply once_bind_r; [quietly|].
  intros [[]|]; [by apply quiet_once|]. apply once_bind_r; [quietly|].
  intros [|]; cbn [negb]; [|done]. apply once_bind_r; [quietly|].
  intros [fresh|]; [|by apply quiet_once]. apply once_bind_r; [quietly|].
  intros [|]; [by apply quiet_once|]. apply once_bind_r; [quietly|].
  intros [|]; [apply once_bind_r; [quietly|done]|by apply quiet_once].
Qed.

(** Recovery after an uncertain failure does not run the closure again. *)
Lemma quiet_reconnect e gen succ access : quiet (reconnect_and_retry (Some e) gen succ access).
Proof. unfold reconnect_and_retry. quietly. Qed.

(** A failure after which the operation may be run again: a rate limit or a
    refused connection, or a health failure that is not uncertain under the
    call's replay policy. *)
Definition repeatable (policy : ReplayPolicy) (r : result T TransportError) : bool :=
  match r with
  | Ok _ | Err (FrameRejected _) => false
  | Err e => is_health_failure e &&
             match uncertain_failure policy e with None => true | Some _ => false end
  end.

Lemma failed_health_spec policy access is_probe gen succ started e :
  once (failed_health policy access is_probe gen succ started e) /\
  (uncertain_failure policy e <> None ->
   quiet (failed_health policy access is_probe gen succ started e)).
Proof.
  unfold failed_health. split.
  - do 3 (apply once_bind_r; [quietly|]; intros ?). destruct (_ : bool); [apply quiet_once; quietly|].
    apply once_bind_r; [quietly|]. intros respawn. apply once_bind_l.
    + destruct (is_probe && respawn); [|by apply quiet_once].
      apply once_bind_r; [quietly|]. intros [|]; [by apply quiet_once|apply once_reconnect].
    + intros [|]; quietly.
  - intros Hu. pose proof (quiet_reconnect) as Hq.
    destruct (uncertain_failure policy e) as [e'|]; [|done]. specialize (Hq e'). quietly.
Qed.

Lemma failed_spec policy access is_probe gen succ resp started e :
  once (failed policy access is_probe gen succ resp started e) /\
  (repeatable policy (Err e) = false ->
   quiet (failed policy access is_probe gen succ resp started e)).
Proof.
  destruct (failed_health_spec policy access is_probe gen succ started e) as [Ho Hq].
  unfold failed. split.
  - apply once_bind_r; [quietly|]. intros _.
    destruct (is_health_failure e); destruct e; try (apply quiet_once; quietly; fail);
      (apply once_bind_r; [quietly|]; intros [|]; [exact Ho|by apply quiet_once]).
  - intros Hr. apply quiet_bind; [quietly|]. intros _.
    assert (Hcase : (exists m, e = FrameRejected m) \/ is_health_failure e = false \/
      uncertain_failure policy e <> None).
    { unfold repeatable in Hr. destruct e; eauto; right;
        try (left; reflexivity); destruct (uncertain_failure policy _) eqn:E; rewrite ?E;
        try (right; congruence); left; by rewrite andb_true_r in Hr. }
    destruct Hcase as [[m ->]|[->|Hu]]; [quietly|destruct e; quietly|].
    specialize (Hq Hu). destruct e; quietly.
Qed.

Lemma bind_run {A B} (m : M A) (f : A -> M B) w : (x ← m; f x) w = f (m w).1 (m w).2.
Proof. unfold mbind, M_bind. by destruct (m w). Qed.

(** Everything run so far may be run again. *)
Definition all_repeatable (policy : ReplayPolicy) (l : list (result T TransportError)) : Prop :=
  Forall (fun r => repeatable policy r = true) l.

Lemma tail_repeatable policy l : all_repeatable policy l -> all_repeatable policy (tail l).
Proof. destruct 1; [constructor|done]. Qed.

Lemma failed_run policy access is_probe gen succ resp started e w old :
  all_repeatable policy old -> attempts w = old \/ attempts w = Err e :: old ->
  let w' := (failed policy access is_probe gen succ resp started e w).2 in
  all_repeatable policy (tail (attempts w')) /\ (length (attempts w') <= length old + 2)%nat.
Proof.
  intros Hold Hw. destruct (failed_spec policy access is_probe gen succ resp started e) as [Ho Hq].
  cbv zeta. destruct (repeatable policy (Err e)) eqn:Er.
  - assert (Hw' : all_repeatable policy (attempts w) /\ (length (attempts w) <= length old + 1)%nat).
    { destruct Hw as [-> | ->]; (split; [by repeat constructor|cbn [length]; lia]). }
    destruct Hw' as [Hw1 Hw2]. destruct (Ho w) as [-> | [r ->]]; cbn [tail length].
    + split; [by apply tail_repeatable|lia].
    + split; [done|lia].
  - rewrite (Hq eq_refl w). destruct Hw as [-> | ->]; cbn [tail length].
    + split; [by apply tail_repeatable|lia].
    + split; [done|lia].
Qed.

Lemma take_turn_spec continuation access w :
  match take_turn continuation access w with
  | (None, w') => attempts w' = attempts w
  | (Some t, w') => attempts w' = attempts w \/ attempts w' = turn_result t :: attempts w
  end.
Proof.
  unfold take_turn. rewrite bind_run. cbn [fst]. destruct (negb continuation && _); [done|].
  rewrite bind_run. set (w1 := (observe cancelled w).2). change (attempts w) with (attempts w1).
  clearbody w1. set (m2 := read _).
  assert (Hw2 : attempts (m2 w1).2 = attempts w1) by apply quiet_read.
  destruct (m2 w1) as [[[gen succ] resp] w2]. cbn [fst snd] in *. rewrite bind_run.
  pose proof (attempt_spec access w2) as Hw3. destruct (attempt access w2) as [[r started] w3].
  cbn [fst snd] in *. rewrite Hw2 in Hw3. rewrite bind_run. cbn [fst].
  assert (Hq4 : quiet (note_response r)) by (unfold note_response; quietly). specialize (Hq4 w3).
  destruct (note_response r w3) as [[] w4]. cbn in *. by rewrite Hq4.
Qed.

Lemma loop_spec retries continuation policy access is_probe w :
  all_repeatable policy (attempts w) ->
  let w' := (attempt_loop retries continuation policy access is_probe w).2 in
  all_repeatable policy (tail (attempts w')) /\
  (length (attempts w') <= length (attempts w) + retries + 2)%nat.
Proof.
  revert w. induction retries as [|retries IH]; intros w Hw; cbv zeta; cbn [attempt_loop];
    rewrite bind_run; pose proof (take_turn_spec continuation access w) as Hw1;
    destruct (take_turn continuation access w) as [[[gen succ resp started [v|e]]|] w1];
    cbn [fst snd turn_result turn_generation turn_successes turn_responses turn_started mret M_ret] in *;
    try (rewrite Hw1; split; [by apply tail_repeatable|lia]);
    try (assert (Hq : quiet (succeeded gen v)) by (unfold succeeded; quietly); rewrite (Hq w1);
         destruct Hw1 as [-> | ->]; cbn [tail length];
         (split; [first [done|by apply tail_repeatable]|lia]));
    pose proof (failed_run policy access is_probe gen succ resp started e w1 _ Hw Hw1) as [Hf1 Hf2].
  - destruct e; (split; [done|lia]).
  - assert (Hretry : repeatable policy (Err e) = true -> forall retry_after,
      let w' := ((now ← observe clock;
        stop ← wait_for_retry_or_cancel polls (now + retry_wait retry_after
                 (Z.of_nat (HTTP_MAX_RETRIES - S retries)));
        if (stop : bool)
        then mret (fail CallFailure.Cancelled "request cancelled during downstream retry wait")
        else attempt_loop retries continuation policy access is_probe) w1).2 in
      all_repeatable policy (tail (attempts w')) /\
      (length (attempts w') <= length (attempts w) + S retries + 2)%nat).
    { intros Hr retry_after. cbv zeta. rewrite bind_run. set (w5 := (observe clock w1).2).
      change (attempts w1) with (attempts w5) in *. clearbody w5.
      rewrite bind_run. set (m6 := wait_for_retry_or_cancel _ _).
      assert (Hq6 : attempts (m6 w5).2 = attempts w5) by apply quiet_wait_retry.
      destruct (m6 w5) as [stop w6]; cbn [fst snd] in *. rewrite <- Hq6 in Hw1.
      assert (Hw6 : all_repeatable policy (attempts w6) /\
        (length (attempts w6) <= length (attempts w) + 1)%nat)
        by (destruct Hw1 as [-> | ->]; (split; [by repeat constructor|cbn [length]; lia])).
      destruct Hw6 as [Hw6 Hl6]. destruct stop; [split; [by apply tail_repeatable|cbn; lia]|].
      destruct (IH w6 Hw6) as [H1 H2]. split; [done|lia]. }
    destruct e; try (split; [done|lia]); by apply Hretry; destruct policy.
Qed.

(** C9. A call is not executed twice.  Whatever other threads do to the slot,
    whatever the clock, the cancel flag, the reconnect factory and the downstream
    answer: one routed call runs its dispatch at most four times, and runs it again
    only after a failure its replay policy deems repeatable.  Without the read-only
    policy that is a rate limit, a refused connection, or a timeout or outage
    classified as before the send: never after an outcome the server may already
    have acted on. *)
Theorem call_runs_at_most_once continuation policy access w :
  attempts w = [] ->
  let w' := (call_with_retry_typed continuation policy access w).2 in
  (length (attempts w') <= 4)%nat /\
  Forall (fun r => repeatable policy r = true) (tail (attempts w')) /\
  (policy = NoAmbiguousReplay ->
   Forall (fun r => exists e, r = Err e /\
     ((exists d m, e = Retry d m \/ e = RateLimited d m) \/
      (exists m, e = Classified (CallFailure.Timeout false) m \/
                 e = Classified (CallFailure.Unavailable false) m))) (tail (attempts w'))).
Proof.
  intros Hw w'.
  assert (H : (length (attempts w') <= 4)%nat /\ all_repeatable policy (tail (attempts w'))).
  { assert (Hquiet : forall (m : M (result T CallFailure.CallFailure)) w1, attempts w1 = [] ->
      once m -> (length (attempts (m w1).2) <= 4)%nat /\ all_repeatable policy (tail (attempts (m w1).2))).
    { intros m w1 Hw1 Hm. destruct (Hm w1) as [-> | [r ->]]; rewrite Hw1; cbn; split; try lia; constructor. }
    unfold w', call_with_retry_typed. rewrite bind_run. cbn [fst].
    set (w1 := (observe cancelled w).2). assert (Hw1 : attempts w1 = []) by done. clearbody w1.
    destruct (negb continuation && _); [by apply Hquiet, quiet_once|]. rewrite bind_run.
    assert (Hw2 : attempts (wait_for_start continuation w1).2 = []) by (by rewrite quiet_wait_for_start).
    destruct (wait_for_start continuation w1) as [[detail|] w2]; cbn [fst snd] in *.
    { apply Hquiet; [done|]. apply quiet_once. quietly. }
    rewrite bind_run. set (w3 := (observe clock w2).2). assert (Hw3 : attempts w3 = []) by done.
    clearbody w3. rewrite bind_run. set (m4 := locked _).
    assert (Hw4 : attempts (m4 w3).2 = []) by (subst m4; by rewrite quiet_locked).
    destruct (m4 w3) as [[[[id d]|] is_probe] w4]; cbn [fst snd] in *; clear m4.
    { by apply Hquiet, quiet_once. }
    rewrite bind_run. set (m5 := read _).
    assert (Hw5 : attempts (m5 w4).2 = []) by (subst m5; by rewrite quiet_read).
    destruct (m5 w4) as [[[[reason|] gen] succ] w5]; cbn [fst snd] in *; clear m5.
    - apply Hquiet; [done|]. apply once_bind_l; [apply once_reconnect|]. intros [|]; quietly.
    - pose proof (loop_spec HTTP_MAX_RETRIES continuation policy access is_probe w5) as Hl.
      rewrite Hw5 in Hl. destruct Hl as [H1 H2]; [constructor|]. unfold HTTP_MAX_RETRIES in *.
      split; [cbn [length] in *; lia|done]. }
  destruct H as [H1 H2]. split_and!; [done..|]. intros ->. eapply Forall_impl; [exact H2|].
  intros [v|e] Hr; [done|]. exists e. split; [done|].
  destruct e as [[]| | | | | | | |]; cbn in Hr; try done; try (destruct after_send); naive_solver.
Qed.

(** Timed waits do not depend on [polls] once the clock passes the deadline
    within them. *)
Lemma wait_polls n n' deadline w :
  (n <= n')%nat ->
  (exists k, (k < n)%nat /\ deadline <= clock (tick w + 2 * k + 1)%nat) ->
  wait_for_retry_or_cancel n' deadline w = wait_for_retry_or_cancel n deadline w.
Proof.
  revert n' w. induction n as [|n IH]; intros n' w Hn (k & Hk & Hc); [lia|].
  destruct n' as [|n']; [lia|]. cbn [wait_for_retry_or_cancel]. rewrite !bind_run.
  cbn [observe fst snd]. destruct (cancelled (tick w)); [done|]. rewrite !bind_run.
  cbn [observe fst snd tick]. destruct (Z.leb_spec deadline (clock (S (tick w)))) as [|Hlt]; [done|].
  apply IH; [lia|]. cbn [tick]. destruct k as [|k].
  - replace (tick w + 2 * 0 + 1)%nat with (S (tick w)) in Hc by lia. lia.
  - exists k. split; [lia|]. by replace (S (S (tick w)) + 2 * k + 1)%nat with (tick w + 2 * S k + 1)%nat by lia.
Qed.

Lemma locked_tick {A} (f : Slot -> A * Slot) w : tick (locked f w).2 = S (tick w).
Proof. unfold locked. by destruct (f _). Qed.

Lemma start_polls n n' continuation deadline w :
  (n <= n')%nat ->
  (exists k, (k < n)%nat /\ deadline <= clock (tick w + 4 * k + 3)%nat) ->
  wait_loop n' continuation deadline w = wait_loop n continuation deadline w.
Proof.
  revert n' w. induction n as [|n IH]; intros n' w Hn (k & Hk & Hc); [lia|].
  destruct n' as [|n']; [lia|]. cbn [wait_loop]. rewrite ?bind_run. cbn [observe fst snd].
  destruct (negb continuation && _); [done|]. rewrite ?bind_run. cbn [observe fst snd tick slot].
  rewrite ?bind_run. set (m := locked _). set (w1 := mk_world _ _ _).
  assert (Ht : tick (m w1).2 = S (S (S (tick w)))) by apply locked_tick.
  destruct (m w1) as [[[[] starting]|] w2]; cbn [fst snd] in *; [done| |done].
  rewrite ?bind_run. cbn [observe fst snd].
  destruct (negb starting || (deadline <=? clock (tick w2))) eqn:E; [done|].
  apply orb_false_elim in E as [_ E]. apply Z.leb_gt in E. apply IH; [lia|]. cbn [tick].
  destruct k as [|k].
  - replace (tick w + 4 * 0 + 3)%nat with (S (S (S (tick w)))) in Hc by lia. rewrite <- Ht in Hc. lia.
  - exists k. split; [lia|]. rewrite Ht.
    by replace (S (S (S (S (tick w)))) + 4 * k + 3)%nat with (tick w + 4 * S k + 3)%nat by lia.
Qed.

End call.

(** ** The supervisor *)

(** A slot and the startup threads that run for it. *)
Record System := mk_system { sys_slot : Slot; startups : nat }.

Inductive sup_step : System -> System -> Prop :=
(* [start], on demand or scheduled: a thread runs, or could not be spawned. *)
| sup_start demand now s n :
    (start_at demand now None s).1 = true ->
    sup_step (mk_system s n) (mk_system (start_at demand now None s).2 (S n))
| sup_start_refused demand now spawned s n :
    (start_at demand now spawned s).1 = false ->
    sup_step (mk_system s n) (mk_system (start_at demand now spawned s).2 n)
(* The thread's end. *)
| sup_result r now mul_f64 s n :
    sup_step (mk_system s (S n)) (mk_system (startup_result r now mul_f64 s) n)
(* The gateway: adopt, publish, maintain, retire. *)
| sup_adopt now s n : sup_step (mk_system s n) (mk_system (adopt_slot now s).2 n)
| sup_activate s n : sup_step (mk_system s n) (mk_system (activate_slot s) n)
| sup_maintain now mul_f64 s n :
    sup_step (mk_system s n) (mk_system (maintain_slot now mul_f64 s) n)
| sup_retire s n : sup_step (mk_system s n) (mk_system (retire s) n)
(* Calls. *)
| sup_degrade gen succ error probe now mul_f64 s n :
    sup_step (mk_system s n) (mk_system (degrade gen succ error probe now mul_f64 s).2 n)
| sup_ready gen s n : sup_step (mk_system s n) (mk_system (mark_ready gen s) n)
| sup_auth e gen succ s n : sup_step (mk_system s n) (mk_system (mark_auth_failure e gen succ s) n)
| sup_use now s n : sup_step (mk_system s n) (mk_system (on_supervisor (set_last_use now) s) n)
(* Anything that leaves the supervisor alone. *)
| sup_other s s' n :
    supervisor s' = supervisor s -> sup_step (mk_system s n) (mk_system s' n).

(** Startups of one supervisor: running threads, a result waiting to be adopted,
    an adopted connection waiting to be published. *)
Definition pipeline (sup : Supervisor) (n : nat) : nat :=
  n + (match sready sup with Some _ => 1 | None => 0 end) + (if publishing sup then 1 else 0).

Arguments pipeline : simpl never.

Definition sup_ok (st : System) : Prop :=
  match supervisor (sys_slot st) with
  | None => startups st = 0%nat
  | Some sup => pipeline sup (startups st) = if bool_decide (sstate sup = Starting) then 1%nat else 0%nat
  end.

Lemma supervisor_set x s : supervisor (set_supervisor x s) = x.
Proof. done. Qed.

Lemma may_start_spec demand now sup : may_start demand now sup = true ->
  sstate sup <> Starting /\ publishing sup = false.
Proof.
  unfold may_start. destruct (publishing sup); [done|]. intros H. split; [|done]. intros E.
  rewrite E in H. cbn in H. destruct demand; done.
Qed.

Lemma start_at_ok demand now spawned s n :
  sup_ok (mk_system s n) ->
  sup_ok (mk_system (start_at demand now spawned s).2
    (if (start_at demand now spawned s).1 then S n else n)).
Proof.
  unfold start_at, sup_ok. cbn [sys_slot startups].
  destruct (supervisor s) as [sup|] eqn:E; [|cbn; by rewrite E].
  destruct (retired s); [cbn; by rewrite E|].
  destruct (may_start demand now sup) eqn:Em; cbn [negb]; [|cbn; by rewrite E].
  apply may_start_spec in Em as [Hs Hp]. rewrite (bool_decide_false _ Hs).
  unfold pipeline. rewrite Hp. intros H.
  destruct spawned as [[error at_]|]; cbn [fst snd supervisor set_supervisor];
    unfold pipeline; cbn; rewrite Hp; case_bool_decide; first [lia|congruence].
Qed.

(** A supervisor that is not starting has an empty pipeline, and keeps it under
    any update of its other fields to a state other than [Starting]. *)
Lemma pipeline_frame sup sup' n :
  pipeline sup n = 0%nat -> sready sup' = sready sup -> publishing sup' = publishing sup ->
  sstate sup' <> Starting ->
  pipeline sup' n = if bool_decide (sstate sup' = Starting) then 1%nat else 0%nat.
Proof. intros H Hr Hp Hs. unfold pipeline in *. rewrite bool_decide_false by done. by rewrite Hr, Hp. Qed.

Lemma on_supervisor_ok f s n :
  sup_ok (mk_system s n) ->
  (forall sup, sready (f sup) = sready sup /\ publishing (f sup) = publishing sup /\
     (sstate (f sup) = sstate sup \/ (sstate sup <> Starting /\ sstate (f sup) <> Starting))) ->
  sup_ok (mk_system (on_supervisor f s) n).
Proof.
  unfold sup_ok, on_supervisor. cbn. intros H Hf. destruct (supervisor s) as [sup|]; cbn; [|done].
  destruct (Hf sup) as (Hr & Hp & [E|[E1 E2]]).
  - unfold pipeline in *. by rewrite Hr, Hp, E.
  - rewrite (bool_decide_false _ E1) in H. by apply (pipeline_frame sup).
Qed.

Ltac count_pipeline :=
  repeat match goal with
    | |- context [sready ?x] => destruct (sready x)
    | H : context [sready ?x] |- _ => destruct (sready x)
    | |- context [publishing ?x] => destruct (publishing x)
    | H : context [publishing ?x] |- _ => destruct (publishing x)
    end; repeat case_bool_decide; first [lia|congruence].

Lemma startup_result_ok r now mul s n :
  sup_ok (mk_system s (S n)) -> sup_ok (mk_system (startup_result r now mul s) n).
Proof.
  unfold sup_ok, startup_result. cbn. destruct (supervisor s) as [sup|] eqn:E; cbn; [|done].
  unfold pipeline. case_bool_decide as Es; [|lia]. intros H.
  destruct (retired s); [cbn; count_pipeline|].
  destruct r as [server|failure]; cbn; [count_pipeline|].
  destruct (Reconnect.failure_needs_auth failure); cbn; count_pipeline.
Qed.

Lemma gateway_ok now mul s n :
  sup_ok (mk_system s n) ->
  sup_ok (mk_system (adopt_slot now s).2 n) /\ sup_ok (mk_system (activate_slot s) n) /\
  sup_ok (mk_system (maintain_slot now mul s) n).
Proof.
  unfold sup_ok, adopt_slot, activate_slot, maintain_slot. cbn.
  destruct (supervisor s) as [sup|] eqn:E; [|by cbn; rewrite E]. intros H. split_and!.
  - destruct (sready sup) eqn:Er; cbn; [|by rewrite E]. unfold pipeline in *. cbn.
    rewrite Er in H. count_pipeline.
  - destruct (publishing sup) eqn:Ep; [|by rewrite E]. cbn. unfold pipeline in *. cbn.
    rewrite Ep in H. count_pipeline.
  - destruct (decide (sstate sup = Ready)) as [Es|Es];
      [rewrite (bool_decide_true _ Es)|rewrite (bool_decide_false _ Es); cbn; by rewrite E].
    assert (H0 : pipeline sup n = 0%nat)
      by (rewrite bool_decide_false in H by congruence; exact H).
    destruct (inner_locked s); cbn; [by rewrite E|].
    destruct (bool_decide (closed (inner s) = Some true)); cbn; [by apply (pipeline_frame sup)|].
    destruct (_ && _ && _ && _); cbn; [by apply (pipeline_frame sup)|by rewrite E].
Qed.

Lemma degrade_ok gen succ error probe now mul s n :
  sup_ok (mk_system s n) -> sup_ok (mk_system (degrade gen succ error probe now mul s).2 n).
Proof.
  unfold sup_ok, degrade. cbn. destruct (supervisor s) as [sup|] eqn:E; [|cbn; by rewrite E]. intros H.
  destruct (negb (_ || _) || _) eqn:Eg; cbn; [cbn; by rewrite E|].
  destruct (inner_locked s); [cbn; by rewrite E|]. destruct (_ && _); cbn; [cbn; by rewrite E|].
  rewrite bool_decide_false in H; [by apply (pipeline_frame sup)|].
  intros Es. rewrite Es in Eg. by cbn in Eg.
Qed.

Lemma sup_step_ok st st' : sup_ok st -> sup_step st st' -> sup_ok st'.
Proof.
  intros H Hs. destruct Hs as [demand now s n Hst|demand now sp s n Hst|r now mul s n|now s n|s n
    |now mul s n|s n|gen succ error probe now mul s n|gen s n|e gen succ s n|now s n|s s' n Hsup].
  - pose proof (start_at_ok demand now None s n H) as H'. by rewrite Hst in H'.
  - pose proof (start_at_ok demand now sp s n H) as H'. by rewrite Hst in H'.
  - by apply startup_result_ok.
  - by apply (gateway_ok now (fun d => d)).
  - by apply (gateway_ok 0 (fun d => d)).
  - by apply gateway_ok.
  - exact H.
  - by apply degrade_ok.
  - apply on_supervisor_ok; [done|]. intros sup. cbn.
    case_bool_decide as E; cbn; [|by auto]. destruct (_ =? _); cbn; [|by auto].
    split_and!; [done..|]. right. split; congruence.
  - apply on_supervisor_ok; [done|]. intros sup. cbn.
    case_bool_decide as E1; [|case_bool_decide as E2]; cbn; [| |by auto];
      (destruct (_ && _); cbn; [|by auto]; split_and!; [done..|]; right; split; congruence).
  - apply on_supervisor_ok; [done|]. intros sup. cbn. auto.
  - unfold sup_ok in *. cbn in *. by rewrite Hsup.
Qed.


(** An idle stop interrupts nothing.  The maintenance tick stops a connection
    only when it is closed already, or when no call runs on it, none is suspended
    for the client's input, no subscription uses it, and five minutes have passed
    since its last use. *)
Theorem idle_stop_safe now mul_f64 s sup :
  supervisor s = Some sup -> stopped (inner s) = false ->
  stopped (inner (maintain_slot now mul_f64 s)) = true ->
  sstate sup = Ready /\
  (closed (inner s) = Some true \/
   (handle_calls s = 0 /\ suspended_calls (inner s) = 0 /\ subscription_use sup = false /\
    Backoff.from_secs 300 <= now - last_use sup)).
Proof.
  intros Hsup Hst. unfold maintain_slot. rewrite Hsup.
  destruct (decide (sstate sup = Ready)) as [Es|Es];
    [rewrite (bool_decide_true _ Es)|rewrite (bool_decide_false _ Es); cbn; congruence].
  destruct (inner_locked s); cbn [negb orb]; [congruence|].
  destruct (decide (closed (inner s) = Some true)) as [Ec|Ec];
    [by auto|rewrite (bool_decide_false _ Ec)].
  unfold SERVER_IDLE_TIMEOUT.
  destruct (Z.leb_spec (Backoff.from_secs 300) (Z.max (now - last_use sup) 0)); cbn; [|congruence].
  destruct (Z.eqb_spec (handle_calls s) 0); cbn; [|congruence].
  destruct (Z.eqb_spec (suspended_calls (inner s)) 0); cbn; [|congruence].
  destruct (subscription_use sup) eqn:Eu; cbn; [congruence|]. intros _. split; [done|]. right.
  split_and!; try done. unfold Backoff.from_secs in *. lia.
Qed.

End slot.
End Dispatch.

(** ** Witnesses *)

Definition demo_conn : Dispatch.Conn :=
  {| Dispatch.reset_reason := None; Dispatch.closed := Some false; Dispatch.response_count := 0;
     Dispatch.suspended_calls := 0; Dispatch.multiplexes := true; Dispatch.stopped := false |}.

Definition demo_supervisor : Dispatch.Supervisor :=
  {| Dispatch.auth_target := None; Dispatch.sstate := Dispatch.Stopped;
     Dispatch.sbackoff := Reconnect.default_backoff; Dispatch.failures := 0;
     Dispatch.ever_ready := false; Dispatch.last_error := ""; Dispatch.next_attempt := 0;
     Dispatch.last_use := 0; Dispatch.last_attempt := 0; Dispatch.subscription_use := false;
     Dispatch.sready := None; Dispatch.publishing := false |}.

Definition demo_slot (sup : option Dispatch.Supervisor) : Dispatch.Slot :=
  {| Dispatch.sid := "github"; Dispatch.inner := demo_conn; Dispatch.inner_locked := false;
     Dispatch.tool_revision := 0; Dispatch.sbreaker := Breaker.default_breaker;
     Dispatch.generation := 0; Dispatch.successes := 0; Dispatch.responses := 0;
     Dispatch.handle_calls := 0; Dispatch.supervisor := sup; Dispatch.retired := false |}.

Definition demo_world : Dispatch.World (T := Z) :=
  {| Dispatch.slot := demo_slot None; Dispatch.tick := 0; Dispatch.attempts := [] |}.

(** A downstream that is rate limited once and then answers. *)
Definition demo_downstream (n : nat) : result Z Transport.TransportError :=
  if (n <? 10)%nat then Err (Transport.RateLimited None "slow down") else Ok 7.

Definition demo_call :=
  Dispatch.call_with_retry_typed (T := Z) (fun _ => "") (fun _ s => s)
    (fun n => Z.of_nat n * Backoff.from_secs 1) (fun _ => false) demo_downstream (fun _ => None)
    None (fun _ => None) (fun _ d => d) 20 false Transport.NoAmbiguousReplay
    Dispatch.Shared.

Lemma call_runs_at_most_once_witness :
  (length (Dispatch.attempts (demo_call demo_world).2) <= 4)%nat.
Proof.
  apply (Dispatch.call_runs_at_most_once (T := Z) (fun _ => "") (fun _ s => s)
    (fun n => Z.of_nat n * Backoff.from_secs 1) (fun _ => false) demo_downstream (fun _ => None)
    None (fun _ => None) (fun _ d => d) 20 false Transport.NoAmbiguousReplay
    Dispatch.Shared demo_world). reflexivity.
Defined.

Example demo_call_answers : (demo_call demo_world).1 = Ok 7.
Proof. vm_compute. reflexivity. Qed.


Definition demo_ready : Dispatch.Slot :=
  demo_slot (Some (Dispatch.set_sstate Dispatch.Ready demo_supervisor)).

Lemma idle_stop_safe_witness :
  Dispatch.handle_calls demo_ready = 0.
Proof.
  destruct (Dispatch.idle_stop_safe (Backoff.from_secs 301) (fun d => d) demo_ready
    (Dispatch.set_sstate Dispatch.Ready demo_supervisor)) as [_ [H|[H _]]];
    [reflexivity|reflexivity|vm_compute; reflexivity|discriminate H|exact H].
Defined.
