(* ===== verification/ToolNames.v ===== *)
(** Tool names (src/router.rs): the segments and aliases clients see, their bound, the
    verbs that make a tool look destructive, and the messages about blocked tools.

    SHA-256 of a serialized identity is a parameter. *)

From S2P Require Import Prelude Text Json.

Module ToolNames.

Definition underscore : string := "_".

Definition segment_char (c : string) : string :=
  if char_is_alnum c || String.eqb c "_" then c else "_".

Definition sanitize_segment (s : string) : string := concat_str (map segment_char (chars s)).

(** ** Aliases *)

Record AliasRule := mk_rule { limit : Z; dashed : bool }.

Definition default_rule : AliasRule := {| limit := 64; dashed := false |}.

#[global] Instance AliasRule_eq : EqDecision AliasRule.
Proof. solve_decision. Defined.

Definition spell (r : AliasRule) (name : string) : string :=
  if negb (dashed r) then name
  else
    let d := replace "__" "-" name in
    match strip_prefix "_" d with
    | Some rest => "-" +:+ rest
    | None => d
    end.

Definition separator (r : AliasRule) : string := if dashed r then "-" else "__".

Section digest.
(** [content_digest]: SHA-256 of the serialized identity, 32 bytes. *)
Variable content_digest : json -> list N.

Definition is_underscore (b : ascii) : bool := Stdlib.Strings.Ascii.eqb b "_".

(** [&s[..n]]: a panic off a character boundary or past the end; [None] is also the
    underflow of a budget. *)
Definition cut (s : string) (n : Z) : option string := str_slice s 0 n.

Definition bounded_alias (name : string) (identity : json) (namespace : option string)
    (rule : AliasRule) : option string :=
  let name := spell rule name in
  if slen name <=? limit rule then Some name
  else
    let suffix := to_hex (take 6 (content_digest identity)) in
    let prefix_budget := limit rule - 13 in
    let parts :=
      server ← namespace;
      let server := spell rule (sanitize_segment server) in
      tool ← strip_prefix (server +:+ separator rule) name;
      Some (server, tool) in
    prefix ←
      match parts with
      | Some (server, tool) =>
          server ← cut server (Z.min (Z.min (slen server) 24) (prefix_budget - 2));
          tool ← cut tool (Z.min (slen tool) (prefix_budget - slen server - slen (separator rule)));
          Some (server +:+ separator rule +:+ tool)
      | None => cut name prefix_budget
      end;
    let prefix := if dashed rule then trim_end_by is_underscore prefix else prefix in
    Some (prefix +:+ "_" +:+ suffix).
End digest.

(** ** Destructive tools *)

(** [split_camel_lower] on the characters of a word; [cur] is the current part. *)
Fixpoint split_camel (cur : list string) (cs : list string) : list string :=
  match cs with
  | [] => match cur with [] => [] | _ => [to_ascii_lowercase (concat_str cur)] end
  | ch :: rest =>
      match rest with
      | next :: _ =>
          if negb (bool_decide (cur = [])) && char_is_lower ch && char_is_upper next
          then to_ascii_lowercase (concat_str (cur ++ [ch])) :: split_camel [] rest
          else split_camel (cur ++ [ch]) rest
      | [] => split_camel (cur ++ [ch]) rest
      end
  end.

Definition split_camel_lower (word : list string) : list string := split_camel [] word.

Definition WRITE_VERBS : list string :=
  ["create"; "delete"; "destroy"; "drop"; "execute"; "insert"; "move"; "patch"; "post"; "publish";
   "remove"; "rename"; "replace"; "run"; "send"; "truncate"; "update"; "upload"; "write"].

Definition name_looks_destructive (name : string) : bool :=
  existsb (fun t => listed t WRITE_VERBS)
    (flat_map split_camel_lower (split_chars (fun c => negb (char_is_alnum c)) (chars name))).

(** The hint [key] of a tool: in its annotations, else at its top level. *)
Definition read_hint (tool : json) (key : string) : option bool :=
  match (a ← get "annotations" tool; v ← get key a; as_bool v) with
  | Some hint => Some hint
  | None => v ← get key tool; as_bool v
  end.

Definition is_destructive (tool : json) : bool :=
  match read_hint tool "destructiveHint" with
  | Some hint => hint
  | None =>
      match (n ← get "name" tool; as_str n) with
      | Some name => name_looks_destructive name
      | None => false
      end
  end.

(** ** Messages *)

Definition blocked_tool_message (name reason : string) : string :=
  let '(why, where_to) :=
    if String.eqb reason "outside this client's tool scope" then ("turned off for this client", "Clients")
    else if String.eqb reason "disabled" then ("turned off", "Servers")
    else if String.eqb reason "on a server that is turned off"
    then ("on a server that is turned off", "Servers")
    else if String.eqb reason "blocked by the destructive-tool policy"
    then ("destructive and blocked by Strict safety", "Settings")
    else if String.eqb reason "quarantined after a high-risk change; re-approve to restore"
    then ("quarantined after a tool change", "Settings > Quarantined tools")
    else (reason, "Settings") in
  let action := if String.eqb where_to "Settings > Quarantined tools" then "Review it"
                else "Change it" in
  "Blocked by Toolport: " +:+ name +:+ " is " +:+ why +:+ ". " +:+ action +:+ " in Toolport > " +:+
  where_to +:+ ".".

(** One cell per byte of [b]: the row of edit distances to its prefixes. *)
Fixpoint distance_row (x : ascii) (b : list ascii) (diagonal before : Z) (row : list Z) :
    list Z :=
  match b, row with
  | y :: b, previous :: row =>
      let cell := Z.min (Z.min (diagonal + (if Stdlib.Strings.Ascii.eqb x y then 0 else 1))
                           (before + 1)) (previous + 1) in
      cell :: distance_row x b previous cell row
  | _, _ => []
  end.

Fixpoint distance_loop (i : Z) (a b : list ascii) (row : list Z) : list Z :=
  match a with
  | [] => row
  | x :: a =>
      match row with
      | diagonal :: rest => distance_loop (i + 1) a b ((i + 1) :: distance_row x b diagonal (i + 1) rest)
      | [] => []
      end
  end.

Definition usize_max : Z := u64_max.

Definition alias_distance (a b : string) : Z :=
  if (3 <? Z.abs (slen a - slen b)) || (128 <? slen a) || (128 <? slen b) then usize_max
  else
    default usize_max
      (last (distance_loop 0 (String.list_ascii_of_string a) (String.list_ascii_of_string b)
        (map Z.of_nat (seq 0 (S (String.length b)))))).
(** ** The charset of a segment *)

(** What a client accepts in a function name; [-] only under a dashed rule. *)
Definition name_byte (with_dash : bool) (b : ascii) : bool :=
  is_alnum b || is_underscore b || (with_dash && Stdlib.Strings.Ascii.eqb b "-").

Lemma name_byte_ascii d b : name_byte d b = true -> (N_of_ascii b <? 128)%N = true.
Proof.
  unfold name_byte, is_alnum, is_digit, is_upper, is_lower, byte_in, is_underscore. intros H.
  apply N.ltb_lt. repeat (apply orb_prop in H as [H|H]);
    try (apply andb_prop in H as [_ H]; apply N.leb_le in H; lia).
  - apply Ascii.eqb_eq in H as ->. done.
  - apply andb_prop in H as [_ H]. apply Ascii.eqb_eq in H as ->. done.
Qed.

Lemma all_name_ascii d s : all_bytes (name_byte d) s = true -> is_ascii s = true.
Proof.
  induction s as [|b s IH]; [done|]. cbn. intros [Hb Hs]%andb_prop.
  by rewrite (name_byte_ascii _ _ Hb), IH.
Qed.

Lemma name_byte_dash b : name_byte false b = true -> name_byte true b = true.
Proof. unfold name_byte. cbn [andb]. rewrite orb_false_r. by intros ->. Qed.

Lemma segment_char_bytes c :
  all_bytes (name_byte false) (segment_char c) = true /\ slen (segment_char c) = 1.
Proof.
  unfold segment_char. destruct (String.eqb_spec c "_") as [->|E]; [by rewrite orb_true_r|].
  rewrite orb_false_r. destruct (char_is_alnum c) eqn:Hc; [|done].
  destruct c as [|b [|]]; cbn in Hc; try done. cbn. unfold name_byte. by rewrite Hc.
Qed.

Lemma sanitize_segment_bytes s :
  all_bytes (name_byte false) (sanitize_segment s) = true /\
  slen (sanitize_segment s) = Z.of_nat (length (chars s)).
Proof.
  unfold sanitize_segment. induction (chars s) as [|c cs [IH1 IH2]]; [done|].
  cbn [map concat_str foldr length]. fold (concat_str (map segment_char cs)).
  destruct (segment_char_bytes c) as [H1 H2]. rewrite all_bytes_app, slen_app, H1, IH1. split; [done|lia].
Qed.

(** ** Spelling under a dashed rule *)

Definition dash (s : string) : string := replace "__" "-" s.
Definition undash (s : string) : string := replace "-" "__" s.

Fixpoint no_dunder (s : string) : bool :=
  match s with
  | String "_" (String "_" _) => false
  | String _ s => no_dunder s
  | EmptyString => true
  end.

Definition starts_underscore (s : string) : bool := starts_with "_" s.

Lemma starts_underscore_cons c s : starts_underscore (String c s) = is_underscore c.
Proof.
  unfold starts_underscore, starts_with, is_underscore. cbn [String.prefix].
  destruct (Ascii.ascii_dec "_" c) as [<-|Hc]; [by destruct s|].
  destruct (Ascii.eqb_spec c "_"); congruence.
Qed.

Lemma no_dunder_cons b s :
  no_dunder (String b s) = negb (is_underscore b && starts_underscore s) && no_dunder s.
Proof.
  destruct s as [|c s]; [by destruct b as [[] [] [] [] [] [] [] []]|].
  rewrite starts_underscore_cons.
  destruct b as [[] [] [] [] [] [] [] []]; try done.
  destruct c as [[] [] [] [] [] [] [] []]; done.
Qed.

Lemma dash_pair s : dash (String "_" (String "_" s)) = String "-" (dash s).
Proof. unfold dash, replace. cbn. by destruct s. Qed.

Lemma dash_one b s :
  is_underscore b && starts_underscore s = false -> dash (String b s) = String b (dash s).
Proof.
  intros H. unfold dash, replace. cbn [replace_skip].
  replace (starts_with "__" (String b s)) with false; [done|].
  unfold starts_with. cbn [String.prefix].
  destruct (Ascii.ascii_dec "_" b) as [<-|]; [|done]. cbn [andb is_underscore] in H.
  symmetry. exact H.
Qed.

Lemma dash_ind (P : string -> Prop) :
  P "" -> (forall s, P s -> P (String "_" (String "_" s))) ->
  (forall b s, is_underscore b && starts_underscore s = false -> P s -> P (String b s)) ->
  forall s, P s.
Proof.
  intros H0 Hp H1 s. remember (String.length s) as n eqn:Hn.
  revert s Hn. induction n as [n IH] using lt_wf_ind. intros s ->.
  destruct s as [|b s]; [done|].
  destruct (is_underscore b && starts_underscore s) eqn:E.
  - apply andb_prop in E as [Hb Hs]. apply Ascii.eqb_eq in Hb as ->.
    destruct s as [|c s]; [done|]. rewrite starts_underscore_cons in Hs.
    apply Ascii.eqb_eq in Hs as ->.
    apply Hp, (IH (String.length s)); [cbn; lia|done].
  - apply H1; [done|]. apply (IH (String.length s)); [cbn; lia|done].
Qed.

Lemma dash_starts s : starts_underscore (dash s) = true -> starts_underscore s = true.
Proof.
  induction s as [|s _|b s E _] using dash_ind; [done|done|].
  rewrite dash_one by done. by rewrite !starts_underscore_cons.
Qed.

Lemma dash_no_dunder s : no_dunder (dash s) = true.
Proof.
  induction s as [|s IH|b s E IH] using dash_ind; [done| |].
  - rewrite dash_pair, no_dunder_cons. by rewrite IH.
  - rewrite dash_one, no_dunder_cons, IH, andb_true_r by done. apply negb_true_iff.
    destruct (is_underscore b); [|done]. cbn in *.
    destruct (starts_underscore (dash s)) eqn:D; [|done]. apply dash_starts in D. congruence.
Qed.

Lemma dash_bytes s : all_bytes (name_byte true) s = true -> all_bytes (name_byte true) (dash s) = true.
Proof.
  induction s as [|s IH|b s E IH] using dash_ind; [done| |].
  - intros H. rewrite dash_pair. exact (IH H).
  - intros [Hb Hs]%andb_prop. rewrite dash_one by done. cbn. by rewrite Hb, IH.
Qed.

Lemma undash_cons b s :
  undash (String b s) = (if Stdlib.Strings.Ascii.eqb b "-" then "__" else String b "") +:+ undash s.
Proof.
  unfold undash, replace. cbn [replace_skip]. unfold starts_with. cbn [String.prefix].
  destruct (Ascii.ascii_dec "-" b) as [<-|Hb].
  - by destruct s.
  - destruct (Ascii.eqb_spec b "-"); [congruence|done].
Qed.

Lemma undash_dash s : all_bytes (name_byte false) s = true -> undash (dash s) = s.
Proof.
  induction s as [|s IH|b s E IH] using dash_ind; [done| |].
  - intros Hs. rewrite dash_pair, undash_cons. cbn. f_equal. f_equal. by apply IH.
  - intros [Hb Hs]%andb_prop. rewrite dash_one, undash_cons, IH by done.
    destruct (Ascii.eqb_spec b "-") as [->|]; [done|]. done.
Qed.

Lemma dash_length s : (String.length (dash s) <= String.length s)%nat.
Proof.
  induction s as [|s IH|b s E IH] using dash_ind; [done| |].
  - rewrite dash_pair. cbn. lia.
  - rewrite dash_one by done. cbn. lia.
Qed.

(** ** Cuts *)

Lemma no_dunder_prefix a b : no_dunder (a +:+ b) = true -> no_dunder a = true.
Proof.
  induction a as [|x a IH]; [done|]. change (String x a +:+ b) with (String x (a +:+ b)).
  rewrite !no_dunder_cons. intros [H1 H2]%andb_prop. rewrite IH by done. rewrite andb_true_r.
  destruct a as [|y a]; [by rewrite andb_false_r|].
  change (String y a +:+ b) with (String y (a +:+ b)) in H1. by rewrite starts_underscore_cons in *.
Qed.

Lemma no_dunder_suffix a b : no_dunder (a +:+ b) = true -> no_dunder b = true.
Proof.
  induction a as [|x a IH]; [done|]. change (String x a +:+ b) with (String x (a +:+ b)).
  rewrite no_dunder_cons. intros [_ H]%andb_prop. by apply IH.
Qed.

(** Joining two parts is safe unless both touch with an underscore. *)
Lemma no_dunder_app a b :
  no_dunder a = true -> no_dunder b = true ->
  starts_underscore b = false \/ trim_end_by is_underscore a = a -> no_dunder (a +:+ b) = true.
Proof.
  induction a as [|x a IH]; [done|]. change (String x a +:+ b) with (String x (a +:+ b)).
  rewrite !no_dunder_cons. intros [Hx Ha]%andb_prop Hb Hj.
  assert (Hja : starts_underscore b = false \/ trim_end_by is_underscore a = a).
  { destruct Hj as [Hj|Hj]; [by left|right]. cbn in Hj.
    destruct (trim_end_by is_underscore a) as [|c t] eqn:E; [|congruence].
    destruct a; [done|]. by destruct (is_underscore x). }
  rewrite IH, andb_true_r by done. destruct a as [|y a].
  - cbn [String.append]. destruct Hj as [->|Hj]; [by rewrite andb_false_r|].
    cbn in Hj. by destruct (is_underscore x).
  - change (String y a +:+ b) with (String y (a +:+ b)). by rewrite starts_underscore_cons in *.
Qed.

Lemma trim_end_by_spec p s : exists t, s = trim_end_by p s +:+ t.
Proof.
  induction s as [|b s [t IH]]; [by exists ""|]. cbn.
  destruct (trim_end_by p s) as [|c r] eqn:E.
  - cbn in IH. subst t. destruct (p b); [by exists (String b s)|by exists s].
  - exists t. cbn in *. congruence.
Qed.

Lemma trim_end_by_idem p s : trim_end_by p (trim_end_by p s) = trim_end_by p s.
Proof.
  induction s as [|b s IH]; [done|]. cbn.
  destruct (trim_end_by p s) as [|c r] eqn:E.
  - destruct (p b) eqn:B; [done|]. cbn. by rewrite B.
  - cbn in *. by rewrite IH.
Qed.

Lemma trim_end_by_nonempty p b s : p b = false -> trim_end_by p (String b s) <> "".
Proof. cbn. intros ->. by destruct (trim_end_by p s). Qed.

Lemma hex_bytes l : Forall (fun b => (b < 256)%N) l -> all_bytes (name_byte false) (to_hex l) = true.
Proof.
  assert (H16 : forall n, (n < 16)%N -> name_byte false (hex_digit n) = true).
  { intros n Hn. assert (Hin : In n (map N.of_nat (seq 0 16))).
    { apply in_map_iff. exists (N.to_nat n). split; [lia|]. apply in_seq. lia. }
    cbn in Hin. repeat (destruct Hin as [<-|Hin]; [done|]). done. }
  induction 1 as [|b l Hb _ IH]; [done|]. unfold to_hex in *. cbn [foldr all_bytes].
  rewrite !H16, IH; [done| |]; [apply N.mod_lt; lia|apply N.Div0.div_lt_upper_bound; lia].
Qed.

Lemma hex_no_dunder l : Forall (fun b => (b < 256)%N) l -> no_dunder (to_hex l) = true /\ starts_underscore (to_hex l) = false.
Proof.
  assert (H16 : forall n, (n < 16)%N -> is_underscore (hex_digit n) = false).
  { intros n Hn. assert (Hin : In n (map N.of_nat (seq 0 16))).
    { apply in_map_iff. exists (N.to_nat n). split; [lia|]. apply in_seq. lia. }
    cbn in Hin. repeat (destruct Hin as [<-|Hin]; [done|]). done. }
  induction 1 as [|b l Hb _ [IH _]]; [done|]. unfold to_hex in *. cbn [foldr].
  assert (H1 : is_underscore (hex_digit (b / 16)) = false)
    by (apply H16, N.Div0.div_lt_upper_bound; lia).
  assert (H2 : is_underscore (hex_digit (b mod 16)) = false) by (apply H16, N.mod_lt; lia).
  rewrite !no_dunder_cons, !starts_underscore_cons, H1, H2, IH. done.
Qed.

(** ** What an alias looks like *)

(** A name as the client sees it: its charset, and no [__] or leading [_] under a dashed
    rule. *)
Definition spelled (r : AliasRule) (s : string) : Prop :=
  all_bytes (name_byte (dashed r)) s = true /\
  (dashed r = true -> no_dunder s = true /\ starts_underscore s = false).

Lemma spell_spelled r name : all_bytes (name_byte false) name = true -> spelled r (spell r name).
Proof.
  intros Hn. unfold spelled, spell. destruct (dashed r) eqn:Hd; cbn [negb]; [|by split].
  assert (Hb : all_bytes (name_byte true) name = true)
    by (apply (all_bytes_impl (name_byte false)); [apply name_byte_dash|done]).
  fold (dash name). pose proof (dash_bytes _ Hb) as Hdb. pose proof (dash_no_dunder name) as Hdn.
  destruct (strip_prefix "_" (dash name)) as [rest|] eqn:E.
  - apply strip_prefix_spec in E. rewrite E in Hdb, Hdn. cbn [String.append all_bytes] in *.
    apply andb_prop in Hdb as [_ Hr]. apply no_dunder_suffix with (a := "_") in Hdn.
    split; [by rewrite Hr|]. intros _. by rewrite no_dunder_cons, Hdn, starts_underscore_cons.
  - split; [done|]. intros _. split; [done|]. unfold starts_underscore, starts_with.
    destruct (String.prefix "_" (dash name)) eqn:P; [|done].
    apply prefix_spec in P as [rest P]. apply (strip_prefix_spec "_") in P. congruence.
Qed.

Lemma spell_length r name : slen (spell r name) <= slen name.
Proof.
  unfold spell. destruct (dashed r); cbn [negb]; [|lia]. pose proof (dash_length name) as Hd.
  unfold slen. fold (dash name). destruct (strip_prefix "_" (dash name)) as [rest|] eqn:E; [|lia].
  apply strip_prefix_spec in E. rewrite E in Hd. cbn in *. lia.
Qed.

(** What cutting a name keeps: everything but the check of its first byte. *)
Definition tame (r : AliasRule) (s : string) : Prop :=
  all_bytes (name_byte (dashed r)) s = true /\ (dashed r = true -> no_dunder s = true).

Lemma spelled_tame r s : spelled r s -> tame r s.
Proof. intros [Hb Hd]. split; [done|]. intros D. by apply Hd. Qed.

Lemma tame_app r a b : tame r (a +:+ b) -> tame r a /\ tame r b.
Proof.
  intros [Hb Hd]. rewrite all_bytes_app in Hb. apply andb_prop in Hb as [Ha Hb].
  split; (split; [done|]); intros D; specialize (Hd D);
    [by apply no_dunder_prefix in Hd|by apply no_dunder_suffix in Hd].
Qed.

Lemma tame_cut r n s : tame r s -> tame r (take_bytes n s).
Proof. rewrite <- (take_drop_bytes n s) at 1. by intros [H _]%tame_app. Qed.

Lemma tame_ascii r s : tame r s -> is_ascii s = true.
Proof. intros [H _]. by apply all_name_ascii in H. Qed.

Lemma take_bytes_nonempty n s : (0 < n)%nat -> s <> "" -> take_bytes n s <> "".
Proof. destruct n, s; try done; lia. Qed.

Lemma take_bytes_starts n s : (0 < n)%nat -> starts_underscore (take_bytes n s) = starts_underscore s.
Proof.
  destruct n as [|n]; [lia|]. destruct s as [|b s]; [done|]. intros _.
  by rewrite take_bytes_cons, !starts_underscore_cons.
Qed.

Lemma cut_ascii s n :
  is_ascii s = true -> 0 <= n <= slen s ->
  cut s n = Some (take_bytes (Z.to_nat n) s) /\ slen (take_bytes (Z.to_nat n) s) = n.
Proof.
  intros Ha Hn. unfold cut. rewrite str_slice_ascii by done. split; [done|].
  unfold slen in *. rewrite take_bytes_length. lia.
Qed.

Section shape.
Context (content_digest : json -> list N)
  (digest_bytes : forall v, Forall (fun b => (b < 256)%N) (content_digest v)).

Definition alias_suffix (identity : json) : string := to_hex (take 6 (content_digest identity)).

Lemma alias_suffix_facts identity :
  all_bytes (name_byte false) (alias_suffix identity) = true /\
  no_dunder (alias_suffix identity) = true /\
  starts_underscore (alias_suffix identity) = false /\ slen (alias_suffix identity) <= 12.
Proof.
  unfold alias_suffix. assert (Hb := Forall_take _ 6 _ (digest_bytes identity)).
  destruct (hex_no_dunder _ Hb). split; [by apply hex_bytes|]. split; [done|]. split; [done|].
  unfold slen. rewrite to_hex_length, length_take. lia.
Qed.

(** The readable part a long alias keeps. *)
Definition kept_part (r : AliasRule) (p : string) : Prop :=
  spelled r p /\ p <> "" /\ slen p <= limit r - 13.

Lemma kept_join r name server tool :
  16 <= limit r -> spelled r name -> name = server +:+ separator r +:+ tool ->
  exists p q, cut server (Z.min (Z.min (slen server) 24) (limit r - 13 - 2)) = Some p /\
    cut tool (Z.min (slen tool) (limit r - 13 - slen p - slen (separator r))) = Some q /\
    kept_part r (p +:+ separator r +:+ q).
Proof.
  intros Hl Hs Hn. pose proof (slen_nonneg server). pose proof (slen_nonneg tool).
  assert (Ht := spelled_tame _ _ Hs). rewrite Hn in Ht.
  apply tame_app in Ht as [Hts Htt]. apply tame_app in Htt as [Hsep Htt].
  set (k := Z.min (Z.min (slen server) 24) (limit r - 13 - 2)).
  destruct (cut_ascii server k (tame_ascii _ _ Hts)) as [-> Hk]; [lia|].
  set (p := take_bytes (Z.to_nat k) server) in *. exists p.
  assert (Hlen : slen (separator r) <= 2) by (unfold separator; by destruct (dashed r)).
  set (n := Z.min (slen tool) (limit r - 13 - slen p - slen (separator r))).
  destruct (cut_ascii tool n (tame_ascii _ _ Htt)) as [-> Hq]; [lia|].
  set (q := take_bytes (Z.to_nat n) tool) in *. exists q.
  split; [done|]. split; [done|].
  destruct (tame_cut _ (Z.to_nat k) _ Hts) as [Hp1 Hp2]. fold p in Hp1, Hp2.
  destruct (tame_cut _ (Z.to_nat n) _ Htt) as [Hq1 Hq2]. fold q in Hq1, Hq2.
  split; [|split; [|rewrite !slen_app; lia]].
  2: { destruct p; [|done]. unfold separator. by destruct (dashed r). }
  split; [rewrite !all_bytes_app, Hp1, Hq1; by destruct Hsep as [-> _]|].
  intros D. specialize (Hp2 D). specialize (Hq2 D). destruct Hs as [_ Hs]. destruct (Hs D) as [_ Hst].
  unfold separator in *. rewrite D in *. cbn [String.append] in *. split.
  - apply no_dunder_app; [done| |by left]. by rewrite no_dunder_cons, Hq2.
  - destruct server as [|b server].
    + assert (p = "") as -> by (unfold p, take_bytes; by destruct (Z.to_nat k)).
      cbn [String.append]. by rewrite starts_underscore_cons.
    + rewrite Hn in Hst. change (String b server +:+ String "-" tool) with (String b (server +:+ String "-" tool)) in Hst.
      unfold p. assert (0 < k) by (unfold k; rewrite slen_cons; pose proof (slen_nonneg server); lia).
      destruct (Z.to_nat k) as [|k'] eqn:K; [lia|]. rewrite take_bytes_cons.
      change (String b (take_bytes k' server) +:+ String "-" q) with (String b (take_bytes k' server +:+ String "-" q)).
      by rewrite starts_underscore_cons in *.
Qed.

Lemma kept_cut r name :
  16 <= limit r < slen name -> spelled r name ->
  exists p, cut name (limit r - 13) = Some p /\ kept_part r p.
Proof.
  intros Hl Hs. assert (Ht := spelled_tame _ _ Hs).
  destruct (cut_ascii name (limit r - 13) (tame_ascii _ _ Ht)) as [-> Hk]; [lia|].
  eexists. split; [done|]. destruct (tame_cut _ (Z.to_nat (limit r - 13)) _ Ht) as [H1 H2].
  destruct Hs as [_ Hs]. split; [|split; [|lia]].
  - split; [done|]. intros D. rewrite take_bytes_starts by lia. by split; [apply H2|apply Hs].
  - apply take_bytes_nonempty; [lia|]. intros ->. unfold slen in Hl. cbn in Hl. lia.
Qed.

(** Joining the digest to the readable part, without an underscore before the joint under
    a dashed rule. *)
Lemma joined_suffix r p identity :
  kept_part r p ->
  exists p', Some ((if dashed r then trim_end_by is_underscore p else p) +:+ "_" +:+ alias_suffix identity) =
      Some (p' +:+ "_" +:+ alias_suffix identity) /\
    slen (p' +:+ "_" +:+ alias_suffix identity) <= limit r /\
    spelled r (p' +:+ "_" +:+ alias_suffix identity).
Proof.
  intros ([Hb Hd] & Hne & Hl). destruct (alias_suffix_facts identity) as (Sb & Sn & Ss & Sl).
  set (p' := if dashed r then trim_end_by is_underscore p else p). exists p'. split; [done|].
  assert (Hp : exists t, p = p' +:+ t).
  { unfold p'. destruct (dashed r); [apply trim_end_by_spec|]. exists "". by rewrite append_empty_r. }
  destruct Hp as [t Hp]. assert (Ht : tame r (p' +:+ t)) by (rewrite <- Hp; split; [done|]; intros D; by apply Hd).
  apply tame_app in Ht as [[Hb' Hn'] _]. split.
  - rewrite !slen_app. assert (slen p = slen p' + slen t) by (by rewrite <- slen_app, <- Hp).
    pose proof (slen_nonneg t). change (slen "_") with 1. lia.
  - assert (Sb' : all_bytes (name_byte (dashed r)) (alias_suffix identity) = true).
    { destruct (dashed r); [|done]. apply (all_bytes_impl (name_byte false)); [apply name_byte_dash|done]. }
    split; [rewrite !all_bytes_app, Hb', Sb'; cbn; unfold name_byte; cbn; by rewrite ?orb_true_r|].
    intros D. specialize (Hn' D). destruct (Hd D) as [_ Hst]. split.
    + apply no_dunder_app; [done| |].
      * change ("_" +:+ alias_suffix identity) with (String "_" (alias_suffix identity)).
        rewrite no_dunder_cons, Ss, Sn. done.
      * right. unfold p'. rewrite D. apply trim_end_by_idem.
    + destruct p as [|b p]; [done|]. rewrite starts_underscore_cons in Hst.
      unfold p'. rewrite D. pose proof (trim_end_by_nonempty is_underscore b p Hst) as Hx.
      destruct (trim_end_by_spec is_underscore (String b p)) as [u Hu].
      destruct (trim_end_by is_underscore (String b p)) as [|c v]; [done|].
      cbn in Hu. injection Hu as <- _.
      change (String b v +:+ "_" +:+ alias_suffix identity) with (String b (v +:+ "_" +:+ alias_suffix identity)).
      by rewrite starts_underscore_cons.
Qed.

(** A short name keeps its spelling; a long one keeps a readable part and takes the
    digest of its identity. Either way the limit and the spelling hold. *)
Lemma bounded_alias_spec name identity ns r :
  all_bytes (name_byte false) name = true -> 16 <= limit r ->
  (slen (spell r name) <= limit r /\
   bounded_alias content_digest name identity ns r = Some (spell r name)) \/
  (limit r < slen (spell r name) /\
   exists p, bounded_alias content_digest name identity ns r = Some (p +:+ "_" +:+ alias_suffix identity) /\
     slen (p +:+ "_" +:+ alias_suffix identity) <= limit r /\
     spelled r (p +:+ "_" +:+ alias_suffix identity)).
Proof.
  intros Hn Hl. pose proof (spell_spelled r _ Hn) as Hs. unfold bounded_alias.
  destruct (Z.leb_spec (slen (spell r name)) (limit r)) as [Hle|Hgt]; [by left|right]. split; [done|].
  fold (alias_suffix identity).
  set (parts := server ← ns; _).
  assert (Hpre : exists p, match parts with
      | Some (server, tool) =>
          server ← cut server (Z.min (Z.min (slen server) 24) (limit r - 13 - 2));
          tool ← cut tool (Z.min (slen tool) (limit r - 13 - slen server - slen (separator r)));
          Some (server +:+ separator r +:+ tool)
      | None => cut (spell r name) (limit r - 13)
      end = Some p /\ kept_part r p).
  { destruct parts as [[server tool]|] eqn:E; [|by apply kept_cut].
    unfold parts in E. destruct ns as [ns|]; [|done]. cbn in E.
    destruct (strip_prefix (spell r (sanitize_segment ns) +:+ separator r) (spell r name)) as [t|] eqn:S;
      [|done]. cbn in E. injection E as <- <-. apply strip_prefix_spec in S.
    destruct (kept_join r (spell r name) (spell r (sanitize_segment ns)) t Hl Hs) as (p & q & H1 & H2 & H3);
      [by rewrite S, app_str_assoc|].
    exists (p +:+ separator r +:+ q). split; [|done]. rewrite H1. cbn. by rewrite H2. }
  destruct Hpre as (p & Hp & Hk). rewrite Hp. cbn.
  by apply joined_suffix.
Qed.
End shape.

(** ** Reading a dashed alias back *)

(** A short dashed name can be read back, unless it began with an underscore. *)
Lemma spell_reversible r name :
  all_bytes (name_byte false) name = true -> starts_underscore name = false -> dashed r = true ->
  undash (spell r name) = name.
Proof.
  intros Hn Hs Hd. unfold spell. rewrite Hd. cbn [negb]. fold (dash name).
  destruct (strip_prefix "_" (dash name)) as [rest|] eqn:E.
  - apply strip_prefix_spec in E. assert (D : starts_underscore (dash name) = true).
    { rewrite E. cbn [String.append]. by rewrite starts_underscore_cons. }
    apply dash_starts in D. congruence.
  - by apply undash_dash.
Qed.

(** But the first [-] ends the server prefix only when the server's own segment has no
    [__]: here it ends inside the server's. *)
Example first_dash_in_server :
  spell {| limit := 64; dashed := true |} (sanitize_segment "a--b" +:+ "__" +:+ "tool") = "a-b-tool".
Proof. reflexivity. Qed.

(** ** Properties *)

(** Every alias is one its client accepts: making it never panics, it is at most [limit]
    bytes, holds only letters, digits, [_] and (under a dashed rule) [-], and under a
    dashed rule neither holds [__] nor starts with [_]. *)
Theorem alias_fits_client content_digest name identity namespace rule :
  (forall v, Forall (fun b => (b < 256)%N) (content_digest v)) ->
  all_bytes (name_byte false) name = true -> 16 <= limit rule ->
  exists alias, bounded_alias content_digest name identity namespace rule = Some alias /\
    slen alias <= limit rule /\ all_bytes (name_byte (dashed rule)) alias = true /\
    (dashed rule = true -> no_dunder alias = true /\ starts_with "_" alias = false).
Proof.
  intros Hd Hn Hl.
  destruct (bounded_alias_spec content_digest Hd name identity namespace rule Hn Hl)
    as [[Hs ->]|(_ & p & -> & Hp & [Hb Hu])]; eexists; (split; [reflexivity|]); [|done].
  destruct (spell_spelled rule _ Hn). done.
Qed.

Definition demo_digest (v : json) : list N := repeat 171%N 32.

Definition demo_name : string :=
  sanitize_segment "my.server" +:+ "__" +:+ sanitize_segment (concat_str (repeat "read_" 14)).

Lemma alias_fits_client_witness :
  exists alias, bounded_alias demo_digest demo_name JNull (Some "my.server") {| limit := 52; dashed := true |} = Some alias /\
    alias = "my_server-read_read_read_read_read_read_abababababab" /\ slen alias <= 52 /\
    no_dunder alias = true.
Proof.
  destruct (alias_fits_client demo_digest demo_name JNull (Some "my.server") {| limit := 52; dashed := true |})
    as (alias & H & Hl & _ & Hd).
  - intros v. unfold demo_digest. repeat constructor.
  - by vm_compute.
  - cbn. lia.
  - exists alias. split; [exact H|]. split; [|split; [exact Hl|by apply Hd]].
    vm_compute in H. congruence.
Defined.
End ToolNames.
