(* ===== verification/UriTemplate.v ===== *)
(** Resource templates (src/router.rs): whether a URI is an expansion of the template a
    server advertised, by the pattern the code compiles and its backtracking matcher.

    A text is the list of its characters here. The recursion of the matcher is bounded by
    the length of the pattern, which the theorem shows is enough. *)

From S2P Require Import Prelude Text.

Module UriTemplate.

Definition MAX_URI_MATCH_LEN : Z := 8192.
Definition MAX_TEMPLATE_MATCH_LEN : Z := 1024.

Definition is_special (c : string) : bool :=
  listed c ["."; "+"; "*"; "?"; "^"; "$"; "("; ")"; "["; "]"; "{"; "}"; "|"; "\"].

Definition escape (c : string) : list string := if is_special c then ["\"; c] else [c].

(** [str::find] of a character, and the parts around its first occurrence. *)
Fixpoint find_char (c : string) (l : list string) : option (list string * list string) :=
  match l with
  | [] => None
  | x :: l =>
      if String.eqb x c then Some ([], l)
      else '(before, after) ← find_char c l; Some (x :: before, after)
  end.

Definition segment_var : list string := ["["; "^"; "/"; "]"; "+"].
Definition rest_var : list string := ["."; "+"].

Definition reserved_expr (expr : list string) : bool :=
  match expr with c :: _ => String.eqb c "+" || String.eqb c "#" | [] => false end.

(** The loop of [uri_matches_template] over the template; [None] is its [return false]. *)
Fixpoint pattern_of (fuel : nat) (rest : list string) : option (list string) :=
  match fuel with
  | O => None
  | S fuel =>
      match find_char "{" rest with
      | None => Some (flat_map escape rest)
      | Some (literal, after_open) =>
          '(expr, rest) ← find_char "}" after_open;
          body ← pattern_of fuel rest;
          Some (flat_map escape literal ++
                (if reserved_expr expr then rest_var else segment_var) ++ body)
      end
  end.

Fixpoint strip_chars (p l : list string) : option (list string) :=
  match p, l with
  | [], _ => Some l
  | x :: p, y :: l => if String.eqb x y then strip_chars p l else None
  | _ :: _, [] => None
  end.

(** How many characters a variable may take, longest first. *)
Definition char_end_offsets (l : list string) : list nat := rev (seq 1 (length l)).

Definition before_slash (text : list string) : list string :=
  match find_char "/" text with Some (before, _) => before | None => text end.

Definition starts_slash (text : list string) : bool :=
  match text with c :: _ => String.eqb c "/" | [] => false end.

Fixpoint match_simple_pattern (fuel : nat) (pattern text : list string) : bool :=
  match fuel with
  | O => false
  | S fuel =>
      match pattern with
      | [] => match text with [] => true | _ => false end
      | _ =>
          match strip_chars segment_var pattern with
          | Some rest =>
              if bool_decide (text = []) || starts_slash text then false
              else existsb (fun take => match_simple_pattern fuel rest (drop take text))
                     (char_end_offsets (before_slash text))
          | None =>
              match strip_chars rest_var pattern with
              | Some rest =>
                  existsb (fun take => match_simple_pattern fuel rest (drop take text))
                    (char_end_offsets text)
              | None =>
                  let next := match pattern with
                              | p :: rest =>
                                  if String.eqb p "\"
                                  then match rest with c :: rest => Some (c, rest) | [] => None end
                                  else Some (p, rest)
                              | [] => None
                              end in
                  match next, text with
                  | Some (c, rest), c' :: text =>
                      if String.eqb c' c then match_simple_pattern fuel rest text else false
                  | _, _ => false
                  end
              end
          end
      end
  end.

(** The anchors are stripped from the pattern before it is matched. *)
Definition regex_is_match (pattern text : list string) : bool :=
  let inner :=
    default pattern
      (p ← strip_chars ["^"] pattern; p ← strip_chars ["$"] (rev p); Some (rev p)) in
  match_simple_pattern (S (length inner)) inner text.

Definition uri_matches_template (uri template : string) : bool :=
  if (MAX_URI_MATCH_LEN <? slen uri) || (MAX_TEMPLATE_MATCH_LEN <? slen template) then false
  else if negb (bool_decide ("{" ∈ chars template)) then String.eqb uri template
  else
    match pattern_of (S (length (chars template))) (chars template) with
    | Some body => regex_is_match ("^" :: body ++ ["$"]) (chars uri)
    | None => false
    end.

(** ** What an expansion is *)

(** A variable stands for one non-empty path segment, a reserved one ([{+x}], [{#x}]) for
    any non-empty text. *)
Inductive expands : list string -> list string -> Prop :=
| expands_nil : expands [] []
| expands_literal c t u : c <> "{" -> expands t u -> expands (c :: t) (c :: u)
| expands_segment expr v t u :
    "}" ∉ expr -> reserved_expr expr = false -> v <> [] -> "/" ∉ v -> expands t u ->
    expands ("{" :: expr ++ "}" :: t) (v ++ u)
| expands_reserved expr v t u :
    "}" ∉ expr -> reserved_expr expr = true -> v <> [] -> expands t u ->
    expands ("{" :: expr ++ "}" :: t) (v ++ u).

Example expands_demo : uri_matches_template "file:///a/b.txt" "file:///{dir}/{name}.txt" = true.
Proof. by vm_compute. Qed.

(** ** The matcher *)

Lemma strip_chars_spec p l r : strip_chars p l = Some r <-> l = p ++ r.
Proof.
  revert l. induction p as [|x p IH]; intros l.
  - cbn. split; [by intros [= ->]|by intros ->].
  - destruct l as [|y l]; cbn; [done|]. destruct (String.eqb_spec x y) as [->|Hne].
    + rewrite IH. split; [by intros ->|by intros [= ->]].
    + split; [done|]. intros [= ->]. done.
Qed.

Lemma strip_chars_head x p y l : x <> y -> strip_chars (x :: p) (y :: l) = None.
Proof. intros H. cbn. by destruct (String.eqb_spec x y). Qed.

Lemma existsb_ext {A} (f g : A -> bool) l : (forall x, f x = g x) -> existsb f l = existsb g l.
Proof. intros H. induction l as [|x l IH]; [done|]. cbn. by rewrite H, IH. Qed.

(** Fuel beyond the length of the pattern changes nothing. *)
Lemma match_fuel n m pattern text :
  (length pattern < n)%nat -> (length pattern < m)%nat ->
  match_simple_pattern n pattern text = match_simple_pattern m pattern text.
Proof.
  revert m pattern text. induction n as [|n IH]; intros m pattern text Hn Hm; [lia|].
  destruct m as [|m]; [lia|]. destruct pattern as [|p pattern]; [done|].
  cbn [match_simple_pattern].
  assert (Hrest : forall pre rest, strip_chars pre (p :: pattern) = Some rest -> (0 < length pre)%nat ->
    forall text, match_simple_pattern n rest text = match_simple_pattern m rest text).
  { intros pre rest Hs Hp t. apply strip_chars_spec in Hs.
    assert (Hl := f_equal length Hs). rewrite length_app in Hl. cbn in Hl, Hn, Hm. apply IH; lia. }
  destruct (strip_chars segment_var (p :: pattern)) as [rest|] eqn:E1.
  { case_match; [done|]. apply existsb_ext. intros k. apply (Hrest _ _ E1). cbn. lia. }
  destruct (strip_chars rest_var (p :: pattern)) as [rest|] eqn:E2.
  { apply existsb_ext. intros k. apply (Hrest _ _ E2). cbn. lia. }
  cbn in Hn, Hm. destruct (String.eqb p "\").
  - destruct pattern as [|c rest]; [done|]. destruct text as [|t text]; [done|].
    case_match; [|done]. cbn in *. apply IH; lia.
  - destruct text as [|t text]; [done|]. case_match; [|done]. apply IH; lia.
Qed.

Definition matches (pattern text : list string) : bool :=
  match_simple_pattern (S (length pattern)) pattern text.

Lemma matches_fuel n pattern text :
  (length pattern < n)%nat -> match_simple_pattern n pattern text = matches pattern text.
Proof. intros H. apply match_fuel; [done|lia]. Qed.

(** One step of the matcher, with fuel to spare for the rest. *)
Lemma matches_step pattern text :
  exists n, (length pattern <= n)%nat /\ matches pattern text = match_simple_pattern (S n) pattern text.
Proof. exists (length pattern). split; [lia|done]. Qed.

Lemma in_offsets k l : In k (char_end_offsets l) <-> (0 < k <= length l)%nat.
Proof. unfold char_end_offsets. rewrite <- in_rev, in_seq. lia. Qed.

Lemma find_char_spec c l :
  match find_char c l with
  | Some (before, after) => l = before ++ c :: after /\ c ∉ before
  | None => c ∉ l
  end.
Proof.
  induction l as [|x l IH]; [apply not_elem_of_nil|]. cbn.
  destruct (String.eqb_spec x c) as [->|Hne].
  - split; [done|]. apply not_elem_of_nil.
  - destruct (find_char c l) as [[before after]|]; cbn.
    + destruct IH as [-> Hn]. split; [done|]. rewrite not_elem_of_cons. by split.
    + rewrite not_elem_of_cons. by split.
Qed.

Lemma find_char_first c before after : c ∉ before -> find_char c (before ++ c :: after) = Some (before, after).
Proof.
  intros H. induction before as [|x before IH]; cbn; [by rewrite String.eqb_refl|].
  apply not_elem_of_cons in H as [Hx Hb]. destruct (String.eqb_spec x c); [congruence|]. by rewrite IH.
Qed.

Lemma matches_nil text : matches [] text = true <-> text = [].
Proof. by destruct text. Qed.

Lemma matches_escape c pattern text :
  matches (escape c ++ pattern) text = true <-> exists u, text = c :: u /\ matches pattern u = true.
Proof.
  destruct (matches_step (escape c ++ pattern) text) as (n & Hn & ->). unfold escape in *.
  destruct (is_special c) eqn:Hs; cbn [app length] in *.
  - cbn [match_simple_pattern]. unfold segment_var, rest_var.
    rewrite !strip_chars_head by done. cbn [String.eqb Ascii.eqb Bool.eqb].
    destruct text as [|t text]; [split; [done|by intros (? & ? & _)]|].
    destruct (String.eqb_spec t c) as [->|Hne].
    + rewrite matches_fuel by lia. split; [by eexists|by intros (u & [= ->] & H)].
    + split; [done|]. intros (u & [= -> _] & _). done.
  - assert (Hne : forall x, is_special x = true -> x <> c) by (intros x Hx ->; congruence).
    cbn [match_simple_pattern]. unfold segment_var, rest_var.
    rewrite !strip_chars_head by (by apply Hne).
    destruct (String.eqb_spec c "\") as [E|_]; [by destruct (Hne "\" eq_refl)|].
    destruct text as [|t text]; [split; [done|by intros (? & ? & _)]|].
    destruct (String.eqb_spec t c) as [->|Ht].
    + rewrite matches_fuel by lia. split; [by eexists|by intros (u & [= ->] & H)].
    + split; [done|]. intros (u & [= -> _] & _). done.
Qed.

Lemma matches_literal l pattern text :
  matches (flat_map escape l ++ pattern) text = true <->
  exists u, text = l ++ u /\ matches pattern u = true.
Proof.
  revert text. induction l as [|c l IH]; intros text; cbn [flat_map app].
  - split; [by eexists|by intros (u & -> & H)].
  - rewrite <- app_assoc, matches_escape. setoid_rewrite IH. split.
    + intros (u & -> & v & -> & H). by eexists.
    + intros (u & -> & H). eexists. split; [done|]. by eexists.
Qed.

Lemma matches_rest_var pattern text :
  matches (rest_var ++ pattern) text = true <->
  exists v u, v <> [] /\ text = v ++ u /\ matches pattern u = true.
Proof.
  destruct (matches_step (rest_var ++ pattern) text) as (n & Hn & ->).
  cbn [rest_var app length match_simple_pattern] in *. unfold segment_var.
  rewrite strip_chars_head by done.
  change ("." :: "+" :: pattern) with (rest_var ++ pattern).
  rewrite (proj2 (strip_chars_spec rest_var _ pattern) eq_refl).
  rewrite existsb_exists. setoid_rewrite in_offsets. split.
  - intros (k & Hk & H). rewrite matches_fuel in H by lia.
    exists (take k text), (drop k text). rewrite take_drop. split; [|done].
    intros E. apply (f_equal length) in E. rewrite length_take in E. cbn in E. lia.
  - intros (v & u & Hv & -> & H). exists (length v). rewrite length_app.
    split; [destruct v; [done|]; cbn; lia|]. rewrite matches_fuel by lia. by rewrite drop_app_length.
Qed.

Lemma before_slash_app v u : "/" ∉ v -> exists w, before_slash (v ++ u) = v ++ w.
Proof.
  intros Hv. unfold before_slash. pose proof (find_char_spec "/" (v ++ u)) as H.
  destruct (find_char "/" (v ++ u)) as [[before after]|]; [|by eexists].
  destruct H as [H _]. revert before H. induction v as [|x v IH]; intros before H; [by eexists|].
  apply not_elem_of_cons in Hv as [Hx Hv]. destruct before as [|y before]; cbn in H; [congruence|].
  injection H as <- H. destruct (IH Hv _ H) as [w ->]. by exists w.
Qed.

Lemma matches_segment_var pattern text :
  matches (segment_var ++ pattern) text = true <->
  exists v u, v <> [] /\ ("/" ∉ v) /\ text = v ++ u /\ matches pattern u = true.
Proof.
  destruct (matches_step (segment_var ++ pattern) text) as (n & Hn & ->).
  cbn [segment_var app length match_simple_pattern] in *.
  change ("[" :: "^" :: "/" :: "]" :: "+" :: pattern) with (segment_var ++ pattern).
  rewrite (proj2 (strip_chars_spec segment_var _ pattern) eq_refl).
  destruct text as [|t text].
  { cbn. split; [done|]. intros ([|? ?] & u & Hv & _ & E & _); done. }
  rewrite bool_decide_eq_false_2 by done. cbn [orb starts_slash].
  destruct (String.eqb_spec t "/") as [->|Ht].
  { split; [done|]. intros ([|x v] & u & Hv & Hs & E & _); [done|].
    injection E as <- _. by apply not_elem_of_cons in Hs as [? _]. }
  rewrite existsb_exists. setoid_rewrite in_offsets. split.
  - intros (k & Hk & H). rewrite matches_fuel in H by lia.
    exists (take k (t :: text)), (drop k (t :: text)). rewrite take_drop.
    split; [|split; [|done]].
    + intros E. apply (f_equal length) in E. rewrite length_take in E. cbn in E. lia.
    + assert (Hb : exists w, t :: text = before_slash (t :: text) ++ w /\ ("/" ∉ before_slash (t :: text))).
      { unfold before_slash. pose proof (find_char_spec "/" (t :: text)) as Hf.
        destruct (find_char "/" (t :: text)) as [[before after]|].
        - destruct Hf. by eexists.
        - exists []. by rewrite app_nil_r. }
      destruct Hb as (w & Hw & Hno). rewrite Hw, take_app_le by lia.
      intros Hin. apply Hno. rewrite <- (take_drop k (before_slash (t :: text))).
      apply elem_of_app. by left.
  - intros (v & u & Hv & Hs & E & H). rewrite E. exists (length v).
    destruct (before_slash_app v u Hs) as [w ->]. rewrite length_app.
    split; [destruct v; [done|]; cbn; lia|]. rewrite matches_fuel by lia. by rewrite drop_app_length.
Qed.

(** ** The pattern *)

Lemma expands_literals l t u : "{" ∉ l -> expands (l ++ t) u <-> exists w, u = l ++ w /\ expands t w.
Proof.
  revert u. induction l as [|c l IH]; intros u Hl; [split; [by eexists|by intros (w & -> & H)]|].
  apply not_elem_of_cons in Hl as [Hc Hl]. cbn [app]. split.
  - intros H. remember (c :: l ++ t) as T eqn:ET. destruct H as [|c' t' u' _ H|e v t' w|e v t' w];
      [done| |congruence..].
    injection ET as -> ->. apply IH in H as (w & -> & Hw); [|done]. by eexists.
  - intros (w & -> & Hw). cbn. constructor; [done|]. apply IH; [done|]. by eexists.
Qed.

Lemma brace_unique (e e' t t' : list string) :
  "}" ∉ e -> "}" ∉ e' -> e ++ "}" :: t = e' ++ "}" :: t' -> e = e' /\ t = t'.
Proof.
  intros He He' E. assert (F := find_char_first "}" e t He). rewrite E, find_char_first in F by done.
  by injection F as -> ->.
Qed.

Lemma expands_var expr t u :
  "}" ∉ expr ->
  expands ("{" :: expr ++ "}" :: t) u <->
  exists v w, v <> [] /\ (reserved_expr expr = false -> "/" ∉ v) /\ u = v ++ w /\ expands t w.
Proof.
  intros He. split.
  - intros H. remember ("{" :: expr ++ "}" :: t) as T eqn:ET. destruct H as [|c t' u' Hc H|e v t' w He' R Hv Hs H|e v t' w He' R Hv H];
      [done|congruence|..]; injection ET as ET;
      destruct (brace_unique _ _ _ _ He' He ET) as [-> ->]; exists v, w; split_and!; try done; congruence.
  - intros (v & w & Hv & Hs & -> & H). destruct (reserved_expr expr) eqn:R.
    + by apply expands_reserved.
    + apply expands_segment; auto.
Qed.

(** A template with an unclosed brace has no expansion. *)
Lemma expands_unclosed l u : "}" ∉ l -> ~ expands ("{" :: l) u.
Proof.
  intros Hl H. remember ("{" :: l) as T eqn:ET. destruct H as [|c t u' Hc H|e v t w|e v t w];
    [done|congruence|..]; injection ET as <-; apply Hl, elem_of_app; right; by left.
Qed.

Lemma pattern_of_spec fuel t u :
  (length t < fuel)%nat ->
  match pattern_of fuel t with Some body => matches body u | None => false end = true <-> expands t u.
Proof.
  revert t u. induction fuel as [|fuel IH]; intros t u Hf; [lia|]. cbn [pattern_of].
  pose proof (find_char_spec "{" t) as Ho. destruct (find_char "{" t) as [[literal after]|].
  - destruct Ho as [-> Hl]. rewrite expands_literals by done.
    pose proof (find_char_spec "}" after) as Hc. destruct (find_char "}" after) as [[expr rest]|]; cbn [mbind option_bind].
    + destruct Hc as [-> He]. rewrite !length_app in Hf. cbn in Hf. rewrite length_app in Hf. cbn in Hf.
      assert (Hr : (length rest < fuel)%nat) by lia. setoid_rewrite (expands_var expr rest); [|done].
      setoid_rewrite <- (IH rest); [|done..].
      destruct (pattern_of fuel rest) as [body|]; cbn [mbind option_bind].
      2: { split; [done|]. by intros (? & _ & ? & ? & _ & _ & _ & ?). }
      rewrite matches_literal. apply exist_proper. intros w. apply and_iff_compat_l.
      destruct (reserved_expr expr).
      * rewrite matches_rest_var. naive_solver.
      * rewrite matches_segment_var. naive_solver.
    + split; [done|]. intros (w & _ & H). by apply expands_unclosed in H.
  - assert (E := expands_literals t [] u Ho). rewrite app_nil_r in E.
    rewrite E, <- (app_nil_r (flat_map escape t)), matches_literal. apply exist_proper. intros w. apply and_iff_compat_l.
    rewrite matches_nil. split; [intros ->; constructor|by inversion 1].
Qed.

Lemma regex_inner body text :
  regex_is_match ("^" :: body ++ ["$"]) text = matches body text.
Proof.
  unfold regex_is_match. replace (strip_chars ["^"] ("^" :: body ++ ["$"])) with (Some (body ++ ["$"])) by done.
  cbn [mbind option_bind]. rewrite rev_app_distr.
  replace (strip_chars ["$"] (rev ["$"] ++ rev body)) with (Some (rev body)) by done.
  cbn [mbind option_bind default]. by rewrite rev_involutive.
Qed.

Lemma chars_inj a b : chars a = chars b -> a = b.
Proof. intros H. by rewrite <- (concat_chars a), H, concat_chars. Qed.

Lemma expands_ground t u : "{" ∉ t -> expands t u <-> u = t.
Proof.
  intros H. pose proof (expands_literals t [] u H) as E. rewrite app_nil_r in E. rewrite E. split.
  - intros (w & -> & Hw). inversion Hw. by rewrite app_nil_r.
  - intros ->. exists []. rewrite app_nil_r. split; [done|constructor].
Qed.

(** ** How long a failing match takes *)

(** [existsb], counting the calls of what it tries. *)
Fixpoint try_all (f : nat -> bool * nat) (ks : list nat) : bool * nat :=
  match ks with
  | [] => (false, 0)%nat
  | k :: ks =>
      let '(found, calls) := f k in
      if found then (true, calls) else let '(found, more) := try_all f ks in (found, calls + more)%nat
  end.

(** [match_simple_pattern], with the number of calls it makes. *)
Fixpoint counted_match (fuel : nat) (pattern text : list string) : bool * nat :=
  match fuel with
  | O => (false, 0)%nat
  | S fuel =>
      let one (r : bool * nat) := (r.1, S r.2) in
      match pattern with
      | [] => (match text with [] => true | _ => false end, 1)%nat
      | _ =>
          match strip_chars segment_var pattern with
          | Some rest =>
              if bool_decide (text = []) || starts_slash text then (false, 1)%nat
              else one (try_all (fun take => counted_match fuel rest (drop take text))
                     (char_end_offsets (before_slash text)))
          | None =>
              match strip_chars rest_var pattern with
              | Some rest =>
                  one (try_all (fun take => counted_match fuel rest (drop take text))
                    (char_end_offsets text))
              | None =>
                  match pattern, text with
                  | p :: rest, c' :: text =>
                      let next := if String.eqb p "\"
                                  then match rest with c :: rest => Some (c, rest) | [] => None end
                                  else Some (p, rest) in
                      match next with
                      | Some (c, rest) =>
                          if String.eqb c' c then counted_match fuel rest text else (false, 1)%nat
                      | None => (false, 1)%nat
                      end
                  | _, _ => (false, 1)%nat
                  end
              end
          end
      end
  end.

Lemma try_all_found f g ks :
  (forall k, (f k).1 = g k) -> (try_all f ks).1 = existsb g ks.
Proof.
  intros H. induction ks as [|k ks IH]; [done|]. cbn. rewrite <- H.
  destruct (f k) as [[] c]; [done|]. cbn. rewrite <- IH. by destruct (try_all f ks).
Qed.

Lemma counted_match_agrees fuel pattern text :
  (counted_match fuel pattern text).1 = match_simple_pattern fuel pattern text.
Proof.
  revert pattern text. induction fuel as [|fuel IH]; intros pattern text; [done|].
  destruct pattern as [|p pattern]; [done|]. cbn [counted_match match_simple_pattern].
  destruct (strip_chars segment_var (p :: pattern)).
  { case_match; [done|]. cbn. apply try_all_found. intros k. apply IH. }
  destruct (strip_chars rest_var (p :: pattern)).
  { cbn. apply try_all_found. intros k. apply IH. }
  destruct (String.eqb p "\"); [destruct pattern|]; destruct text; try done; by case_match.
Qed.

(** [k] reserved variables, then [!]. *)
Fixpoint reserved_vars (k : nat) : list string :=
  match k with O => ["!"] | S k => rest_var ++ reserved_vars k end.

Lemma reserved_vars_length k : length (reserved_vars k) = (2 * k + 1)%nat.
Proof. induction k as [|k IH]; [done|]. cbn [reserved_vars]. rewrite length_app, IH. cbn. lia. Qed.

Lemma try_all_failing f ks c :
  Forall (fun k => f k = (false, c k)) ks -> try_all f ks = (false, list_sum (map c ks)).
Proof. induction 1 as [|k ks Hk _ IH]; [done|]. cbn. rewrite Hk, IH. done. Qed.

Lemma sum_powers n : S (list_sum (map (fun k => 2 ^ (n - k))%nat (char_end_offsets (repeat "a" n)))) = (2 ^ n)%nat.
Proof.
  unfold char_end_offsets. rewrite repeat_length.
  rewrite map_rev.
  rewrite <- (Permutation_list_sum (Permutation_rev (map (fun k => 2 ^ (n - k))%nat (seq 1 n)))).
  induction n as [|n IH]; [done|].
  cbn [seq map list_sum foldr]. replace (S n - 1)%nat with n by lia.
  rewrite <- seq_shift, map_map. cbn [Nat.sub]. fold (list_sum (map (fun k => 2 ^ (n - k))%nat (seq 1 n))).
  cbn [Nat.pow]. lia.
Qed.

(** On [n] variables and a text of [n] letters with no [!], the matcher makes [2 ^ n]
    calls: the length limits leave room for [n] near 250. *)
Lemma reserved_vars_exponential n k fuel :
  (n <= k)%nat -> (length (reserved_vars k) < fuel)%nat ->
  counted_match fuel (reserved_vars k) (repeat "a" n) = (false, (2 ^ n)%nat).
Proof.
  revert n fuel. induction k as [|k IH]; intros n fuel Hn Hf.
  - assert (n = O) as -> by lia. destruct fuel; [lia|]. done.
  - destruct fuel as [|fuel]; [lia|]. rewrite reserved_vars_length in Hf. cbn [counted_match].
    replace (strip_chars segment_var (reserved_vars (S k))) with (@None (list string)) by done.
    replace (strip_chars rest_var (reserved_vars (S k))) with (Some (reserved_vars k)) by done.
    rewrite (try_all_failing _ _ (fun j => 2 ^ (n - j))%nat).
    + cbn [reserved_vars app rest_var fst snd]. by rewrite sum_powers.
    + apply Forall_forall. intros j Hj%list_elem_of_In%in_offsets. rewrite repeat_length in Hj.
      replace (drop j (repeat "a" n)) with (repeat "a" (n - j)).
      * apply IH; [lia|]. rewrite reserved_vars_length. lia.
      * replace n with (j + (n - j))%nat at 2 by lia.
        by rewrite repeat_app, drop_app_length' by (by rewrite repeat_length).
Qed.

(** Such a pattern is what a short template compiles to. *)
Example reserved_template :
  pattern_of 100 (chars "{+a}{+a}{+a}!") = Some (reserved_vars 3).
Proof. by vm_compute. Qed.

(** ** Properties *)

(** C20. [resources/read] is routed to a template exactly when the URI is an expansion of it:
    each [{var}] stands for one non-empty path segment, [{+var}] and [{#var}] for any
    non-empty text, every other character for itself; beyond the length limits, and for an
    unclosed brace, nothing matches. *)
Theorem template_matches_expansions uri template :
  uri_matches_template uri template = true <->
  slen uri <= MAX_URI_MATCH_LEN /\ slen template <= MAX_TEMPLATE_MATCH_LEN /\
  expands (chars template) (chars uri).
Proof.
  unfold uri_matches_template.
  destruct (Z.ltb_spec MAX_URI_MATCH_LEN (slen uri)); [cbn; split; [done|lia]|].
  destruct (Z.ltb_spec MAX_TEMPLATE_MATCH_LEN (slen template)); [cbn; split; [done|lia]|].
  cbn [orb]. transitivity (expands (chars template) (chars uri)); [|tauto].
  case_bool_decide as Hb; cbn [negb].
  - rewrite <- (pattern_of_spec (S (length (chars template)))) by lia.
    destruct (pattern_of _ _) as [body|]; [|done]. by rewrite regex_inner.
  - rewrite expands_ground by done. rewrite String.eqb_eq. split; [by intros ->|apply chars_inj].
Qed.
End UriTemplate.
