(* ===== verification/SchemaRefs.v ===== *)
(** Local references of input schemas (src/router.rs, [inline_refs]): every [{"$ref": ..}]
    is replaced by what it points to, or by an empty schema when it cannot be.

    The recursion goes through the references, so it takes fuel; the fuel [inline_refs]
    gives is shown to be enough. *)

From S2P Require Import Prelude Text Json.

Module SchemaRefs.

Fixpoint has_ref (node : json) : bool :=
  match node with
  | JObject o => obj_contains "$ref" o || existsb (fun kv => has_ref kv.2) o
  | JArray l => existsb has_ref l
  | _ => false
  end.

Definition ref_of (node : json) : option string := v ← get "$ref" node; as_str v.

(** [inline_node]; [None] is running out of fuel. The active set is restored after each
    reference, so it is passed down. *)
Fixpoint inline_node (fuel : nat) (root : json) (active : gset string) (node : json)
    : option json :=
  match fuel with
  | O => None
  | S fuel =>
      match ref_of node with
      | Some r =>
          match (ptr ← strip_prefix "#" r;
                 if bool_decide (r ∈ active) then None else json_pointer ptr root) with
          | Some target => inline_node fuel root ({[r]} ∪ active) target
          | None => Some (JObject [])
          end
      | None =>
          match node with
          | JObject o =>
              JObject <$> mapM (fun kv => pair kv.1 <$> inline_node fuel root active kv.2) o
          | JArray l => JArray <$> mapM (inline_node fuel root active) l
          | _ => Some node
          end
      end
  end.

Fixpoint json_size (v : json) : nat :=
  match v with
  | JObject o => S (list_sum (map (fun kv => json_size kv.2) o))
  | JArray l => S (list_sum (map json_size l))
  | _ => 1
  end.

Definition refs_fuel (schema : json) : nat :=
  let n := json_size schema in S (n + S n * S n).

Definition inline_refs (schema : json) : option json :=
  if negb (has_ref schema) then Some schema
  else
    out ← inline_node (refs_fuel schema) schema ∅ schema;
    Some (match out with
          | JObject o => JObject (obj_remove "definitions" (obj_remove "$defs" o))
          | v => v
          end).

(** ** Sub-values, and what they hold *)

(** [p] holds of a value and of everything in it. *)
Fixpoint everywhere (p : json -> bool) (v : json) : bool :=
  p v && match v with
         | JObject o => forallb (fun kv => everywhere p kv.2) o
         | JArray l => forallb (everywhere p) l
         | _ => true
         end.

Definition no_ref_here (v : json) : bool := match ref_of v with Some _ => false | None => true end.

(** No reference is left: no object anywhere has a string under [$ref]. *)
Definition ref_free (v : json) : bool := everywhere no_ref_here v.

(** A [$ref] that is no string is not itself a reference. *)
Definition plain_here (v : json) : bool :=
  match ref_of v, get "$ref" v with
  | None, Some w => no_ref_here w
  | _, _ => true
  end.

Definition plain_refs (v : json) : bool := everywhere plain_here v.

Lemma everywhere_here p v : everywhere p v = true -> p v = true.
Proof. destruct v; cbn; by intros [H _]%andb_prop. Qed.

Lemma everywhere_step p v t w :
  everywhere p v = true -> pointer_step v t = Some w -> everywhere p w = true.
Proof.
  destruct v as [| | | |l|o]; cbn; try done; intros [_ H]%andb_prop.
  - destruct (parse_index t) as [i|]; [|done]. cbn. destruct (_ <? _); [|done].
    intros Hl. rewrite forallb_forall in H. apply H. apply list_elem_of_In. by eapply list_elem_of_lookup_2.
  - intros Hg%obj_get_In. rewrite forallb_forall in H. exact (H _ Hg).
Qed.

Lemma everywhere_pointer p v ptr w :
  everywhere p v = true -> json_pointer ptr v = Some w -> everywhere p w = true.
Proof.
  intros Hv. unfold json_pointer. destruct (pointer_tokens ptr) as [ts|]; [|done]. cbn.
  revert v Hv. induction ts as [|t ts IH]; intros v Hv; cbn; [by intros [= <-]|].
  destruct (pointer_step v t) as [u|] eqn:E; [|done]. cbn. apply IH. by apply (everywhere_step p v t).
Qed.

Fixpoint json_depth (v : json) : nat :=
  match v with
  | JObject o => S (list_max (map (fun kv => json_depth kv.2) o))
  | JArray l => S (list_max (map json_depth l))
  | _ => 1
  end.

Fixpoint refs_of (v : json) : gset string :=
  match ref_of v with Some r => {[r]} | None => ∅ end ∪
  match v with
  | JObject o => ⋃ map (fun kv => refs_of kv.2) o
  | JArray l => ⋃ map refs_of l
  | _ => ∅
  end.

(** Going into a value loses depth and gains no reference. *)
Definition inside (w v : json) : Prop := (json_depth w <= json_depth v)%nat /\ refs_of w ⊆ refs_of v.

Lemma list_max_in n l : In n l -> (n <= list_max l)%nat.
Proof.
  intros H. assert (F := proj1 (list_max_le l (list_max l)) ltac:(lia)).
  rewrite List.Forall_forall in F. by apply F.
Qed.

Lemma field_depth k v o : In (k, v) o -> (json_depth v < json_depth (JObject o))%nat /\ refs_of v ⊆ refs_of (JObject o).
Proof.
  intros H. cbn. split.
  - apply Nat.lt_succ_r, list_max_in, in_map_iff. by exists (k, v).
  - intros r Hr. apply elem_of_union. right. apply elem_of_union_list. exists (refs_of v). split; [|done].
    apply list_elem_of_In, in_map_iff. by exists (k, v).
Qed.

Lemma element_depth v l : In v l -> (json_depth v < json_depth (JArray l))%nat /\ refs_of v ⊆ refs_of (JArray l).
Proof.
  intros H. cbn. split.
  - apply Nat.lt_succ_r, list_max_in, in_map_iff. by exists v.
  - intros r Hr. apply elem_of_union. right. apply elem_of_union_list. exists (refs_of v). split; [|done].
    apply list_elem_of_In, in_map_iff. by exists v.
Qed.

Lemma inside_pointer v ptr w : json_pointer ptr v = Some w -> inside w v.
Proof.
  unfold json_pointer. destruct (pointer_tokens ptr) as [ts|]; [|done]. cbn. revert v.
  induction ts as [|t ts IH]; intros v; cbn; [intros [= <-]; by split|].
  destruct (pointer_step v t) as [u|] eqn:E; [|done]. cbn. intros [Hd Hr]%IH.
  assert (Hu : (json_depth u < json_depth v)%nat /\ refs_of u ⊆ refs_of v).
  { destruct v as [| | | |l|o]; cbn in E; try done.
    - destruct (parse_index t) as [i|]; [|done]. cbn in E. destruct (_ <? _); [|done].
      apply element_depth, list_elem_of_In. by eapply list_elem_of_lookup_2.
    - apply obj_get_In in E. by apply (field_depth t). }
  destruct Hu. split; [lia|set_solver].
Qed.

Lemma ref_of_refs v r : ref_of v = Some r -> r ∈ refs_of v.
Proof. intros H. destruct v; cbn [refs_of]; rewrite H; set_solver. Qed.

(** ** Termination *)

Lemma mapM_total {A B} (f : A -> option B) (l : list A) :
  (forall x, In x l -> exists y, f x = Some y) -> exists k, mapM f l = Some k.
Proof.
  intros H. induction l as [|x l IH]; [by exists []|].
  destruct (H x) as [y Hy]; [by left|]. destruct IH as [k Hk]; [intros z Hz; apply H; by right|].
  exists (y :: k). cbn. by rewrite Hy, Hk.
Qed.

(** The references still to follow bound how often the walk can start over. *)
Lemma inline_total root fuel active node :
  refs_of node ⊆ refs_of root ->
  (json_depth node + size (refs_of root ∖ active) * json_depth root < fuel)%nat ->
  exists out, inline_node fuel root active node = Some out.
Proof.
  revert active node. induction fuel as [|fuel IH]; intros active node Hn Hf; [lia|].
  cbn [inline_node]. destruct (ref_of node) as [r|] eqn:Er.
  - destruct (strip_prefix "#" r) as [ptr|]; [|by eexists]. cbn [mbind option_bind].
    case_bool_decide as Ha; [by eexists|].
    destruct (json_pointer ptr root) as [target|] eqn:Et; [|by eexists].
    apply inside_pointer in Et as [Hd Hr]. apply IH; [done|].
    assert (Hin : r ∈ refs_of root ∖ active) by (apply ref_of_refs in Er; set_solver).
    assert (Hs : size (refs_of root ∖ active) = S (size (refs_of root ∖ ({[r]} ∪ active)))).
    { replace (refs_of root ∖ ({[r]} ∪ active)) with ((refs_of root ∖ active) ∖ {[r]}) by set_solver.
      rewrite (size_difference_alt (refs_of root ∖ active) {[r]}).
      replace ((refs_of root ∖ active) ∩ {[r]}) with ({[r]} : gset string) by set_solver.
      rewrite size_singleton. assert (size (refs_of root ∖ active) <> O); [|lia].
      intros Hz%size_empty_inv. set_solver. }
    assert (1 <= json_depth node)%nat by (destruct node; cbn; lia). lia.
  - destruct node as [| | | |l|o]; try (by eexists).
    + destruct (mapM_total (inline_node fuel root active) l) as [k ->]; [|by eexists].
      intros v Hv. destruct (element_depth v l Hv). apply IH; [set_solver|lia].
    + destruct (mapM_total (fun kv => pair kv.1 <$> inline_node fuel root active kv.2) o) as [k ->]; [|by eexists].
      intros [key v] Hv. destruct (field_depth key v o Hv).
      destruct (IH active v) as [out Ho]; [set_solver|lia|]. exists (key, out). cbn. by rewrite Ho.
Qed.

Lemma json_size_pos v : (1 <= json_size v)%nat.
Proof. destruct v; cbn; lia. Qed.

Lemma max_le_sum l : (list_max l <= list_sum l)%nat.
Proof. induction l as [|x l IH]; cbn; [lia|]. unfold list_max, list_sum in *. lia. Qed.

Lemma sum_map_le {A} (f g : A -> nat) l : Forall (fun x => (f x <= g x)%nat) l -> (list_sum (map f l) <= list_sum (map g l))%nat.
Proof. induction 1 as [|x l Hx _ IH]; cbn; [lia|]. unfold list_sum in *. lia. Qed.

Lemma depth_le_size v : (json_depth v <= json_size v)%nat.
Proof.
  induction v as [| | | |l IH|o IH] using json_rec_strong; cbn; try lia.
  - apply le_n_S. etransitivity; [apply max_le_sum|]. by apply sum_map_le.
  - apply le_n_S. etransitivity; [apply max_le_sum|]. by apply (sum_map_le (fun kv => json_depth kv.2) (fun kv => json_size kv.2)).
Qed.

Lemma size_union_list (l : list (gset string)) : (size (⋃ l) <= list_sum (map size l))%nat.
Proof.
  induction l as [|x l IH]; cbn; [by rewrite size_empty|].
  rewrite size_union_alt. pose proof (subseteq_size (⋃ l ∖ x) (⋃ l) ltac:(set_solver)). unfold list_sum in *. lia.
Qed.

Lemma refs_le_size v : (size (refs_of v) <= json_size v)%nat.
Proof.
  assert (Hone : forall v (s : gset string) n, (size s <= n)%nat ->
    (size (match ref_of v with Some r => {[r]} | None => ∅ end ∪ s) <= S n)%nat).
  { intros w s n Hs. rewrite size_union_alt.
    pose proof (subseteq_size (s ∖ match ref_of w with Some r => {[r]} | None => ∅ end) s ltac:(set_solver)).
    destruct (ref_of w); [rewrite size_singleton|rewrite size_empty]; lia. }
  induction v as [| | | |l IH|o IH] using json_rec_strong; cbn [refs_of json_size];
    try (apply (Hone _ ∅ O); by rewrite size_empty); apply Hone.
  - etransitivity; [apply size_union_list|]. rewrite map_map. by apply sum_map_le.
  - etransitivity; [apply size_union_list|]. rewrite map_map.
    by apply (sum_map_le (fun kv => size (refs_of kv.2)) (fun kv => json_size kv.2)).
Qed.

(** ** What is left *)

Lemma inline_not_string fuel root active v out :
  no_ref_here v = true -> as_str v = None -> inline_node fuel root active v = Some out -> as_str out = None.
Proof.
  destruct fuel as [|fuel]; [done|]. cbn [inline_node]. unfold no_ref_here. destruct (ref_of v); [done|].
  intros _ Hs. destruct v as [| | | |l|o]; try done; try (by intros [= <-]).
  - destruct (mapM _ l); [|done]. by intros [= <-].
  - destruct (mapM _ o); [|done]. by intros [= <-].
Qed.

Lemma mapM_fields (f : json -> option json) (o k : list (string * json)) key :
  mapM (fun kv => pair kv.1 <$> f kv.2) o = Some k ->
  obj_get key k = (v ← obj_get key o; f v).
Proof.
  revert k. induction o as [|[k0 v0] o IH]; intros k; cbn; [by intros [= <-]|].
  destruct (f v0) as [w|] eqn:Ew; cbn; [|done].
  destruct (mapM _ o) as [k'|] eqn:Em; cbn; [|done]. intros [= <-]. cbn.
  destruct (String.eqb key k0); [by cbn|]. by apply IH.
Qed.

Lemma inline_ref_free root fuel active node out :
  plain_refs root = true -> plain_refs node = true ->
  inline_node fuel root active node = Some out -> ref_free out = true.
Proof.
  intros Hroot. revert active node out. induction fuel as [|fuel IH]; intros active node out Hn; [done|].
  cbn [inline_node]. destruct (ref_of node) as [r|] eqn:Er.
  - destruct (strip_prefix "#" r) as [ptr|]; [|by intros [= <-]]. cbn [mbind option_bind].
    case_bool_decide; [by intros [= <-]|].
    destruct (json_pointer ptr root) as [target|] eqn:Et; [|by intros [= <-]].
    apply IH. by apply (everywhere_pointer _ root ptr).
  - destruct node as [| | | |l|o]; try (by intros [= <-]).
    + destruct (mapM (inline_node fuel root active) l) as [k|] eqn:Em; [|done]. intros [= <-].
      unfold ref_free. cbn. apply forallb_forall. intros v Hv%list_elem_of_In.
      apply list_elem_of_lookup in Hv as [i Hi].
      apply mapM_Some in Em. destruct (Forall2_lookup_r _ _ _ _ _ Em Hi) as (w & Hw & Hin).
      apply (IH active w); [|done]. unfold plain_refs in Hn. cbn in Hn.
      rewrite forallb_forall in Hn. apply Hn, list_elem_of_In. by eapply list_elem_of_lookup_2.
    + destruct (mapM _ o) as [k|] eqn:Em; [|done]. intros [= <-].
      assert (Hn' := Hn). unfold plain_refs in Hn'. cbn in Hn'. apply andb_prop in Hn' as [Hh Hn'].
      unfold ref_free. cbn [everywhere]. apply andb_true_intro. split.
      * unfold no_ref_here, ref_of. cbn [get]. rewrite (mapM_fields _ _ _ "$ref" Em).
        unfold plain_here in Hh. rewrite Er in Hh. unfold ref_of in Er. cbn [get] in Hh, Er.
        destruct (obj_get "$ref" o) as [w|]; [|done]. cbn [mbind option_bind] in *.
        destruct (inline_node fuel root active w) as [w'|] eqn:Ew; [|done]. cbn.
        by rewrite (inline_not_string _ _ _ _ _ Hh Er Ew).
      * apply forallb_forall. intros [key v] Hv%list_elem_of_In.
        apply list_elem_of_lookup in Hv as [i Hi].
        apply mapM_Some in Em. destruct (Forall2_lookup_r _ _ _ _ _ Em Hi) as ([key' w] & Hw & Hin).
        cbn in Hin. destruct (inline_node fuel root active w) as [w'|] eqn:Ew; [|done].
        injection Hin as _ <-. cbn. apply (IH active w); [|done].
        rewrite forallb_forall in Hn'. apply (Hn' (key', w)), list_elem_of_In. by eapply list_elem_of_lookup_2.
Qed.

Lemma everywhere_filter p q o :
  (forall o, p (JObject o) = true -> p (JObject (List.filter q o)) = true) ->
  everywhere p (JObject o) = true -> everywhere p (JObject (List.filter q o)) = true.
Proof.
  intros Hp. cbn. intros [H1 H2]%andb_prop. rewrite (Hp _ H1). cbn [andb].
  rewrite forallb_forall in *. intros kv [Hkv _]%filter_In. by apply H2.
Qed.

Lemma remove_ref_free k o : k <> "$ref" -> ref_free (JObject o) = true -> ref_free (JObject (obj_remove k o)) = true.
Proof.
  intros Hk. apply everywhere_filter. intros o' H. unfold no_ref_here, ref_of in *. cbn [get] in *.
  fold (obj_remove k o'). by rewrite obj_get_remove_ne.
Qed.

(** A schema with no [$ref] key at all is free of references. *)
Lemma has_ref_free v : has_ref v = false -> ref_free v = true.
Proof.
  unfold ref_free. induction v as [| | | |l IH|o IH] using json_rec_strong; cbn; try done.
  - intros H. apply forallb_forall. intros x Hx. rewrite Forall_forall in IH.
    apply IH; [by apply list_elem_of_In|]. destruct (has_ref x) eqn:E; [|done].
    enough (existsb has_ref l = true) by congruence. apply existsb_exists. by exists x.
  - intros [H1 H2]%orb_false_elim. apply andb_true_intro. split.
    + unfold no_ref_here, ref_of. cbn [get]. unfold obj_contains in H1. by destruct (obj_get "$ref" o).
    + apply forallb_forall. intros kv Hkv. rewrite Forall_forall in IH.
      apply IH; [by apply list_elem_of_In|]. destruct (has_ref kv.2) eqn:E; [|done].
      enough (existsb (fun kv => has_ref kv.2) o = true) by congruence. apply existsb_exists. by exists kv.
Qed.

Lemma inline_refs_total schema : exists out, inline_refs schema = Some out.
Proof.
  unfold inline_refs. destruct (negb (has_ref schema)); [by eexists|].
  destruct (inline_total schema (refs_fuel schema) ∅ schema) as [out ->]; [done| |by eexists].
  unfold refs_fuel. rewrite difference_empty_L.
  pose proof (refs_le_size schema). pose proof (depth_le_size schema). cbn zeta. nia.
Qed.

(** ** Properties *)


Definition cyclic_schema : json :=
  JObject [("$defs", JObject [("node", JObject [("next", JObject [("$ref", JString "#/$defs/node")])])]);
           ("properties", JObject [("tree", JObject [("$ref", JString "#/$defs/node")])])].


(** The exception is real: what [$ref] held becomes an unresolved reference. *)
Lemma inline_refs_leaks :
  inline_refs (JObject [("$defs", JObject [("s", JString "https://example.com/schema")]);
                        ("$ref", JObject [("$ref", JString "#/$defs/s")])]) =
    Some (JObject [("$ref", JString "https://example.com/schema")]).
Proof. by vm_compute. Qed.
End SchemaRefs.
