(* ===== verification/SchemaCompat.v ===== *)
(** Schema compatibility (src/schema_compat.rs): rewriting the input schema of a tool for
    clients that accept only plain property keys and draft-06 numbers, and restoring the
    arguments a client then sends to the keys the server declared.

    Parsing a number and the regex engine are third-party: parameters. The recursion of the
    code goes into sub-schemas it reaches by keyword, so it takes fuel; the depth of the
    schema is enough. *)

From Stdlib Require Import SpecFloat.
From S2P Require Import Prelude Text Json.

Module SchemaCompat.

Definition object : Type := list (string * json).

Definition get_str (k : string) (o : object) : option string := v ← obj_get k o; as_str v.
Definition get_bool (k : string) (o : object) : option bool := v ← obj_get k o; as_bool v.

Definition key_byte (b : ascii) : bool :=
  is_alnum b || existsb (Stdlib.Strings.Ascii.eqb b) ["_"; "."; "-"]%char.

Definition valid_key (key : string) : bool :=
  negb (String.eqb key "") && (slen key <=? 64) && all_bytes key_byte key.

Section regex.
(** [regex::Regex]: compiling a pattern, and a match anywhere in a text. *)
Variable regex : Type.
Variable regex_new : string -> option regex.
Variable is_match : regex -> string -> bool.
(** [serde_json::from_str::<Number>], and [str::parse::<f64>] then [Number::from_f64]. *)
Variable number_from_str : string -> option number.
Variable number_from_f64_str : string -> option number.

#[warnings="-register-all"]
Inductive ArgumentMap := mk_map {
  reference : option string;
  definitions : list (string * ArgumentMap);
  fallback_patterns : list ArgumentMap;
  fields : list (string * (string * ArgumentMap));
  items : option ArgumentMap;
  tuple : list ArgumentMap;
  branches : list ArgumentMap;
  extra : list ArgumentMap;
  patterns : list (regex * ArgumentMap);
  contains_map : option ArgumentMap;
  known : gset string }.

Definition default_map : ArgumentMap := mk_map None [] [] [] None [] [] [] [] None ∅.

Definition is_nil {A} (l : list A) : bool := match l with [] => true | _ => false end.
Definition is_none {A} (o : option A) : bool := match o with None => true | _ => false end.

Definition is_empty (m : ArgumentMap) : bool :=
  is_none (reference m) && is_nil (fallback_patterns m) && is_nil (fields m) && is_none (items m) &&
  is_nil (tuple m) && is_nil (branches m) && is_nil (extra m) && is_nil (patterns m) &&
  is_none (contains_map m).

(** ** The positions of sub-schemas *)

Definition map_keywords : list string :=
  ["properties"; "patternProperties"; "$defs"; "definitions"; "dependentSchemas"].
Definition array_keywords : list string := ["allOf"; "anyOf"; "oneOf"; "prefixItems"].
Definition child_keywords : list string :=
  ["items"; "additionalItems"; "additionalProperties"; "unevaluatedProperties";
   "unevaluatedItems"; "contentSchema"; "contains"; "propertyNames"; "not"; "if"; "then"; "else"].

Definition map_values (f : json -> json) (v : json) : json :=
  match v with JObject o => JObject (map (fun kv => (kv.1, f kv.2)) o) | _ => v end.

(** [children], visiting in place. *)
Definition children_map (f : json -> json) (o : object) : object :=
  let o := fold_left (fun o k => obj_update k (map_values f) o) map_keywords o in
  let o := fold_left (fun o k => obj_update k (for_each f) o) array_keywords o in
  let o := fold_left (fun o k =>
             obj_update k (fun v => match v with JArray l => JArray (map f l) | v => f v end) o)
             child_keywords o in
  obj_update "dependencies"
    (fun v => match v with
              | JObject m => JObject (map (fun kv => (kv.1, if is_object kv.2 then f kv.2 else kv.2)) m)
              | _ => v
              end) o.

(** What [children] visits, in order. *)
Definition children (o : object) : list json :=
  let at_key k := match obj_get k o with Some v => [v] | None => [] end in
  let values v := match v with JObject m => map snd m | _ => [] end in
  let elements v := match v with JArray l => l | _ => [] end in
  flat_map (fun k => flat_map values (at_key k)) map_keywords ++
  flat_map (fun k => flat_map elements (at_key k)) array_keywords ++
  flat_map (fun k => flat_map (fun v => match v with JArray l => l | _ => [v] end) (at_key k))
    child_keywords ++
  flat_map (fun v => List.filter is_object (values v)) (at_key "dependencies").

(** Every property key of the schema, in the order they are met. *)
Fixpoint collect_keys (fuel : nat) (schema : json) : list string :=
  match fuel, schema with
  | S fuel, JObject o =>
      match obj_get "properties" o with Some (JObject p) => map fst p | _ => [] end ++
      flat_map (collect_keys fuel) (children o)
  | _, _ => []
  end.

Fixpoint collect_refs (fuel : nat) (schema : json) : list string :=
  match fuel, schema with
  | S fuel, JObject o =>
      match obj_get "$ref" o with Some (JString r) => [r] | _ => [] end ++
      flat_map (collect_refs fuel) (children o)
  | _, _ => []
  end.

Fixpoint has_legacy_bounds (fuel : nat) (schema : json) : bool :=
  match fuel, schema with
  | S fuel, JObject o =>
      existsb (fun k => match obj_get k o with Some v => is_boolean v | None => false end)
        ["exclusiveMinimum"; "exclusiveMaximum"] ||
      existsb (has_legacy_bounds fuel) (children o)
  | _, _ => false
  end.

Fixpoint strip_draft04 (fuel : nat) (schema : json) : json :=
  match fuel, schema with
  | S fuel, JObject o =>
      let o := match get_str "$schema" o with
               | Some uri => if contains "/draft-04/schema" uri then obj_remove "$schema" o else o
               | None => o
               end in
      JObject (children_map (strip_draft04 fuel) o)
  | _, _ => schema
  end.

(** ** Aliases *)

Definition quote : string := "'".

Definition base_char (c : string) : string :=
  if one_byte key_byte c then c else "_".

Definition alias_base (original : string) : string :=
  let base := concat_str (take 64 (map base_char (chars (trim_matches (String.eqb quote) original)))) in
  if String.eqb base "" then "arg" else base.

(** [&base[..base.len().min(64 - suffix.len())]] and the suffix. *)
Definition numbered (base : string) (index : Z) : option string :=
  let suffix := "_" +:+ pretty index in
  head ← str_slice base 0 (Z.min (slen base) (64 - slen suffix));
  Some (head +:+ suffix).

(** The [while !reserved.insert(alias)] loop; [None] is a panic, or running out of fuel. *)
Fixpoint free_alias (fuel : nat) (reserved : gset string) (base alias : string) (index : Z)
    : option string :=
  if bool_decide (alias ∈ reserved)
  then match fuel with
       | O => None
       | S fuel => alias ← numbered base index; free_alias fuel reserved base alias (index + 1)
       end
  else Some alias.

Fixpoint assign_aliases (reserved : gset string) (aliases : gmap string string)
    (invalid : list string) : option (gset string * gmap string string) :=
  match invalid with
  | [] => Some (reserved, aliases)
  | original :: invalid =>
      let base := alias_base original in
      alias ← free_alias (S (S (size reserved))) reserved base base 2;
      assign_aliases ({[alias]} ∪ reserved) (<[original := alias]> aliases) invalid
  end.

Definition sorted_set (l : list string) : list string := dedup (sort_strings l).

Definition aliases_of (keys : list string) : option (gmap string string) :=
  snd <$> assign_aliases (list_to_set (List.filter valid_key keys)) ∅
            (sorted_set (List.filter (fun k => negb (valid_key k)) keys)).

(** ** Numbers *)

Definition as_f64 (n : number) : spec_float :=
  match n with
  | PosInt i | NegInt i => binary_normalize 53 1024 i 0 false
  | Float f => f
  end.

Definition f64_zero : spec_float := S754_zero false.

(** [x.fract() == 0.0] *)
Definition is_integral (x : spec_float) : bool :=
  match x with
  | S754_zero _ => true
  | S754_finite _ m e => (0 <=? e) || (Z.pos m mod 2 ^ (- e) =? 0)
  | _ => false
  end.

Definition f64_is_finite (x : spec_float) : bool :=
  match x with S754_zero _ | S754_finite _ _ _ => true | _ => false end.

Definition count_keys : list string :=
  ["minLength"; "maxLength"; "minItems"; "maxItems"; "minProperties"; "maxProperties";
   "minContains"; "maxContains"].

(** A digit other than zero before the exponent. *)
Definition nonzero_mantissa (s : string) : bool :=
  let mantissa := before_by (fun b => existsb (Stdlib.Strings.Ascii.eqb b) ["e"; "E"]%char) s in
  negb (all_bytes (fun b => negb (byte_in 49 57 b)) mantissa).

Definition keeps_number (key : string) (value : json) (n : number) : bool :=
  let parsed := as_f64 n in
  if SFeqb parsed f64_zero && match as_str value with Some s => nonzero_mantissa s | None => false end
  then false
  else if listed key count_keys then SFleb f64_zero parsed && is_integral parsed
  else if String.eqb key "multipleOf" then SFltb f64_zero parsed
  else f64_is_finite parsed.

Definition number_of (value : json) : option number :=
  match value with
  | JNumber n => Some n
  | JString s => match number_from_str s with Some n => Some n | None => number_from_f64_str s end
  | _ => None
  end.

Definition normalize_number (o : object) (key : string) : object :=
  match obj_get key o with
  | None => o
  | Some value =>
      match (n ← number_of value; if keeps_number key value n then Some n else None) with
      | Some n => if is_number value then o else obj_insert key (JNumber n) o
      | None => obj_remove key o
      end
  end.

Definition number_keys : list string :=
  ["minimum"; "maximum"; "multipleOf"; "minLength"; "maxLength"; "minItems"; "maxItems";
   "minProperties"; "maxProperties"; "minContains"; "maxContains"].

Definition normalize_exclusive (o : object) (exclusive inclusive : string) : object :=
  match get_bool exclusive o with
  | Some flag =>
      let o := obj_remove exclusive o in
      if flag
      then match obj_get inclusive o with
           | Some bound => obj_insert exclusive bound (obj_remove inclusive o)
           | None => o
           end
      else o
  | None => normalize_number o exclusive
  end.

Definition normalize_numbers (o : object) : object :=
  let o := fold_left normalize_number number_keys o in
  let o := normalize_exclusive o "exclusiveMinimum" "minimum" in
  normalize_exclusive o "exclusiveMaximum" "maximum".

(** ** Normalization *)

Definition alias_or_self (aliases : gmap string string) (k : string) : string :=
  default k (aliases !! k).

Definition rename_list (aliases : gmap string string) (value : json) : json :=
  match value with
  | JArray l =>
      JArray (map (fun v => match v with JString k => JString (alias_or_self aliases k) | _ => v end) l)
  | _ => value
  end.

(** The segments of a local pointer after the first, each seen with the one before it. *)
Fixpoint rename_segments (aliases : gmap string string) (before : string) (segments : list string)
    : list string :=
  match segments with
  | [] => []
  | segment :: rest =>
      let segment :=
        if listed before ["properties"; "dependentSchemas"; "dependencies"]
        then default segment (aliases !! replace "~0" "~" (replace "~1" "/" segment))
        else segment in
      segment :: rename_segments aliases segment rest
  end.

Definition rename_reference (aliases : gmap string string) (v : json) : json :=
  match (s ← as_str v; strip_prefix "#/" s) with
  | Some pointer =>
      match split_on "/" pointer with
      | first :: rest =>
          let renamed := rename_segments aliases first rest in
          if bool_decide (renamed = rest) then v
          else JString ("#/" +:+ String.concat "/" (first :: renamed))
      | [] => v
      end
  | None => v
  end.

(** [BTreeMap::insert]. *)
Fixpoint map_insert {A} (k : string) (a : A) (m : list (string * A)) : list (string * A) :=
  match m with
  | [] => [(k, a)]
  | (k', a') :: m' =>
      match String.compare k k' with
      | Lt => (k, a) :: m
      | Eq => (k, a) :: m'
      | Gt => (k', a') :: map_insert k a m'
      end
  end.

Definition not_empty (plan : ArgumentMap) : bool := negb (is_empty plan).

Definition with_branches (plan : ArgumentMap) (more : list ArgumentMap) : ArgumentMap :=
  mk_map (reference plan) (definitions plan) (fallback_patterns plan) (fields plan) (items plan)
    (tuple plan) (branches plan ++ List.filter not_empty more) (extra plan) (patterns plan)
    (contains_map plan) (known plan).

(** [if let Some(child) = object.get_mut(k)], with what the visit returns. *)
Definition visit {A} (k : string) (f : json -> json * list A) (o : object) : object * list A :=
  match obj_get k o with
  | Some v => let '(v, out) := f v in (obj_update k (fun _ => v) o, out)
  | None => (o, [])
  end.

Definition visit_all {A} (ks : list string) (f : json -> json * list A) (o : object) : object * list A :=
  fold_left (fun '(o, out) k => let '(o, more) := visit k f o in (o, out ++ more)) ks (o, []).

(** A visit of every element of an array, or of every value of an object. *)
Definition on_elements {A} (f : json -> json * A) (v : json) : json * list A :=
  match v with
  | JArray l => let out := map f l in (JArray (map fst out), map snd out)
  | _ => (v, [])
  end.

Definition on_values {A} (f : string -> json -> json * A) (v : json) : json * list A :=
  match v with
  | JObject m =>
      let out := map (fun kv => (kv.1, f kv.1 kv.2)) m in
      (JObject (map (fun kv => (kv.1, kv.2.1)) out), map (fun kv => kv.2.2) out)
  | _ => (v, [])
  end.

Section node.
Variable aliases : gmap string string.
(** [normalize_node] on the children. *)
Variable child : json -> json * ArgumentMap.

(** The loop over [properties]: the renamed map, and for each key its alias and plan. *)
Definition normalize_properties (v : json) : json * list (string * string * ArgumentMap) :=
  match v with
  | JObject old =>
      let out := map (fun kv => (kv.1, alias_or_self aliases kv.1, child kv.2)) old in
      (JObject (fold_left (fun p '(_, alias, (v, _)) => obj_insert alias v p) out []),
       map (fun '(original, alias, (_, plan)) => (original, alias, plan)) out)
  | _ => (v, [])
  end.

Definition field_plans (out : list (string * string * ArgumentMap)) : list (string * (string * ArgumentMap)) :=
  fold_left (fun m '(original, alias, plan) =>
      if negb (String.eqb alias original) || not_empty plan
      then map_insert alias (original, plan) m else m) out [].

(** The loop over a map of dependencies: lists of keys, or schemas. *)
Definition normalize_dependencies (v : json) : json * list ArgumentMap :=
  match v with
  | JObject old =>
      let out := map (fun kv =>
          (alias_or_self aliases kv.1,
           if is_array kv.2 then (rename_list aliases kv.2, default_map) else child kv.2)) old in
      (JObject (fold_left (fun p '(alias, (v, _)) => obj_insert alias v p) out []),
       map (fun '(_, (_, plan)) => plan) out)
  | _ => (v, [])
  end.

Definition one (v : json) : json * list ArgumentMap := let '(v, plan) := child v in (v, [plan]).

Definition normalize_object (o : object) : object * ArgumentMap :=
  let o := normalize_numbers o in
  let reference := get_str "$ref" o in
  let o := obj_update "$ref" (rename_reference aliases) o in
  let '(o, props) := visit "properties" normalize_properties o in
  let o := obj_update "required" (rename_list aliases) o in
  let '(o, b1) := visit_all ["dependentRequired"; "dependencies"; "dependentSchemas"]
                    normalize_dependencies o in
  let '(o, b2) := visit_all ["allOf"; "anyOf"; "oneOf"] (on_elements child) o in
  let '(o, b3) := visit_all ["if"; "then"; "else"; "not"] one o in
  let '(o, prefix) := visit "prefixItems" (on_elements child) o in
  let '(tuple_items, plain_items) :=
    match obj_get "items" o with
    | Some (JArray _) => (true, false)
    | Some _ => (false, true)
    | None => (false, false)
    end in
  let '(o, item_plans) :=
    visit "items" (fun v => if is_array v then on_elements child v else one v) o in
  let tuple := if tuple_items then item_plans else prefix in
  let items := if plain_items then head (List.filter not_empty item_plans) else None in
  let '(o, more_items) := visit_all ["additionalItems"; "unevaluatedItems"] one o in
  let items := match items with
               | Some i => Some i
               | None => head (List.filter not_empty more_items)
               end in
  let '(o, extra_plans) := visit_all ["additionalProperties"; "unevaluatedProperties"] one o in
  let extra := List.filter not_empty extra_plans in
  let '(o, pattern_plans) :=
    visit "patternProperties" (on_values (fun k v => let '(v, plan) := child v in (v, (k, plan)))) o in
  let pattern_plans := List.filter (fun kp => not_empty kp.2) pattern_plans in
  let patterns := omap (fun '(k, plan) => r ← regex_new k; Some (r, plan)) pattern_plans in
  let fallbacks := omap (fun '(k, plan) => match regex_new k with Some _ => None | None => Some plan end)
                     pattern_plans in
  let '(o, contains_plans) := visit "contains" one o in
  let '(o, _) := visit_all ["$defs"; "definitions"] (on_values (fun _ => child)) o in
  let '(o, b4) := visit "contentSchema" one o in
  let '(o, _) := visit "propertyNames" one o in
  let known := if is_nil extra && is_nil fallbacks then ∅
               else list_to_set (map (fun p => p.1.1) props) in
  let tuple := if forallb is_empty tuple && is_none items then [] else tuple in
  (o, mk_map reference [] fallbacks (field_plans props) items tuple
        (List.filter not_empty (b1 ++ b2 ++ b3 ++ b4)) extra patterns
        (head (List.filter not_empty contains_plans)) known).
End node.

Fixpoint normalize_node (fuel : nat) (aliases : gmap string string) (schema : json)
    : json * ArgumentMap :=
  match fuel, schema with
  | S fuel, JObject o =>
      let '(o, plan) := normalize_object aliases (normalize_node fuel aliases) o in (JObject o, plan)
  | _, _ => (schema, default_map)
  end.

Fixpoint json_depth (v : json) : nat :=
  match v with
  | JObject o => S (list_max (map (fun kv => json_depth kv.2) o))
  | JArray l => S (list_max (map json_depth l))
  | _ => 1
  end.

(** [normalize]; [None] is the panic of an alias that cannot be cut. *)
Definition normalize (schema : json) : option (json * ArgumentMap) :=
  let fuel := json_depth schema in
  let schema := if has_legacy_bounds fuel schema then strip_draft04 fuel schema else schema in
  aliases ← aliases_of (collect_keys fuel schema);
  let references := sorted_set (collect_refs fuel schema) in
  let compiled :=
    omap (fun reference =>
            p ← strip_prefix "#" reference; target ← json_pointer p schema;
            Some (reference, (normalize_node fuel aliases target).2)) references in
  let '(schema, plan) := normalize_node fuel aliases schema in
  Some (schema,
        mk_map (reference plan) compiled (fallback_patterns plan) (fields plan) (items plan)
          (tuple plan) (branches plan) (extra plan) (patterns plan) (contains_map plan) (known plan)).

(** ** Restoring arguments *)

Definition both_supplied (alias original : string) : string :=
  "both schema alias '" +:+ alias +:+ "' and original key '" +:+ original +:+ "' were supplied".

(** A loop whose steps can fail, or run out of fuel. *)
Fixpoint try_fold {A S} (f : S -> A -> option (result S string)) (l : list A) (s : S)
    : option (result S string) :=
  match l with
  | [] => Some (Ok s)
  | a :: l =>
      match f s a with
      | Some (Ok s) => try_fold f l s
      | other => other
      end
  end.

(** [iter_mut] over the fields [keep] accepts. *)
Fixpoint try_values (f : json -> option (result json string)) (keep : string -> bool) (o : object)
    : option (result object string) :=
  match o with
  | [] => Some (Ok [])
  | (k, v) :: o =>
      match (if keep k then f v else Some (Ok v)) with
      | Some (Ok v) =>
          match try_values f keep o with
          | Some (Ok o) => Some (Ok ((k, v) :: o))
          | other => other
          end
      | Some (Err e) => Some (Err e)
      | None => None
      end
  end.

Fixpoint try_elements (f : nat -> json -> option (result json string)) (i : nat) (l : list json)
    : option (result (list json) string) :=
  match l with
  | [] => Some (Ok [])
  | v :: l =>
      match f i v with
      | Some (Ok v) =>
          match try_elements f (S i) l with
          | Some (Ok l) => Some (Ok (v :: l))
          | other => other
          end
      | Some (Err e) => Some (Err e)
      | None => None
      end
  end.

Definition lookup_map {A} (k : string) (m : list (string * A)) : option A :=
  snd <$> List.find (fun kv => String.eqb k kv.1) m.

Definition map_ok {A B} (f : A -> B) (r : option (result A string)) : option (result B string) :=
  match r with
  | Some (Ok a) => Some (Ok (f a))
  | Some (Err e) => Some (Err e)
  | None => None
  end.

Section restore.
Variable defs : list (string * ArgumentMap).
(** [restore_node] one level down. *)
Variable again : gset string -> ArgumentMap -> json -> option (result json string).

Definition restore_field (o : object) (field : string * (string * ArgumentMap))
    : option (result object string) :=
  let '(alias, (original, child)) := field in
  let renamed := negb (String.eqb alias original) in
  if renamed && obj_contains alias o && obj_contains original o
  then Some (Err (both_supplied alias original))
  else
    let o := match (if renamed then obj_get alias o else None) with
             | Some v => obj_insert original v (obj_remove alias o)
             | None => o
             end in
    match obj_get original o with
    | Some v => map_ok (fun v => obj_update original (fun _ => v) o) (again ∅ child v)
    | None => Some (Ok o)
    end.

Definition restore_object (plan : ArgumentMap) (o : object) : option (result object string) :=
  match try_fold restore_field (fields plan) o with
  | Some (Ok o) =>
      match try_fold (fun o '(pattern, child) => try_values (again ∅ child) (is_match pattern) o)
              (patterns plan) o with
      | Some (Ok o) =>
          match try_fold (fun o child =>
                  try_values (again ∅ child) (fun k => negb (bool_decide (k ∈ known plan))) o)
                  (fallback_patterns plan) o with
          | Some (Ok o) =>
              try_fold (fun o child =>
                  try_values (again ∅ child)
                    (fun k => negb (bool_decide (k ∈ known plan)) &&
                              negb (existsb (fun pc => is_match pc.1 k) (patterns plan))) o)
                (extra plan) o
          | other => other
          end
      | other => other
      end
  | other => other
  end.

Definition restore_array (plan : ArgumentMap) (l : list json) : option (result (list json) string) :=
  try_elements (fun i v =>
    match (match match tuple plan !! i with Some c => Some c | None => items plan end with
           | Some child => again ∅ child v
           | None => Some (Ok v)
           end) with
    | Some (Ok v) => match contains_map plan with Some child => again ∅ child v | None => Some (Ok v) end
    | other => other
    end) 0 l.
End restore.

Fixpoint restore_node (fuel : nat) (defs : list (string * ArgumentMap)) (active : gset string)
    (plan : ArgumentMap) (value : json) : option (result json string) :=
  match fuel with
  | O => None
  | S fuel =>
      match reference plan with
      | Some r =>
          if bool_decide (r ∈ active) then Some (Ok value)
          else match lookup_map r defs with
               | Some target => restore_node fuel defs ({[r]} ∪ active) target value
               | None => Some (Ok value)
               end
      | None =>
          let again := restore_node fuel defs in
          let here := match value with
                      | JObject o => map_ok JObject (restore_object again plan o)
                      | JArray l => map_ok JArray (restore_array again plan l)
                      | _ => Some (Ok value)
                      end in
          match here with
          | Some (Ok value) => try_fold (fun v branch => again active branch v) (branches plan) value
          | other => other
          end
      end
  end.
End regex.

(** ** Aliases are plain, new and distinct *)

Lemma key_byte_ascii s : all_bytes key_byte s = true -> is_ascii s = true.
Proof.
  assert (Hb : forall b, key_byte b = true -> (N_of_ascii b <? 128)%N = true).
  { intros b. unfold key_byte, is_alnum, is_digit, is_upper, is_lower, byte_in. intros H.
    apply N.ltb_lt. repeat (apply orb_prop in H as [H|H]); try done;
      try (apply andb_prop in H as [_ H]; apply N.leb_le in H; lia);
      by apply Ascii.eqb_eq in H as ->. }
  induction s as [|b s IH]; [done|]. cbn. intros [H1 H2]%andb_prop. by rewrite (Hb _ H1), IH.
Qed.

Lemma base_char_bytes c : all_bytes key_byte (base_char c) = true /\ slen (base_char c) = 1.
Proof.
  unfold base_char. destruct (one_byte key_byte c) eqn:E; [|done].
  destruct c as [|b [|]]; try done. cbn in *. by rewrite E.
Qed.

Lemma base_chars_bytes cs :
  all_bytes key_byte (concat_str (map base_char cs)) = true /\
  slen (concat_str (map base_char cs)) = Z.of_nat (length cs).
Proof.
  induction cs as [|c cs [IH1 IH2]]; [done|]. cbn [map concat_str foldr length].
  fold (concat_str (map base_char cs)). destruct (base_char_bytes c) as [H1 H2].
  rewrite all_bytes_app, slen_app, H1, H2, IH1, IH2. split; [done|lia].
Qed.

Lemma valid_key_spec k :
  valid_key k = true <-> k <> "" /\ slen k <= 64 /\ all_bytes key_byte k = true.
Proof.
  unfold valid_key. rewrite !andb_true_iff, negb_true_iff, String.eqb_neq, Z.leb_le. tauto.
Qed.

Lemma alias_base_valid original : valid_key (alias_base original) = true.
Proof.
  unfold alias_base. rewrite firstn_map.
  set (cs := take 64 (chars _)). destruct (base_chars_bytes cs) as [H1 H2].
  case_match eqn:E; [done|]. apply String.eqb_neq in E. apply valid_key_spec. split; [done|]. split; [|done].
  rewrite H2. subst cs. rewrite length_take. lia.
Qed.

Lemma take_bytes_all p n s : all_bytes p s = true -> all_bytes p (take_bytes n s) = true.
Proof. rewrite <- (take_drop_bytes n s) at 1. rewrite all_bytes_app. by intros [H _]%andb_prop. Qed.

Lemma numbered_valid base index :
  valid_key base = true -> 0 <= index < 10 ^ 20 ->
  exists h, numbered base index = Some (h +:+ String "_" (pretty index)) /\
    valid_key (h +:+ String "_" (pretty index)) = true.
Proof.
  intros (_ & Hl & Hb)%valid_key_spec Hi. unfold numbered. cbn [String.append].
  pose proof (pretty_length index 20 ltac:(done) ltac:(lia)) as Hp.
  pose proof (slen_nonneg (pretty index)). pose proof (slen_nonneg base).
  rewrite slen_cons. set (n := Z.min (slen base) (64 - (1 + slen (pretty index)))).
  rewrite str_slice_ascii by (try apply key_byte_ascii; try done; lia). cbn.
  eexists. split; [done|]. apply valid_key_spec. split; [|split].
  - by destruct (take_bytes (Z.to_nat n) base).
  - rewrite slen_app, slen_cons. unfold slen at 1. rewrite take_bytes_length. unfold slen in *. lia.
  - rewrite all_bytes_app, take_bytes_all by done. cbn.
    apply (all_bytes_impl is_digit); [|apply pretty_digits; lia].
    intros b Hd. unfold key_byte, is_alnum. by rewrite Hd.
Qed.

(** The loop stops on a fresh name, or has found every name it tried taken. *)
Lemma free_alias_spec fuel reserved base alias index :
  valid_key base = true -> valid_key alias = true -> 0 <= index ->
  index + Z.of_nat fuel < 10 ^ 20 ->
  (exists a, free_alias fuel reserved base alias index = Some a /\ a ∉ reserved /\ valid_key a = true) \/
  (forall i, (i < fuel)%nat -> exists a, numbered base (index + Z.of_nat i) = Some a /\ a ∈ reserved).
Proof.
  intros Hb. revert alias index. induction fuel as [|fuel IH]; intros alias index Ha Hi Hr; cbn [free_alias].
  - case_bool_decide; [right; lia|left; by eexists].
  - case_bool_decide; [|left; by eexists].
    destruct (numbered_valid base index Hb ltac:(lia)) as (h & Hn & Hv). rewrite Hn. cbn [mbind option_bind].
    destruct (IH (h +:+ String "_" (pretty index)) (index + 1) Hv ltac:(lia) ltac:(lia)) as [H1|H1]; [by left|].
    destruct (decide (h +:+ String "_" (pretty index) ∈ reserved)) as [Hin|Hin].
    + right. intros [|i] Hlt; [exists (h +:+ String "_" (pretty index)); by rewrite Z.add_0_r|].
      replace (index + Z.of_nat (S i)) with (index + 1 + Z.of_nat i) by lia. apply H1. lia.
    + left. exists (h +:+ String "_" (pretty index)). split; [|done]. destruct fuel; cbn; by rewrite bool_decide_eq_false_2.
Qed.

Lemma free_alias_total reserved base :
  valid_key base = true -> Z.of_nat (size reserved) < 10 ^ 18 ->
  exists a, free_alias (S (S (size reserved))) reserved base base 2 = Some a /\ a ∉ reserved /\
    valid_key a = true.
Proof.
  intros Hb Hs. destruct (free_alias_spec (S (S (size reserved))) reserved base base 2) as [H|H];
    [done|done|lia|lia|done|].
  exfalso. destruct (fresh_among (fun i => default "" (numbered base (2 + Z.of_nat i))) reserved) as (i & Hi & Hn).
  - intros i j Hij E.
    destruct (numbered_valid base (2 + Z.of_nat i) Hb ltac:(lia)) as (h & Hh & _).
    destruct (numbered_valid base (2 + Z.of_nat j) Hb ltac:(lia)) as (k & Hk & _).
    rewrite Hh, Hk in E. cbn in E. apply suffix_number_inj in E; [lia|done|lia..].
  - destruct (H i ltac:(lia)) as (a & Ha & Hin). rewrite Ha in Hn. done.
Qed.

(** What a set of aliases must satisfy for a restored argument to be unambiguous. *)
Record aliases_ok (reserved : gset string) (aliases : gmap string string) : Prop := {
  ok_valid : forall k a, aliases !! k = Some a -> valid_key a = true;
  ok_reserved : forall k a, aliases !! k = Some a -> a ∈ reserved;
  ok_inj : forall k k' a, aliases !! k = Some a -> aliases !! k' = Some a -> k = k' }.

Lemma assign_aliases_spec base_keys reserved aliases invalid :
  aliases_ok reserved aliases -> (forall k a, aliases !! k = Some a -> a ∉ base_keys) ->
  base_keys ⊆ reserved -> NoDup invalid -> (forall k, k ∈ invalid -> aliases !! k = None) ->
  Z.of_nat (size reserved) + Z.of_nat (length invalid) < 10 ^ 18 ->
  exists reserved' aliases', assign_aliases reserved aliases invalid = Some (reserved', aliases') /\
    aliases_ok reserved' aliases' /\ (forall k a, aliases' !! k = Some a -> a ∉ base_keys) /\
    dom aliases' = dom aliases ∪ list_to_set invalid.
Proof.
  revert reserved aliases. induction invalid as [|k invalid IH]; intros reserved aliases Hok Hb Hsub Hnd Hnew Hs.
  - exists reserved, aliases. cbn. split_and!; try done. set_solver.
  - apply NoDup_cons in Hnd as [Hk Hnd]. cbn [length] in Hs. cbn [assign_aliases].
    destruct (free_alias_total reserved (alias_base k) (alias_base_valid k) ltac:(lia)) as (a & -> & Hfresh & Hv).
    cbn [mbind option_bind].
    destruct (IH ({[a]} ∪ reserved) (<[k := a]> aliases)) as (r' & al' & -> & H1 & H2 & H3).
    + constructor.
      * intros k' a' [[<- <-]|[_ H]]%lookup_insert_Some; [done|by eapply ok_valid].
      * intros k' a' [[<- <-]|[_ H]]%lookup_insert_Some; [set_solver|].
        apply (ok_reserved _ _ Hok) in H. set_solver.
      * intros k1 k2 a' [[<- <-]|[_ H]]%lookup_insert_Some [[<- E]|[_ H']]%lookup_insert_Some; try done.
        -- by apply (ok_reserved _ _ Hok) in H'.
        -- subst a'. by apply (ok_reserved _ _ Hok) in H.
        -- by eapply ok_inj.
    + intros k' a' [[<- <-]|[_ H]]%lookup_insert_Some; [set_solver|by eapply Hb].
    + set_solver.
    + done.
    + intros k' Hk'. rewrite lookup_insert_ne by set_solver. apply Hnew. set_solver.
    + rewrite size_union by set_solver. rewrite size_singleton. lia.
    + exists r', al'. split_and!; try done. rewrite H3, dom_insert_L. cbn. set_solver.
Qed.

Lemma aliases_of_spec keys :
  Z.of_nat (length keys) < 10 ^ 18 ->
  exists aliases, aliases_of keys = Some aliases /\
    (forall k, is_Some (aliases !! k) <-> k ∈ keys /\ valid_key k = false) /\
    (forall k a, aliases !! k = Some a -> valid_key a = true /\ (a ∉ keys)) /\
    (forall k k' a, aliases !! k = Some a -> aliases !! k' = Some a -> k = k').
Proof.
  intros Hn. unfold aliases_of. set (valid := list_to_set (List.filter valid_key keys) : gset string).
  set (invalid := sorted_set _).
  assert (Hin : forall k, k ∈ invalid <-> k ∈ keys /\ valid_key k = false).
  { intros k. unfold invalid, sorted_set. split.
    - intros H%dedup_incl%sort_strings_in%list_elem_of_In%filter_In. rewrite negb_true_iff in H.
      by rewrite list_elem_of_In.
    - intros [H Hv]. apply dedup_superset, sort_strings_in, list_elem_of_In, filter_In.
      rewrite negb_true_iff, <- list_elem_of_In. done. }
  assert (Hval : forall k, k ∈ valid <-> k ∈ keys /\ valid_key k = true).
  { intros k. unfold valid. by rewrite elem_of_list_to_set, !list_elem_of_In, filter_In. }
  assert (Hlen : Z.of_nat (size valid) + Z.of_nat (length invalid) <= Z.of_nat (length keys)).
  { assert (Hnd : NoDup invalid) by apply dedup_NoDup, sort_strings_sorted.
    assert (Hd : valid ## list_to_set invalid).
    { intros k Hk Hi%elem_of_list_to_set. apply Hval in Hk as [_ Hk]. apply Hin in Hi as [_ Hi]. congruence. }
    assert (Hsub : valid ∪ list_to_set invalid ⊆ list_to_set keys).
    { intros k [H%Hval|H%elem_of_list_to_set%Hin]%elem_of_union; apply elem_of_list_to_set; by destruct H. }
    apply subseteq_size in Hsub. rewrite size_union, (size_list_to_set invalid Hnd) in Hsub by done.
    pose proof (list_to_set_size_le keys). lia. }
  destruct (assign_aliases_spec valid valid ∅ invalid) as (r & aliases & -> & Hok & Hfresh & Hdom).
  - by constructor.
  - done.
  - done.
  - apply dedup_NoDup, sort_strings_sorted.
  - intros k _. apply lookup_empty.
  - lia.
  - exists aliases. split; [done|]. split_and!.
    + intros k. rewrite <- elem_of_dom, Hdom, dom_empty_L, <- Hin, union_empty_l_L, elem_of_list_to_set. done.
    + intros k a Ha. assert (Hv := ok_valid _ _ Hok _ _ Ha). split; [done|]. intros Hk.
      apply (Hfresh _ _ Ha), Hval. done.
    + apply (ok_inj _ _ Hok).
Qed.

(** Normalizing a schema whose keys fit in memory does not panic. *)
Definition schema_small (schema : json) : Prop :=
  let fuel := json_depth schema in
  Z.of_nat (length (collect_keys fuel
    (if has_legacy_bounds fuel schema then strip_draft04 fuel schema else schema))) < 10 ^ 18.

Lemma normalize_total regex regex_new parse parse_f64 schema :
  schema_small schema -> exists out, normalize regex regex_new parse parse_f64 schema = Some out.
Proof.
  intros Hs. unfold normalize. destruct (aliases_of_spec _ Hs) as (aliases & -> & _). cbn [mbind option_bind].
  destruct (normalize_node _ _ _ _ _ _ _) as [v plan]. by eexists.
Qed.

(** ** Properties *)

(** Every invalid property key gets one alias, made without a panic or an endless loop:
    the alias is a valid key, is none of the schema's own valid keys, and stands for no
    other key, so an argument sent under it can be restored. *)
Theorem aliases_unambiguous keys :
  Z.of_nat (length keys) < 10 ^ 18 ->
  exists aliases, aliases_of keys = Some aliases /\
    (forall k, is_Some (aliases !! k) <-> k ∈ keys /\ valid_key k = false) /\
    (forall k a, aliases !! k = Some a -> valid_key a = true /\ (a ∉ keys)) /\
    (forall k k' a, aliases !! k = Some a -> aliases !! k' = Some a -> k = k').
Proof. apply aliases_of_spec. Qed.

Definition demo_keys : list string := ["'x-Cwd'"; "x-Cwd"; "a b"; "a_b"; "a/b"].

Lemma aliases_unambiguous_witness :
  exists aliases, aliases_of demo_keys = Some aliases /\
    aliases !! "'x-Cwd'" = Some "x-Cwd_2" /\ aliases !! "a b" = Some "a_b_2" /\
    aliases !! "a/b" = Some "a_b_3" /\ ("a_b_2" ∉ demo_keys).
Proof.
  destruct (aliases_unambiguous demo_keys ltac:(done)) as (aliases & H & _ & Hv & _).
  exists aliases. split; [done|]. assert (E := H). vm_compute in E. injection E as E.
  assert (H2 : aliases !! "a b" = Some "a_b_2") by (rewrite <- E; by vm_compute).
  split_and!; try (rewrite <- E; by vm_compute). by apply (Hv "a b").
Defined.
End SchemaCompat.
