(* ===== verification/Aliases.v ===== *)
(** Allocating exposed names (src/router.rs, [allocate_names], [legacy_exposed_name],
    [exposed_name]): every tool of a server gets a name of its own, whatever other servers
    and the order of the catalog are. *)

From S2P Require Import Prelude Text Json ToolNames.

Module Aliases.
Import ToolNames.

(** The fields of [Router] that hand out names. *)
Record Names := mk_names {
  seen : gset string;
  legacy_seen : gset string;
  legacy_names : gmap string string }.

Definition no_names : Names := mk_names ∅ ∅ ∅.

Section digest.
Variable content_digest : json -> list N.
Variable alias_rule : AliasRule.

(** [while !legacy_seen.insert(legacy)]; [None] is running out of fuel. *)
Fixpoint legacy_loop (fuel : nat) (taken : gset string) (base legacy : string) (i : Z)
    : option string :=
  if bool_decide (legacy ∈ taken)
  then match fuel with
       | O => None
       | S fuel => legacy_loop fuel taken base (base +:+ "_" +:+ pretty i) (i + 1)
       end
  else Some legacy.

Definition legacy_base (server_id tool : string) : string :=
  sanitize_segment server_id +:+ "__" +:+ sanitize_segment tool.

Definition legacy_exposed_name (taken : gset string) (server_id tool : string)
    : option (gset string * string) :=
  let base := legacy_base server_id tool in
  legacy ← legacy_loop (size taken) taken base base 2;
  Some ({[legacy]} ∪ taken, legacy).

(** The identities a name is hashed from: the tool, then the tool and an attempt. *)
Definition tool_identity (server_id tool : string) : json := JArray [JString server_id; JString tool].
Definition attempt_identity (server_id tool : string) (attempt : Z) : json :=
  JArray [JString server_id; JString tool; JNumber (PosInt attempt)].

Definition attempt_name (server_id tool legacy : string) (attempt : Z) : option string :=
  bounded_alias content_digest (legacy +:+ "_" +:+ pretty attempt)
    (attempt_identity server_id tool attempt) (Some server_id) alias_rule.

(** [while !seen.insert(name)]. *)
Fixpoint exposed_loop (fuel : nat) (taken : gset string) (server_id tool legacy name : string)
    (attempt : Z) : option string :=
  if bool_decide (name ∈ taken)
  then match fuel with
       | O => None
       | S fuel =>
           let attempt := attempt + 1 in
           name ← attempt_name server_id tool legacy attempt;
           exposed_loop fuel taken server_id tool legacy name attempt
       end
  else Some name.

Definition exposed_fuel (taken : gset string) : nat := 2 * size taken + 1.

Definition exposed_name (names : Names) (server_id tool legacy : string) : option (Names * string) :=
  first ← bounded_alias content_digest legacy (tool_identity server_id tool) (Some server_id) alias_rule;
  name ← exposed_loop (exposed_fuel (seen names)) (seen names) server_id tool legacy first 0;
  Some (mk_names ({[name]} ∪ seen names) (legacy_seen names)
          (if String.eqb name legacy then legacy_names names
           else <[name := legacy]> (legacy_names names)), name).

(** The order names are handed out in: the raw name, then the position. *)
Definition entry : Type := nat * option string.

Definition name_le (a b : option string) : Prop :=
  match a, b with
  | None, _ => True
  | Some _, None => False
  | Some a, Some b => str_le a b
  end.

Definition entry_le (a b : entry) : Prop :=
  name_le a.2 b.2 /\ (name_le b.2 a.2 -> (a.1 <= b.1)%nat).

#[global] Instance name_le_dec : RelDecision name_le.
Proof. intros [a|] [b|]; cbn; apply _. Defined.

#[global] Instance entry_le_dec : RelDecision entry_le.
Proof. intros a b. unfold entry_le. apply _. Defined.

Definition order (names : list (option string)) : list entry :=
  merge_sort entry_le (zip (seq 0 (length names)) names).

(** The legacy names, in that order. *)
Fixpoint allocate_legacy (taken : gset string) (server_id : string) (entries : list entry)
    : option (gset string * list (nat * string * string)) :=
  match entries with
  | [] => Some (taken, [])
  | (_, None) :: entries => allocate_legacy taken server_id entries
  | (i, Some orig) :: entries =>
      '(taken, legacy) ← legacy_exposed_name taken server_id orig;
      '(taken, rest) ← allocate_legacy taken server_id entries;
      Some (taken, (i, orig, legacy) :: rest)
  end.

Definition too_long (e : nat * string * string) : bool := limit alias_rule <? slen (spell alias_rule e.2).

(** [sort_by_key] on a boolean is stable: the names that fit, then the long ones. *)
Definition fits_first (l : list (nat * string * string)) : list (nat * string * string) :=
  List.filter (fun e => negb (too_long e)) l ++ List.filter too_long l.

Fixpoint allocate_exposed (names : Names) (server_id : string) (l : list (nat * string * string))
    : option (Names * list (nat * string)) :=
  match l with
  | [] => Some (names, [])
  | (i, orig, legacy) :: l =>
      '(names, name) ← exposed_name names server_id orig legacy;
      '(names, rest) ← allocate_exposed names server_id l;
      Some (names, (i, name) :: rest)
  end.

Definition position (out : list (nat * string)) (i : nat) : option string :=
  snd <$> List.find (fun e => Nat.eqb i e.1) out.

Definition allocate_names (names : Names) (server_id : string) (items : list (option string))
    : option (Names * list (option string)) :=
  '(taken, legacy) ← allocate_legacy (legacy_seen names) server_id (order items);
  '(names, out) ← allocate_exposed (mk_names (seen names) taken (legacy_names names)) server_id
                    (fits_first legacy);
  Some (names, map (position out) (seq 0 (length items))).
End digest.

Definition demo_rule : AliasRule := {| limit := 64; dashed := false |}.

Example allocate_demo :
  allocate_names demo_digest demo_rule no_names "s" [Some "get_user"; None; Some "get-user"] =
  Some (mk_names {["s__get_user"; "s__get_user_2"]} {["s__get_user"; "s__get_user_2"]} ∅,
        [Some "s__get_user_2"; None; Some "s__get_user"]).
Proof. by vm_compute. Qed.

(** ** Legacy names *)

Definition legacy_candidate (base : string) (i : nat) : string :=
  match i with O => base | S i => base +:+ "_" +:+ pretty (2 + Z.of_nat i) end.

Lemma legacy_candidate_inj base i j : legacy_candidate base i = legacy_candidate base j -> i = j.
Proof.
  assert (Hne : forall i, base <> base +:+ "_" +:+ pretty (2 + Z.of_nat i)).
  { intros k E. apply (f_equal slen) in E. rewrite !slen_app in E. change (slen "_") with 1 in E.
    pose proof (slen_nonneg (pretty (2 + Z.of_nat k))). lia. }
  destruct i as [|i], j as [|j]; cbn [legacy_candidate]; intros E; [done|by apply Hne in E|symmetry in E; by apply Hne in E|].
  apply (suffix_number_inj "_") in E; [lia|done|lia..].
Qed.

Lemma legacy_loop_spec taken base fuel k :
  (exists i, legacy_loop fuel taken base (legacy_candidate base k) (2 + Z.of_nat k) = Some (legacy_candidate base i) /\
     legacy_candidate base i ∉ taken) \/
  (forall i, (i <= fuel)%nat -> legacy_candidate base (k + i) ∈ taken).
Proof.
  revert k. induction fuel as [|fuel IH]; intros k; cbn [legacy_loop];
    (case_bool_decide as Hk; [|left; by exists k]).
  - right. intros i Hi. replace (k + i)%nat with k by lia. done.
  - replace (2 + Z.of_nat k + 1) with (2 + Z.of_nat (S k)) by lia.
    destruct (IH (S k)) as [H|H]; [by left|]. right. intros [|i] Hi.
    + by rewrite Nat.add_0_r.
    + replace (k + S i)%nat with (S k + i)%nat by lia. apply H. lia.
Qed.

Lemma legacy_base_bytes server_id tool : all_bytes (name_byte false) (legacy_base server_id tool) = true.
Proof.
  unfold legacy_base. rewrite !all_bytes_app.
  by rewrite !(proj1 (sanitize_segment_bytes _)).
Qed.

Lemma digit_name_byte b : is_digit b = true -> name_byte false b = true.
Proof. unfold name_byte, is_alnum. by intros ->. Qed.

Lemma numbered_bytes base i :
  0 <= i -> all_bytes (name_byte false) base = true -> all_bytes (name_byte false) (base +:+ "_" +:+ pretty i) = true.
Proof.
  intros Hi Hb. rewrite !all_bytes_app, Hb. cbn. by apply (all_bytes_impl is_digit), pretty_digits; [apply digit_name_byte|].
Qed.

(** Every legacy name is [server__tool], perhaps numbered. *)
Definition legacy_shape (server_id tool legacy : string) : Prop :=
  all_bytes (name_byte false) legacy = true /\ exists t, legacy = sanitize_segment server_id +:+ "__" +:+ t.

Lemma legacy_exposed_name_spec taken server_id tool :
  exists legacy, legacy_exposed_name taken server_id tool = Some ({[legacy]} ∪ taken, legacy) /\
    legacy ∉ taken /\ legacy_shape server_id tool legacy.
Proof.
  unfold legacy_exposed_name. set (base := legacy_base server_id tool).
  destruct (legacy_loop_spec taken base (size taken) 0) as [(i & H & Hn)|H].
  - exists (legacy_candidate base i). cbn [legacy_candidate] in H. change (2 + Z.of_nat 0) with 2 in H.
    rewrite H. cbn [mbind option_bind]. split; [done|]. split; [done|].
    destruct i as [|i]; cbn [legacy_candidate]; split.
    + apply legacy_base_bytes.
    + by eexists.
    + apply numbered_bytes; [lia|apply legacy_base_bytes].
    + unfold base, legacy_base. rewrite !app_str_assoc. by eexists.
  - exfalso. destruct (fresh_among (legacy_candidate base) taken) as (i & Hi & Hf).
    + intros i j Hij E. apply legacy_candidate_inj in E. lia.
    + apply Hf, (H i Hi).
Qed.

(** ** Exposed names *)

Lemma to_hex_inj a b :
  Forall (fun x => (x < 256)%N) a -> Forall (fun x => (x < 256)%N) b -> to_hex a = to_hex b -> a = b.
Proof.
  assert (Hd : forall m n, (m < 16)%N -> (n < 16)%N -> hex_digit m = hex_digit n -> m = n).
  { intros m n Hm Hn E.
    assert (A : forall n, (n < 16)%N -> In n (map N.of_nat (seq 0 16))).
    { intros k Hk. apply in_map_iff. exists (N.to_nat k). split; [lia|]. apply in_seq. lia. }
    assert (F : forallb (fun m => forallb (fun n => negb (Stdlib.Strings.Ascii.eqb (hex_digit m) (hex_digit n)) || (m =? n)%N)
      (map N.of_nat (seq 0 16))) (map N.of_nat (seq 0 16)) = true) by (by vm_compute).
    rewrite forallb_forall in F. specialize (F _ (A _ Hm)). rewrite forallb_forall in F.
    specialize (F _ (A _ Hn)). rewrite E, Ascii.eqb_refl in F. by apply N.eqb_eq in F. }
  intros Ha. revert b. induction Ha as [|x a Hx _ IH]; intros [|y b] Hb E; try done.
  apply Forall_cons in Hb as [Hy Hb]. unfold to_hex in E. cbn [foldr] in E. injection E as E1 E2 E3.
  apply Hd in E1; [|apply N.Div0.div_lt_upper_bound; lia..].
  apply Hd in E2; [|apply N.mod_lt; lia..]. f_equal; [|by apply IH].
  rewrite (N.div_mod x 16), (N.div_mod y 16) by lia. congruence.
Qed.

Lemma app_suffix_inj a b x y : slen x = slen y -> a +:+ x = b +:+ y -> a = b /\ x = y.
Proof.
  revert b. induction a as [|c a IH]; intros [|d b] Hl E; cbn in E.
  - done.
  - exfalso. subst x. rewrite slen_cons, slen_app in Hl. pose proof (slen_nonneg b). lia.
  - exfalso. subst y. rewrite slen_cons, slen_app in Hl. pose proof (slen_nonneg a). lia.
  - injection E as -> E. by destruct (IH _ Hl E) as [-> ->].
Qed.

(** Spelling loses nothing on names that begin alike. *)
Lemma starts_dash x y s : starts_underscore (dash (String x (String y s))) = is_underscore x && negb (is_underscore y).
Proof.
  destruct (is_underscore x) eqn:Ex; cbn [andb].
  - destruct (is_underscore y) eqn:Ey; cbn [negb].
    + apply Ascii.eqb_eq in Ex as ->, Ey as ->. rewrite dash_pair. by rewrite starts_underscore_cons.
    + rewrite dash_one by (by rewrite starts_underscore_cons, Ey, andb_false_r). by rewrite starts_underscore_cons, Ex.
  - rewrite dash_one by (by rewrite Ex). by rewrite starts_underscore_cons, Ex.
Qed.

Lemma spell_inj r p a b :
  all_bytes (name_byte false) (p +:+ a) = true -> all_bytes (name_byte false) (p +:+ b) = true ->
  2 <= slen p -> spell r (p +:+ a) = spell r (p +:+ b) -> p +:+ a = p +:+ b.
Proof.
  intros Ha Hb Hp. unfold spell. destruct (dashed r); cbn [negb]; [|done].
  fold (dash (p +:+ a)) (dash (p +:+ b)).
  destruct p as [|x [|y p]]; [unfold slen in Hp; cbn in Hp; lia..|].
  assert (H : forall s, strip_prefix "_" (dash (String x (String y p) +:+ s)) =
    if is_underscore x && negb (is_underscore y)
    then Some (String.substring 1 (String.length (dash (String x (String y p) +:+ s)) - 1) (dash (String x (String y p) +:+ s)))
    else None).
  { intros s. unfold strip_prefix. fold (starts_with "_" (dash (String x (String y p) +:+ s))).
    change (String x (String y p) +:+ s) with (String x (String y (p +:+ s))).
    fold (starts_underscore (dash (String x (String y (p +:+ s))))). by rewrite starts_dash. }
  pose proof (H a) as H1. pose proof (H b) as H2.
  destruct (is_underscore x && negb (is_underscore y)).
  - rewrite H1, H2. apply strip_prefix_spec in H1, H2. intros E. apply app_str_inj in E.
    rewrite <- (undash_dash _ Ha), <- (undash_dash _ Hb), H1, H2. by rewrite E.
  - rewrite H1, H2. intros E. by rewrite <- (undash_dash _ Ha), <- (undash_dash _ Hb), E.
Qed.

Section digest_facts.
Context (content_digest : json -> list N) (rule : AliasRule)
  (digest_bytes : forall v, Forall (fun b => (b < 256)%N) (content_digest v))
  (digest_long : forall v, (6 <= length (content_digest v))%nat)
  (rule_limit : 16 <= limit rule).

(** Different attempts for one tool hash apart in the six bytes an alias keeps. *)
Definition attempts_apart (bound : nat) (server_id tool : string) : Prop :=
  forall i j, (i < j <= bound)%nat ->
    take 6 (content_digest (attempt_identity server_id tool (Z.of_nat i))) <>
    take 6 (content_digest (attempt_identity server_id tool (Z.of_nat j))).

Lemma attempt_name_spec server_id tool legacy i :
  all_bytes (name_byte false) legacy = true -> 0 <= i ->
  exists name, attempt_name content_digest rule server_id tool legacy i = Some name /\
    slen name <= limit rule /\ spelled rule name /\
    ((slen (spell rule (legacy +:+ "_" +:+ pretty i)) <= limit rule /\ name = spell rule (legacy +:+ "_" +:+ pretty i)) \/
     (limit rule < slen (spell rule (legacy +:+ "_" +:+ pretty i)) /\
      exists p, name = p +:+ "_" +:+ alias_suffix content_digest (attempt_identity server_id tool i))).
Proof.
  intros Hb Hi. unfold attempt_name. pose proof (numbered_bytes legacy i Hi Hb) as Hn.
  destruct (bounded_alias_spec content_digest digest_bytes _ (attempt_identity server_id tool i) (Some server_id) rule Hn rule_limit)
    as [[Hs ->]|(Hs & p & -> & Hp & Hsp)]; eexists; (split; [reflexivity|]).
  - split; [done|]. split; [by apply spell_spelled|]. by left.
  - split; [done|]. split; [done|]. right. split; [done|]. by eexists.
Qed.

Lemma exposed_loop_spec taken server_id tool legacy fuel name k :
  all_bytes (name_byte false) legacy = true -> slen name <= limit rule -> spelled rule name ->
  (exists out, exposed_loop content_digest rule fuel taken server_id tool legacy name (Z.of_nat k) = Some out /\
     out ∉ taken /\ slen out <= limit rule /\ spelled rule out) \/
  (forall i, (0 < i <= fuel)%nat -> exists out,
     attempt_name content_digest rule server_id tool legacy (Z.of_nat (k + i)) = Some out /\ out ∈ taken).
Proof.
  intros Hb. revert name k. induction fuel as [|fuel IH]; intros name k Hl Hs; cbn [exposed_loop].
  - case_bool_decide; [right; lia|left; by eexists].
  - case_bool_decide; [|left; by eexists].
    replace (Z.of_nat k + 1) with (Z.of_nat (S k)) by lia.
    destruct (attempt_name_spec server_id tool legacy (Z.of_nat (S k)) Hb ltac:(lia)) as (next & Hn & Hnl & Hns & _).
    rewrite Hn. cbn [mbind option_bind]. destruct (IH next (S k) Hnl Hns) as [H1|H1]; [by left|].
    destruct (decide (next ∈ taken)) as [Hin|Hin].
    + right. intros [|[|i]] Hi; [lia| |].
      * replace (k + 1)%nat with (S k) by lia. by exists next.
      * replace (k + S (S i))%nat with (S k + S i)%nat by lia. apply H1. lia.
    + left. exists next. split; [|done]. destruct fuel; cbn; by rewrite bool_decide_eq_false_2.
Qed.

Lemma alias_suffix_inj u v :
  alias_suffix content_digest u = alias_suffix content_digest v ->
  take 6 (content_digest u) = take 6 (content_digest v).
Proof. apply to_hex_inj; apply Forall_take, digest_bytes. Qed.

Lemma alias_suffix_length u : slen (alias_suffix content_digest u) = 12.
Proof.
  unfold alias_suffix, slen. rewrite to_hex_length, length_take. pose proof (digest_long u). lia.
Qed.

(** The loop of [exposed_name] ends: the attempts give more names than are taken. *)
Lemma attempts_not_all_taken taken server_id tool legacy :
  legacy_shape server_id tool legacy -> attempts_apart (exposed_fuel taken) server_id tool ->
  ~ (forall i, (0 < i <= exposed_fuel taken)%nat -> exists out,
       attempt_name content_digest rule server_id tool legacy (Z.of_nat i) = Some out /\ out ∈ taken).
Proof.
  intros [Hb [t Ht]] Hap H.
  set (f := fun i => default "" (attempt_name content_digest rule server_id tool legacy (Z.of_nat i))).
  set (short := fun i => slen (spell rule (legacy +:+ "_" +:+ pretty (Z.of_nat i))) <=? limit rule).
  set (l := seq 1 (exposed_fuel taken)).
  assert (Hin : forall q i, i ∈ List.filter q l -> (0 < i <= exposed_fuel taken)%nat /\ q i = true).
  { intros q i [Hi Hq]%list_elem_of_In%filter_In. apply in_seq in Hi. split; [lia|done]. }
  assert (Htaken : forall q, Forall (fun i => f i ∈ taken) (List.filter q l)).
  { intros q. apply Forall_forall. intros i [Hi _]%Hin. destruct (H i Hi) as (out & Ho & Hm). unfold f. by rewrite Ho. }
  assert (Hnd : forall q, NoDup (List.filter q l)) by (intros q; apply NoDup_ListNoDup, List.NoDup_filter, NoDup_ListNoDup, NoDup_seq).
  assert (Hf : forall i, exists name, f i = name /\
    ((short i = true /\ name = spell rule (legacy +:+ "_" +:+ pretty (Z.of_nat i))) \/
     (short i = false /\ exists p, name = p +:+ "_" +:+ alias_suffix content_digest (attempt_identity server_id tool (Z.of_nat i))))).
  { intros i. destruct (attempt_name_spec server_id tool legacy (Z.of_nat i) Hb ltac:(lia)) as (n & Hn & _ & _ & Hc).
    exists n. unfold f, short. rewrite Hn. split; [done|].
    destruct Hc as [[Hc ->]|[Hc Hp]]; [left|right]; (split; [lia|done]). }
  assert (H1 : (length (List.filter short l) <= size taken)%nat).
  { apply (names_bound f); [|apply Htaken]. apply NoDup_fmap_lt; [apply Hnd|].
    intros i j [Hi Si]%Hin [Hj Sj]%Hin Hij E.
    destruct (Hf i) as (ni & Ei & [[_ Hi']|[Si' _]]); [|congruence].
    destruct (Hf j) as (nj & Ej & [[_ Hj']|[Sj' _]]); [|congruence].
    assert (Hs : spell rule (legacy +:+ "_" +:+ pretty (Z.of_nat i)) = spell rule (legacy +:+ "_" +:+ pretty (Z.of_nat j))) by congruence.
    apply spell_inj in Hs; [|apply numbered_bytes; [lia|done]..|].
    - apply (suffix_number_inj "_") in Hs; [lia|done|lia..].
    - rewrite Ht, !slen_app. change (slen "__") with 2. pose proof (slen_nonneg t).
      pose proof (slen_nonneg (sanitize_segment server_id)). lia. }
  assert (H2 : (length (List.filter (fun i => negb (short i)) l) <= size taken)%nat).
  { apply (names_bound f); [|apply Htaken]. apply NoDup_fmap_lt; [apply Hnd|].
    intros i j [Hi Si%negb_true_iff]%Hin [Hj Sj%negb_true_iff]%Hin Hij E.
    destruct (Hf i) as (ni & Ei & [[Si' _]|[_ [p Hp]]]); [congruence|].
    destruct (Hf j) as (nj & Ej & [[Sj' _]|[_ [q Hq]]]); [congruence|].
    assert (Hs : (p +:+ "_") +:+ alias_suffix content_digest (attempt_identity server_id tool (Z.of_nat i)) =
                 (q +:+ "_") +:+ alias_suffix content_digest (attempt_identity server_id tool (Z.of_nat j)))
      by (rewrite !app_str_assoc; congruence).
    apply app_suffix_inj in Hs as [_ Hs]; [|by rewrite !alias_suffix_length].
    apply alias_suffix_inj in Hs. apply (Hap i j); [lia|done]. }
  pose proof (List.filter_length short l). unfold l in *. rewrite length_seq in *. unfold exposed_fuel in *. lia.
Qed.

(** ** One name *)

(** What a name handed out must satisfy. *)
Definition good_name (name : string) : Prop := slen name <= limit rule /\ spelled rule name.

Lemma exposed_name_spec names server_id tool legacy :
  legacy_shape server_id tool legacy -> attempts_apart (exposed_fuel (seen names)) server_id tool ->
  exists names' name, exposed_name content_digest rule names server_id tool legacy = Some (names', name) /\
    name ∉ seen names /\ good_name name /\ seen names' = {[name]} ∪ seen names /\
    legacy_seen names' = legacy_seen names.
Proof.
  intros Hs Hap. assert (Hb := proj1 Hs). unfold exposed_name.
  assert (Hfirst : exists first, bounded_alias content_digest legacy (tool_identity server_id tool) (Some server_id) rule = Some first /\
    slen first <= limit rule /\ spelled rule first).
  { destruct (bounded_alias_spec content_digest digest_bytes legacy (tool_identity server_id tool) (Some server_id) rule Hb rule_limit)
      as [[Hl ->]|(_ & p & -> & Hp)]; eexists; (split; [reflexivity|]); [|done].
    split; [done|]. by apply spell_spelled. }
  destruct Hfirst as (first & -> & Hfl & Hfs). cbn [mbind option_bind].
  destruct (exposed_loop_spec (seen names) server_id tool legacy (exposed_fuel (seen names)) first 0 Hb Hfl Hfs)
    as [(out & Ho & Hn & Hg)|H]; [|by destruct (attempts_not_all_taken _ _ _ _ Hs Hap H)].
  change (Z.of_nat 0) with 0 in Ho. rewrite Ho. cbn [mbind option_bind].
  eexists _, out. split; [reflexivity|]. by split_and!.
Qed.
End digest_facts.

(** ** The order of a catalog *)

#[global] Instance name_le_trans : Transitive name_le.
Proof. intros [a|] [b|] [c|]; cbn; try done. apply str_le_trans. Qed.
#[global] Instance name_le_total : Total name_le.
Proof. intros [a|] [b|]; cbn; [apply str_le_total|by right|by left..]. Qed.
#[global] Instance name_le_antisymm : AntiSymm (=) name_le.
Proof. intros [a|] [b|]; cbn; try done. intros H1 H2. f_equal. by apply (anti_symm str_le). Qed.

#[global] Instance entry_le_trans : Transitive entry_le.
Proof.
  intros [i a] [j b] [k c] [H1 H2] [H3 H4]. cbn in *. split; [by etrans|]. cbn. intros H.
  assert (name_le b a) by (by etrans). assert (name_le c b) by (by etrans). etransitivity; [by apply H2|by apply H4].
Qed.
#[global] Instance entry_le_total : Total entry_le.
Proof.
  intros [i a] [j b]. unfold entry_le. cbn. destruct (total name_le a b) as [H|H].
  - destruct (decide (name_le b a)); [|left; split; [done|by intros]].
    destruct (le_ge_dec i j); [by left|by right].
  - destruct (decide (name_le a b)); [|right; split; [done|by intros]].
    destruct (le_ge_dec i j); [by left|by right].
Qed.

Lemma order_perm items : order items ≡ₚ zip (seq 0 (length items)) items.
Proof. apply merge_sort_Permutation. Qed.

Lemma order_in items i n : (i, n) ∈ order items <-> items !! i = Some n.
Proof.
  rewrite order_perm, list_elem_of_lookup. split.
  - intros [k Hk]. apply lookup_zip_with_Some in Hk as (x & y & [= <- <-] & Hx & Hy).
    apply lookup_seq in Hx as [-> _]. done.
  - intros Hi. exists i. apply lookup_zip_with_Some. exists i, n. split; [done|]. split; [|done].
    apply lookup_seq. split; [lia|]. by apply lookup_lt_Some in Hi.
Qed.

Lemma order_NoDup items : NoDup (order items).*1.
Proof. rewrite order_perm, fst_zip by (rewrite length_seq; lia). apply NoDup_seq. Qed.

(** The sequence of names does not depend on the positions. *)
Lemma order_names items items' : items ≡ₚ items' -> (order items).*2 = (order items').*2.
Proof.
  intros Hp. apply (StronglySorted_unique name_le).
  - assert (H : StronglySorted entry_le (order items)) by (apply StronglySorted_merge_sort; apply _).
    induction H as [|e l _ IH Hf]; cbn; constructor; [done|]. apply Forall_fmap.
    eapply Forall_impl; [exact Hf|]. by intros ? [? _].
  - assert (H : StronglySorted entry_le (order items')) by (apply StronglySorted_merge_sort; apply _).
    induction H as [|e l _ IH Hf]; cbn; constructor; [done|]. apply Forall_fmap.
    eapply Forall_impl; [exact Hf|]. by intros ? [? _].
  - by rewrite !order_perm, !snd_zip by (by rewrite length_seq).
Qed.

(** ** Allocation goes by the sequence of names alone *)

Definition legacy_pairs (l : list (nat * string * string)) : list (string * string) :=
  map (fun e => (e.1.2, e.2)) l.

Lemma allocate_legacy_names taken server_id e e' :
  e.*2 = e'.*2 ->
  prod_map id legacy_pairs <$> allocate_legacy taken server_id e =
  prod_map id legacy_pairs <$> allocate_legacy taken server_id e'.
Proof.
  revert taken e'. induction e as [|[i n] e IH]; intros taken [|[i' n'] e'] E; try done.
  cbn in E. injection E as <- E. destruct n as [orig|]; cbn [allocate_legacy].
  - destruct (legacy_exposed_name taken server_id orig) as [[t l]|]; [|done]. cbn [mbind option_bind].
    specialize (IH t e' E).
    destruct (allocate_legacy t server_id e) as [[t1 l1]|], (allocate_legacy t server_id e') as [[t2 l2]|];
      cbn in *; try done. unfold prod_map, legacy_pairs in *. cbn in *. congruence.
  - by apply IH.
Qed.

Lemma fits_first_pairs rule l l' :
  legacy_pairs l = legacy_pairs l' -> legacy_pairs (fits_first rule l) = legacy_pairs (fits_first rule l').
Proof.
  assert (H : forall (q : string -> bool) l l', legacy_pairs l = legacy_pairs l' ->
    legacy_pairs (List.filter (fun e => q e.2) l) = legacy_pairs (List.filter (fun e => q e.2) l')).
  { clear. intros q l. induction l as [|[[i o] n] l IH]; intros [|[[i' o'] n'] l'] E; try done.
    cbn in E. injection E as <- <- E. cbn. specialize (IH l' E).
    destruct (q n); unfold legacy_pairs in *; cbn; congruence. }
  intros E. unfold fits_first, legacy_pairs. rewrite !map_app. f_equal.
  - apply (H (fun n => negb (limit rule <? slen (spell rule n)))); done.
  - apply (H (fun n => limit rule <? slen (spell rule n))); done.
Qed.

(** Which raw name got which exposed name. *)
Definition assigned (l : list (nat * string * string)) (out : list (nat * string)) : list (string * string) :=
  zip (map (fun e => e.1.2) l) out.*2.

Lemma allocate_exposed_names digest rule names server_id l l' :
  legacy_pairs l = legacy_pairs l' ->
  prod_map id (assigned l) <$> allocate_exposed digest rule names server_id l =
  prod_map id (assigned l') <$> allocate_exposed digest rule names server_id l'.
Proof.
  revert names l'. induction l as [|[[i o] n] l IH]; intros names [|[[i' o'] n'] l'] E; try done.
  cbn in E. injection E as <- <- E. cbn [allocate_exposed].
  destruct (exposed_name digest rule names server_id o n) as [[t x]|]; [|done]. cbn [mbind option_bind].
  specialize (IH t l' E).
  destruct (allocate_exposed digest rule t server_id l) as [[t1 l1]|],
    (allocate_exposed digest rule t server_id l') as [[t2 l2]|]; cbn in *; try done.
  unfold prod_map, assigned in *. cbn in *. congruence.
Qed.

(** ** What an allocation gives *)

Lemma allocate_legacy_spec taken server_id e :
  exists taken' l, allocate_legacy taken server_id e = Some (taken', l) /\ taken ⊆ taken' /\
    map (fun x => (x.1.1, Some x.1.2)) l = List.filter (fun x => negb (bool_decide (x.2 = None))) e /\
    Forall (fun x => legacy_shape server_id x.1.2 x.2) l.
Proof.
  revert taken. induction e as [|[i [o|]] e IH]; intros taken; cbn [allocate_legacy].
  - by exists taken, [].
  - destruct (legacy_exposed_name_spec taken server_id o) as (n & -> & _ & Hs). cbn [mbind option_bind].
    destruct (IH ({[n]} ∪ taken)) as (t & l & -> & H1 & H2 & H3). cbn [mbind option_bind].
    eexists _, _. split; [reflexivity|]. split; [set_solver|]. split; [|by constructor].
    cbn. by rewrite H2.
  - destruct (IH taken) as (t & l & -> & H1 & H2 & H3). by eexists _, _.
Qed.

Section facts.
Context (content_digest : json -> list N) (rule : AliasRule)
  (digest_bytes : forall v, Forall (fun b => (b < 256)%N) (content_digest v))
  (digest_long : forall v, (6 <= length (content_digest v))%nat)
  (rule_limit : 16 <= limit rule).

Lemma apart_mono m n server_id tool :
  (m <= n)%nat -> attempts_apart content_digest n server_id tool -> attempts_apart content_digest m server_id tool.
Proof. intros Hmn H i j Hij. apply H. lia. Qed.

Lemma allocate_exposed_spec names server_id l :
  Forall (fun x => legacy_shape server_id x.1.2 x.2) l ->
  Forall (fun x => attempts_apart content_digest (2 * (size (seen names) + length l) + 1) server_id x.1.2) l ->
  exists names' out, allocate_exposed content_digest rule names server_id l = Some (names', out) /\
    out.*1 = map (fun x => x.1.1) l /\ NoDup out.*2 /\
    Forall (fun x => x.2 ∉ seen names /\ good_name rule x.2) out /\
    seen names' = list_to_set out.*2 ∪ seen names /\ legacy_seen names' = legacy_seen names.
Proof.
  revert names. induction l as [|[[i o] n] l IH]; intros names Hs Hap; cbn [allocate_exposed].
  - exists names, []. cbn. split_and!; try done; [constructor|set_solver].
  - apply Forall_cons in Hs as [Hn Hs]. apply Forall_cons in Hap as [Ha Hap]. cbn [fst snd length] in *.
    destruct (exposed_name_spec content_digest rule digest_bytes digest_long rule_limit names server_id o n Hn)
      as (nm & x & -> & Hx & Hg & Hseen & Hleg).
    { eapply apart_mono; [|exact Ha]. unfold exposed_fuel. lia. }
    cbn [mbind option_bind]. destruct (IH nm Hs) as (nm' & out & -> & H1 & H2 & H3 & H4 & H5).
    { eapply Forall_impl; [exact Hap|]. intros y Hy. eapply apart_mono; [|exact Hy].
      rewrite Hseen, size_union, size_singleton by set_solver. lia. }
    cbn [mbind option_bind]. eexists _, _. split; [reflexivity|]. cbn [fmap list_fmap fst snd map].
    rewrite Hseen in H3, H4. split_and!.
    + by rewrite <- H1.
    + constructor; [|done]. intros (y & -> & Hy)%list_elem_of_fmap. rewrite Forall_forall in H3.
      destruct (H3 _ Hy) as [H6 _]. set_solver.
    + constructor; [done|]. eapply Forall_impl; [exact H3|]. intros y [Hy Hgy]. split; [set_solver|done].
    + rewrite H4. cbn. set_solver.
    + congruence.
Qed.

Lemma position_spec out i x : NoDup out.*1 -> position out i = Some x <-> (i, x) ∈ out.
Proof.
  unfold position. induction out as [|[k y] out IH]; cbn; intros Hn; [split; [done|by intros ?%not_elem_of_nil]|].
  apply NoDup_cons in Hn as [Hk Hn]. rewrite elem_of_cons. destruct (Nat.eqb_spec i k) as [->|Hne]; cbn.
  - split; [by intros [= ->]; left|]. intros [[= ->]|Hin]; [done|]. exfalso. apply Hk.
    apply list_elem_of_fmap. by exists (k, x).
  - rewrite IH by done. split; [by right|]. intros [[= ? ?]|?]; [done|done].
Qed.

Lemma fits_first_perm l : fits_first rule l ≡ₚ l.
Proof.
  unfold fits_first. induction l as [|e l IH]; [done|]. cbn. destruct (too_long rule e); cbn.
  - by rewrite <- Permutation_middle, IH.
  - by rewrite IH.
Qed.

(** The entries that carry a name, by position. *)
Lemma legacy_entries items taken server_id taken' l :
  allocate_legacy taken server_id (order items) = Some (taken', l) ->
  NoDup (map (fun x => x.1.1) (fits_first rule l)) /\
  (forall i o, (exists n, (i, o, n) ∈ fits_first rule l) <-> items !! i = Some (Some o)) /\
  (length (fits_first rule l) <= length items)%nat.
Proof.
  intros Ha. destruct (allocate_legacy_spec taken server_id (order items)) as (t & l' & Ha' & _ & He & _).
  rewrite Ha in Ha'. injection Ha' as <- <-.
  assert (Hfst : (map (fun x => (x.1.1, Some x.1.2)) l).*1 = map (fun x => x.1.1) l)
    by (rewrite <- list_fmap_compose; done).
  split; [|split].
  - assert (Hp := fits_first_perm l). apply (fmap_Permutation (fun x => x.1.1)) in Hp.
    change (NoDup ((fun x => x.1.1) <$> fits_first rule l)). rewrite Hp.
    change (NoDup (map (fun x => x.1.1) l)). rewrite <- Hfst, He.
    pose proof (order_NoDup items) as Hn. clear -Hn.
    induction (order items) as [|e k IH]; [constructor|]. cbn in *. apply NoDup_cons in Hn as [H1 H2].
    case_bool_decide; cbn; [by apply IH|]. constructor; [|by apply IH].
    intros (y & Ey & Hy)%list_elem_of_fmap. apply H1. rewrite Ey. apply list_elem_of_fmap. exists y. split; [done|].
    apply list_elem_of_In in Hy. apply filter_In in Hy as [Hy _]. by apply list_elem_of_In.
  - intros i o. rewrite <- order_in.
    transitivity ((i, Some o) ∈ map (fun x => (x.1.1, Some x.1.2)) l).
    + setoid_rewrite fits_first_perm. rewrite list_elem_of_fmap. split.
      * intros [n Hn]. by exists (i, o, n).
      * intros ([[i' o'] n] & [= -> ->] & Hn). by exists n.
    + rewrite He, list_elem_of_In, filter_In, <- list_elem_of_In. cbn. split; [by intros [? _]|by intros].
  - rewrite fits_first_perm. assert (Hl := f_equal length He). rewrite length_map in Hl. rewrite Hl.
    etransitivity; [apply List.filter_length_le|]. rewrite order_perm, length_zip_with, length_seq. lia.
Qed.

Lemma allocate_names_spec names server_id items :
  (forall o, Some o ∈ items ->
     attempts_apart content_digest (2 * (size (seen names) + length items) + 1) server_id o) ->
  exists names' out, allocate_names content_digest rule names server_id items = Some (names', out) /\
    length out = length items /\
    (forall i, is_Some (out !! i ≫= id) <-> is_Some (items !! i ≫= id)) /\
    (forall i x, out !! i = Some (Some x) -> x ∉ seen names /\ good_name rule x /\ x ∈ seen names') /\
    (forall i j x, out !! i = Some (Some x) -> out !! j = Some (Some x) -> i = j) /\
    seen names ⊆ seen names' /\ (size (seen names') <= size (seen names) + length items)%nat /\
    (forall x, x ∈ seen names' -> x ∈ seen names \/ good_name rule x).
Proof.
  intros Hap. unfold allocate_names.
  destruct (allocate_legacy_spec (legacy_seen names) server_id (order items)) as (t & l & Ha & _ & _ & Hs).
  rewrite Ha. cbn [mbind option_bind]. destruct (legacy_entries _ _ _ _ _ Ha) as (Hnd & Hin & Hlen).
  destruct (allocate_exposed_spec (mk_names (seen names) t (legacy_names names)) server_id (fits_first rule l))
    as (nm & out & -> & H1 & H2 & H3 & H4 & _); cbn [seen] in *.
  { by rewrite fits_first_perm. }
  { apply Forall_forall. intros [[i o] n] Hx. eapply apart_mono; [|apply Hap].
    - lia.
    - apply list_elem_of_lookup. exists i. apply Hin. by exists n. }
  cbn [mbind option_bind]. eexists nm, _. split; [reflexivity|].
  assert (Hpos : forall i x, map (position out) (seq 0 (length items)) !! i = Some (Some x) <->
    (i < length items)%nat /\ (i, x) ∈ out).
  { intros i x. rewrite <- (position_spec out i x) by (by rewrite H1).
    change (map (position out) (seq 0 (length items))) with (position out <$> seq 0 (length items)).
    rewrite list_lookup_fmap. destruct (decide (i < length items)%nat) as [Hi|Hi].
    - rewrite lookup_seq_lt by done. cbn. split; [by intros [= ->]|by intros [_ ->]].
    - rewrite lookup_seq_ge by lia. cbn. split; [done|]. by intros [? _]. }
  rewrite Forall_forall in H3. split_and!.
  - by rewrite length_map, length_seq.
  - intros i. split.
    + intros [x Hx]. destruct (map _ _ !! i) as [[y|]|] eqn:E; try done. apply Hpos in E as [_ Hy].
      assert (Hi : i ∈ out.*1) by (apply list_elem_of_fmap; by exists (i, y)).
      rewrite H1 in Hi. apply list_elem_of_fmap in Hi as ([[i' o] n] & Ei & Hn). cbn in Ei. subst i'.
      rewrite (proj1 (Hin i o)) by (by exists n). by eexists.
    + intros [o Ho]. destruct (items !! i) as [[o'|]|] eqn:E; try done.
      destruct (proj2 (Hin i o') E) as [n Hn].
      assert (Hi : i ∈ out.*1) by (rewrite H1; apply list_elem_of_fmap; by exists (i, o', n)).
      apply list_elem_of_fmap in Hi as ([i' x] & Ei & Hx). cbn in Ei. subst i'.
      rewrite (proj2 (Hpos i x)); [by eexists|]. split; [by apply lookup_lt_Some in E|done].
  - intros i x [_ Hx]%Hpos. destruct (H3 _ Hx) as [H5 H6]. split_and!; [done|done|].
    rewrite H4. apply elem_of_union_l, elem_of_list_to_set, list_elem_of_fmap. by exists (i, x).
  - intros i j x [_ Hi]%Hpos [_ Hj]%Hpos. apply list_elem_of_lookup in Hi as [a Ha'], Hj as [b Hb].
    assert (a = b) as ->; [|congruence].
    apply (NoDup_lookup out.*2 a b x H2); by rewrite list_lookup_fmap, ?Ha', ?Hb.
  - rewrite H4. set_solver.
  - rewrite H4, size_union_alt.
    pose proof (subseteq_size (seen names ∖ list_to_set out.*2) (seen names) ltac:(set_solver)).
    pose proof (list_to_set_size_le out.*2). rewrite length_fmap in *.
    assert (length out = length (fits_first rule l)) by (by rewrite <- (length_fmap fst out), H1, length_map). lia.
  - intros x. rewrite H4. intros [Hx|Hx]%elem_of_union; [right|by left].
    apply elem_of_list_to_set, list_elem_of_fmap in Hx as (e & -> & He). apply (H3 _ He).
Qed.

Lemma allocate_exposed_positions names server_id l names' out :
  allocate_exposed content_digest rule names server_id l = Some (names', out) ->
  out.*1 = map (fun x => x.1.1) l.
Proof.
  revert names out. induction l as [|[[i o] n] l IH]; intros names out; cbn [allocate_exposed]; [by intros [= _ <-]|].
  destruct (exposed_name _ _ _ _ _ _) as [[t x]|]; [|done]. cbn [mbind option_bind].
  destruct (allocate_exposed _ _ t server_id l) as [[t1 l1]|] eqn:E; [|done]. cbn [mbind option_bind].
  intros [= <- <-]. cbn. f_equal. by apply (IH t).
Qed.

(** What holds of any allocation that returns, whatever the digest. *)
Lemma exposed_loop_fresh fuel taken server_id tool legacy name k out :
  exposed_loop content_digest rule fuel taken server_id tool legacy name k = Some out -> out ∉ taken.
Proof.
  clear digest_bytes digest_long rule_limit.
  revert name k. induction fuel as [|fuel IH]; intros name k; cbn [exposed_loop]; case_bool_decide; try done.
  - by intros [= <-].
  - destruct (attempt_name _ _ _ _ _ _); [|done]. cbn [mbind option_bind]. apply IH.
  - by intros [= <-].
Qed.

Lemma allocate_exposed_fresh names server_id l names' out :
  allocate_exposed content_digest rule names server_id l = Some (names', out) ->
  NoDup out.*2 /\ Forall (fun x => x.2 ∉ seen names) out /\
  seen names' = list_to_set out.*2 ∪ seen names.
Proof.
  clear digest_bytes digest_long rule_limit.
  revert names out. induction l as [|[[i o] n] l IH]; intros names out; cbn [allocate_exposed].
  { intros [= <- <-]. cbn. split_and!; [constructor|done|set_solver]. }
  destruct (exposed_name content_digest rule names server_id o n) as [[t x]|] eqn:Ex; [|done]. cbn [mbind option_bind].
  destruct (allocate_exposed _ _ t server_id l) as [[t1 l1]|] eqn:E; [|done]. cbn [mbind option_bind].
  intros [= <- <-]. destruct (IH t l1 E) as (H1 & H2 & H3).
  unfold exposed_name in Ex. destruct (bounded_alias _ _ _ _ _); [|done]. cbn [mbind option_bind] in Ex.
  destruct (exposed_loop _ _ _ _ _ _ _ _ _) as [y|] eqn:Ey; [|done]. cbn [mbind option_bind] in Ex.
  injection Ex as <- <-. apply exposed_loop_fresh in Ey. cbn [seen] in *.
  rewrite Forall_forall in H2. cbn [fmap list_fmap fst snd]. split_and!.
  - constructor; [|done]. intros (z & -> & Hz)%list_elem_of_fmap. apply H2 in Hz. set_solver.
  - constructor; [done|]. apply Forall_forall. intros z Hz. apply H2 in Hz. set_solver.
  - rewrite H3. cbn. set_solver.
Qed.

Lemma allocate_names_fresh names server_id items names' out :
  allocate_names content_digest rule names server_id items = Some (names', out) ->
  NoDup (omap id out) /\ (forall x, x ∈ omap id out -> x ∉ seen names /\ x ∈ seen names') /\
  seen names ⊆ seen names' /\ length out = length items.
Proof.
  clear digest_bytes digest_long rule_limit. unfold allocate_names. intros H.
  destruct (allocate_legacy (legacy_seen names) server_id (order items)) as [[t l]|] eqn:Ha; [|done].
  cbn [mbind option_bind] in H.
  destruct (allocate_exposed _ _ _ _ _) as [[nm out']|] eqn:He; [|done]. cbn [mbind option_bind] in H.
  injection H as <- <-. destruct (allocate_exposed_fresh _ _ _ _ _ He) as (H1 & H2 & H3). cbn [seen] in *.
  pose proof (allocate_exposed_positions _ _ _ _ _ He) as Hpos.
  destruct (legacy_entries _ _ _ _ _ Ha) as (Hnd & _ & _). rewrite <- Hpos in Hnd.
  assert (Hin : forall x, x ∈ omap id (map (position out') (seq 0 (length items))) -> exists i, (i, x) ∈ out').
  { intros x (o & Ho & Eo)%list_elem_of_omap. cbn in Eo. subst o. apply list_elem_of_fmap in Ho as (i & Hi & _).
    exists i. by apply position_spec. }
  rewrite Forall_forall in H2. split_and!.
  - clear Hin. assert (Hs := NoDup_seq 0 (length items)). induction Hs as [|i l' Hi Hs IH]; [constructor|]. cbn.
    destruct (position out' i) as [x|] eqn:Ep; [|exact IH]. cbn. constructor; [|exact IH].
    intros (o & Ho & Ex)%list_elem_of_omap. cbn in Ex. subst o. apply list_elem_of_fmap in Ho as (j & Ej & Hj).
    symmetry in Ej. apply position_spec in Ep, Ej; [|done..].
    apply list_elem_of_lookup in Ep as [a Ea], Ej as [b Eb].
    assert (a = b) as <- by (apply (NoDup_lookup out'.*2 a b x H1); by rewrite list_lookup_fmap, ?Ea, ?Eb).
    rewrite Ea in Eb. injection Eb as ->. done.
  - intros x [i Hi]%Hin. split; [apply (H2 _ Hi)|]. rewrite H3.
    apply elem_of_union_l, elem_of_list_to_set, list_elem_of_fmap. by exists (i, x).
  - rewrite H3. set_solver.
  - by rewrite length_map, length_seq.
Qed.

(** The pairs an allocation gives are the ones it went through, wherever they were. *)
Lemma allocate_names_pairs names server_id items names' out :
  allocate_names content_digest rule names server_id items = Some (names', out) ->
  exists t l out', allocate_legacy (legacy_seen names) server_id (order items) = Some (t, l) /\
    allocate_exposed content_digest rule (mk_names (seen names) t (legacy_names names)) server_id (fits_first rule l) =
      Some (names', out') /\
    (forall o x, (o, x) ∈ assigned (fits_first rule l) out' <->
       exists i, items !! i = Some (Some o) /\ out !! i = Some (Some x)).
Proof.
  unfold allocate_names. intros H.
  destruct (allocate_legacy (legacy_seen names) server_id (order items)) as [[t l]|] eqn:Ha; [|done].
  cbn [mbind option_bind] in H.
  destruct (allocate_exposed _ _ _ _ _) as [[nm out']|] eqn:He; [|done]. cbn [mbind option_bind] in H.
  injection H as <- <-. exists t, l, out'. split; [done|]. split; [done|]. intros o x.
  pose proof (allocate_exposed_positions _ _ _ _ _ He) as H1.
  destruct (legacy_entries _ _ _ _ _ Ha) as (Hnd & Hin & _).
  unfold assigned. rewrite list_elem_of_lookup.
  assert (Hlen : length out' = length (fits_first rule l))
    by (apply (f_equal length) in H1; by rewrite length_fmap, length_map in H1).
  split.
  - intros [k Hk]. apply lookup_zip_with_Some in Hk as (o' & x' & [= <- <-] & Ho & Hx).
    change (map (fun e => e.1.2) (fits_first rule l)) with ((fun e => e.1.2) <$> fits_first rule l) in Ho.
    rewrite list_lookup_fmap in Ho. rewrite list_lookup_fmap in Hx.
    destruct (fits_first rule l !! k) as [[[i o'] n]|] eqn:Ek; [|done]. injection Ho as ->.
    destruct (out' !! k) as [[i' x']|] eqn:Ex; [|done]. injection Hx as ->.
    assert (i' = i) as ->.
    { assert (E : out'.*1 !! k = Some i') by (by rewrite list_lookup_fmap, Ex).
      rewrite H1 in E. change (((fun x => x.1.1) <$> fits_first rule l) !! k = Some i') in E.
      rewrite list_lookup_fmap, Ek in E. by injection E. }
    assert (Hi : items !! i = Some (Some o)) by (apply Hin; exists n; by eapply list_elem_of_lookup_2).
    exists i. split; [done|].
    change (map (position out') (seq 0 (length items))) with (position out' <$> seq 0 (length items)).
    rewrite list_lookup_fmap, lookup_seq_lt by (by apply lookup_lt_Some in Hi). cbn. f_equal.
    apply position_spec; [by rewrite H1|by eapply list_elem_of_lookup_2].
  - intros (i & Hi & Hx). destruct (proj2 (Hin i o) Hi) as [n Hn].
    change (map (position out') (seq 0 (length items))) with (position out' <$> seq 0 (length items)) in Hx.
    rewrite list_lookup_fmap, lookup_seq_lt in Hx by (by apply lookup_lt_Some in Hi). injection Hx as Hx.
    apply position_spec in Hx; [|by rewrite H1]. apply list_elem_of_lookup in Hx as [k Ek].
    apply list_elem_of_lookup in Hn as [k' Ek'].
    assert (k = k') as <-.
    { apply (NoDup_lookup (map (fun x => x.1.1) (fits_first rule l)) k k' i Hnd).
      - rewrite <- H1, list_lookup_fmap, Ek. done.
      - change (((fun x => x.1.1) <$> fits_first rule l) !! k' = Some i). by rewrite list_lookup_fmap, Ek'. }
    exists k. apply lookup_zip_with_Some. exists o, x. split; [done|].
    change (map (fun e => e.1.2) (fits_first rule l)) with ((fun e => e.1.2) <$> fits_first rule l).
    by rewrite !list_lookup_fmap, Ek, Ek'.
Qed.
End facts.

(** ** Properties *)

(** C22. Every named tool of a server gets an exposed name, found without a panic or an endless
    loop: a new one, that differs from every other and that the client accepts (its length
    and its spelling), provided the digests of one tool's attempts differ in the six bytes
    an alias keeps. *)
Theorem allocation_unique content_digest rule names server_id items :
  (forall v, Forall (fun b => (b < 256)%N) (content_digest v)) ->
  (forall v, (6 <= length (content_digest v))%nat) -> 16 <= limit rule ->
  (forall o, Some o ∈ items ->
     attempts_apart content_digest (2 * (size (seen names) + length items) + 1) server_id o) ->
  exists names' out, allocate_names content_digest rule names server_id items = Some (names', out) /\
    (forall i, is_Some (out !! i ≫= id) <-> is_Some (items !! i ≫= id)) /\
    (forall i x, out !! i = Some (Some x) -> x ∉ seen names /\ x ∈ seen names' /\
       slen x <= limit rule /\ spelled rule x) /\
    (forall i j x, out !! i = Some (Some x) -> out !! j = Some (Some x) -> i = j).
Proof.
  intros Hb Hl Hr Hap.
  destruct (allocate_names_spec content_digest rule Hb Hl Hr names server_id items Hap)
    as (names' & out & Ha & _ & H1 & H2 & H3 & _ & _).
  exists names', out. split; [done|]. split; [done|]. split; [|done].
  intros i x Hx. destruct (H2 i x Hx) as (Hn & [Hg Hs] & Hi). done.
Qed.

(** A server that lists its tools in another order gets the same names for them: the
    name a tool answers to, and every name that is taken, do not depend on the order. *)
Theorem names_ignore_order content_digest rule names server_id items items' names' out :
  items ≡ₚ items' ->
  allocate_names content_digest rule names server_id items = Some (names', out) ->
  exists out', allocate_names content_digest rule names server_id items' = Some (names', out') /\
    forall tool x, (exists i, items !! i = Some (Some tool) /\ out !! i = Some (Some x)) <->
                   (exists i, items' !! i = Some (Some tool) /\ out' !! i = Some (Some x)).
Proof.
  intros Hp Ha. destruct (allocate_names_pairs content_digest rule _ _ _ _ _ Ha) as (t & l & o & Hl & He & Hpairs).
  pose proof (allocate_legacy_names (legacy_seen names) server_id _ _ (order_names _ _ Hp)) as HL.
  rewrite Hl in HL. destruct (allocate_legacy _ _ (order items')) as [[t' l']|] eqn:Hl'; [|done].
  unfold prod_map in HL. cbn in HL. injection HL as <- HL. apply (fits_first_pairs rule) in HL.
  pose proof (allocate_exposed_names content_digest rule (mk_names (seen names) t (legacy_names names)) server_id _ _ HL) as HE.
  rewrite He in HE.
  destruct (allocate_exposed _ _ _ _ (fits_first rule l')) as [[n' o']|] eqn:He'; [|done].
  unfold prod_map in HE. cbn in HE. injection HE as <- HE.
  assert (Ha' : allocate_names content_digest rule names server_id items' =
    Some (names', map (position o') (seq 0 (length items')))).
  { unfold allocate_names. rewrite Hl'. cbn [mbind option_bind]. by rewrite He'. }
  eexists. split; [exact Ha'|].
  destruct (allocate_names_pairs content_digest rule _ _ _ _ _ Ha') as (t2 & l2 & o2 & Hl2 & He2 & Hpairs').
  rewrite Hl' in Hl2. injection Hl2 as <- <-. rewrite He' in He2. injection He2 as <-.
  intros tool x. rewrite <- Hpairs, <- Hpairs'. by rewrite HE.
Qed.

(** ** Witnesses *)

(** A digest that tells attempts apart: the attempt itself, in 32 bytes. *)
Definition counting_digest (v : json) : list N :=
  match v with
  | JArray [_; _; JNumber (PosInt n)] => repeat 0%N 5 ++ [(Z.to_N n mod 256)%N] ++ repeat 0%N 26
  | _ => repeat 255%N 32
  end.

Lemma counting_digest_bytes v : Forall (fun b => (b < 256)%N) (counting_digest v).
Proof.
  assert (Hz : forall n, Forall (fun b => (b < 256)%N) (repeat 0%N 5 ++ [(n mod 256)%N] ++ repeat 0%N 26)).
  { intros n. cbn. assert ((n mod 256 < 256)%N) by (apply N.mod_lt; lia). repeat constructor; done. }
  unfold counting_digest. repeat case_match; try apply Hz; repeat constructor.
Qed.

Lemma counting_digest_long v : (6 <= length (counting_digest v))%nat.
Proof. unfold counting_digest. repeat case_match; cbn; lia. Qed.

Lemma counting_digest_apart bound server_id tool : (bound < 256)%nat -> attempts_apart counting_digest bound server_id tool.
Proof.
  intros Hb i j Hij E. cbn in E. injection E as E. rewrite !N.mod_small in E by lia. lia.
Qed.

Definition demo_items : list (option string) := [Some "get_user"; None; Some "get-user"].

Lemma allocation_unique_witness :
  exists names' out, allocate_names counting_digest demo_rule no_names "s" demo_items = Some (names', out) /\
    out = [Some "s__get_user_2"; None; Some "s__get_user"] /\ "s__get_user_2" ∈ seen names'.
Proof.
  destruct (allocation_unique counting_digest demo_rule no_names "s" demo_items) as (names' & out & H & _ & H2 & _).
  - apply counting_digest_bytes.
  - apply counting_digest_long.
  - done.
  - intros o _. apply counting_digest_apart. by vm_compute; lia.
  - exists names', out. split; [exact H|]. assert (E := H). vm_compute in E. injection E as _ E.
    split; [by rewrite <- E|]. apply (H2 0%nat). by rewrite <- E.
Defined.

Lemma names_ignore_order_witness :
  exists out', allocate_names counting_digest demo_rule no_names "s" (rev demo_items) =
    Some (mk_names {["s__get_user"; "s__get_user_2"]} {["s__get_user"; "s__get_user_2"]} ∅, out') /\
    out' = [Some "s__get_user"; None; Some "s__get_user_2"].
Proof.
  destruct (names_ignore_order counting_digest demo_rule no_names "s" demo_items (rev demo_items)
    (mk_names {["s__get_user"; "s__get_user_2"]} {["s__get_user"; "s__get_user_2"]} ∅)
    [Some "s__get_user_2"; None; Some "s__get_user"]) as (out' & H & _).
  - apply Permutation_rev.
  - by vm_compute.
  - exists out'. split; [exact H|]. assert (E := H). vm_compute in E. injection E as E. by rewrite <- E.
Defined.
End Aliases.
