(* ===== verification/Catalog.v ===== *)
(** The router's catalog (src/router.rs, src/tool_definitions.rs): what the gateway exposes
    of the servers it holds, under the policy in force, and where a call to it goes.

    SHA-256, the regex engine and number parsing are parameters. The cache of normalized
    definitions is left out: it is keyed by a digest of everything its values depend on.
    Connections, supervisors and pending servers are modelled in Breaker, Reconnect and
    Dispatch. *)

From S2P Require Import Prelude Text Json ToolNames SchemaRefs SchemaCompat Aliases.

Module Catalog.
Import ToolNames Aliases.

(** ** Tools as servers advertise them *)

Record ToolPolicyMetadata := { destructive : bool; model_hidden : bool }.

Definition audience_is_model (a : json) : bool :=
  match as_str a with Some s => String.eqb s "model" | None => false end.

(** [None] and an audience list with [model] are visible to the model. *)
Definition hidden_from_model (tool : json) : bool :=
  match pointer ["_meta"; "ui"; "visibility"] tool with
  | None => false
  | Some (JArray audiences) => negb (existsb audience_is_model audiences)
  | Some _ => true
  end.

Definition metadata_of (tool : json) : ToolPolicyMetadata :=
  {| destructive := is_destructive tool; model_hidden := hidden_from_model tool |}.

Record RawTool := {
  name : option string;
  raw_policy : ToolPolicyMetadata;
  app_uri : option string;
  raw : json }.

Definition name_in (tool : json) : option string := n ← get "name" tool; as_str n.

Definition raw_tool (value : json) : RawTool :=
  {| name := name_in value;
     raw_policy := metadata_of value;
     app_uri :=
       match (match pointer ["_meta"; "ui"; "resourceUri"] value with
              | Some v => Some v
              | None => pointer ["_meta"; "ui/resourceUri"] value
              end) with
       | Some (JString uri) => if starts_with "ui://" uri then Some uri else None
       | _ => None
       end;
     raw := value |}.

Definition contains_name (tools : list RawTool) (n : string) : bool :=
  existsb (fun t => bool_decide (name t = Some n)) tools.

(** ** Policy *)

Record ToolPolicy := {
  servers_allowed : option (gset string);
  disabled : gmap string (gset string);
  allow : gmap string (gset string);
  deny_destructive : bool;
  quarantined : gset string;
  fail_closed : bool }.

Record RegistryPolicy := {
  reg_servers : option (gset string);
  reg_disabled : gmap string (gset string);
  reg_allow : gmap string (gset string);
  reg_deny_destructive : bool }.

#[global] Instance RegistryPolicy_eq : EqDecision RegistryPolicy.
Proof. solve_decision. Defined.

Definition with_quarantine (p : RegistryPolicy) (quarantined : gset string) (closed : bool) : ToolPolicy :=
  {| servers_allowed := reg_servers p; disabled := reg_disabled p; allow := reg_allow p;
     deny_destructive := reg_deny_destructive p; quarantined := quarantined; fail_closed := closed |}.

Definition allows_server (p : ToolPolicy) (server_id : string) : bool :=
  match servers_allowed p with Some s => bool_decide (server_id ∈ s) | None => true end.

Definition in_set (m : gmap string (gset string)) (server_id orig : string) : option bool :=
  match m !! server_id with Some s => Some (bool_decide (orig ∈ s)) | None => None end.

Definition out_of_scope : string := "outside this client's tool scope".
Definition ambiguous_binding : string := "ambiguous persisted tool policy binding".
Definition quarantined_reason : string := "quarantined after a high-risk change; re-approve to restore".
Definition unreadable_reason : string := "quarantine store unreadable; catalog blocked until the store reads".

Definition blocked_reason_unscoped (p : ToolPolicy) (exposed server_id orig : string)
    (tool : ToolPolicyMetadata) : option string :=
  if negb (allows_server p server_id) then Some "on a server that is turned off"
  else if default false (in_set (disabled p) server_id orig) then Some "disabled"
  else if deny_destructive p && destructive tool then Some "blocked by the destructive-tool policy"
  else if fail_closed p then Some unreadable_reason
  else if bool_decide (exposed ∈ quarantined p) then Some quarantined_reason
  else None.

Definition blocked_reason (p : ToolPolicy) (exposed server_id orig : string) (tool : ToolPolicyMetadata)
    : option string :=
  if negb (default true (in_set (allow p) server_id orig)) then Some out_of_scope
  else blocked_reason_unscoped p exposed server_id orig tool.

Definition in_scope (p : ToolPolicy) (server original : string) : bool :=
  allows_server p server && default true (in_set (allow p) server original).

Lemma blocked_reason_None p e sv orig m :
  blocked_reason p e sv orig m = None <->
  in_scope p sv orig = true /\ in_set (disabled p) sv orig <> Some true /\
  (deny_destructive p = true -> destructive m = false) /\ fail_closed p = false /\ e ∉ quarantined p.
Proof.
  unfold blocked_reason, blocked_reason_unscoped, in_scope.
  destruct (allows_server p sv), (default true (in_set (allow p) sv orig)); cbn; try naive_solver.
  destruct (in_set (disabled p) sv orig) as [[]|]; cbn; try naive_solver;
    destruct (deny_destructive p), (destructive m), (fail_closed p); cbn; try naive_solver;
    case_bool_decide; naive_solver.
Qed.

(** A tool the policy lets through, under the name its quarantine is kept by. *)
Definition policy_admits (p : ToolPolicy) (name sv orig : string) (m : ToolPolicyMetadata) : Prop :=
  in_scope p sv orig = true /\ in_set (disabled p) sv orig <> Some true /\
  (deny_destructive p = true -> destructive m = false) /\ fail_closed p = false /\ name ∉ quarantined p.

Record ToolOverride := { ov_name : option string; ov_description : option string }.

Section router.
Variable content_digest : json -> list N.
Variable regex : Type.
Variable regex_new : string -> option regex.
Variable number_from_str : string -> option number.
Variable number_from_f64_str : string -> option number.

Local Abbreviation ArgumentMap := (SchemaCompat.ArgumentMap regex).

Record ToolDefinition := {
  value : json;
  arguments : option ArgumentMap;
  source_input_schema : option string;
  gate_name : option string }.

Definition definition_name (d : ToolDefinition) : option string := name_in (value d).

Record ServerSlot := {
  slot_id : string;
  slot_tools : list RawTool;
  slot_resources : list json;
  slot_templates : list json;
  slot_prompts : list json;
  mcp_apps : bool;
  catalog_complete : bool;
  tool_revision : Z }.

Record RestoredTool := {
  definition : ToolDefinition;
  exposed : string;
  server : string;
  original : string;
  policy_name_kept : option string;
  source_revision : Z;
  schema_arguments_kept : option ArgumentMap }.

(** What indexing builds: the tools, the resources and templates, the prompts. *)
Record ToolIndex := {
  names : Names;
  tools : list ToolDefinition;
  routes : gmap string (string * string);
  schema_arguments : gmap string ArgumentMap;
  tool_owners : gmap string string;
  hidden : gset string;
  policy_names : gmap string string;
  policy_by_original : gmap string (gmap string string);
  blocked : gmap string string }.

Record ResourceIndex := {
  resources : list json;
  resource_routes : gmap string string;
  resource_templates : list json;
  template_routes : gmap string string }.

Record Index := {
  tool_index : ToolIndex;
  resource_index : ResourceIndex;
  prompts : list json;
  prompt_routes : gmap string (string * string);
  catalog_servers : gset string }.

Definition empty_tools (n : Names) : ToolIndex :=
  {| names := n; tools := []; routes := ∅; schema_arguments := ∅; tool_owners := ∅; hidden := ∅;
     policy_names := ∅; policy_by_original := ∅; blocked := ∅ |}.

Definition empty_index (n : Names) : Index :=
  {| tool_index := empty_tools n;
     resource_index := {| resources := []; resource_routes := ∅; resource_templates := []; template_routes := ∅ |};
     prompts := []; prompt_routes := ∅; catalog_servers := ∅ |}.

(** The part of [Router] indexing reads. *)
Record Settings := {
  alias_rule : AliasRule;
  policy : ToolPolicy;
  overrides : gmap string (gmap string ToolOverride);
  canonical_policy : gmap string (gmap string string) }.

Record Router := {
  servers : list ServerSlot;
  by_id : gmap string nat;
  settings : Settings;
  restored_candidates : list RestoredTool;
  index : Index }.

(** ** Policy names *)

Definition lookup2 {A} (m : gmap string (gmap string A)) (k l : string) : option A := n ← m !! k; n !! l.

Definition legacy_tool_policy_name (overrides : gmap string (gmap string ToolOverride))
    (server original : string) : option string :=
  o ← lookup2 overrides server original; n ← ov_name o;
  let n := sanitize_segment n in
  if starts_with "toolport_" n then Some n else None.

Definition unscoped_policy_name (s : Settings) (x : ToolIndex) (exposed server original : string) : string :=
  match lookup2 (canonical_policy s) server original with
  | Some n => n
  | None =>
      match legacy_tool_policy_name (overrides s) server original with
      | Some n => n
      | None => default exposed (legacy_names (names x) !! exposed)
      end
  end.

(** The aliases other than [exposed] that already answer to [name]. *)
Definition claimants (x : ToolIndex) (exposed name : string) : gset string :=
  dom (filter (fun kv => kv.1 <> exposed /\ kv.2 = name) (policy_names x)).

Definition bind_name (x : ToolIndex) (exposed name : string) : ToolIndex :=
  {| names := names x; tools := tools x; routes := routes x; schema_arguments := schema_arguments x;
     tool_owners := tool_owners x; hidden := hidden x;
     policy_names := <[exposed := name]> (policy_names x);
     policy_by_original := policy_by_original x; blocked := blocked x |}.

(** Whether a definition stays when the names of [refused] go. *)
Definition kept (refused : gset string) (d : ToolDefinition) : bool :=
  match definition_name d with Some n => negb (bool_decide (n ∈ refused)) | None => true end.

(** Refusing every claimant of a policy name, an earlier route included. *)
Definition refuse (x : ToolIndex) (refused : gset string) : ToolIndex :=
  {| names := names x; tools := List.filter (kept refused) (tools x);
     routes := filter (fun kv => kv.1 ∉ refused) (routes x);
     schema_arguments := filter (fun kv => kv.1 ∉ refused) (schema_arguments x);
     tool_owners := tool_owners x; hidden := hidden x; policy_names := policy_names x;
     policy_by_original := policy_by_original x;
     blocked := gset_to_gmap ambiguous_binding refused ∪ blocked x |}.

Definition bind_policy_name (s : Settings) (x : ToolIndex) (exposed server original : string) : ToolIndex :=
  if negb (in_scope (policy s) server original) then x
  else
    let name := unscoped_policy_name s x exposed server original in
    if String.eqb name exposed && negb (starts_with "toolport_" name) then x
    else
      let collisions := claimants x exposed name in
      let x := bind_name x exposed name in
      if bool_decide (collisions = ∅) then x else refuse x ({[exposed]} ∪ collisions).

Definition policy_name (x : ToolIndex) (exposed : string) : string := default exposed (policy_names x !! exposed).

Definition has_canonical_policy (s : Settings) (server original : string) : bool :=
  match lookup2 (canonical_policy s) server original with Some _ => true | None => false end.

Definition policy_blocked_reason (s : Settings) (x : ToolIndex) (exposed server original : string)
    (metadata : ToolPolicyMetadata) : option string :=
  let name := policy_name x exposed in
  if has_canonical_policy s server original then blocked_reason (policy s) name server original metadata
  else match blocked_reason (policy s) exposed server original metadata with
       | Some reason => Some reason
       | None => blocked_reason (policy s) name server original metadata
       end.

(** ** Indexing one tool *)

(** The published definition: the user's description, the exposed name, and an input
    schema normalized and free of references. [None] is a panic. *)
Definition define (t : json) (exposed : string) (description : option string) : option ToolDefinition :=
  t ← match description with Some d => set_field "description" (JString d) t | None => Some t end;
  t ← set_field "name" (JString exposed) t;
  match get "inputSchema" t with
  | Some schema =>
      '(normal, args) ← SchemaCompat.normalize regex regex_new number_from_str number_from_f64_str schema;
      flat ← SchemaRefs.inline_refs normal;
      t ← set_field "inputSchema" flat t;
      Some {| value := t;
              arguments := if SchemaCompat.is_empty regex args then None else Some args;
              source_input_schema := Some (to_hex (content_digest schema));
              gate_name := None |}
  | None => Some {| value := t; arguments := None; source_input_schema := None; gate_name := None |}
  end.

(** The name the client sees: the user's rename when it is usable and free, else the
    allocated name. *)
Definition choose_name (s : Settings) (n : Names) (server_id orig base : string) (rename : option string)
    : option (Names * string) :=
  match rename with
  | None => Some (n, base)
  | Some new =>
      let legacy := sanitize_segment new in
      cand ← bounded_alias content_digest legacy
               (JArray [JString server_id; JString orig; JString new]) None (alias_rule s);
      if negb (String.eqb cand "") && negb (starts_with "toolport_" cand) &&
         negb (starts_with "toolport_" legacy) && negb (bool_decide (legacy ∈ legacy_seen n)) &&
         negb (bool_decide (cand ∈ seen n))
      then Some (mk_names ({[cand]} ∪ seen n) ({[legacy]} ∪ legacy_seen n)
                   (if String.eqb cand legacy then legacy_names n else <[cand := legacy]> (legacy_names n)),
                 cand)
      else Some (n, base)
  end.

(** Recording who owns a name, what policy name it has, and whether the model sees it. *)
Definition record_tool (s : Settings) (n : Names) (x : ToolIndex) (exposed server_id orig : string) (model_hidden : bool)
    : ToolIndex :=
  let x := {| names := n; tools := tools x; routes := routes x; schema_arguments := schema_arguments x;
              tool_owners := <[exposed := server_id]> (tool_owners x); hidden := hidden x;
              policy_names := policy_names x; policy_by_original := policy_by_original x;
              blocked := blocked x |} in
  let policy_name := unscoped_policy_name s x exposed server_id orig in
  {| names := n; tools := tools x; routes := routes x; schema_arguments := schema_arguments x;
     tool_owners := tool_owners x;
     hidden := if model_hidden then {[exposed]} ∪ hidden x else hidden x;
     policy_names := policy_names x;
     policy_by_original := <[server_id := <[orig := policy_name]> (default ∅ (policy_by_original x !! server_id))]>
                             (policy_by_original x);
     blocked := blocked x |}.

Definition block (x : ToolIndex) (exposed reason : string) : ToolIndex :=
  {| names := names x; tools := tools x; routes := routes x; schema_arguments := schema_arguments x;
     tool_owners := tool_owners x; hidden := hidden x; policy_names := policy_names x;
     policy_by_original := policy_by_original x; blocked := <[exposed := reason]> (blocked x) |}.

Definition publish (x : ToolIndex) (d : ToolDefinition) (args : option ArgumentMap) (exposed server_id orig : string)
    : ToolIndex :=
  {| names := names x; tools := tools x ++ [d];
     routes := <[exposed := (server_id, orig)]> (routes x);
     schema_arguments := match args with
                         | Some a => <[exposed := a]> (schema_arguments x)
                         | None => schema_arguments x
                         end;
     tool_owners := tool_owners x; hidden := hidden x; policy_names := policy_names x;
     policy_by_original := policy_by_original x; blocked := blocked x |}.

(** One turn of the loop over a server's tools; the boolean says the tool is routed. *)
Definition index_tool (s : Settings) (server_id : string) (x : ToolIndex) (t : RawTool) (base : option string)
    : option (ToolIndex * bool) :=
  match name t with
  | None => Some (x, false)
  | Some orig =>
      base ← base;
      let ov := lookup2 (overrides s) server_id orig in
      '(n, exposed) ← choose_name s (names x) server_id orig base (o ← ov; ov_name o);
      let x := record_tool s n x exposed server_id orig (model_hidden (raw_policy t)) in
      let x := bind_policy_name s x exposed server_id orig in
      match blocked x !! exposed with
      | Some _ => Some (x, false)
      | None =>
          match policy_blocked_reason s x exposed server_id orig (raw_policy t) with
          | Some reason => Some (block x exposed reason, false)
          | None =>
              d ← define (raw t) exposed (o ← ov; ov_description o);
              Some (publish x d (arguments d) exposed server_id orig, true)
          end
      end
  end.

(** ** Resources, templates and prompts *)

(** First writer owns a URI. *)
Definition claim_uri (r : ResourceIndex) (server_id uri : string) : ResourceIndex :=
  match resource_routes r !! uri with
  | Some _ => r
  | None => {| resources := resources r; resource_routes := <[uri := server_id]> (resource_routes r);
               resource_templates := resource_templates r; template_routes := template_routes r |}
  end.

Definition string_in (key : string) (v : json) : option string := f ← get key v; as_str f.

Definition listed_uri (r : ResourceIndex) (uri : string) : bool :=
  existsb (fun v => bool_decide (string_in "uri" v = Some uri)) (resources r).

Definition index_resource (server_id : string) (r : ResourceIndex) (resource : json) : ResourceIndex :=
  let pushed routes := {| resources := resources r ++ [resource]; resource_routes := routes;
                          resource_templates := resource_templates r; template_routes := template_routes r |} in
  match string_in "uri" resource with
  | None => r
  | Some uri =>
      match resource_routes r !! uri with
      | Some owner =>
          if negb (String.eqb owner server_id) then r
          else if listed_uri r uri then r else pushed (resource_routes r)
      | None => pushed (<[uri := server_id]> (resource_routes r))
      end
  end.

Definition index_template (server_id : string) (r : ResourceIndex) (template : json) : ResourceIndex :=
  match string_in "uriTemplate" template with
  | None => r
  | Some uri =>
      match template_routes r !! uri with
      | Some _ => r
      | None => {| resources := resources r; resource_routes := resource_routes r;
                   resource_templates := resource_templates r ++ [template];
                   template_routes := <[uri := server_id]> (template_routes r) |}
      end
  end.

Fixpoint index_tools (s : Settings) (server_id : string) (route_mcp_apps : bool) (x : ToolIndex)
    (r : ResourceIndex) (ts : list (RawTool * option string)) : option (ToolIndex * ResourceIndex) :=
  match ts with
  | [] => Some (x, r)
  | (t, base) :: ts =>
      '(x, routed) ← index_tool s server_id x t base;
      let r := match app_uri t with
               | Some uri => if routed && route_mcp_apps then claim_uri r server_id uri else r
               | None => r
               end in
      index_tools s server_id route_mcp_apps x r ts
  end.

Fixpoint index_prompts (server_id : string) (ps : list (json * option string)) (out : list json)
    (routes : gmap string (string * string)) : option (list json * gmap string (string * string)) :=
  match ps with
  | [] => Some (out, routes)
  | (p, base) :: ps =>
      match name_in p with
      | None => index_prompts server_id ps out routes
      | Some orig =>
          exposed ← base;
          p ← set_field "name" (JString exposed) p;
          index_prompts server_id ps (out ++ [p]) (<[exposed := (server_id, orig)]> routes)
      end
  end.

Definition with_names (x : ToolIndex) (n : Names) : ToolIndex :=
  {| names := n; tools := tools x; routes := routes x; schema_arguments := schema_arguments x;
     tool_owners := tool_owners x; hidden := hidden x; policy_names := policy_names x;
     policy_by_original := policy_by_original x; blocked := blocked x |}.

Definition index_server (s : Settings) (i : Index) (slot : ServerSlot) : option Index :=
  let id := slot_id slot in
  let ts := slot_tools slot in
  let listed := match ts with [] => catalog_servers i | _ => {[id]} ∪ catalog_servers i end in
  '(n, bases) ← allocate_names content_digest (alias_rule s) (names (tool_index i)) id (map name ts);
  '(x, r) ← index_tools s id (mcp_apps slot) (with_names (tool_index i) n) (resource_index i) (zip ts bases);
  let r := fold_left (index_resource id) (slot_resources slot) r in
  let r := fold_left (index_template id) (slot_templates slot) r in
  '(n, bases) ← allocate_names content_digest (alias_rule s) (names x) id (map name_in (slot_prompts slot));
  '(ps, routes) ← index_prompts id (zip (slot_prompts slot) bases) (prompts i) (prompt_routes i);
  Some {| tool_index := with_names x n; resource_index := r; prompts := ps; prompt_routes := routes;
          catalog_servers := listed |}.

(** ** Rebuilding *)

Definition slot_of (r : Router) (server_id : string) : option ServerSlot :=
  k ← by_id r !! server_id; servers r !! k.

Definition revision_of (r : Router) (server_id : string) : option Z := tool_revision <$> slot_of r server_id.

Definition reserve (r : Router) (n : Names) (c : RestoredTool) : Names :=
  let advertised := match slot_of r (server c) with
                    | Some slot => contains_name (slot_tools slot) (original c)
                    | None => false
                    end in
  if advertised then n
  else mk_names ({[exposed c]} ∪ seen n) ({[exposed c]} ∪ legacy_seen n) (legacy_names n).

Definition index_slot (s : Settings) (i : Index) (slot : ServerSlot) : option Index :=
  let i := if catalog_complete slot
           then {| tool_index := tool_index i; resource_index := resource_index i; prompts := prompts i;
                   prompt_routes := prompt_routes i; catalog_servers := {[slot_id slot]} ∪ catalog_servers i |}
           else i in
  index_server s i slot.

Fixpoint index_slots (s : Settings) (i : Index) (slots : list ServerSlot) : option Index :=
  match slots with
  | [] => Some i
  | slot :: slots => i ← index_slot s i slot; index_slots s i slots
  end.

Definition rebuild_aggregation_with_reserved (r : Router) (restored : list RestoredTool) : option Router :=
  let n := fold_left (reserve r) restored no_names in
  i ← index_slots (settings r) (empty_index n) (servers r);
  Some {| servers := servers r; by_id := by_id r; settings := settings r; restored_candidates := [];
          index := i |}.

Definition restored_metadata (c : RestoredTool) : ToolPolicyMetadata :=
  metadata_of (default JNull (set_field "name" (JString (original c)) (value (definition c)))).

Definition apply_candidate (r : Router) (x : ToolIndex) (c : RestoredTool) : ToolIndex :=
  let e := exposed c in
  if bool_decide (is_Some (routes x !! e)) || bool_decide (is_Some (blocked x !! e)) ||
     negb (bool_decide (is_Some (by_id r !! server c)))
  then x
  else
    let n := match policy_name_kept c with
             | Some legacy => mk_names (seen (names x)) (legacy_seen (names x)) (<[e := legacy]> (legacy_names (names x)))
             | None => names x
             end in
    let x := {| names := n; tools := tools x; routes := routes x; schema_arguments := schema_arguments x;
                tool_owners := <[e := server c]> (tool_owners x);
                hidden := if hidden_from_model (value (definition c)) then {[e]} ∪ hidden x else hidden x;
                policy_names := policy_names x; policy_by_original := policy_by_original x;
                blocked := blocked x |} in
    let x := bind_policy_name (settings r) x e (server c) (original c) in
    match blocked x !! e with
    | Some _ => x
    | None =>
        match policy_blocked_reason (settings r) x e (server c) (original c) (restored_metadata c) with
        | Some reason => block x e reason
        | None =>
            let x := publish x (definition c) (schema_arguments_kept c) e (server c) (original c) in
            with_names x (mk_names ({[e]} ∪ seen (names x)) (legacy_seen (names x)) (legacy_names (names x)))
        end
    end.

Definition with_tool_index (i : Index) (x : ToolIndex) : Index :=
  {| tool_index := x; resource_index := resource_index i; prompts := prompts i;
     prompt_routes := prompt_routes i; catalog_servers := catalog_servers i |}.

Definition with_candidates (r : Router) (cs : list RestoredTool) : Router :=
  {| servers := servers r; by_id := by_id r; settings := settings r; restored_candidates := cs; index := index r |}.

Definition apply_restored_candidates (r : Router) : Router :=
  {| servers := servers r; by_id := by_id r; settings := settings r;
     restored_candidates := restored_candidates r;
     index := with_tool_index (index r)
                (fold_left (apply_candidate r) (restored_candidates r) (tool_index (index r))) |}.

Definition rebuild_preserving_restored (r : Router) : option Router :=
  let restored := List.filter
    (fun c => bool_decide (revision_of r (server c) = Some (source_revision c))) (restored_candidates r) in
  r ← rebuild_aggregation_with_reserved r restored;
  Some (apply_restored_candidates (with_candidates r restored)).

(** ** Changing the policy *)

Definition with_policy (r : Router) (p : ToolPolicy) : Router :=
  {| servers := servers r; by_id := by_id r;
     settings := {| alias_rule := alias_rule (settings r); policy := p; overrides := overrides (settings r);
                    canonical_policy := canonical_policy (settings r) |};
     restored_candidates := restored_candidates r; index := index r |}.

Definition registry_policy (r : Router) : RegistryPolicy :=
  let p := policy (settings r) in
  {| reg_servers := servers_allowed p; reg_disabled := disabled p; reg_allow := allow p;
     reg_deny_destructive := deny_destructive p |}.

(** The boolean is what the code returns: whether anything changed. *)
Definition apply_registry_policy (r : Router) (p : RegistryPolicy) : option (Router * bool) :=
  if bool_decide (registry_policy r = p) then Some (r, false)
  else
    let old := policy (settings r) in
    r ← rebuild_preserving_restored (with_policy r (with_quarantine p (quarantined old) (fail_closed old)));
    Some (r, true).

Definition set_quarantine (p : ToolPolicy) (q : gset string) (closed : bool) : ToolPolicy :=
  {| servers_allowed := servers_allowed p; disabled := disabled p; allow := allow p;
     deny_destructive := deny_destructive p; quarantined := q; fail_closed := closed |}.

Definition requarantine (r : Router) (q : gset string) : option Router :=
  rebuild_preserving_restored (with_policy r (set_quarantine (policy (settings r)) q (fail_closed (policy (settings r))))).

Definition requarantine_from_store (r : Router) (q : gset string) : option Router :=
  rebuild_preserving_restored (with_policy r (set_quarantine (policy (settings r)) q false)).

Definition fail_closed_catalog (r : Router) : option Router :=
  let p := policy (settings r) in
  rebuild_preserving_restored (with_policy r (set_quarantine p (quarantined p) true)).

Definition set_allow (p : ToolPolicy) (a : gmap string (gset string)) : ToolPolicy :=
  {| servers_allowed := servers_allowed p; disabled := disabled p; allow := a;
     deny_destructive := deny_destructive p; quarantined := quarantined p; fail_closed := fail_closed p |}.

Definition with_tool_allow (r : Router) (a : gmap string (gset string)) : option Router :=
  rebuild_preserving_restored (with_policy r (set_allow (policy (settings r)) a)).

(** The view of one client: its tool scope and its alias rule. Restored names are respelled
    from their canonical policy names. *)
Definition respell (s : Settings) (c : RestoredTool) : option RestoredTool :=
  let canonical := default (exposed c) (policy_name_kept c) in
  let rename := o ← lookup2 (overrides s) (server c) (original c);
                n ← ov_name o;
                if starts_with "toolport_" (sanitize_segment n) then None else Some n in
  e ← match rename with
      | Some n => bounded_alias content_digest canonical
                    (JArray [JString (server c); JString (original c); JString n]) None (alias_rule s)
      | None => bounded_alias content_digest
                  (if starts_with "toolport_" canonical then exposed c else canonical)
                  (tool_identity (server c) (original c)) (Some (server c)) (alias_rule s)
      end;
  v ← set_field "name" (JString e) (value (definition c));
  Some {| definition := {| value := v; arguments := None; source_input_schema := None; gate_name := None |};
          exposed := e; server := server c; original := original c; policy_name_kept := Some canonical;
          source_revision := source_revision c; schema_arguments_kept := schema_arguments_kept c |}.

Definition with_client_tool_view (r : Router) (a : gmap string (gset string)) (rule : AliasRule) : option Router :=
  let old := settings r in
  let rule := {| limit := Z.max 16 (Z.min (limit rule) 64); dashed := dashed rule |} in
  let fresh := {| alias_rule := rule; policy := set_allow (policy old) a; overrides := overrides old;
                  canonical_policy := if bool_decide (alias_rule old = rule) then canonical_policy old
                                      else policy_by_original (tool_index (index r)) |} in
  cs ← if bool_decide (alias_rule old = rule) then Some (restored_candidates r)
       else mapM (respell fresh) (restored_candidates r);
  rebuild_preserving_restored
    {| servers := servers r; by_id := by_id r; settings := fresh; restored_candidates := cs; index := index r |}.

(** ** Deciding a call *)

Inductive DispatchTarget := Tool (exposed : string) | Server (server_id : string).

Definition route_of (r : Router) (e : string) : option (string * string) := routes (tool_index (index r)) !! e.

Definition tool_owner (r : Router) (e : string) : option string :=
  match tool_owners (tool_index (index r)) !! e with
  | Some s => Some s
  | None => fst <$> route_of r e
  end.

Definition authorize_server (r : Router) (server_id : string) : result unit string :=
  if allows_server (policy (settings r)) server_id then Ok tt
  else Err ("server '" +:+ server_id +:+ "' is turned off").

(** [no_route] is the message for a name out of scope, which also depends on the pending
    servers. *)
Definition authorize (no_route : string -> string) (r : Router) (t : DispatchTarget) : result unit string :=
  match t with
  | Server server_id => authorize_server r server_id
  | Tool e =>
      match blocked (tool_index (index r)) !! e with
      | Some reason =>
          Err (if String.eqb reason out_of_scope then no_route e else blocked_tool_message e reason)
      | None =>
          match route_of r e with
          | Some (server_id, _) => authorize_server r server_id
          | None => Ok tt
          end
      end
  end.

Definition policy_definition (r : Router) (tool : json) : json :=
  match name_in tool with
  | None => tool
  | Some e =>
      let n := policy_name (tool_index (index r)) e in
      if String.eqb n e then tool else default tool (set_field "name" (JString n) tool)
  end.

Definition safety_definition (r : Router) (tool : json) : json :=
  match (n ← name_in tool; route_of r n) with
  | Some (_, orig) => default tool (set_field "name" (JString orig) tool)
  | None => policy_definition r tool
  end.

(** The recheck of a call a router admitted, against the policy of a newer one. *)
Definition recheck_policy (r live : Router) (e server_id orig : string) : result unit string :=
  let p := policy (settings live) in
  let d := if deny_destructive p
           then default JNull (value <$> List.find (fun d => bool_decide (definition_name d = Some e)) (tools (tool_index (index r))))
           else JNull in
  let m := metadata_of (safety_definition r d) in
  let n := policy_name (tool_index (index r)) e in
  let reason :=
    if has_canonical_policy (settings r) server_id orig then blocked_reason_unscoped p n server_id orig m
    else match blocked_reason_unscoped p e server_id orig m with
         | Some reason => Some reason
         | None => blocked_reason_unscoped p n server_id orig m
         end in
  match reason with Some reason => Err (blocked_tool_message e reason) | None => Ok tt end.

Definition recheck_live_policy (no_route : string -> string) (r live : Router) (t : DispatchTarget)
    : result unit string :=
  match t with
  | Server _ => authorize no_route live t
  | Tool e =>
      match route_of r e with
      | None => Ok tt
      | Some (server_id, orig) =>
          match blocked (tool_index (index live)) !! e with
          | Some reason =>
              if String.eqb reason ambiguous_binding then Err (blocked_tool_message e reason)
              else recheck_policy r live e server_id orig
          | None => recheck_policy r live e server_id orig
          end
      end
  end.

(** ** The invariant of what is exposed *)

Lemma set_field_other k k' v t t' : set_field k v t = Some t' -> k <> k' -> get k' t' = get k' t.
Proof.
  intros H Hk. destruct t; try done; cbn in H; injection H as <-; cbn.
  - destruct (String.eqb_spec k' k); [congruence|done].
  - by apply obj_get_insert_ne.
Qed.

Lemma set_field_same k v t t' : set_field k v t = Some t' -> get k t' = Some v.
Proof.
  intros H. destruct t; try done; cbn in H; injection H as <-; cbn.
  - by rewrite String.eqb_refl.
  - apply obj_get_insert_eq.
Qed.

Lemma define_name t exposed description d : define t exposed description = Some d -> definition_name d = Some exposed.
Proof.
  unfold define, definition_name, name_in. intros H.
  destruct (match description with Some _ => _ | None => _ end) as [t1|]; [|done]. cbn [mbind option_bind] in H.
  destruct (set_field "name" (JString exposed) t1) as [t2|] eqn:E2; [|done]. cbn [mbind option_bind] in H.
  destruct (get "inputSchema" t2) as [schema|].
  - destruct (SchemaCompat.normalize _ _ _ _ schema) as [[normal args]|]; [|done]. cbn [mbind option_bind] in H.
    destruct (SchemaRefs.inline_refs normal) as [flat|]; [|done]. cbn [mbind option_bind] in H.
    destruct (set_field "inputSchema" flat t2) as [t3|] eqn:E3; [|done]. injection H as <-. cbn [value].
    rewrite (set_field_other _ "name" _ _ _ E3) by done. by rewrite (set_field_same _ _ _ _ E2).
  - injection H as <-. cbn [value]. by rewrite (set_field_same _ _ _ _ E2).
Qed.

Section invariant.
(** What the servers (or the restored catalog) say of a tool. *)
Variable advertised : string -> string -> ToolPolicyMetadata -> Prop.
Variable s : Settings.

Definition permitted (x : ToolIndex) (e server orig : string) : Prop :=
  exists m, advertised server orig m /\ policy_blocked_reason s x e server orig m = None.

(** Names the index has spoken for. *)
Definition used (x : ToolIndex) (e : string) : Prop :=
  is_Some (routes x !! e) \/ is_Some (blocked x !! e) \/ is_Some (policy_names x !! e).

(** [pending] may be bound to a policy name without being routed or blocked yet. *)
Record exposed_ok (pending : option string) (x : ToolIndex) : Prop := {
  ok_listed : NoDup (map definition_name (tools x));
  ok_routed : forall o, o ∈ map definition_name (tools x) <-> exists e, o = Some e /\ is_Some (routes x !! e);
  ok_disjoint : forall e, is_Some (routes x !! e) -> blocked x !! e = None;
  ok_bound : forall e, is_Some (policy_names x !! e) -> Some e <> pending ->
    is_Some (routes x !! e) \/ is_Some (blocked x !! e);
  ok_unambiguous : forall e e' n, policy_names x !! e = Some n -> policy_names x !! e' = Some n ->
    e <> e' -> routes x !! e = None;
  ok_permitted : forall e server orig, routes x !! e = Some (server, orig) -> permitted x e server orig;
  ok_arguments : forall e, is_Some (schema_arguments x !! e) -> is_Some (routes x !! e) }.

Lemma empty_ok n : exposed_ok None (empty_tools n).
Proof.
  assert (Hno : forall A (m : gmap string A) e, m = ∅ -> ~ is_Some (m !! e)).
  { intros A m e -> [v Hv]. by rewrite lookup_empty in Hv. }
  constructor.
  - constructor.
  - intros o. split; [by intros ?%not_elem_of_nil|]. intros (e & _ & H). by apply Hno in H.
  - done.
  - intros e H. by apply Hno in H.
  - intros e e' m H. apply mk_is_Some, Hno in H; done.
  - intros e sv og H. apply mk_is_Some, Hno in H; done.
  - intros e H. by apply Hno in H.
Qed.

Lemma permitted_ext x x' e server orig :
  policy_names x' !! e = policy_names x !! e -> permitted x e server orig -> permitted x' e server orig.
Proof.
  intros H (m & Hm & Hb). exists m. split; [done|]. unfold policy_blocked_reason, policy_name in *. by rewrite H.
Qed.

(** ** Binding a policy name *)

Lemma claimants_spec x e n k : k ∈ claimants x e n <-> k <> e /\ policy_names x !! k = Some n.
Proof.
  unfold claimants. rewrite elem_of_dom. split.
  - intros [v Hv]. apply map_lookup_filter_Some in Hv as [H1 [H2 H3]]. cbn in *. by subst.
  - intros [H1 H2]. exists n. by apply map_lookup_filter_Some.
Qed.

Lemma refused_blocked (refused : gset string) (b : gmap string string) k :
  (gset_to_gmap ambiguous_binding refused ∪ b) !! k =
  if decide (k ∈ refused) then Some ambiguous_binding else b !! k.
Proof.
  destruct (decide (k ∈ refused)) as [H|H].
  - apply lookup_union_Some_l. by apply lookup_gset_to_gmap_Some.
  - rewrite lookup_union_r; [done|]. by apply lookup_gset_to_gmap_None.
Qed.

Lemma fresh_none x e : ~ used x e -> routes x !! e = None /\ blocked x !! e = None /\ policy_names x !! e = None.
Proof.
  intros H. unfold used in H. destruct (routes x !! e), (blocked x !! e), (policy_names x !! e);
    try done; exfalso; apply H; eauto.
Qed.

Lemma ok_weaken x e : exposed_ok None x -> exposed_ok (Some e) x.
Proof.
  intros []. constructor; try done. intros k Hk _. by apply ok_bound0.
Qed.

(** A name no other alias answers to. *)
Lemma bind_name_ok x e n :
  exposed_ok None x -> ~ used x e -> claimants x e n = ∅ -> exposed_ok (Some e) (bind_name x e n).
Proof.
  intros [H1 H2 H3 H4 H5 H6 H7] (Hre & _ & _)%fresh_none Hc.
  assert (Hno : forall k, k <> e -> policy_names x !! k <> Some n).
  { intros k Hk E. assert (k ∈ claimants x e n) by (by apply claimants_spec). set_solver. }
  constructor; cbn [bind_name tools routes blocked policy_names schema_arguments names]; try done.
  - intros k Hk Hne. rewrite lookup_insert_ne in Hk by congruence. by apply H4.
  - intros k k' m [[<- <-]|[? Hk]]%lookup_insert_Some Hk' Hne; [done|].
    apply lookup_insert_Some in Hk' as [[<- <-]|[? Hk']]; [by destruct (Hno k)|by eapply H5].
  - intros k sv og Hk. apply (permitted_ext x); [|by apply H6]. cbn. apply lookup_insert_ne. congruence.
Qed.

Lemma filter_some {A} (m : gmap string A) (refused : gset string) k :
  is_Some (filter (fun kv => kv.1 ∉ refused) m !! k) <-> k ∉ refused /\ is_Some (m !! k).
Proof.
  split.
  - intros [v [Hv Hn]%map_lookup_filter_Some]. by split.
  - intros [Hn [v Hv]]. exists v. by apply map_lookup_filter_Some.
Qed.

Lemma kept_in refused l o :
  o ∈ map definition_name (List.filter (kept refused) l) <->
  o ∈ map definition_name l /\ (forall k, o = Some k -> k ∉ refused).
Proof.
  rewrite !list_elem_of_fmap. unfold kept. split.
  - intros (d & -> & [Hd Hq]%list_elem_of_In%filter_In). split; [exists d; by rewrite list_elem_of_In|].
    intros k Hk. rewrite Hk in Hq. by apply negb_true_iff, bool_decide_eq_false in Hq.
  - intros ((d & -> & Hd) & Hq). exists d. split; [done|]. apply list_elem_of_In, filter_In.
    rewrite <- list_elem_of_In. split; [done|]. destruct (definition_name d) as [k|]; [|done].
    apply negb_true_iff, bool_decide_eq_false. by apply Hq.
Qed.

Lemma kept_NoDup refused l :
  NoDup (map definition_name l) -> NoDup (map definition_name (List.filter (kept refused) l)).
Proof.
  induction l as [|d l IH]; [done|]. cbn. intros [Hd Hl]%NoDup_cons.
  destruct (kept refused d); cbn; [|by apply IH]. constructor; [|by apply IH].
  intros [H _]%kept_in. done.
Qed.

(** A name that is ambiguous: all who claim it are refused. *)
Lemma refuse_ok x e n :
  exposed_ok None x -> ~ used x e -> exposed_ok (Some e) (refuse (bind_name x e n) ({[e]} ∪ claimants x e n)).
Proof.
  intros [H1 H2 H3 H4 H5 H6 H7] _. set (refused := {[e]} ∪ claimants x e n).
  assert (Hrf : forall k, k ∈ refused <-> k = e \/ (k <> e /\ policy_names x !! k = Some n)).
  { intros k. unfold refused. rewrite elem_of_union, elem_of_singleton, claimants_spec. tauto. }
  constructor; cbn [refuse bind_name tools routes blocked policy_names schema_arguments names].
  - by apply kept_NoDup.
  - intros o. rewrite kept_in, H2. split.
    + intros [(k & -> & Hk) Hq]. exists k. split; [done|]. apply filter_some. split; [by apply Hq|done].
    + intros (k & -> & [Hq Hk]%filter_some). split; [by exists k|]. by intros k' [= <-].
  - intros k [Hq Hk]%filter_some. rewrite refused_blocked. destruct (decide _); [done|by apply H3].
  - intros k Hk Hne. rewrite lookup_insert_ne in Hk by congruence. rewrite filter_some, refused_blocked.
    destruct (decide (k ∈ refused)); [right; by eexists|]. destruct (H4 k Hk) as [?|?]; [done|by left|by right].
  - intros k k' m Hk Hk' Hne. apply eq_None_not_Some. rewrite filter_some. intros [Hq Hr].
    apply lookup_insert_Some in Hk as [[<- <-]|[? Hk]]; [apply Hq, Hrf; by left|].
    apply lookup_insert_Some in Hk' as [[<- <-]|[? Hk']]; [apply Hq, Hrf; by right|].
    assert (routes x !! k = None) as E by (by eapply H5). rewrite E in Hr. by destruct Hr.
  - intros k sv og [Hk Hq]%map_lookup_filter_Some. cbn in Hq.
    apply (permitted_ext x); [|by apply H6]. cbn. apply lookup_insert_ne. intros ->. apply Hq, Hrf. by left.
  - intros k [Hq Hk]%filter_some. apply filter_some. split; [done|by apply H7].
Qed.

Lemma refuse_used x e n k :
  used (refuse (bind_name x e n) ({[e]} ∪ claimants x e n)) k -> used x k \/ k = e.
Proof.
  intros [Hk|[Hk|Hk]]; cbn in Hk.
  - apply filter_some in Hk as [_ Hk]. left. by left.
  - rewrite refused_blocked in Hk. destruct (decide _) as [Hr|]; [|left; by right; left].
    apply elem_of_union in Hr as [->%elem_of_singleton|[_ Hr]%claimants_spec]; [by right|].
    left. right; right. by rewrite Hr.
  - destruct (decide (k = e)) as [->|]; [by right|]. rewrite lookup_insert_ne in Hk by congruence. left. by right; right.
Qed.

Lemma bind_used x e n k : used (bind_name x e n) k -> used x k \/ k = e.
Proof.
  intros [Hk|[Hk|Hk]]; [left; by left|left; by right; left|]. destruct (decide (k = e)) as [->|]; [by right|].
  cbn in Hk. rewrite lookup_insert_ne in Hk by congruence. left. by right; right.
Qed.

(** Nobody else answers to the policy name of [e]. *)
Definition unclaimed (x : ToolIndex) (e : string) : Prop :=
  forall k n, k <> e -> policy_names x !! k = Some n -> policy_names x !! e <> Some n.

(** What binding the name of a new tool keeps, and what it establishes. *)
Lemma bind_ok x e server orig :
  exposed_ok None x -> ~ used x e ->
  let x' := bind_policy_name s x e server orig in
  exposed_ok (Some e) x' /\ routes x' !! e = None /\ names x' = names x /\
  (forall k, used x' k -> used x k \/ k = e) /\ (blocked x' !! e = None -> unclaimed x' e).
Proof.
  intros Hok Hfresh. destruct (fresh_none _ _ Hfresh) as (Hre & Hbe & Hpe). unfold bind_policy_name.
  assert (Hsame : exposed_ok (Some e) x /\ routes x !! e = None /\ names x = names x /\
    (forall k, used x k -> used x k \/ k = e) /\ (blocked x !! e = None -> unclaimed x e)).
  { split_and!; try done; [by apply ok_weaken|by left|]. intros _ k n _ _. by rewrite Hpe. }
  destruct (negb _); [exact Hsame|]. set (n := unscoped_policy_name s x e server orig).
  destruct (_ && _); [exact Hsame|]. clear Hsame. cbn zeta. case_bool_decide as Hc; split_and!; try done.
  - by apply bind_name_ok.
  - apply bind_used.
  - cbn. intros _ k m Hne Hk Hk'. cbn in Hk, Hk'. rewrite lookup_insert_eq in Hk'. injection Hk' as <-.
    rewrite lookup_insert_ne in Hk by congruence.
    assert (k ∈ claimants x e n) by (by apply claimants_spec). set_solver.
  - by apply refuse_ok.
  - cbn. apply map_lookup_filter_None. right. intros v _ Hq. apply Hq. set_solver.
  - apply refuse_used.
  - cbn. rewrite refused_blocked. destruct (decide _) as [|Hn]; [done|]. set_solver.
Qed.

(** ** Blocking or publishing it *)

Lemma block_ok x e reason :
  exposed_ok (Some e) x -> routes x !! e = None -> exposed_ok None (block x e reason).
Proof.
  intros [H1 H2 H3 H4 H5 H6 H7] Hr.
  constructor; cbn [block tools routes blocked policy_names schema_arguments names]; try done.
  - intros k Hk. rewrite lookup_insert_ne; [by apply H3|]. intros <-. rewrite Hr in Hk. by destruct Hk.
  - intros k Hk _. destruct (decide (k = e)) as [->|]; [right; rewrite lookup_insert_eq; by eexists|].
    rewrite lookup_insert_ne by congruence. apply H4; [done|congruence].
Qed.

(** The name was blocked while it was bound. *)
Lemma already_blocked_ok x e : exposed_ok (Some e) x -> is_Some (blocked x !! e) -> exposed_ok None x.
Proof.
  intros [] Hb. constructor; try done.
  intros k Hk _. destruct (decide (k = e)) as [->|]; [by right|]. apply ok_bound0; [done|congruence].
Qed.

Lemma publish_ok x d args e server orig :
  exposed_ok (Some e) x -> routes x !! e = None -> blocked x !! e = None -> unclaimed x e ->
  definition_name d = Some e -> permitted x e server orig ->
  exposed_ok None (publish x d args e server orig).
Proof.
  intros [H1 H2 H3 H4 H5 H6 H7] Hr Hb Hc Hd Hp.
  constructor; cbn [publish tools routes blocked policy_names schema_arguments names]; try done.
  - rewrite map_app. cbn. apply NoDup_app. split; [done|]. split; [|apply NoDup_singleton].
    intros o Ho ->%list_elem_of_singleton. apply H2 in Ho as (k & E & Hk). rewrite Hd in E. injection E as <-.
    rewrite Hr in Hk. by destruct Hk.
  - intros o. rewrite map_app, elem_of_app, H2. cbn. rewrite list_elem_of_singleton, Hd. split.
    + intros [(k & -> & Hk)| ->]; [|exists e; by rewrite lookup_insert_eq].
      exists k. split; [done|]. rewrite lookup_insert_is_Some. destruct (decide (e = k)); [by left|by right].
    + intros (k & -> & Hk). destruct (decide (k = e)) as [->|]; [by right|]. left. exists k.
      rewrite lookup_insert_ne in Hk by congruence. by split.
  - intros k Hk. destruct (decide (k = e)) as [->|]; [done|]. apply H3. by rewrite lookup_insert_ne in Hk by congruence.
  - intros k Hk _. destruct (decide (k = e)) as [->|]; [left; rewrite lookup_insert_eq; by eexists|].
    rewrite lookup_insert_ne by congruence. apply H4; [done|congruence].
  - intros k k' m Hk Hk' Hne. destruct (decide (k = e)) as [->|].
    + by destruct (Hc k' m (not_eq_sym Hne) Hk').
    + rewrite lookup_insert_ne by congruence. by eapply H5.
  - intros k sv og [[<- E]|[? Hk]]%lookup_insert_Some.
    + injection E as <- <-. by apply (permitted_ext x).
    + apply (permitted_ext x); [done|]. by apply H6.
  - intros k Hk. destruct (decide (k = e)) as [->|]; [rewrite lookup_insert_eq; by eexists|].
    rewrite lookup_insert_ne by congruence. apply H7. destruct args; [|done]. by rewrite lookup_insert_ne in Hk by congruence.
Qed.

Lemma same_ok x x' :
  tools x' = tools x -> routes x' = routes x -> blocked x' = blocked x -> policy_names x' = policy_names x ->
  schema_arguments x' = schema_arguments x -> exposed_ok None x -> exposed_ok None x'.
Proof.
  intros E1 E2 E3 E4 E5 []. constructor; rewrite ?E1, ?E2, ?E3, ?E4, ?E5; try done.
  intros k sv og Hk. apply (permitted_ext x); [by rewrite E4|]. by apply ok_permitted0.
Qed.

Lemma same_used x x' k :
  routes x' = routes x -> blocked x' = blocked x -> policy_names x' = policy_names x -> used x' k <-> used x k.
Proof. intros E1 E2 E3. unfold used. by rewrite E1, E2, E3. Qed.

(** Binding, checking and publishing one recorded tool. *)
Definition settle (x : ToolIndex) (e server orig : string) (m : ToolPolicyMetadata) (x' : ToolIndex) : Prop :=
  x' = bind_policy_name s x e server orig /\ is_Some (blocked x' !! e) \/
  (exists reason, x' = block (bind_policy_name s x e server orig) e reason) \/
  (exists d args, definition_name d = Some e /\ blocked (bind_policy_name s x e server orig) !! e = None /\
     policy_blocked_reason s (bind_policy_name s x e server orig) e server orig m = None /\
     x' = publish (bind_policy_name s x e server orig) d args e server orig).

Lemma settle_ok x e server orig m x' :
  settle x e server orig m x' -> exposed_ok None x -> ~ used x e -> advertised server orig m ->
  exposed_ok None x' /\ names x' = names x /\ (forall k, used x' k -> used x k \/ k = e).
Proof.
  intros Hs Hok Hf Ha. destruct (bind_ok x e server orig Hok Hf) as (H1 & H2 & H3 & H4 & H5).
  destruct Hs as [[-> Hb]|[[reason ->]|(d & args & Hd & Hb & Hp & ->)]].
  - split; [by apply (already_blocked_ok _ e)|]. by split.
  - split; [by apply block_ok|]. split; [done|]. intros k [Hk|[Hk|Hk]]; [apply H4; by left| |apply H4; by right; right].
    cbn in Hk. destruct (decide (k = e)) as [->|]; [by right|]. rewrite lookup_insert_ne in Hk by congruence.
    apply H4. by right; left.
  - split; [apply publish_ok; try done; [by apply H5|by exists m]|]. split; [done|].
    intros k [Hk|[Hk|Hk]]; [|apply H4; by right; left|apply H4; by right; right].
    cbn in Hk. destruct (decide (k = e)) as [->|]; [by right|]. rewrite lookup_insert_ne in Hk by congruence.
    apply H4. by left.
Qed.

Lemma choose_name_spec n server_id orig base rename n' e :
  choose_name s n server_id orig base rename = Some (n', e) ->
  (n' = n /\ e = base) \/ (e ∉ seen n /\ seen n' = {[e]} ∪ seen n).
Proof.
  unfold choose_name. destruct rename as [new|]; [|intros [= <- <-]; by left].
  destruct (bounded_alias _ _ _ _ _) as [cand|]; [|done]. cbn [mbind option_bind].
  destruct (_ && _) eqn:E; intros [= <- <-]; [right|by left]. cbn.
  apply andb_prop in E as [_ E]. by apply negb_true_iff, bool_decide_eq_false in E.
Qed.

Definition used_seen (x : ToolIndex) : Prop := forall e, used x e -> e ∈ seen (names x).

Lemma index_tool_ok server_id x t base x' b :
  index_tool s server_id x t base = Some (x', b) -> exposed_ok None x -> used_seen x ->
  (forall o, base = Some o -> ~ used x o /\ o ∈ seen (names x)) ->
  (forall orig, name t = Some orig -> advertised server_id orig (raw_policy t)) ->
  exposed_ok None x' /\ used_seen x' /\ seen (names x) ⊆ seen (names x') /\
  (forall k, used x' k -> used x k \/ base = Some k \/ k ∉ seen (names x)).
Proof.
  intros H Hok Hus Hbase Had. unfold index_tool in H. destruct (name t) as [orig|]; [|by injection H as <- <-; split_and!; try done; left].
  destruct base as [base|]; [|done]. cbn [mbind option_bind] in H.
  destruct (choose_name _ _ _ _ _ _) as [[n e]|] eqn:Hn; [|done]. cbn [mbind option_bind] in H.
  set (x1 := record_tool s n x e server_id orig (model_hidden (raw_policy t))) in *.
  assert (Hok1 : exposed_ok None x1) by (by apply (same_ok x)).
  assert (Hu1 : forall k, used x1 k <-> used x k) by (intros k; by apply same_used).
  assert (Hfresh : ~ used x e /\ (base = e \/ e ∉ seen (names x)) /\ e ∈ seen n /\ seen (names x) ⊆ seen n).
  { destruct (Hbase base eq_refl) as [Hb1 Hb2]. apply choose_name_spec in Hn as [[-> ->]|[Hn ->]].
    - split_and!; try done. by left.
    - split_and!; [|by right|set_solver..]. intros Hu. by apply Hn, Hus. }
  destruct Hfresh as (Hf & Hbe & Hse & Hsub).
  assert (Hset : settle x1 e server_id orig (raw_policy t) x').
  { destruct (blocked (bind_policy_name s x1 e server_id orig) !! e) eqn:Eb.
    { injection H as <- _. left. split; [done|]. by rewrite Eb. }
    right. destruct (policy_blocked_reason _ _ _ _ _ _) eqn:Ep.
    { injection H as <- _. left. by eexists. }
    right. destruct (define _ _ _) as [d|] eqn:Ed; [|done]. injection H as <- _.
    exists d, (arguments d). split; [by apply define_name in Ed|]. done. }
  destruct (settle_ok _ _ _ _ _ _ Hset Hok1) as (H1 & H2 & H3); [by rewrite Hu1|by apply Had|].
  split; [done|]. rewrite H2. split_and!.
  - intros k Hk. rewrite H2. destruct (H3 k Hk) as [Hk'| ->]; [|done]. apply Hsub, Hus, Hu1, Hk'.
  - done.
  - intros k Hk. destruct (H3 k Hk) as [Hk'| ->]; [left; by apply Hu1|]. right. destruct Hbe as [->|]; [by left|by right].
Qed.

Lemma index_tools_ok server_id apps ts x r x' r' :
  index_tools s server_id apps x r ts = Some (x', r') -> exposed_ok None x -> used_seen x ->
  NoDup (omap snd ts) -> (forall o, o ∈ omap snd ts -> ~ used x o /\ o ∈ seen (names x)) ->
  (forall t orig, t ∈ ts.*1 -> name t = Some orig -> advertised server_id orig (raw_policy t)) ->
  exposed_ok None x' /\ used_seen x'.
Proof.
  revert x r. induction ts as [|[t base] ts IH]; intros x r H Hok Hus Hnd Hb Had; cbn [index_tools] in H.
  { injection H as <- _. done. }
  destruct (index_tool s server_id x t base) as [[x1 b]|] eqn:E; [|done]. cbn [mbind option_bind] in H.
  assert (Hbase : forall o, base = Some o -> o ∉ omap snd ts /\ NoDup (omap snd ts)).
  { intros o ->. cbn in Hnd. by apply NoDup_cons in Hnd. }
  assert (Hnd' : NoDup (omap snd ts)) by (destruct base; cbn in Hnd; [by apply NoDup_cons in Hnd as [_ ?]|done]).
  destruct (index_tool_ok _ _ _ _ _ _ E Hok Hus) as (H1 & H2 & H3 & H4).
  { intros o ->. apply Hb. cbn. left. }
  { intros orig. apply Had. left. }
  apply (IH _ _ H H1 H2 Hnd').
  - intros o Ho. assert (Ho' : o ∈ omap snd ((t, base) :: ts)) by (destruct base; cbn; [by right|done]).
    destruct (Hb o Ho') as [Hu Hs]. split; [|by apply H3]. intros [?|[->|?]]%H4; [done| |done].
    by destruct (Hbase o eq_refl).
  - intros t' orig Ht. apply Had. by right.
Qed.
End invariant.

(** ** A whole server, and all of them *)

Definition tool_of (slots : list ServerSlot) (server orig : string) (m : ToolPolicyMetadata) : Prop :=
  exists slot t, slot ∈ slots /\ slot_id slot = server /\ t ∈ slot_tools slot /\ name t = Some orig /\ raw_policy t = m.

Lemma index_server_ok adv s i slot i' :
  index_server s i slot = Some i' -> exposed_ok adv s None (tool_index i) -> used_seen (tool_index i) ->
  (forall server orig m, tool_of [slot] server orig m -> adv server orig m) ->
  exposed_ok adv s None (tool_index i') /\ used_seen (tool_index i').
Proof.
  unfold index_server. intros H Hok Hus Had.
  destruct (allocate_names _ _ _ _ (map name _)) as [[n bases]|] eqn:Ea; [|done]. cbn [mbind option_bind] in H.
  destruct (index_tools _ _ _ _ _ _) as [[x r]|] eqn:Et; [|done]. cbn [mbind option_bind] in H.
  destruct (allocate_names _ _ _ _ (map name_in _)) as [[n' ps]|] eqn:Ep; [|done]. cbn [mbind option_bind] in H.
  destruct (index_prompts _ _ _ _) as [[out routes']|]; [|done]. cbn [mbind option_bind] in H. injection H as <-.
  cbn [tool_index]. destruct (allocate_names_fresh _ _ _ _ _ _ _ Ea) as (H1 & H2 & H3 & H4).
  rewrite length_map in H4.
  assert (Hsnd : omap snd (zip (slot_tools slot) bases) = omap id bases).
  { assert (Hz : (zip (slot_tools slot) bases).*2 = bases) by (apply snd_zip; lia).
    transitivity (omap id (zip (slot_tools slot) bases).*2); [|by rewrite Hz].
    clear. induction (zip (slot_tools slot) bases) as [|[t b] l IH]; [done|]. cbn. by rewrite IH. }
  destruct (index_tools_ok adv s _ _ _ _ _ _ _ Et) as [H5 H6].
  - by apply (same_ok adv s (tool_index i)).
  - intros k Hk. apply H3, Hus. exact Hk.
  - by rewrite Hsnd.
  - intros o Ho. rewrite Hsnd in Ho. destruct (H2 o Ho) as [Hn Hi]. split; [|done]. intros Hu. by apply Hn, Hus.
  - intros t orig Ht Hn. apply Had. exists slot, t. split; [by left|]. split; [done|]. split_and!; try done.
    rewrite fst_zip in Ht by lia. done.
  - destruct (allocate_names_fresh _ _ _ _ _ _ _ Ep) as (_ & _ & H7 & _). split.
    + by apply (same_ok adv s x).
    + intros k Hk. apply H7, H6. exact Hk.
Qed.

Lemma index_slots_ok adv s slots i i' :
  index_slots s i slots = Some i' -> exposed_ok adv s None (tool_index i) -> used_seen (tool_index i) ->
  (forall server orig m, tool_of slots server orig m -> adv server orig m) ->
  exposed_ok adv s None (tool_index i') /\ used_seen (tool_index i').
Proof.
  revert i. induction slots as [|slot slots IH]; intros i H Hok Hus Had; cbn [index_slots] in H; [by injection H as <-|].
  destruct (index_slot s i slot) as [i1|] eqn:E; [|done]. cbn [mbind option_bind] in H. unfold index_slot in E.
  destruct (index_server_ok adv s _ slot i1 E) as [H1 H2].
  - by destruct (catalog_complete slot).
  - by destruct (catalog_complete slot).
  - intros sv og m (sl & t & ->%list_elem_of_singleton & Hr). apply Had. exists slot, t. split; [left|done].
  - apply (IH i1 H H1 H2). intros sv og m (sl & t & Hs & Hr). apply Had. exists sl, t. split; [by right|done].
Qed.

Lemma apply_candidate_ok adv r x c :
  exposed_ok adv (settings r) None x -> definition_name (definition c) = Some (exposed c) ->
  adv (server c) (original c) (restored_metadata c) -> exposed_ok adv (settings r) None (apply_candidate r x c).
Proof.
  intros Hok Hd Ha. unfold apply_candidate. set (e := exposed c) in *.
  destruct (_ || _) eqn:Eg; [done|]. apply orb_false_elim in Eg as [Eg _]. apply orb_false_elim in Eg as [Er Eb].
  apply bool_decide_eq_false in Er, Eb. cbn zeta.
  assert (Hf : ~ used x e).
  { intros [?|[?|Hp]]; [done|done|]. destruct (ok_bound _ _ _ _ Hok e Hp) as [?|?]; done. }
  set (x1 := {| names := _; tools := tools x; routes := routes x; schema_arguments := _; tool_owners := _;
                hidden := _; policy_names := _; policy_by_original := _; blocked := _ |}).
  assert (Hok1 : exposed_ok adv (settings r) None x1) by (by apply (same_ok adv _ x)).
  assert (Hf1 : ~ used x1 e) by (by rewrite (same_used x x1)).
  assert (Hset : forall x', settle (settings r) x1 e (server c) (original c) (restored_metadata c) x' ->
    exposed_ok adv (settings r) None x') by (intros x' Hs; by destruct (settle_ok adv _ _ _ _ _ _ _ Hs Hok1 Hf1 Ha)).
  destruct (blocked (bind_policy_name (settings r) x1 e (server c) (original c)) !! e) eqn:Hb.
  { apply Hset. left. split; [done|]. by rewrite Hb. }
  destruct (policy_blocked_reason _ _ _ _ _ _) eqn:Hp.
  { apply Hset. right; left. by eexists. }
  eapply same_ok; [..|apply Hset; right; right; by eexists (definition c), (schema_arguments_kept c)]; done.
Qed.

(** ** Rebuilding establishes the invariant *)

(** What is known of a tool: its server's catalog, or the restored one. *)
Definition known_tool (r : Router) (sv orig : string) (m : ToolPolicyMetadata) : Prop :=
  tool_of (servers r) sv orig m \/
  exists c, c ∈ restored_candidates r /\ server c = sv /\ original c = orig /\ restored_metadata c = m.

Definition candidates_named (r : Router) : Prop :=
  Forall (fun c => definition_name (definition c) = Some (exposed c)) (restored_candidates r).

Record router_ok (r : Router) : Prop := {
  ok_index : exposed_ok (known_tool r) (settings r) None (tool_index (index r));
  ok_candidates : candidates_named r }.

Lemma rebuild_ok r r' :
  rebuild_preserving_restored r = Some r' -> candidates_named r ->
  router_ok r' /\ servers r' = servers r /\ by_id r' = by_id r /\ settings r' = settings r.
Proof.
  unfold rebuild_preserving_restored. intros H Hc.
  set (restored := List.filter _ (restored_candidates r)) in H.
  assert (Hr : Forall (fun c => definition_name (definition c) = Some (exposed c)) restored).
  { unfold candidates_named in Hc. rewrite Forall_forall in Hc. apply Forall_forall.
    intros c [Hin _]%list_elem_of_In%filter_In. apply Hc. by apply list_elem_of_In. }
  unfold rebuild_aggregation_with_reserved in H.
  destruct (index_slots _ _ _) as [i|] eqn:Ei; [|done]. cbn [mbind option_bind] in H. injection H as <-.
  split; [|done]. unfold with_candidates, apply_restored_candidates. cbn [servers by_id settings restored_candidates index].
  set (r1 := {| servers := servers r; by_id := by_id r; settings := settings r;
                restored_candidates := restored; index := i |}).
  assert (Hi : exposed_ok (known_tool r1) (settings r) None (tool_index i)).
  { eapply index_slots_ok; [exact Ei|apply empty_ok| |].
    - intros e [[? He]|[[? He]|[? He]]]; cbn in He; by rewrite lookup_empty in He.
    - intros sv og m Ht. by left. }
  split; [|done]. cbn [index with_tool_index tool_index settings].
  assert (Hfold : forall cs x, (forall c, c ∈ cs -> c ∈ restored) ->
    exposed_ok (known_tool r1) (settings r) None x ->
    exposed_ok (known_tool r1) (settings r) None (fold_left (apply_candidate r1) cs x)).
  { induction cs as [|c cs IH]; intros x Hin Hx; cbn; [done|]. apply IH; [intros c' Hc'; apply Hin; by right|].
    apply (apply_candidate_ok _ r1); [done| |].
    - rewrite Forall_forall in Hr. apply Hr, Hin. left.
    - right. exists c. split; [apply Hin; left|done]. }
  apply (Hfold restored _ (fun c Hc => Hc)) in Hi. exact Hi.
Qed.

(** ** What a policy lets through *)

Lemma permitted_admits adv s x e sv orig :
  permitted adv s x e sv orig -> exists m, adv sv orig m /\ policy_admits (policy s) (policy_name x e) sv orig m.
Proof.
  intros (m & Hm & Hb). exists m. split; [done|]. apply (blocked_reason_None _ (policy_name x e)).
  unfold policy_blocked_reason in Hb. destruct (has_canonical_policy s sv orig); [done|].
  by destruct (blocked_reason (policy s) e sv orig m).
Qed.

(** ** The router over time *)

(** What happens to a router: its registry policy or quarantine changes, a profile narrows
    it, a client takes a view of it, or its servers' catalogs change and it is indexed
    again. *)
Inductive router_step (r : Router) : Router -> Prop :=
| step_registry p r' b : apply_registry_policy r p = Some (r', b) -> router_step r r'
| step_requarantine q r' : requarantine r q = Some r' -> router_step r r'
| step_from_store q r' : requarantine_from_store r q = Some r' -> router_step r r'
| step_fail_closed r' : fail_closed_catalog r = Some r' -> router_step r r'
| step_scope a r' : with_tool_allow r a = Some r' -> router_step r r'
| step_view a rule r' : with_client_tool_view r a rule = Some r' -> router_step r r'
| step_catalogs slots ids r' :
    rebuild_preserving_restored {| servers := slots; by_id := ids; settings := settings r;
      restored_candidates := restored_candidates r; index := index r |} = Some r' -> router_step r r'.

Lemma respell_named s c c' : respell s c = Some c' -> definition_name (definition c') = Some (exposed c').
Proof.
  unfold respell. intros H. destruct (match _ with Some n => _ | None => _ end) as [e|]; [|done]. cbn [mbind option_bind] in H.
  destruct (set_field _ _ _) as [v|] eqn:Ev; [|done]. injection H as <-. cbn.
  unfold definition_name, name_in. cbn. by rewrite (set_field_same _ _ _ _ Ev).
Qed.

Lemma mapM_named s cs cs' :
  mapM (respell s) cs = Some cs' -> Forall (fun c => definition_name (definition c) = Some (exposed c)) cs'.
Proof.
  intros H%mapM_Some. induction H as [|c c' cs cs' Hc _ IH]; constructor; [by apply respell_named in Hc|done].
Qed.

Lemma router_step_ok r r' : router_step r r' -> router_ok r -> router_ok r'.
Proof.
  intros H [Hi Hc].
  assert (Hre : forall r1, candidates_named r1 -> rebuild_preserving_restored r1 = Some r' -> router_ok r')
    by (intros r1 H1 H2; by destruct (rebuild_ok _ _ H2 H1)).
  destruct H as [p r' b H|q r' H|q r' H|r' H|a r' H|a rule r' H|slots ids r' H]; try (by eapply Hre; [|exact H]).
  - unfold apply_registry_policy in H. case_bool_decide; [by injection H as <- _|].
    destruct (rebuild_preserving_restored _) as [r1|] eqn:E; [|done]. injection H as <- _.
    by eapply Hre; [|exact E].
  - unfold with_client_tool_view in H. cbn zeta in H. destruct (if bool_decide _ then _ else mapM _ _) as [cs|] eqn:Ec; [|done].
    cbn [mbind option_bind] in H. eapply Hre; [|exact H]. unfold candidates_named. cbn.
    case_bool_decide; [by injection Ec as <-|by eapply mapM_named].
Qed.

(** What a client can rely on, of one router. *)
Definition exposure_sound (r : Router) : Prop :=
  let x := tool_index (index r) in
  NoDup (map definition_name (tools x)) /\
  (forall o, o ∈ map definition_name (tools x) <-> exists e, o = Some e /\ is_Some (routes x !! e)) /\
  (forall e sv orig, routes x !! e = Some (sv, orig) ->
     blocked x !! e = None /\
     (exists m, known_tool r sv orig m /\ policy_admits (policy (settings r)) (policy_name x e) sv orig m) /\
     (forall e' n, policy_names x !! e = Some n -> policy_names x !! e' = Some n -> e' = e)).

Lemma router_ok_sound r : router_ok r -> exposure_sound r.
Proof.
  intros [[H1 H2 H3 H4 H5 H6 H7] _]. unfold exposure_sound. cbn zeta. split; [done|]. split; [done|]. intros e sv orig He. split_and!.
  - apply H3. by rewrite He.
  - by apply permitted_admits, H6.
  - intros e' n Hn Hn'. destruct (decide (e' = e)) as [|Hne]; [done|].
    assert (routes (tool_index (index r)) !! e = None) as E by (by eapply H5). congruence.
Qed.

(** ** Rebuilding always completes *)

Section total.
Context (digest_bytes : forall v, Forall (fun b => (b < 256)%N) (content_digest v))
  (digest_long : forall v, (6 <= length (content_digest v))%nat).

(** Every input schema has fewer keys than an address space holds. *)
Definition tool_small (t : RawTool) : Prop :=
  forall schema, get "inputSchema" (raw t) = Some schema -> SchemaCompat.schema_small schema.

(** What [raw_tool] makes of a value. *)
Definition tool_wf (t : RawTool) : Prop := name t = name_in (raw t) /\ tool_small t.

Lemma set_field_total k v t : (exists n, get "name" t = Some n) -> exists t', set_field k v t = Some t' /\ exists n, get "name" t' = Some n.
Proof.
  intros [n Hn]. destruct t as [| | | | |o]; try done. eexists. split; [done|]. cbn.
  destruct (decide ("name" = k)) as [<-|Hne]; [exists v; apply obj_get_insert_eq|].
  exists n. by rewrite obj_get_insert_ne.
Qed.

Lemma name_in_get t n : name_in t = Some n -> exists v, get "name" t = Some v.
Proof. unfold name_in. destruct (get "name" t); [by eexists|done]. Qed.

Lemma define_total t exposed description :
  tool_wf t -> is_Some (name t) -> exists d, define (raw t) exposed description = Some d.
Proof.
  intros [Hname Hs] [n Hn]. rewrite Hname in Hn. apply name_in_get in Hn. unfold define.
  assert (H1 : exists t1, match description with Some d => set_field "description" (JString d) (raw t) | None => Some (raw t) end = Some t1 /\
    (exists n, get "name" t1 = Some n) /\ get "inputSchema" t1 = get "inputSchema" (raw t)).
  { destruct description as [d|]; [|by eexists].
    destruct (set_field_total "description" (JString d) (raw t) Hn) as (t1 & H1 & Hn1). exists t1. split; [done|].
    split; [done|]. by apply (set_field_other _ _ _ _ _ H1). }
  destruct H1 as (t1 & -> & Hn1 & Hi1). cbn [mbind option_bind].
  destruct (set_field_total "name" (JString exposed) t1 Hn1) as (t2 & E2 & Hn2). rewrite E2. cbn [mbind option_bind].
  rewrite (set_field_other _ "inputSchema" _ _ _ E2), Hi1 by done.
  destruct (get "inputSchema" (raw t)) as [schema|] eqn:Eschema; [|by eexists].
  destruct (SchemaCompat.normalize_total regex regex_new number_from_str number_from_f64_str schema (Hs _ Eschema)) as [[normal args] ->].
  cbn [mbind option_bind]. destruct (SchemaRefs.inline_refs_total normal) as [flat ->]. cbn [mbind option_bind].
  destruct (set_field_total "inputSchema" flat t2 Hn2) as (t3 & -> & _). by eexists.
Qed.

Variable s : Settings.
Context (rule_limit : 16 <= limit (alias_rule s)).

(** Every name handed out fits the client. *)
Definition names_good (n : Names) : Prop := forall e, e ∈ seen n -> good_name (alias_rule s) e.

Lemma choose_name_total n server_id orig base rename :
  names_good n -> exists n' e, choose_name s n server_id orig base rename = Some (n', e) /\
    names_good n' /\ (size (seen n') <= S (size (seen n)))%nat.
Proof.
  intros Hg. unfold choose_name. destruct rename as [new|]; [|exists n, base; split_and!; [done|done|lia]].
  destruct (bounded_alias_spec content_digest digest_bytes (sanitize_segment new)
    (JArray [JString server_id; JString orig; JString new]) None (alias_rule s) (proj1 (sanitize_segment_bytes new)) rule_limit)
    as [[Hl E]|(_ & p & E & Hl & Hs)]; rewrite E; cbn [mbind option_bind];
    (destruct (_ && _); [|exists n, base; split_and!; [done|done|lia]]); eexists _, _; (split; [reflexivity|]); cbn [seen].
  - split; [|rewrite size_union_alt, size_singleton;
      pose proof (subseteq_size (seen n ∖ {[spell (alias_rule s) (sanitize_segment new)]}) (seen n) ltac:(set_solver)); lia].
    intros e [->%elem_of_singleton|He]%elem_of_union; [|by apply Hg]. split; [done|].
    apply spell_spelled, sanitize_segment_bytes.
  - split; [|rewrite size_union_alt, size_singleton;
      pose proof (subseteq_size (seen n ∖ {[p +:+ "_" +:+ alias_suffix content_digest (JArray [JString server_id; JString orig; JString new])]}) (seen n) ltac:(set_solver)); lia].
    intros e [->%elem_of_singleton|He]%elem_of_union; [|by apply Hg]. done.
Qed.

Lemma bind_names x e server orig : names (bind_policy_name s x e server orig) = names x.
Proof. unfold bind_policy_name. repeat case_match; done. Qed.

Lemma index_tool_total server_id x t base :
  tool_wf t -> (is_Some (name t) -> is_Some base) -> names_good (names x) ->
  exists x' b, index_tool s server_id x t base = Some (x', b) /\ names_good (names x') /\
    (size (seen (names x')) <= S (size (seen (names x))))%nat.
Proof.
  intros Ht Hb Hg. unfold index_tool. destruct (name t) as [orig|] eqn:En; [|exists x, false; split_and!; [done|done|lia]].
  destruct (Hb ltac:(by eexists)) as [b ->]. cbn [mbind option_bind].
  destruct (choose_name_total (names x) server_id orig b (o ← lookup2 (overrides s) server_id orig; ov_name o) Hg)
    as (n & e & -> & Hn & Hsz). cbn [mbind option_bind].
  set (x1 := bind_policy_name s _ e server_id orig).
  assert (Hx1 : names x1 = n) by (unfold x1; by rewrite bind_names).
  destruct (blocked x1 !! e); [exists x1, false; by rewrite Hx1|].
  destruct (policy_blocked_reason _ _ _ _ _ _); [eexists _, _; split; [done|]; cbn [block names]; by rewrite Hx1|].
  destruct (define_total t e (o ← lookup2 (overrides s) server_id orig; ov_description o) Ht ltac:(rewrite En; by eexists)) as [d ->].
  cbn [mbind option_bind]. eexists _, _. split; [done|]. cbn [publish names]. by rewrite Hx1.
Qed.

Lemma index_tools_total server_id apps x r ts :
  Forall (fun tb => tool_wf tb.1 /\ (is_Some (name tb.1) -> is_Some tb.2)) ts -> names_good (names x) ->
  exists x' r', index_tools s server_id apps x r ts = Some (x', r') /\ names_good (names x') /\
    (size (seen (names x')) <= length ts + size (seen (names x)))%nat.
Proof.
  revert x r. induction ts as [|[t base] ts IH]; intros x r Hts Hg; cbn [index_tools]; [exists x, r; split_and!; [done|done|cbn; lia]|].
  apply Forall_cons in Hts as [[Ht Hb] Hts].
  destruct (index_tool_total server_id x t base Ht Hb Hg) as (x1 & b & -> & Hg1 & Hs1). cbn [mbind option_bind].
  destruct (IH x1 (match app_uri t with Some uri => if b && apps then claim_uri r server_id uri else r | None => r end) Hts Hg1)
    as (x2 & r2 & -> & Hg2 & Hs2). exists x2, r2. split_and!; [done|done|cbn [length]; lia].
Qed.

Lemma index_prompts_total server_id ps out m :
  Forall (fun pb => is_Some (name_in pb.1) -> is_Some pb.2) ps -> exists r, index_prompts server_id ps out m = Some r.
Proof.
  revert out m. induction ps as [|[p base] ps IH]; intros out m Hps; cbn [index_prompts]; [by eexists|].
  apply Forall_cons in Hps as [Hp Hps]. destruct (name_in p) as [orig|] eqn:En; [|by apply IH].
  cbn in Hp. rewrite En in Hp. destruct (Hp ltac:(by eexists)) as [e ->]. cbn [mbind option_bind].
  destruct (set_field_total "name" (JString e) p (name_in_get _ _ En)) as (p' & -> & _). cbn [mbind option_bind]. by apply IH.
Qed.

(** The names one server can take: each tool two, each prompt one. *)
Definition slot_names (slot : ServerSlot) : nat := 2 * length (slot_tools slot) + length (slot_prompts slot).

Lemma zip_bases {A} (f : A -> option string) (l : list A) (bases : list (option string)) (P : A -> Prop) :
  length bases = length l -> Forall P l ->
  (forall i, is_Some (bases !! i ≫= id) <-> is_Some (map f l !! i ≫= id)) ->
  Forall (fun p => P p.1 /\ (is_Some (f p.1) -> is_Some p.2)) (zip l bases).
Proof.
  intros Hl HP H. apply Forall_lookup. intros i [a b] Hi.
  apply lookup_zip_with_Some in Hi as (a' & b' & [= <- <-] & Ha & Hb). split; [by eapply Forall_lookup_1|].
  cbn. intros Hf. specialize (H i). rewrite Hb in H. change (map f l) with (f <$> l) in H.
  rewrite list_lookup_fmap, Ha in H. cbn in H. by apply H.
Qed.

Lemma index_server_total i slot :
  Forall tool_wf (slot_tools slot) -> names_good (names (tool_index i)) ->
  (forall tool, attempts_apart content_digest (2 * (size (seen (names (tool_index i))) + slot_names slot) + 1) (slot_id slot) tool) ->
  exists i', index_server s i slot = Some i' /\ names_good (names (tool_index i')) /\
    (size (seen (names (tool_index i'))) <= size (seen (names (tool_index i))) + slot_names slot)%nat.
Proof.
  intros Hw Hg Hap. unfold index_server, slot_names in *.
  destruct (allocate_names_spec content_digest (alias_rule s) digest_bytes digest_long rule_limit (names (tool_index i)) (slot_id slot) (map name (slot_tools slot)))
    as (n & bases & -> & Hlen & Hsome & _ & _ & _ & Hsz & Hgn).
  { intros o _. eapply apart_mono; [|apply Hap]. rewrite length_map. lia. }
  cbn [mbind option_bind]. rewrite length_map in Hlen, Hsz.
  destruct (index_tools_total (slot_id slot) (mcp_apps slot) (with_names (tool_index i) n) (resource_index i) (zip (slot_tools slot) bases))
    as (x & r & -> & Hgx & Hsx).
  { by apply zip_bases. }
  { intros e He. by destruct (Hgn e He) as [?%Hg|?]. }
  cbn [mbind option_bind with_names names] in *. rewrite length_zip_with in Hsx.
  destruct (allocate_names_spec content_digest (alias_rule s) digest_bytes digest_long rule_limit (names x) (slot_id slot) (map name_in (slot_prompts slot)))
    as (n2 & ps & -> & Hlen2 & Hsome2 & _ & _ & _ & Hsz2 & Hgn2).
  { intros o _. eapply apart_mono; [|apply Hap]. rewrite length_map. lia. }
  cbn [mbind option_bind]. rewrite length_map in Hlen2, Hsz2.
  destruct (index_prompts_total (slot_id slot) (zip (slot_prompts slot) ps) (prompts i) (prompt_routes i)) as [[out m] ->].
  { eapply Forall_impl; [apply (zip_bases name_in (slot_prompts slot) ps (fun _ => True)); [done|by apply Forall_true|done]|].
    by intros p [_ Hp]. }
  cbn [mbind option_bind]. eexists. split; [reflexivity|]. cbn [tool_index with_names names]. split.
  - intros e He. by destruct (Hgn2 e He) as [?%Hgx|?].
  - lia.
Qed.

Lemma index_slots_total i slots :
  Forall (fun slot => Forall tool_wf (slot_tools slot)) slots -> names_good (names (tool_index i)) ->
  (forall server_id tool, attempts_apart content_digest
     (2 * (size (seen (names (tool_index i))) + list_sum (map slot_names slots)) + 1) server_id tool) ->
  exists i', index_slots s i slots = Some i' /\ names_good (names (tool_index i')).
Proof.
  revert i. induction slots as [|slot slots IH]; intros i Hw Hg Hap; cbn [index_slots]; [by exists i|].
  apply Forall_cons in Hw as [Hs Hw]. unfold index_slot. cbn [map] in Hap.
  change (list_sum (slot_names slot :: map slot_names slots)) with (slot_names slot + list_sum (map slot_names slots))%nat in Hap.
  set (i0 := if catalog_complete slot then _ else i).
  assert (H0 : tool_index i0 = tool_index i) by (unfold i0; by destruct (catalog_complete slot)).
  destruct (index_server_total i0 slot Hs) as (i1 & -> & Hg1 & Hs1); rewrite ?H0 in *; [done| |].
  { intros tool. eapply apart_mono; [|apply Hap]. lia. }
  cbn [mbind option_bind]. apply IH; [done|done|]. intros sv tool. eapply apart_mono; [|apply Hap]. lia.
Qed.
End total.

Lemma apply_candidate_used adv r x c k :
  exposed_ok adv (settings r) None x -> used (apply_candidate r x c) k -> used x k \/ k = exposed c.
Proof.
  intros Hok. unfold apply_candidate. set (e := exposed c) in *.
  destruct (_ || _) eqn:Eg; [by left|]. apply orb_false_elim in Eg as [Eg _]. apply orb_false_elim in Eg as [Er Eb].
  apply bool_decide_eq_false in Er, Eb. cbn zeta.
  set (x1 := {| names := _; tools := tools x; routes := routes x; schema_arguments := _; tool_owners := _;
                hidden := _; policy_names := _; policy_by_original := _; blocked := _ |}).
  assert (Hu1 : forall k, used x1 k <-> used x k) by (intros j; by apply same_used).
  assert (Hf1 : ~ used x1 e).
  { rewrite Hu1. intros [?|[?|Hp]]; [done|done|]. by destruct (ok_bound _ _ _ _ Hok e Hp). }
  assert (Hok1 : exposed_ok adv (settings r) None x1) by (by apply (same_ok adv _ x)).
  destruct (bind_ok adv (settings r) x1 e (server c) (original c) Hok1 Hf1) as (_ & _ & _ & Hb & _).
  assert (Hins : forall (m : gmap string string) v, is_Some (<[e := v]> m !! k) -> is_Some (m !! k) \/ k = e).
  { intros m v Hm. destruct (decide (k = e)); [by right|left]. by rewrite lookup_insert_ne in Hm by congruence. }
  assert (Hpair : forall (m : gmap string (string * string)) v, is_Some (<[e := v]> m !! k) -> is_Some (m !! k) \/ k = e).
  { intros m v Hm. destruct (decide (k = e)); [by right|left]. by rewrite lookup_insert_ne in Hm by congruence. }
  rewrite <- Hu1. case_match; [apply Hb|]. case_match.
  - intros [Hk|[Hk|Hk]]; [apply Hb; by left| |apply Hb; by right; right].
    apply Hins in Hk as [Hk|]; [apply Hb; by right; left|by right].
  - intros [Hk|[Hk|Hk]]; [|apply Hb; by right; left|apply Hb; by right; right].
    apply Hpair in Hk as [Hk|]; [apply Hb; by left|by right].
Qed.

(** The names all servers can take. *)
Definition names_budget (r : Router) : nat :=
  length (restored_candidates r) + list_sum (map slot_names (servers r)).

Lemma reserve_total r cs n :
  (forall e, e ∈ seen n -> good_name (alias_rule (settings r)) e) ->
  Forall (fun c => good_name (alias_rule (settings r)) (exposed c)) cs ->
  (forall e, e ∈ seen (fold_left (reserve r) cs n) -> good_name (alias_rule (settings r)) e) /\
  (size (seen (fold_left (reserve r) cs n)) <= size (seen n) + length cs)%nat.
Proof.
  revert n. induction cs as [|c cs IH]; intros n Hg Hc; cbn [fold_left length]; [split; [done|lia]|].
  apply Forall_cons in Hc as [Hc Hcs].
  assert (H1 : (forall e, e ∈ seen (reserve r n c) -> good_name (alias_rule (settings r)) e) /\
    (size (seen (reserve r n c)) <= S (size (seen n)))%nat).
  { unfold reserve. destruct (match slot_of r (server c) with Some _ => _ | None => _ end); [split; [done|lia]|]. cbn [seen]. split.
    - intros e [->%elem_of_singleton|He]%elem_of_union; [done|by apply Hg].
    - rewrite size_union_alt, size_singleton.
      pose proof (subseteq_size (seen n ∖ {[exposed c]}) (seen n) ltac:(set_solver)). lia. }
  destruct H1 as [H1 H2]. destruct (IH (reserve r n c) H1 Hcs) as [H3 H4]. split; [done|lia].
Qed.

Lemma rebuild_total r :
  (forall v, Forall (fun b => (b < 256)%N) (content_digest v)) ->
  (forall v, (6 <= length (content_digest v))%nat) -> 16 <= limit (alias_rule (settings r)) ->
  Forall (fun slot => Forall tool_wf (slot_tools slot)) (servers r) -> candidates_named r ->
  Forall (fun c => good_name (alias_rule (settings r)) (exposed c)) (restored_candidates r) ->
  (forall server_id tool, attempts_apart content_digest (2 * names_budget r + 1) server_id tool) ->
  exists r', rebuild_preserving_restored r = Some r' /\
    forall e, is_Some (routes (tool_index (index r')) !! e) -> good_name (alias_rule (settings r)) e.
Proof.
  intros Hb Hl Hr Hw Hn Hc Hap. unfold rebuild_preserving_restored, rebuild_aggregation_with_reserved.
  set (restored := List.filter _ (restored_candidates r)).
  assert (Hsub : forall c, c ∈ restored -> c ∈ restored_candidates r)
    by (intros c [Hin _]%list_elem_of_In%filter_In; by apply list_elem_of_In).
  assert (Hc' : Forall (fun c => good_name (alias_rule (settings r)) (exposed c)) restored).
  { rewrite Forall_forall in *. intros c Hin. by apply Hc, Hsub. }
  destruct (reserve_total r restored no_names) as [Hg Hsz]; [by intros e ?%elem_of_empty|done|].
  cbn [no_names seen] in Hsz. rewrite size_empty in Hsz.
  assert (Hle : (length restored <= length (restored_candidates r))%nat) by apply List.filter_length_le.
  destruct (index_slots_total Hb Hl (settings r) Hr (empty_index (fold_left (reserve r) restored no_names)) (servers r) Hw Hg)
    as (i & Ei & Hgi).
  { intros sv tool. eapply apart_mono; [|apply Hap]. cbn [empty_index tool_index empty_tools names]. unfold names_budget. lia. }
  rewrite Ei. cbn [mbind option_bind]. eexists. split; [reflexivity|].
  unfold with_candidates, apply_restored_candidates. cbn [servers by_id settings restored_candidates index with_tool_index tool_index].
  set (r1 := {| servers := servers r; by_id := by_id r; settings := settings r;
                restored_candidates := restored; index := i |}).
  destruct (index_slots_ok (known_tool r1) _ _ _ _ Ei (empty_ok _ _ _)) as [Hok Hus].
  { intros e [[? He]|[[? He]|[? He]]]; cbn in He; by rewrite lookup_empty in He. }
  { intros sv og m Ht. by left. }
  assert (Hfold : forall cs x, (forall c, c ∈ cs -> c ∈ restored) -> exposed_ok (known_tool r1) (settings r) None x ->
    (forall k, used x k -> good_name (alias_rule (settings r)) k) ->
    forall k, used (fold_left (apply_candidate r1) cs x) k -> good_name (alias_rule (settings r)) k).
  { induction cs as [|c cs IH]; intros x Hin Hx Hu; cbn; [done|].
    assert (Hcin : c ∈ restored) by (apply Hin; left). apply IH; [intros c' Hc2; apply Hin; by right| |].
    - unfold candidates_named in Hn. rewrite Forall_forall in Hn. apply (apply_candidate_ok _ r1); [done|by apply Hn, Hsub|]. right. by exists c.
    - intros k Hk. rewrite Forall_forall in Hc'. apply (apply_candidate_used (known_tool r1) r1) in Hk as [?| ->]; [by apply Hu|by apply Hc'|done]. }
  intros e He. apply (Hfold restored (tool_index i)) with (k := e); [done|done| |by left].
  intros k Hk. by apply Hgi, Hus.
Qed.

(** ** Properties *)

(** A router before it holds any server. *)
Definition new_router (s : Settings) : Router :=
  {| servers := []; by_id := ∅; settings := s; restored_candidates := []; index := empty_index no_names |}.


(** C15. A call that the router it started with authorizes, and that is rechecked against the
    live one, goes to a server the live policy still allows, and to a tool it does not
    disable, quarantine or (by the definition the caller saw) refuse as destructive; a
    catalog closed because its store cannot be read refuses every call. *)
Theorem call_respects_live_policy no_route r live e sv orig :
  route_of r e = Some (sv, orig) -> recheck_live_policy no_route r live (Tool e) = Ok tt ->
  let p := policy (settings live) in
  allows_server p sv = true /\ in_set (disabled p) sv orig <> Some true /\ fail_closed p = false /\
  policy_name (tool_index (index r)) e ∉ quarantined p /\
  blocked (tool_index (index live)) !! e <> Some ambiguous_binding /\
  (deny_destructive p = true -> forall d, List.find (fun d => bool_decide (definition_name d = Some e)) (tools (tool_index (index r))) = Some d ->
     destructive (metadata_of (safety_definition r (value d))) = false).
Proof.
  intros Hr H. cbn zeta. cbn [recheck_live_policy] in H. rewrite Hr in H. set (p := policy (settings live)).
  assert (H1 : blocked (tool_index (index live)) !! e <> Some ambiguous_binding /\ recheck_policy r live e sv orig = Ok tt).
  { destruct (blocked (tool_index (index live)) !! e) as [reason|]; [|done].
    destruct (String.eqb_spec reason ambiguous_binding) as [E|Hne]; [done|]. split; [congruence|done]. }
  destruct H1 as [Hamb Hp]. unfold recheck_policy in Hp. fold p in Hp. cbn zeta in Hp.
  set (m := metadata_of _) in Hp.
  assert (Hn : blocked_reason_unscoped p (policy_name (tool_index (index r)) e) sv orig m = None).
  { destruct (has_canonical_policy (settings r) sv orig); [by destruct (blocked_reason_unscoped _ _ _ _ _)|].
    destruct (blocked_reason_unscoped p e sv orig m); [done|]. by destruct (blocked_reason_unscoped _ _ _ _ _). }
  assert (Hadm : policy_admits (set_allow p ∅) (policy_name (tool_index (index r)) e) sv orig m).
  { apply (blocked_reason_None _ (policy_name (tool_index (index r)) e)). unfold blocked_reason. exact Hn. }
  destruct Hadm as (H1 & H2 & H3 & H4 & H5). cbn in H1, H2, H3, H4, H5.
  unfold in_scope, in_set in H1. cbn in H1. rewrite lookup_empty, andb_true_r in H1.
  split_and!; try done. intros Hd d Hf. specialize (H3 Hd). unfold m in H3. rewrite Hd, Hf in H3. exact H3.
Qed.

(** Rebuilding always completes: no lookup, cut or index of the code panics and no search
    for a free name goes on for ever, and every exposed name fits the client's alias rule.
    The digests of one tool's attempts are assumed to differ, up to the names in play. *)
Theorem rebuild_completes r :
  (forall v, Forall (fun b => (b < 256)%N) (content_digest v)) ->
  (forall v, (6 <= length (content_digest v))%nat) -> 16 <= limit (alias_rule (settings r)) ->
  Forall (fun slot => Forall tool_wf (slot_tools slot)) (servers r) -> candidates_named r ->
  Forall (fun c => good_name (alias_rule (settings r)) (exposed c)) (restored_candidates r) ->
  (forall server_id tool, attempts_apart content_digest (2 * names_budget r + 1) server_id tool) ->
  exists r', rebuild_preserving_restored r = Some r' /\
    forall e, is_Some (routes (tool_index (index r')) !! e) -> good_name (alias_rule (settings r)) e.
Proof. apply rebuild_total. Qed.
End router.

(** ** Witnesses *)

Definition demo_settings : Settings :=
  {| alias_rule := demo_rule;
     policy := {| servers_allowed := Some {["files"]}; disabled := {["files" := {["stat"]}]}; allow := ∅;
                  deny_destructive := true; quarantined := {["files__read"]}; fail_closed := false |};
     overrides := ∅; canonical_policy := ∅ |}.

Definition demo_tool (n : string) : json :=
  JObject [("inputSchema", JObject [("properties", JObject [("a b", JObject [])]); ("type", JString "object")]);
           ("name", JString n)].

Definition demo_slot : ServerSlot :=
  {| slot_id := "files"; slot_tools := map (fun n => raw_tool (demo_tool n)) ["read"; "list"; "delete_all"; "stat"];
     slot_resources := []; slot_templates := []; slot_prompts := []; mcp_apps := false;
     catalog_complete := true; tool_revision := 1 |}.

Local Abbreviation no_regex := (fun _ : string => @None unit).
Local Abbreviation no_number := (fun _ : string => @None number).

Definition demo_router : Router unit :=
  {| servers := [demo_slot]; by_id := {["files" := 0%nat]}; settings := demo_settings;
     restored_candidates := []; index := empty_index unit no_names |}.

Definition demo_rebuilt : option (Router unit) :=
  rebuild_preserving_restored counting_digest unit no_regex no_number no_number demo_router.

Definition demo_index (r : Router unit) : ToolIndex unit := tool_index unit (index unit r).

(** What the demonstration comes to, checked on the result without unfolding it. *)
Definition demo_expected (r : Router unit) : bool :=
  bool_decide (routes unit (demo_index r) = {["files__list" := ("files", "list")]}) &&
  bool_decide (blocked unit (demo_index r) !! "files__read" = Some quarantined_reason) &&
  bool_decide (blocked unit (demo_index r) !! "files__stat" = Some "disabled") &&
  bool_decide (blocked unit (demo_index r) !! "files__delete_all" = Some "blocked by the destructive-tool policy") &&
  is_ok (recheck_live_policy unit (fun e => e) r r (Tool "files__list")).

Lemma demo_rebuilt_expected r : demo_rebuilt = Some r -> demo_expected r = true.
Proof.
  intros E. assert (H : demo_expected <$> demo_rebuilt = Some true) by (by vm_compute).
  rewrite E in H. by injection H.
Qed.


Lemma demo_facts r :
  demo_rebuilt = Some r ->
  route_of unit r "files__list" = Some ("files", "list") /\
  recheck_live_policy unit (fun e => e) r r (Tool "files__list") = Ok tt.
Proof.
  intros E%demo_rebuilt_expected. unfold demo_expected in E. repeat (apply andb_prop in E as [E ?]).
  apply bool_decide_eq_true in E. split.
  - unfold route_of. fold (demo_index r). by rewrite E.
  - by destruct (recheck_live_policy unit (fun e => e) r r (Tool "files__list")) as [[]|].
Qed.

Lemma call_respects_live_policy_witness :
  exists r, demo_rebuilt = Some r /\
    recheck_live_policy unit (fun e => e) r r (Tool "files__list") = Ok tt /\
    in_set (disabled (policy (settings unit r))) "files" "list" <> Some true.
Proof.
  destruct demo_rebuilt as [r|] eqn:E; [|vm_compute in E; discriminate].
  destruct (demo_facts r E) as [H1 H2]. exists r. split; [done|]. split; [exact H2|].
  destruct (call_respects_live_policy unit _ r r "files__list" "files" "list" H1 H2) as (_ & H & _).
  exact H.
Defined.

Lemma demo_tool_wf n : tool_wf (raw_tool (demo_tool n)).
Proof. split; [done|]. intros schema Hs. cbn in Hs. injection Hs as <-. by vm_compute. Qed.

Lemma rebuild_completes_witness :
  exists r, demo_rebuilt = Some r /\ slen "files__list" <= 64 /\ good_name demo_rule "files__list".
Proof.
  destruct (rebuild_completes counting_digest unit no_regex no_number no_number demo_router) as (r & Hr & Hg).
  - apply counting_digest_bytes.
  - apply counting_digest_long.
  - done.
  - apply Forall_singleton. cbn [demo_slot slot_tools map]. repeat (apply Forall_cons; split; [apply demo_tool_wf|]). done.
  - constructor.
  - constructor.
  - intros sv t. apply counting_digest_apart. vm_compute. lia.
  - exists r. split; [exact Hr|]. split; [by vm_compute|]. apply Hg.
    destruct (demo_facts r Hr) as [H _]. unfold route_of in H. rewrite H. by eexists.
Defined.
End Catalog.
