(* ===== verification/Safety.v ===== *)
(** The safety level and what it protects (src/registry.rs, src/registry/v2_migration.rs):
    the member's level, the team's floor, the 1.x protections an upgrade keeps, the
    decisions other parts ask for, the 1.x mirror, and the safety part of the schema
    upgrade. *)

From S2P Require Import Prelude Text Json.

Module Safety.

Inductive SafetyLevel := Off | Ask | Strict.

#[global] Instance SafetyLevel_eq : EqDecision SafetyLevel.
Proof. solve_decision. Defined.

(** The derived order of the levels. *)
Definition rank (l : SafetyLevel) : Z := match l with Off => 0 | Ask => 1 | Strict => 2 end.
Definition at_least (a b : SafetyLevel) : bool := rank b <=? rank a.
Definition max_level (a b : SafetyLevel) : SafetyLevel := if at_least b a then b else a.

Record KeptV1Safety := mk_kept {
  hold_untrusted : bool;
  kept_deny_destructive : bool;
  kept_quarantine_on_drift : bool;
  kept_block_on_injection : bool
}.

Definition no_kept : KeptV1Safety := mk_kept false false false false.

Definition any (k : KeptV1Safety) : bool :=
  hold_untrusted k || kept_deny_destructive k || kept_quarantine_on_drift k || kept_block_on_injection k.

(** The fields of [Registry] that safety reads. *)
Record Registry := mk_registry {
  version : Z;
  safety_level : option SafetyLevel;
  kept_v1_safety : option KeptV1Safety;
  human_approval : bool;
  confirm_destructive : bool;
  deny_destructive : bool;
  quarantine_on_drift : bool;
  block_on_injection : bool;
  pii_redaction : bool;
  team_min_safety_level : SafetyLevel;
  team_forced_human_approval : bool;
  team_forced_quarantine_on_drift : bool;
  team_forced_block_on_injection : bool;
  team_forced_pii_redaction : bool;
  injection_block_exempt : gmap string bool
}.

Definition with_level (l : option SafetyLevel) (k : option KeptV1Safety) (r : Registry) : Registry :=
  mk_registry (version r) l k (human_approval r) (confirm_destructive r) (deny_destructive r)
    (quarantine_on_drift r) (block_on_injection r) (pii_redaction r) (team_min_safety_level r)
    (team_forced_human_approval r) (team_forced_quarantine_on_drift r) (team_forced_block_on_injection r)
    (team_forced_pii_redaction r) (injection_block_exempt r).

Definition with_toggles (ha cd dd qd bi : bool) (r : Registry) : Registry :=
  mk_registry (version r) (safety_level r) (kept_v1_safety r) ha cd dd qd bi (pii_redaction r)
    (team_min_safety_level r) (team_forced_human_approval r) (team_forced_quarantine_on_drift r)
    (team_forced_block_on_injection r) (team_forced_pii_redaction r) (injection_block_exempt r).

(** ** The level *)

Definition safety_level_selected (r : Registry) : SafetyLevel :=
  if 2 <=? version r then default Ask (safety_level r)
  else default (if human_approval r || confirm_destructive r then Ask else Off) (safety_level r).

Definition safety_level_team_floor (r : Registry) : SafetyLevel :=
  max_level (team_min_safety_level r) (if team_forced_human_approval r then Ask else Off).

Definition safety_level_effective (r : Registry) : SafetyLevel :=
  max_level (safety_level_selected r) (safety_level_team_floor r).

Definition validate_safety_level (r : Registry) (l : SafetyLevel) : result unit string :=
  if negb (at_least l (safety_level_team_floor r))
  then Err "Safety cannot be set below the team's minimum level" else Ok tt.

Definition kept (r : Registry) : KeptV1Safety :=
  if (version r <? 2) && negb (bool_decide (is_Some (safety_level r)))
  then mk_kept (human_approval r) (deny_destructive r) (quarantine_on_drift r) (block_on_injection r)
  else default no_kept (kept_v1_safety r).

(** ** What it decides *)

Definition requires_human_approval (r : Registry) (destructive untrusted : bool) : bool :=
  let hold_untrusted := hold_untrusted (kept r) || team_forced_human_approval r in
  match safety_level_effective r with
  | Off => false
  | Ask => destructive || (untrusted && hold_untrusted)
  | Strict => destructive || untrusted
  end.

Definition human_approval_effective (r : Registry) : bool := at_least (safety_level_effective r) Ask.

Definition is_strict (r : Registry) : bool := bool_decide (safety_level_effective r = Strict).

Definition deny_destructive_effective (r : Registry) : bool := is_strict r || kept_deny_destructive (kept r).
Definition content_defense_effective (r : Registry) : bool := true.
Definition pii_redaction_effective (r : Registry) : bool := pii_redaction r || team_forced_pii_redaction r.
Definition quarantine_on_drift_effective (r : Registry) : bool :=
  is_strict r || team_forced_quarantine_on_drift r || kept_quarantine_on_drift (kept r).
Definition block_on_injection_effective (r : Registry) : bool :=
  is_strict r || team_forced_block_on_injection r || kept_block_on_injection (kept r).

Definition should_block_injection_for (r : Registry) (server : string) : bool :=
  if negb (block_on_injection_effective r) then false
  else negb (default false (injection_block_exempt r !! server)).

(** ** The mirror 1.x processes read *)

Definition sync_legacy_safety_mirror (r : Registry) : Registry :=
  if version r <? 2 then r
  else
    let level := safety_level_selected r in
    let strict := bool_decide (level = Strict) in
    let k := kept r in
    with_toggles (at_least level Ask) false (strict || kept_deny_destructive k)
      (strict || kept_quarantine_on_drift k) (strict || kept_block_on_injection k) r.

Definition set_safety_level (r : Registry) (l : SafetyLevel) : Registry :=
  sync_legacy_safety_mirror (with_level (Some l) None r).

(** ** The upgrade from schema 1 *)

Definition level_name (l : SafetyLevel) : string :=
  match l with Off => "off" | Ask => "ask" | Strict => "strict" end.

Definition level_of_name (s : string) : option SafetyLevel :=
  if String.eqb s "off" then Some Off
  else if String.eqb s "ask" then Some Ask
  else if String.eqb s "strict" then Some Strict
  else None.

Definition flag_at (k : string) (v : json) : bool := default false (b ← get k v; as_bool b).

(** [v2_migration::safety_level]: the level and the protections kept, as an object. *)
Definition migrated_safety_level (v : json) : SafetyLevel * json :=
  match (l ← get "safetyLevel" v; n ← as_str l; level_of_name n) with
  | Some l => (l, JObject [])
  | None =>
      let approval := flag_at "humanApproval" v in
      let level := if approval || flag_at "confirmDestructive" v then Ask else Off in
      let keep (b : bool) k (kept : json) := if b then put k (JBool true) kept else kept in
      (level,
       keep (flag_at "blockOnInjection" v) "blockOnInjection"
         (keep (flag_at "quarantineOnDrift" v) "quarantineOnDrift"
            (keep (flag_at "denyDestructive" v) "denyDestructive"
               (keep approval "holdUntrusted" (JObject [])))))
  end.

(** The part of [migrate_v1_to_v2] that writes the level, the mirror and what is kept. *)
Definition migrate_safety (v : json) : json :=
  let '(level, kept) := migrated_safety_level v in
  let v := put "safetyLevel" (JString (level_name level)) v in
  let strict := bool_decide (level = Strict) in
  let v := put "denyDestructive" (JBool (strict || flag_at "denyDestructive" kept)) v in
  let v := put "quarantineOnDrift" (JBool (strict || flag_at "quarantineOnDrift" kept)) v in
  let v := put "blockOnInjection" (JBool (strict || flag_at "blockOnInjection" kept)) v in
  let v := put "humanApproval" (JBool (negb (bool_decide (level = Off)))) v in
  let v := put "confirmDestructive" (JBool false) v in
  match kept with
  | JObject [] => v
  | kept => put "keptV1Safety" kept v
  end.

(** What a stored registry says of safety: absent fields take their defaults. *)
Definition read_kept (v : json) : KeptV1Safety :=
  mk_kept (flag_at "holdUntrusted" v) (flag_at "denyDestructive" v) (flag_at "quarantineOnDrift" v)
    (flag_at "blockOnInjection" v).

Definition read_registry (version : Z) (v : json) (r : Registry) : Registry :=
  mk_registry version (l ← get "safetyLevel" v; n ← as_str l; level_of_name n)
    (read_kept <$> get "keptV1Safety" v)
    (flag_at "humanApproval" v) (flag_at "confirmDestructive" v) (flag_at "denyDestructive" v)
    (flag_at "quarantineOnDrift" v) (flag_at "blockOnInjection" v) (pii_redaction r)
    (team_min_safety_level r) (team_forced_human_approval r) (team_forced_quarantine_on_drift r)
    (team_forced_block_on_injection r) (team_forced_pii_redaction r) (injection_block_exempt r).

(** ** What the decisions guarantee *)

(** Everything safety decides. *)
Record same_protection (r r' : Registry) : Prop := {
  same_level : safety_level_effective r' = safety_level_effective r;
  same_approval : forall d u, requires_human_approval r' d u = requires_human_approval r d u;
  same_deny : deny_destructive_effective r' = deny_destructive_effective r;
  same_drift : quarantine_on_drift_effective r' = quarantine_on_drift_effective r;
  same_injection : forall sv, should_block_injection_for r' sv = should_block_injection_for r sv
}.

Lemma same_kept_protection r r' :
  safety_level_effective r' = safety_level_effective r -> kept r' = kept r ->
  team_forced_human_approval r' = team_forced_human_approval r ->
  team_forced_quarantine_on_drift r' = team_forced_quarantine_on_drift r ->
  team_forced_block_on_injection r' = team_forced_block_on_injection r ->
  injection_block_exempt r' = injection_block_exempt r -> same_protection r r'.
Proof.
  intros Hl Hk H1 H2 H3 H4.
  split; unfold requires_human_approval, deny_destructive_effective, quarantine_on_drift_effective,
    should_block_injection_for, block_on_injection_effective, is_strict; intros; by rewrite ?Hl, ?Hk, ?H1, ?H2, ?H3, ?H4.
Qed.

Lemma level_of_name_name l : level_of_name (level_name l) = Some l.
Proof. by destruct l. Qed.

Lemma flag_at_put_eq k b v : is_object v = true -> flag_at k (put k (JBool b) v) = b.
Proof. intros H. unfold flag_at. by rewrite get_put_eq. Qed.

Lemma get_flag_put_ne k k' w v : k' <> k -> flag_at k (put k' w v) = flag_at k v.
Proof. intros H. unfold flag_at. by rewrite get_put_ne. Qed.

(** [r'] protects at least as much as [r]. *)
Record at_least_as_safe (r r' : Registry) : Prop := {
  safe_approval : forall d u, requires_human_approval r d u = true -> requires_human_approval r' d u = true;
  safe_deny : deny_destructive_effective r = true -> deny_destructive_effective r' = true;
  safe_drift : quarantine_on_drift_effective r = true -> quarantine_on_drift_effective r' = true;
  safe_injection : forall sv, should_block_injection_for r sv = true -> should_block_injection_for r' sv = true
}.

(** The decisions depend on the level, the kept protections and the team's flags, and on
    each of them monotonically. *)
Definition kept_le (k k' : KeptV1Safety) : Prop :=
  (hold_untrusted k = true -> hold_untrusted k' = true) /\
  (kept_deny_destructive k = true -> kept_deny_destructive k' = true) /\
  (kept_quarantine_on_drift k = true -> kept_quarantine_on_drift k' = true) /\
  (kept_block_on_injection k = true -> kept_block_on_injection k' = true).

Lemma max_level_rank a b : rank (max_level a b) = Z.max (rank a) (rank b).
Proof. by destruct a, b. Qed.

Lemma at_least_spec a b : at_least a b = true <-> rank b <= rank a.
Proof. unfold at_least. apply Z.leb_le. Qed.

Lemma safe_decisions r r' :
  at_least (safety_level_effective r') (safety_level_effective r) = true -> kept_le (kept r) (kept r') ->
  (team_forced_human_approval r = true -> team_forced_human_approval r' = true) ->
  (team_forced_quarantine_on_drift r = true -> team_forced_quarantine_on_drift r' = true) ->
  (team_forced_block_on_injection r = true -> team_forced_block_on_injection r' = true) ->
  injection_block_exempt r' = injection_block_exempt r -> at_least_as_safe r r'.
Proof.
  intros Hl (K1 & K2 & K3 & K4) H1 H2 H3 H4.
  assert (Hstrict : is_strict r = true -> is_strict r' = true).
  { unfold is_strict. rewrite !bool_decide_eq_true. intros Hs. apply at_least_spec in Hl. rewrite Hs in Hl.
    by destruct (safety_level_effective r'). }
  assert (Hinj : block_on_injection_effective r = true -> block_on_injection_effective r' = true).
  { unfold block_on_injection_effective. rewrite !orb_true_iff. naive_solver. }
  split.
  - intros d u. unfold requires_human_approval. apply at_least_spec in Hl.
    destruct (safety_level_effective r), (safety_level_effective r'); try done;
      destruct d, u; cbn; try done; rewrite ?orb_true_iff; naive_solver.
  - unfold deny_destructive_effective. rewrite !orb_true_iff. naive_solver.
  - unfold quarantine_on_drift_effective. rewrite !orb_true_iff. naive_solver.
  - intros sv. unfold should_block_injection_for. rewrite H4.
    destruct (block_on_injection_effective r); [|done]. by rewrite Hinj.
Qed.

(** What the upgrade reads off a 1.x registry: its level, and the toggles it keeps. *)
Lemma migrated_safety_level_spec v :
  let '(level, kept) := migrated_safety_level v in
  level = default (if flag_at "humanApproval" v || flag_at "confirmDestructive" v then Ask else Off)
            (l ← get "safetyLevel" v; n ← as_str l; level_of_name n) /\
  match (l ← get "safetyLevel" v; n ← as_str l; level_of_name n) with
  | Some _ => kept = JObject []
  | None =>
      read_kept kept = mk_kept (flag_at "humanApproval" v) (flag_at "denyDestructive" v)
        (flag_at "quarantineOnDrift" v) (flag_at "blockOnInjection" v) /\
      (kept = JObject [] -> read_kept kept = no_kept)
  end.
Proof.
  unfold migrated_safety_level. destruct (l ← get "safetyLevel" v; n ← as_str l; level_of_name n); [done|].
  split; [done|]. split; [|by intros ->].
  by destruct (flag_at "humanApproval" v), (flag_at "denyDestructive" v), (flag_at "quarantineOnDrift" v),
    (flag_at "blockOnInjection" v).
Qed.

(** What it writes beside [keptV1Safety]. *)
Definition mirror_keys : gset string :=
  {["safetyLevel"; "denyDestructive"; "quarantineOnDrift"; "blockOnInjection"; "humanApproval"; "confirmDestructive"]}.

Lemma written_level level kept v :
  is_object v = true ->
  exists w, w = put "confirmDestructive" (JBool false)
        (put "humanApproval" (JBool (negb (bool_decide (level = Off))))
           (put "blockOnInjection" (JBool (bool_decide (level = Strict) || flag_at "blockOnInjection" kept))
              (put "quarantineOnDrift" (JBool (bool_decide (level = Strict) || flag_at "quarantineOnDrift" kept))
                 (put "denyDestructive" (JBool (bool_decide (level = Strict) || flag_at "denyDestructive" kept))
                    (put "safetyLevel" (JString (level_name level)) v))))) /\
    is_object w = true /\ get "safetyLevel" w = Some (JString (level_name level)) /\
    forall k, k ∉ mirror_keys -> get k w = get k v.
Proof.
  intros Hv. eexists. split; [done|]. rewrite !put_object. split; [done|].
  rewrite !get_put_ne, get_put_eq by done. split; [done|]. intros k Hk. unfold mirror_keys in Hk.
  by rewrite !get_put_ne by set_solver.
Qed.

(** ** The guarantees *)

(** C16. The upgrade keeps what 1.x did: the registry the schema upgrade writes, read by this
    version, gives the same level, asks for approval of the same calls, hides the same
    destructive tools, quarantines on drift and blocks injections for the same servers as
    the 1.x registry did before. *)
Theorem upgrade_keeps_protection v r :
  is_object v = true -> get "keptV1Safety" v = None ->
  same_protection (read_registry 1 v r) (read_registry 2 (migrate_safety v) r).
Proof.
  intros Hv Hk. unfold migrate_safety. pose proof (migrated_safety_level_spec v) as H.
  destruct (migrated_safety_level v) as [level kept]. destruct H as [Hl Hkept].
  destruct (written_level level kept v Hv) as (w & Hw & Hobj & Hlevel & Hput).
  assert (Hkw : get "keptV1Safety" (match kept with JObject [] => w | k => put "keptV1Safety" k w end) =
    match kept with JObject [] => None | k => Some k end).
  { destruct kept as [| | | | |[|]]; rewrite ?get_put_eq by done; try done. rewrite <- Hk. by apply Hput. }
  assert (Hlw : get "safetyLevel" (match kept with JObject [] => w | k => put "keptV1Safety" k w end) =
    Some (JString (level_name level))).
  { rewrite <- Hlevel. by destruct kept as [| | | | |[|]]; rewrite ?get_put_ne by done. }
  cbv zeta in *. rewrite <- Hw in *.
  apply same_kept_protection; [| |done..].
  - unfold safety_level_effective, safety_level_selected, safety_level_team_floor, read_registry. cbn -[get].
    rewrite Hlw. cbn. rewrite level_of_name_name. cbn. by rewrite Hl.
  - unfold Safety.kept, read_registry. cbn -[get]. rewrite Hkw, Hk. cbn -[get].
    destruct (l ← get "safetyLevel" v; n ← as_str l; level_of_name n).
    + subst kept. done.
    + rewrite bool_decide_eq_false_2 by apply is_Some_None. cbn -[get read_kept].
      destruct Hkept as [<- Hnil]. by destruct kept as [| | | | |[|]].
Qed.

(** Team policy only tightens: a higher floor or a forced flag never relaxes a decision,
    and whatever the team asks for, the level is at least the member's own. *)
Theorem team_policy_tightens r floor ha qd bi pii :
  let r' := mk_registry (version r) (safety_level r) (kept_v1_safety r) (human_approval r) (confirm_destructive r)
    (deny_destructive r) (quarantine_on_drift r) (block_on_injection r) (pii_redaction r)
    (max_level floor (team_min_safety_level r)) (ha || team_forced_human_approval r)
    (qd || team_forced_quarantine_on_drift r) (bi || team_forced_block_on_injection r)
    (pii || team_forced_pii_redaction r) (injection_block_exempt r) in
  at_least_as_safe r r' /\ at_least (safety_level_effective r') floor = true /\
  at_least (safety_level_effective r') (safety_level_selected r) = true /\
  (pii_redaction_effective r = true -> pii_redaction_effective r' = true).
Proof.
  intros r'.
  assert (Hl : rank (safety_level_effective r') = Z.max (rank (safety_level_selected r))
      (Z.max (Z.max (rank floor) (rank (team_min_safety_level r))) (if ha || team_forced_human_approval r then 1 else 0))).
  { unfold safety_level_effective, safety_level_team_floor, r'. cbn -[rank max_level Z.max].
    rewrite !max_level_rank. by destruct (ha || team_forced_human_approval r). }
  assert (Hr : rank (safety_level_effective r) = Z.max (rank (safety_level_selected r))
      (Z.max (rank (team_min_safety_level r)) (if team_forced_human_approval r then 1 else 0))).
  { unfold safety_level_effective, safety_level_team_floor. rewrite !max_level_rank.
    by destruct (team_forced_human_approval r). }
  split; [|rewrite !at_least_spec, Hl; split; [lia|split; [lia|]]].
  - apply safe_decisions; cbn; rewrite ?orb_true_iff; auto.
    + rewrite at_least_spec, Hl, Hr. destruct ha, (team_forced_human_approval r); cbn; lia.
    + by repeat split.
  - unfold pii_redaction_effective. cbn. rewrite !orb_true_iff. naive_solver.
Qed.

(** The mirror never weakens: a 1.x process, which reads only the toggles, asks for
    approval of every call, hides every destructive tool and quarantines and blocks
    wherever the level and the protections they mirror do. The upgrade keeps the hold on
    untrusted calls only beside a level that asks. *)
Theorem mirror_is_as_safe r :
  2 <= version r -> (hold_untrusted (kept r) = true -> at_least (safety_level_selected r) Ask = true) ->
  let m := sync_legacy_safety_mirror r in
  at_least_as_safe r (with_level None None
    (mk_registry 1 None None (human_approval m) (confirm_destructive m) (deny_destructive m) (quarantine_on_drift m)
       (block_on_injection m) (pii_redaction m) (team_min_safety_level m) (team_forced_human_approval m)
       (team_forced_quarantine_on_drift m) (team_forced_block_on_injection m) (team_forced_pii_redaction m)
       (injection_block_exempt m))).
Proof.
  intros Hv Hhold m. unfold m, sync_legacy_safety_mirror.
  assert (Hsel : safety_level_selected r = default Ask (safety_level r)).
  { unfold safety_level_selected. by rewrite (proj2 (Z.leb_le _ _) Hv). }
  assert (Hlt : (version r <? 2) = false) by (by apply Z.ltb_ge).
  assert (Hk : kept r = default no_kept (kept_v1_safety r)) by (unfold kept; by rewrite Hlt).
  rewrite Hlt. clear m.
  set (m := with_level _ _ _).
  assert (Hkm : kept m = mk_kept (at_least (safety_level_selected r) Ask)
      (bool_decide (safety_level_selected r = Strict) || kept_deny_destructive (kept r))
      (bool_decide (safety_level_selected r = Strict) || kept_quarantine_on_drift (kept r))
      (bool_decide (safety_level_selected r = Strict) || kept_block_on_injection (kept r))) by done.
  assert (Hlm : safety_level_effective m =
    max_level (if at_least (safety_level_selected r) Ask then Ask else Off) (safety_level_team_floor r)).
  { unfold safety_level_effective, safety_level_selected at 1. unfold m. cbn. by destruct (at_least _ Ask). }
  assert (Ht : team_forced_human_approval m = team_forced_human_approval r /\
    team_forced_quarantine_on_drift m = team_forced_quarantine_on_drift r /\
    team_forced_block_on_injection m = team_forced_block_on_injection r /\
    injection_block_exempt m = injection_block_exempt r) by done.
  destruct Ht as (T1 & T2 & T3 & T4). clearbody m.
  assert (Hdec : forall b b', (b = true -> b' = true) ->
    bool_decide (safety_level_effective r = Strict) || b = true ->
    bool_decide (safety_level_effective m = Strict) || (bool_decide (safety_level_selected r = Strict) || b') = true).
  { intros b b' Hb. rewrite Hlm. unfold safety_level_effective.
    destruct (safety_level_selected r), (safety_level_team_floor r), b, b'; cbn; naive_solver. }
  split.
  - intros d u. unfold requires_human_approval. rewrite Hlm, Hkm, T1. unfold safety_level_effective. cbn.
    destruct (safety_level_selected r), (safety_level_team_floor r), d, u, (team_forced_human_approval r); cbn; try done.
    all: destruct (hold_untrusted (kept r)); cbn; auto.
  - unfold deny_destructive_effective, is_strict. rewrite Hkm. cbn. by apply Hdec.
  - unfold quarantine_on_drift_effective, is_strict. rewrite Hkm, T2. cbn. rewrite <- !orb_assoc.
    destruct (team_forced_quarantine_on_drift r); rewrite ?orb_true_r; [done|]. cbn. by apply Hdec.
  - intros sv. unfold should_block_injection_for, block_on_injection_effective, is_strict. rewrite Hkm, T3, T4. cbn.
    destruct (bool_decide (safety_level_effective r = Strict) || team_forced_block_on_injection r || kept_block_on_injection (kept r)) eqn:E; [|done].
    assert (E' : bool_decide (safety_level_effective m = Strict) || team_forced_block_on_injection r ||
      (bool_decide (safety_level_selected r = Strict) || kept_block_on_injection (kept r)) = true).
    { rewrite <- !orb_assoc in *. destruct (team_forced_block_on_injection r); rewrite ?orb_true_r; [done|]. by apply (Hdec (kept_block_on_injection (kept r))). }
    by rewrite E'.
Qed.

(** ** Witnesses *)

Lemma upgrade_keeps_protection_witness :
  let v := obj [("humanApproval", JBool true); ("blockOnInjection", JBool true)] in
  let r := mk_registry 1 None None false false false false false false Off false false false false ∅ in
  (is_object v = true /\ get "keptV1Safety" v = None) /\
  same_protection (read_registry 1 v r) (read_registry 2 (migrate_safety v) r).
Proof. split; [by split|]. apply upgrade_keeps_protection; reflexivity. Defined.

Lemma mirror_is_as_safe_witness :
  let r := mk_registry 2 (Some Strict) None false false false false false false Off false false false false ∅ in
  (2 <= version r /\ (hold_untrusted (kept r) = true -> at_least (safety_level_selected r) Ask = true)) /\
  at_least_as_safe r (with_level None None (mk_registry 1 None None true false true true true false Off false false false false ∅)).
Proof.
  split; [by split|]. by apply (mirror_is_as_safe (mk_registry 2 (Some Strict) None false false false false false false Off
    false false false false ∅)).
Defined.

End Safety.
