(* ===== verification/Pins.v ===== *)
(** Pinned tool definitions (src/integrity.rs): the baseline of a tool, its fingerprints,
    what counts as drift and how severe it is, and the events of one check of a catalog.

    SHA-256 and serde_json's printer are parameters, and so is the scan of a definition
    for injected instructions (regular expressions and a floating-point score).  A codec is
    an interface with its round-trip law; the instance for pins follows the serde
    attributes of the source. *)

From S2P Require Import Prelude Text Json ToolNames.

Module Pins.
Import ToolNames.

(** ** Data *)

Record DefinitionParts := mk_parts {
  description : string;
  input_schema : string;
  output_schema : string;
  annotations : string
}.

Record Pin := mk_pin {
  fp : string;
  review_on_upgrade : bool;
  review_pending : bool;
  review_retired : bool;
  review_logged_events : gmap string string;
  parameters : option (gmap string string);
  ro : option bool;
  dh : option bool;
  parts : option DefinitionParts;
  first_seen : Z;
  last_changed : Z
}.

#[global] Instance DefinitionParts_eq : EqDecision DefinitionParts.
Proof. solve_decision. Defined.
#[global] Instance Pin_eq : EqDecision Pin.
Proof. solve_decision. Defined.

Abbreviation Pins := (gmap string Pin).

(** A bare fingerprint, as old stores have it. *)
Definition legacy_pin (f : string) : Pin :=
  mk_pin f false false false ∅ None None None None 0 0.

(** [..fresh] with some fields replaced. *)
Definition with_times (first last : Z) (p : Pin) : Pin :=
  mk_pin (fp p) (review_on_upgrade p) (review_pending p) (review_retired p) (review_logged_events p)
    (parameters p) (ro p) (dh p) (parts p) first last.

Definition with_review (pending : bool) (logged : gmap string string) (p : Pin) : Pin :=
  mk_pin (fp p) (review_on_upgrade p) pending (review_retired p) logged
    (parameters p) (ro p) (dh p) (parts p) (first_seen p) (last_changed p).

Definition with_upgrade (upgrade : bool) (p : Pin) : Pin :=
  mk_pin (fp p) upgrade (review_pending p) (review_retired p) (review_logged_events p)
    (parameters p) (ro p) (dh p) (parts p) (first_seen p) (last_changed p).

Definition with_retired (retired : bool) (p : Pin) : Pin :=
  mk_pin (fp p) (review_on_upgrade p) (review_pending p) retired (review_logged_events p)
    (parameters p) (ro p) (dh p) (parts p) (first_seen p) (last_changed p).

(** ** The codec *)

Class Codec (A : Type) := {
  encode : A -> json;
  decode : json -> option A;
  decode_encode : forall a, decode (encode a) = Some a
}.

Definition opt_field (k : string) (v : option json) : list (string * json) :=
  match v with Some v => [(k, v)] | None => [] end.

Definition json_of_strings (m : gmap string string) : json :=
  JObject (map_fold (fun k v o => obj_insert k (JString v) o) [] m).

Fixpoint strings_of (o : list (string * json)) : option (gmap string string) :=
  match o with
  | [] => Some ∅
  | (k, v) :: o => s ← as_str v; m ← strings_of o; Some (<[k := s]> m)
  end.

Definition strings_of_json (v : json) : option (gmap string string) := o ← as_object v; strings_of o.

Definition encode_parts (p : DefinitionParts) : json :=
  obj [("description", JString (description p)); ("input_schema", JString (input_schema p));
       ("output_schema", JString (output_schema p)); ("annotations", JString (annotations p))].

Definition text_at (k : string) (v : json) : option string := f ← get k v; as_str f.

Definition decode_parts (v : json) : option DefinitionParts :=
  d ← text_at "description" v; i ← text_at "input_schema" v; o ← text_at "output_schema" v;
  a ← text_at "annotations" v; Some (mk_parts d i o a).

(** [skip_serializing_if] leaves a field out. *)
Definition pin_fields (p : Pin) : list (string * json) :=
  ([("fp", JString (fp p)); ("review_on_upgrade", JBool (review_on_upgrade p))] ++
       opt_field "review_pending" (if review_pending p then Some (JBool true) else None) ++
       opt_field "review_retired" (if review_retired p then Some (JBool true) else None) ++
       opt_field "review_logged_events"
         (if bool_decide (review_logged_events p = ∅) then None
          else Some (json_of_strings (review_logged_events p))) ++
       opt_field "parameters" (json_of_strings <$> parameters p) ++
       opt_field "ro" (JBool <$> ro p) ++
       opt_field "dh" (JBool <$> dh p) ++
       opt_field "parts" (encode_parts <$> parts p) ++
       [("first_seen", JNumber (PosInt (first_seen p)));
        ("last_changed", JNumber (PosInt (last_changed p)))]).

Definition encode_pin (p : Pin) : json := obj (pin_fields p).

(** A field of a struct: [missing] is its [serde(default)], [None] when it has none. *)
Definition serde_field {A} (k : string) (dec : json -> option A) (missing : option A) (v : json) : option A :=
  match get k v with Some w => dec w | None => missing end.

(** An [Option] field reads null as [None]. *)
Definition nullable {A} (dec : json -> option A) (v : json) : option (option A) :=
  match v with JNull => Some None | _ => Some <$> dec v end.

Definition decode_pin (v : json) : option Pin :=
  f ← serde_field "fp" as_str None v;
  up ← serde_field "review_on_upgrade" as_bool (Some false) v;
  pe ← serde_field "review_pending" as_bool (Some false) v;
  re ← serde_field "review_retired" as_bool (Some false) v;
  lo ← serde_field "review_logged_events" strings_of_json (Some ∅) v;
  pa ← serde_field "parameters" (nullable strings_of_json) (Some None) v;
  r ← serde_field "ro" (nullable as_bool) (Some None) v;
  d ← serde_field "dh" (nullable as_bool) (Some None) v;
  ps ← serde_field "parts" (nullable decode_parts) (Some None) v;
  fs ← serde_field "first_seen" as_u64 (Some 0) v;
  lc ← serde_field "last_changed" as_u64 (Some 0) v;
  Some (mk_pin f up pe re lo pa r d ps fs lc).

(** A stored value: the struct, or the bare fingerprint. *)
Definition decode_repr (v : json) : option Pin :=
  match decode_pin v with
  | Some p => Some p
  | None => legacy_pin <$> as_str v
  end.

(** ** Round trips *)

Lemma strings_of_insert k s o m :
  strings_of o = Some m -> strings_of (obj_insert k (JString s) o) = Some (<[k := s]> m).
Proof.
  revert m. induction o as [|[k' v] o IH]; intros m; cbn; [by intros [= <-]|].
  destruct (as_str v) as [s'|] eqn:Es; [|done]. cbn. destruct (strings_of o) as [m'|] eqn:Eo; [|done].
  cbn. intros [= <-]. destruct (String.compare k k') eqn:E; cbn; rewrite ?Es; cbn.
  - apply String.compare_eq_iff in E as ->. rewrite Eo. cbn. by rewrite insert_insert_eq.
  - by rewrite Eo.
  - rewrite (IH _ eq_refl). cbn. rewrite insert_insert_ne; [done|].
    intros ->. by rewrite string_compare_refl in E.
Qed.

Lemma strings_roundtrip m : strings_of_json (json_of_strings m) = Some m.
Proof.
  unfold strings_of_json, json_of_strings. cbn.
  induction m as [|k v m Hk Hf IH] using map_first_key_ind; [done|].
  rewrite map_fold_insert_first_key by done. by apply strings_of_insert.
Qed.

Lemma parts_roundtrip p : decode_parts (encode_parts p) = Some p.
Proof. by destruct p. Qed.

Lemma opt_field_get k k' v : obj_get k (opt_field k' v) = if String.eqb k k' then v else None.
Proof. destruct v; cbn; by destruct (String.eqb k k'). Qed.

Lemma nullable_field {A} k (dec : json -> option A) (enc : A -> json) o v :
  get k v = enc <$> o -> (forall a, dec (enc a) = Some a /\ enc a <> JNull) ->
  serde_field k (nullable dec) (Some None) v = Some o.
Proof.
  unfold serde_field. intros -> H. destruct o as [a|]; [|done]. cbn. destruct (H a) as [Ha Hn].
  destruct (enc a) eqn:E; try done; cbn; by rewrite Ha.
Qed.

Lemma skipped_field {A} k (dec : json -> option A) a (b : bool) w missing v :
  get k v = (if b then Some w else None) -> (if b then dec w = Some a else missing = a) ->
  serde_field k dec (Some missing) v = Some a.
Proof. unfold serde_field. intros ->. by destruct b; intros ->. Qed.

Lemma get_pin p k : get k (encode_pin p) = obj_get k (pin_fields p).
Proof. apply get_obj. Qed.

Ltac pin_get := rewrite get_pin; unfold pin_fields; rewrite ?obj_get_app, ?opt_field_get; cbn.

Lemma pin_roundtrip p : decode_pin (encode_pin p) = Some p.
Proof.
  assert (Hpe : serde_field "review_pending" as_bool (Some false) (encode_pin p) = Some (review_pending p)).
  { eapply (skipped_field _ _ _ (review_pending p)); [pin_get; by destruct (review_pending p)|].
    by destruct (review_pending p). }
  assert (Hre : serde_field "review_retired" as_bool (Some false) (encode_pin p) = Some (review_retired p)).
  { eapply (skipped_field _ _ _ (review_retired p)); [pin_get; by destruct (review_retired p)|].
    by destruct (review_retired p). }
  assert (Hlo : serde_field "review_logged_events" strings_of_json (Some ∅) (encode_pin p) = Some (review_logged_events p)).
  { eapply (skipped_field _ _ _ (negb (bool_decide (review_logged_events p = ∅)))); [pin_get; by case_bool_decide|].
    case_bool_decide; [by subst|apply strings_roundtrip]. }
  assert (Hpa : serde_field "parameters" (nullable strings_of_json) (Some None) (encode_pin p) = Some (parameters p)).
  { apply (nullable_field _ _ json_of_strings); [pin_get; by destruct (parameters p)|].
    intros m. split; [apply strings_roundtrip|done]. }
  assert (Hro : serde_field "ro" (nullable as_bool) (Some None) (encode_pin p) = Some (ro p)).
  { apply (nullable_field _ _ JBool); [pin_get; by destruct (ro p)|done]. }
  assert (Hdh : serde_field "dh" (nullable as_bool) (Some None) (encode_pin p) = Some (dh p)).
  { apply (nullable_field _ _ JBool); [pin_get; by destruct (dh p)|done]. }
  assert (Hps : serde_field "parts" (nullable decode_parts) (Some None) (encode_pin p) = Some (parts p)).
  { apply (nullable_field _ _ encode_parts); [pin_get; by destruct (parts p)|].
    intros q. split; [apply parts_roundtrip|done]. }
  assert (Hs : forall A (dec : json -> option A) k m, serde_field k dec m (encode_pin p) =
      match obj_get k (pin_fields p) with Some w => dec w | None => m end)
    by (intros; unfold serde_field; by rewrite get_pin).
  unfold decode_pin. rewrite Hpe, Hre, Hlo, Hpa, Hro, Hdh, Hps, !Hs.
  unfold pin_fields. rewrite !obj_get_app, !opt_field_get. by destruct p.
Qed.

#[export] Instance pin_codec : Codec Pin :=
  {| encode := encode_pin; decode := decode_pin; decode_encode := pin_roundtrip |}.

(** ** Fingerprints *)

Definition FP_VERSION : string := "v2".
Definition PIN_FP_VERSION : string := "v3".
Definition SEV_HIGH : string := "high".
Definition SEV_WARN : string := "warn".
Definition SEV_INFO : string := "info".

(** Everything before the first [:], and before the first double underscore. *)
Definition fp_version (f : string) : string :=
  match split_once ":" f with Some (v, _) => v | None => "" end.

Definition server_of (namespaced : string) : string :=
  match split_on_str "__" namespaced with Some (server, _) => server | None => namespaced end.

Definition nul : string := bytes_str [0%N].
Definition name_of (tool : json) : option string := n ← get "name" tool; as_str n.

Section tools.
(** [serde_json::to_string], and SHA-256. *)
Variable to_string : json -> string.
Variable sha256 : string -> list N.

Definition hash (s : string) : string := to_hex (sha256 s).

Definition schema_part_hash (schema : json) : string := hash (to_string schema).

Definition definition_field_fingerprint (tool : json) (key : string) : string :=
  hash (match get key tool with Some v => to_string v | None => "<absent>" end).

Definition fingerprint (tool : json) : string :=
  let json_of k := match get k tool with Some v => to_string v | None => "" end in
  let desc := default "" (d ← get "description" tool; as_str d) in
  FP_VERSION +:+ ":" +:+
  hash (default "" (name_of tool) +:+ nul +:+ desc +:+ nul +:+
        concat_str (map (fun k => json_of k +:+ nul) ["inputSchema"; "outputSchema"; "annotations"])).

Definition definition_parts (tool : json) (source_input_schema : option string) : DefinitionParts :=
  {| description := definition_field_fingerprint tool "description";
     input_schema := default (definition_field_fingerprint tool "inputSchema") source_input_schema;
     output_schema := definition_field_fingerprint tool "outputSchema";
     annotations := definition_field_fingerprint tool "annotations" |}.

Definition pin_fingerprint (tool : json) (p : DefinitionParts) : string :=
  PIN_FP_VERSION +:+ ":" +:+
  hash (default "" (name_of tool) +:+ nul +:+
        concat_str (map (fun part => part +:+ nul)
          [description p; input_schema p; output_schema p; annotations p])).

(** [input_parameters]: every property under its path, with what it and its being
    required hash to. The recursion is on the depth of the schema. *)
Definition parameter_hash (value : json) (required : bool) : string :=
  definition_field_fingerprint (obj [("parameter", JArray [value; JBool required])]) "parameter".

Definition is_required (schema : json) (name : string) : bool :=
  match get "required" schema with
  | Some (JArray keys) => existsb (is_text name) keys
  | _ => false
  end.

Fixpoint collect (fuel : nat) (schema : json) (prefix : string) (out : gmap string string)
    : gmap string string :=
  match fuel with
  | O => out
  | S fuel =>
      let out :=
        match get "properties" schema with
        | Some (JObject properties) =>
            fold_left (fun out '(name, value) =>
              let path := if String.eqb prefix "" then name else prefix +:+ "." +:+ name in
              collect fuel value path
                (<[path := parameter_hash value (is_required schema name)]> out)) properties out
        | _ => out
        end in
      match get "items" schema with
      | Some items => collect fuel items (prefix +:+ "[]") out
      | None => out
      end
  end.

Fixpoint depth (v : json) : nat :=
  match v with
  | JObject o => S (list_max (map (fun kv => depth kv.2) o))
  | JArray l => S (list_max (map depth l))
  | _ => 1
  end.

Definition input_parameters (tool : json) : gmap string string :=
  match get "inputSchema" tool with
  | Some schema => collect (depth schema) schema "" ∅
  | None => ∅
  end.

Definition pin_with_source (tool : json) (source_input_schema : option string) : Pin :=
  let p := definition_parts tool source_input_schema in
  {| fp := pin_fingerprint tool p;
     review_on_upgrade := false; review_pending := false; review_retired := false;
     review_logged_events := ∅;
     parameters := Some (input_parameters tool);
     ro := read_hint tool "readOnlyHint"; dh := read_hint tool "destructiveHint";
     parts := Some p; first_seen := 0; last_changed := 0 |}.

(** ** Drift *)

Definition is_some_true (o : option bool) : bool := match o with Some b => b | None => false end.

(** A safety hint that was on is no longer on. *)
Definition annotation_downgrade (old : Pin) (tool : json) : bool :=
  (is_some_true (ro old) && negb (is_some_true (read_hint tool "readOnlyHint"))) ||
  (is_some_true (dh old) && negb (is_some_true (read_hint tool "destructiveHint"))).

(** What the call gate decides for a tool, by the name it has downstream. *)
Definition gate_destructive (hint : option bool) (name : string) (gate_name : option string) : bool :=
  let tool := match gate_name with
              | Some n => n
              | None => match split_on_str "__" name with Some (_, tool) => tool | None => name end
              end in
  default (name_looks_destructive tool) hint.

Definition is_some {A} (o : option A) : bool := match o with Some _ => true | None => false end.

Definition gate_downgrade (old : Pin) (tool : json) (name : string) (gate_name : option string) : bool :=
  (is_some (dh old) || is_some (parts old)) &&
  gate_destructive (dh old) name gate_name &&
  negb (gate_destructive (read_hint tool "destructiveHint") name gate_name).

Definition drift_severity (tool : json) (downgraded content_changed : bool) : string :=
  if is_destructive tool || name_looks_destructive (default "" (name_of tool)) || downgraded
  then SEV_HIGH
  else if content_changed then SEV_WARN else SEV_INFO.

Definition definition_content_changed (old new : Pin) : bool :=
  match parts old, parts new with
  | Some old, Some new =>
      negb (String.eqb (description old) (description new)) ||
      negb (String.eqb (input_schema old) (input_schema new)) ||
      negb (String.eqb (output_schema old) (output_schema new))
  | _, _ => true
  end.

(** ** Events *)

Definition severity_of (e : json) : option string := text_at "severity" e.
Definition change_of (e : json) : option string := text_at "change" e.
Definition tool_in (e : json) : option string := text_at "tool" e.

Definition event (ts : Z) (server tool change severity : string) : json :=
  obj [("ts", JNumber (PosInt ts)); ("type", JString "tool_drift"); ("server", JString server);
       ("tool", JString tool); ("change", JString change); ("severity", JString severity)].

Definition json_hint (o : option bool) : json := match o with Some b => JBool b | None => JNull end.

Definition keys_where (p : string -> string -> bool) (m : gmap string string) : json :=
  JArray (map JString (sort_strings (elements (dom (filter (fun kv => p kv.1 kv.2 = true) m))))).

Definition changed_parameters (before after : gmap string string) : json :=
  obj [("added", keys_where (fun k _ => negb (is_some (before !! k))) after);
       ("removed", keys_where (fun k _ => negb (is_some (after !! k))) before);
       ("changed", keys_where (fun k v => match before !! k with
                                          | Some old => negb (String.eqb old v)
                                          | None => false
                                          end) after)].

Definition changed_definition_fields (old new : Pin) : list string :=
  match parts old, parts new with
  | Some old, Some new =>
      map fst (List.filter snd
        [("description", negb (String.eqb (description old) (description new)));
         ("input_schema", negb (String.eqb (input_schema old) (input_schema new)));
         ("output_schema", negb (String.eqb (output_schema old) (output_schema new)));
         ("annotations", negb (String.eqb (annotations old) (annotations new)))])
  | _, _ => []
  end.

Definition needs_review (p : Pin) : bool := review_on_upgrade p || review_pending p.

Definition changed_event (ts : Z) (server tool severity : string) (old new : Pin) : json :=
  let e := event ts server tool "changed" severity in
  let e := if needs_review old then put "review_required" (JBool true) e else e in
  let e := put "new_fp" (JString (fp new)) e in
  let e := put "prev_ro" (json_hint (ro old)) e in
  let e := put "new_ro" (json_hint (ro new)) e in
  let e := put "prev_dh" (json_hint (dh old)) e in
  let e := put "new_dh" (json_hint (dh new)) e in
  let e := match parameters old, parameters new with
           | Some before, Some after => put "parameters" (changed_parameters before after) e
           | _, _ => e
           end in
  match changed_definition_fields old new with
  | [] => e
  | fields => put "changed_fields" (JArray (map JString fields)) e
  end.

(** What a scan found: the signatures, the rounded score, an excerpt. *)
Record Scan := mk_scan { signatures : list string; score : json; evidence : option string }.

Definition poison_event (ts : Z) (server tool : string) (s : Scan) : json :=
  let ev := obj [("ts", JNumber (PosInt ts)); ("type", JString "tool_poison_flag");
                 ("server", JString server); ("tool", JString tool); ("change", JString "poison");
                 ("signatures", JArray (map JString (signatures s))); ("score", score s);
                 ("severity", JString SEV_HIGH)] in
  match evidence s with Some snippet => put "evidence" (JString snippet) ev | None => ev end.

Definition pins_tamper_event (ts : Z) : json :=
  obj [("ts", JNumber (PosInt ts)); ("type", JString "pins_load_failed"); ("change", JString "tamper");
       ("severity", JString SEV_HIGH);
       ("detail", JString "Toolport could not read the integrity baseline because it was unreadable or corrupt. Tools stay blocked at Ask and Strict until the baseline is restored.")].

Definition is_tamper (e : json) : bool :=
  match text_at "type" e, change_of e, severity_of e with
  | Some t, Some c, Some s => String.eqb t "pins_load_failed" && String.eqb c "tamper" && String.eqb s SEV_HIGH
  | _, _, _ => false
  end.

Definition baseline_tamper_detected (events : list json) : bool := existsb is_tamper events.

(** ** One check of a catalog *)

(** [ToolCatalog] (src/tool_definitions.rs): the tools with the hash of the schema their
    server sent, and the downstream name the call gate judges a tool by. *)
Class ToolCatalog (C : Type) := {
  pin_values : C -> list (json * option string);
  gate_name : C -> string -> option string
}.

Definition values {C} `{ToolCatalog C} (c : C) : list json := map fst (pin_values c).

Definition catalog_names {C} `{ToolCatalog C} (c : C) : list string := omap name_of (values c).

(** What a server sent for a tool is not what is pinned: a real change, or a review the
    user still owes. *)
Definition reported (old new : Pin) : bool :=
  needs_review old ||
  (String.eqb (fp_version (fp old)) (fp_version (fp new)) &&
   (negb (String.eqb (fp old) (fp new)) ||
    (is_some (parts old) &&
     (negb (bool_decide (dh old = dh new)) || negb (bool_decide (ro old = ro new)))))).

Definition established (pins : Pins) : gset string :=
  list_to_set (map (fun kv => server_of kv.1) (map_to_list pins)).

Section check.
Context {C : Type} `{!ToolCatalog C}.
(** [scan_definition_scored]. *)
Variable scan_definition : json -> Scan.

Definition changed_finding (ts : Z) (c : C) (tool : json) (name : string) (old new : Pin) : json :=
  let sev := if needs_review old then SEV_HIGH
             else drift_severity tool (annotation_downgrade old tool)
                    (definition_content_changed old new) in
  let e := changed_event ts (server_of name) name sev old new in
  if negb (needs_review old) && gate_downgrade old tool name (gate_name c name)
  then put "gate_downgrade" (JBool true) e else e.

(** The drift of one tool, and whether its definition is scanned. *)
Definition drift_finding (ts : Z) (c : C) (pins : Pins) (tool : json) (name : string) (new : Pin)
    : list json * bool :=
  let server := server_of name in
  if bool_decide (server ∈ established pins) then
    match pins !! name with
    | Some old => if reported old new then ([changed_finding ts c tool name old new], true) else ([], false)
    | None => ([event ts server name "added" (drift_severity tool false false)], true)
    end
  else
    (if name_looks_destructive name && bool_decide (read_hint tool "destructiveHint" = Some false)
     then [event ts server name "added" SEV_HIGH] else [], true).

(** [ts] are the two readings of the clock an iteration may take. *)
Definition tool_findings (ts : Z * Z) (c : C) (pins : Pins) (t : json * option string) : list json :=
  match name_of t.1 with
  | None => []
  | Some name =>
      let new := pin_with_source t.1 t.2 in
      let '(drift, scanned) := drift_finding ts.1 c pins t.1 name new in
      let s := scan_definition t.1 in
      drift ++
      (if scanned && negb (bool_decide (signatures s = []))
       then [put "new_fp" (JString (fp new)) (poison_event ts.2 (server_of name) name s)] else [])
  end.

(** The events of a check, in the order of the catalog. *)
Definition findings (clock : nat -> Z * Z) (c : C) (pins : Pins) : list json :=
  concat (imap (fun i t => tool_findings (clock i) c pins t) (pin_values c)).

Definition pins_now (c : C) : Pins :=
  fold_left (fun now t => match name_of t.1 with
                          | Some name => <[name := pin_with_source t.1 t.2]> now
                          | None => now
                          end) (pin_values c) ∅.

Definition backfilled (stamp t : Z) : Z := if t =? 0 then stamp else t.

(** The pin a tool that is present gets: its identity's times and its review carry over. *)
Definition rebaselined (stamp : Z) (old : option Pin) (fresh : Pin) : Pin :=
  match old with
  | Some old =>
      with_times (backfilled stamp (first_seen old))
        (if String.eqb (fp old) (fp fresh) then backfilled stamp (last_changed old) else stamp)
        (with_review (needs_review old) (review_logged_events old) fresh)
  | None => with_times stamp stamp (with_review false ∅ fresh)
  end.

Definition rebaseline (stamp : Z) (pins now : Pins) : Pins :=
  map_imap (fun name fresh => Some (rebaselined stamp (pins !! name) fresh)) now ∪ pins.

(** ** Candidates for quarantine *)

Definition is_high_risk_drift (e : json) : bool :=
  match severity_of e with
  | Some s => String.eqb s SEV_HIGH || String.eqb s SEV_WARN
  | None => false
  end &&
  match change_of e with
  | Some c => String.eqb c "changed" || String.eqb c "poison"
  | None => false
  end.

Definition quarantine_candidates (c : C) (events : list json) : gset string :=
  if baseline_tamper_detected events then list_to_set (catalog_names c)
  else list_to_set (omap tool_in (List.filter is_high_risk_drift events)).

(** A deferred candidate keeps the pin it had, or none. *)
Definition deferred (candidates : gset string) (pins updated : Pins) : Pins :=
  filter (fun kv => kv.1 ∈ candidates) pins ∪ filter (fun kv => kv.1 ∉ candidates) updated.
End check.

(** ** Accepting captured definitions *)

Definition merge_pending_pin (previous : option Pin) (fresh : Pin) (stamp : Z) : Pin :=
  match previous with
  | Some old =>
      with_times (backfilled stamp (first_seen old))
        (if String.eqb (fp old) (fp fresh) && negb (last_changed old =? 0)
         then last_changed old else stamp)
        (with_review (review_pending fresh || review_pending old)
           (review_logged_events fresh ∪ review_logged_events old) fresh)
  | None => with_times stamp stamp (with_review (review_pending fresh) (review_logged_events fresh) fresh)
  end.

Definition released_pin (stamp : Z) : Pin :=
  mk_pin "released-without-baseline" true true false ∅ None None None None stamp stamp.

Definition apply_release_pin (pins : Pins) (tool : string) (pending : option Pin) (reviewed : bool)
    (stamp : Z) : Pins :=
  let pins := match pending with
              | Some pending => <[tool := merge_pending_pin (pins !! tool) pending stamp]> pins
              | None => pins
              end in
  let pin := default (released_pin stamp) (pins !! tool) in
  <[tool := with_retired false
              (with_review (negb reviewed) ∅
                (with_upgrade (negb reviewed || negb (String.eqb (fp_version (fp pin)) PIN_FP_VERSION)) pin))]> pins.

(** ** What the findings are *)

Definition added_keys : list string :=
  ["review_required"; "new_fp"; "prev_ro"; "new_ro"; "prev_dh"; "new_dh"; "parameters";
   "changed_fields"; "gate_downgrade"].

Lemma get_put_key k k' v w : k ∉ added_keys -> k' ∈ added_keys -> get k (put k' v w) = get k w.
Proof. intros H H'. apply get_put_ne. intros ->. done. Qed.

Lemma get_changed_event k ts server tool sev old new :
  k ∉ added_keys -> get k (changed_event ts server tool sev old new) = get k (event ts server tool "changed" sev).
Proof.
  intros Hk. assert (Hp : forall k' v w, k' ∈ added_keys -> get k (put k' v w) = get k w)
    by (intros; by apply get_put_key).
  unfold changed_event.
  destruct (changed_definition_fields old new), (parameters old), (parameters new), (needs_review old);
    by rewrite !Hp by set_solver.
Qed.

Lemma put_if_object (b : bool) k v w : is_object w = true -> is_object (if b then put k v w else w) = true.
Proof. intros H. destruct b; [by rewrite put_object|done]. Qed.

Section findings.
Context {C : Type} `{!ToolCatalog C}.
Variable scan_definition : json -> Scan.
Variable c : C.

Lemma changed_finding_get k ts tool name old new :
  k ∉ added_keys ->
  get k (changed_finding ts c tool name old new) =
  get k (event ts (server_of name) name "changed"
           (if needs_review old then SEV_HIGH
            else drift_severity tool (annotation_downgrade old tool) (definition_content_changed old new))).
Proof.
  intros Hk. unfold changed_finding. destruct (_ && _).
  - rewrite get_put_key by (done || set_solver). by apply get_changed_event.
  - by apply get_changed_event.
Qed.

(** The new definition of a present tool is worth a quarantine. *)
Definition risky (pins : Pins) (tool : json) (source : option string) (name : string) : bool :=
  let new := pin_with_source tool source in
  let known := bool_decide (server_of name ∈ established pins) in
  match known, pins !! name with
  | true, Some old =>
      reported old new &&
      (needs_review old ||
       negb (String.eqb (drift_severity tool (annotation_downgrade old tool)
                           (definition_content_changed old new)) SEV_INFO) ||
       negb (bool_decide (signatures (scan_definition tool) = [])))
  | _, _ => negb (bool_decide (signatures (scan_definition tool) = []))
  end.

Lemma drift_severity_cases tool d cc :
  drift_severity tool d cc = SEV_HIGH \/ drift_severity tool d cc = SEV_WARN \/
  drift_severity tool d cc = SEV_INFO.
Proof. unfold drift_severity. destruct (_ || _); [auto|]. destruct cc; auto. Qed.

Lemma event_high_risk ts server tool change sev :
  is_high_risk_drift (event ts server tool change sev) =
  (String.eqb sev SEV_HIGH || String.eqb sev SEV_WARN) &&
  (String.eqb change "changed" || String.eqb change "poison").
Proof.
  unfold is_high_risk_drift, severity_of, change_of, text_at, event. by rewrite !get_obj.
Qed.

Lemma high_risk_get e e' :
  get "severity" e = get "severity" e' -> get "change" e = get "change" e' ->
  is_high_risk_drift e = is_high_risk_drift e'.
Proof. unfold is_high_risk_drift, severity_of, change_of, text_at. by intros -> ->. Qed.

Lemma poison_high_risk ts server tool s f :
  is_high_risk_drift (put "new_fp" f (poison_event ts server tool s)) = true /\
  tool_in (put "new_fp" f (poison_event ts server tool s)) = Some tool /\
  is_tamper (put "new_fp" f (poison_event ts server tool s)) = false.
Proof.
  unfold is_high_risk_drift, tool_in, is_tamper, severity_of, change_of, text_at.
  rewrite !get_put_ne by done. unfold poison_event.
  destruct (evidence s); rewrite ?get_put_ne by done; by rewrite !get_obj.
Qed.

Lemma event_tool ts server tool change sev :
  tool_in (event ts server tool change sev) = Some tool /\ is_tamper (event ts server tool change sev) = false.
Proof. unfold tool_in, is_tamper, severity_of, change_of, text_at, event. by rewrite !get_obj. Qed.

Lemma changed_tool ts tool name old new :
  tool_in (changed_finding ts c tool name old new) = Some name /\
  is_tamper (changed_finding ts c tool name old new) = false.
Proof.
  destruct (event_tool ts (server_of name) name "changed"
    (if needs_review old then SEV_HIGH
     else drift_severity tool (annotation_downgrade old tool) (definition_content_changed old new))) as [H1 H2].
  unfold tool_in, is_tamper, severity_of, change_of, text_at in *.
  by rewrite !changed_finding_get by set_solver.
Qed.

Lemma drift_finding_spec ts pins tool name new drift scanned :
  drift_finding ts c pins tool name new = (drift, scanned) ->
  (forall e, e ∈ drift -> tool_in e = Some name /\ is_tamper e = false) /\
  (existsb is_high_risk_drift drift =
     match bool_decide (server_of name ∈ established pins), pins !! name with
     | true, Some old =>
         reported old new &&
         (needs_review old ||
          negb (String.eqb (drift_severity tool (annotation_downgrade old tool)
                              (definition_content_changed old new)) SEV_INFO))
     | _, _ => false
     end) /\
  scanned = match bool_decide (server_of name ∈ established pins), pins !! name with
            | true, Some old => reported old new
            | _, _ => true
            end.
Proof.
  unfold drift_finding. destruct (bool_decide _).
  - destruct (pins !! name) as [old|].
    + destruct (reported old new); intros [= <- <-]; [|by split; [set_solver|]].
      split; [intros e ->%list_elem_of_singleton; apply changed_tool|]. split; [|done]. cbn.
      rewrite orb_false_r. rewrite (high_risk_get _ _ (changed_finding_get "severity" _ _ _ _ _ ltac:(set_solver))
        (changed_finding_get "change" _ _ _ _ _ ltac:(set_solver))), event_high_risk.
      destruct (needs_review old); [done|].
      by destruct (drift_severity_cases tool (annotation_downgrade old tool)
        (definition_content_changed old new)) as [->|[-> | ->]].
    + intros [= <- <-]. split; [intros e ->%list_elem_of_singleton; apply event_tool|]. split; [|done].
      cbn. rewrite event_high_risk. by rewrite andb_false_r.
  - destruct (_ && _); intros [= <- <-]; [|by split; [set_solver|]].
    split; [intros e ->%list_elem_of_singleton; apply event_tool|]. split; [|done].
    cbn. by rewrite event_high_risk.
Qed.

Lemma tool_findings_spec ts pins t name :
  name_of t.1 = Some name ->
  (forall e, e ∈ tool_findings scan_definition ts c pins t -> tool_in e = Some name /\ is_tamper e = false) /\
  existsb is_high_risk_drift (tool_findings scan_definition ts c pins t) = risky pins t.1 t.2 name.
Proof.
  intros Hn. unfold tool_findings, risky. rewrite Hn.
  destruct (drift_finding _ _ _ _ _ _) as [drift scanned] eqn:E.
  apply drift_finding_spec in E as (Ht & Hr & Hs).
  destruct (poison_high_risk ts.2 (server_of name) name (scan_definition t.1)
    (JString (fp (pin_with_source t.1 t.2)))) as (Hp1 & Hp2 & Hp3).
  split.
  - intros e [He|He]%elem_of_app; [by apply Ht|]. destruct (_ && _); [|set_solver].
    apply list_elem_of_singleton in He as ->. done.
  - rewrite existsb_app, Hr.
    replace (existsb is_high_risk_drift _) with (scanned && negb (bool_decide (signatures (scan_definition t.1) = []))).
    2: { destruct (scanned && _) eqn:Es; cbn [existsb]; [|done]. by rewrite Hp1. }
    rewrite Hs. destruct (bool_decide (server_of name ∈ _)); [|done]. destruct (pins !! name) as [old|]; [|done].
    destruct (reported old _); [|done]. done.
Qed.

Lemma imap_elem {A B} (f : nat -> A -> list B) (l : list A) b :
  b ∈ concat (imap f l) <-> exists i a, l !! i = Some a /\ b ∈ f i a.
Proof.
  rewrite list_elem_of_In, in_concat. split.
  - intros (x & Hx & Hb). apply list_elem_of_In, list_elem_of_lookup in Hx as [i Hi].
    rewrite list_lookup_imap in Hi. destruct (l !! i) as [a|] eqn:E; [|done]. injection Hi as <-.
    exists i, a. split; [done|]. by apply list_elem_of_In.
  - intros (i & a & Hi & Hb). exists (f i a). split; [|by apply list_elem_of_In].
    apply list_elem_of_In, list_elem_of_lookup. exists i. by rewrite list_lookup_imap, Hi.
Qed.

Lemma findings_in clock pins e :
  e ∈ findings scan_definition clock c pins <->
  exists i t, pin_values c !! i = Some t /\ e ∈ tool_findings scan_definition (clock i) c pins t.
Proof. apply imap_elem. Qed.

Lemma tool_findings_named clock pins t e :
  e ∈ tool_findings scan_definition clock c pins t -> exists name, name_of t.1 = Some name /\
    tool_in e = Some name /\ is_tamper e = false.
Proof.
  intros He. destruct (name_of t.1) as [name|] eqn:En.
  - exists name. split; [done|]. by apply (tool_findings_spec clock pins t name En).
  - unfold tool_findings in He. rewrite En in He. set_solver.
Qed.

Lemma findings_untampered clock pins : baseline_tamper_detected (findings scan_definition clock c pins) = false.
Proof.
  apply not_true_iff_false. intros (e & He & Ht)%existsb_exists.
  apply list_elem_of_In, findings_in in He as (i & t & _ & He).
  apply tool_findings_named in He as (name & _ & _ & H). congruence.
Qed.

Lemma candidates_spec clock pins n :
  n ∈ quarantine_candidates c (findings scan_definition clock c pins) <->
  exists t, t ∈ pin_values c /\ name_of t.1 = Some n /\ risky pins t.1 t.2 n = true.
Proof.
  unfold quarantine_candidates. rewrite findings_untampered, elem_of_list_to_set, list_elem_of_omap. split.
  - intros (e & He & Hn). apply list_elem_of_In, filter_In in He as [He Hh].
    apply list_elem_of_In, findings_in in He as (i & t & Hi & He).
    destruct (tool_findings_named _ _ _ _ He) as (name & Hname & Hname' & _).
    assert (name = n) as -> by congruence. exists t. split; [by eapply list_elem_of_lookup_2|].
    split; [done|]. rewrite <- (proj2 (tool_findings_spec (clock i) pins t n Hname)).
    apply existsb_exists. exists e. by rewrite <- list_elem_of_In.
  - intros (t & Ht & Hname & Hr). apply list_elem_of_lookup in Ht as [i Hi].
    destruct (tool_findings_spec (clock i) pins t n Hname) as [Hin Hh].
    rewrite Hr in Hh. apply existsb_exists in Hh as (e & He & Hh). exists e. split.
    + apply list_elem_of_In, filter_In. split; [|done]. apply list_elem_of_In, findings_in. exists i, t.
      by rewrite list_elem_of_In.
    + by apply (Hin e), list_elem_of_In.
Qed.
End findings.

(** ** What a check does to the baseline *)

Section baseline.
Context {C : Type} `{!ToolCatalog C}.

Lemma pins_now_lookup (c : C) n p :
  pins_now c !! n = Some p ->
  exists t, t ∈ pin_values c /\ name_of t.1 = Some n /\ p = pin_with_source t.1 t.2.
Proof.
  unfold pins_now.
  assert (H : forall l (now : Pins), fold_left (fun (now : Pins) (t : json * option string) =>
      match name_of t.1 with Some name => <[name := pin_with_source t.1 t.2]> now | None => now end) l now !! n = Some p ->
    now !! n = Some p \/ exists t, t ∈ l /\ name_of t.1 = Some n /\ p = pin_with_source t.1 t.2).
  { induction l as [|t l IH]; intros now; cbn; [auto|]. intros [H|(t' & Ht & H)]%IH.
    - destruct (name_of t.1) as [name|] eqn:En; [|auto]. destruct (decide (name = n)) as [->|Hne].
      + rewrite lookup_insert_eq in H. injection H as <-. right. exists t. split; [set_solver|done].
      + rewrite lookup_insert_ne in H by done. auto.
    - right. exists t'. split; [set_solver|done]. }
  intros [H'|H']%H; [by rewrite lookup_empty in H'|done].
Qed.

Lemma pins_now_none (c : C) n : pins_now c !! n = None -> n ∉ catalog_names c.
Proof.
  unfold pins_now, catalog_names, values.
  assert (H : forall l (now : Pins), fold_left (fun (now : Pins) (t : json * option string) =>
      match name_of t.1 with Some name => <[name := pin_with_source t.1 t.2]> now | None => now end) l now !! n = None ->
    now !! n = None /\ n ∉ omap name_of (map fst l)).
  { induction l as [|t l IH]; intros now; cbn; [split; [done|set_solver]|]. intros [H Hl]%IH.
    destruct (name_of t.1) as [name|]; [|done]. destruct (decide (name = n)) as [->|Hne].
    + by rewrite lookup_insert_eq in H.
    + rewrite lookup_insert_ne in H by done. split; [done|]. set_solver. }
  intros H'. exact (proj2 (H _ _ H')).
Qed.

Lemma rebaseline_lookup stamp pins now n :
  rebaseline stamp pins now !! n =
  match now !! n with
  | Some fresh => Some (rebaselined stamp (pins !! n) fresh)
  | None => pins !! n
  end.
Proof.
  unfold rebaseline. destruct (now !! n) as [fresh|] eqn:E.
  - apply lookup_union_Some_l. by rewrite map_lookup_imap, E.
  - rewrite lookup_union_r; [done|]. by rewrite map_lookup_imap, E.
Qed.

Lemma deferred_lookup candidates pins updated n :
  deferred candidates pins updated !! n = if decide (n ∈ candidates) then pins !! n else updated !! n.
Proof.
  unfold deferred. destruct (decide (n ∈ candidates)) as [Hn|Hn].
  - rewrite lookup_union_l.
    + rewrite map_lookup_filter. destruct (pins !! n); cbn; [|done]. by rewrite option_guard_True.
    + rewrite map_lookup_filter. destruct (updated !! n); cbn; [|done]. by rewrite option_guard_False by auto.
  - rewrite lookup_union_r.
    + rewrite map_lookup_filter. destruct (updated !! n); cbn; [|done]. by rewrite option_guard_True.
    + rewrite map_lookup_filter. destruct (pins !! n); cbn; [|done]. by rewrite option_guard_False by auto.
Qed.

Lemma rebaselined_fp stamp old fresh : fp (rebaselined stamp old fresh) = fp fresh.
Proof. by destruct old. Qed.

Lemma rebaselined_review stamp old fresh :
  needs_review (rebaselined stamp old fresh) =
  review_on_upgrade fresh || match old with Some old => needs_review old | None => false end.
Proof. by destruct old. Qed.
End baseline.

End tools.
End Pins.
