(* ===== verification/Quarantine.v ===== *)
(** The integrity stores (src/integrity.rs): loading and saving the pinned baselines and the
    quarantine of one profile, the check of a catalog against its baseline, the quarantine
    of what drifted, the acceptance of captured definitions and the release of a tool.

    An operation is a computation over [World]: the two files and the baseline's backup,
    the security log, the remembered reviews, the clock, and [faults], which decides at
    every lock, write and log line whether it fails.  A panic is [None].  Files are what
    parsing them gives: absent, unusable, or their contents; a lock is held for a whole
    operation, so what runs under it is one step on the files. *)

From S2P Require Import Prelude Text Json ToolNames Pins.

Module Quarantine.
Import ToolNames Pins.

Abbreviation Quarantine := (gmap string json).

(** ** Files *)

Inductive File (A : Type) := Absent | Unusable | Holds (a : A).
#[global] Arguments Absent {A}.
#[global] Arguments Unusable {A}.
#[global] Arguments Holds {A} a.

(** [resolved]: the data directory is known.  The legacy flags are
    [unmigrated_legacy_profile_store] for the two kinds of store. *)
Record Stores := mk_stores {
  resolved : bool;
  pins_file : File Pins;
  pins_backup : File Pins;
  quarantine_file : File Quarantine;
  legacy_pins : bool;
  legacy_quarantine : bool
}.

Definition set_pins (f : File Pins) (s : Stores) : Stores :=
  mk_stores (resolved s) f (pins_backup s) (quarantine_file s) (legacy_pins s) (legacy_quarantine s).
Definition set_backup (f : File Pins) (s : Stores) : Stores :=
  mk_stores (resolved s) (pins_file s) f (quarantine_file s) (legacy_pins s) (legacy_quarantine s).
Definition set_quarantine (f : File Quarantine) (s : Stores) : Stores :=
  mk_stores (resolved s) (pins_file s) (pins_backup s) f (legacy_pins s) (legacy_quarantine s).

(** [AbsentNotFresh] is the error [is_absent_quarantine_not_fresh] recognizes. *)
Inductive Failure := AbsentNotFresh | Failed (what : string).

Inductive PinsLoad := Fresh | Loaded (p : Pins) | Corrupt.

(** One read of a file during the retries: an error, or what its text parses to. *)
Inductive Attempt (A : Type) := ReadError | Blank | Garbled | Parsed (a : A).
#[global] Arguments ReadError {A}.
#[global] Arguments Blank {A}.
#[global] Arguments Garbled {A}.
#[global] Arguments Parsed {A} a.

Definition PINS_READ_ATTEMPTS : nat := 5.

(** [read_pins_at]: the first of the attempts that parses. *)
Fixpoint read_attempts {A} (attempts : list (Attempt A)) : option A :=
  match attempts with
  | [] => None
  | Parsed a :: _ => Some a
  | _ :: attempts => read_attempts attempts
  end.

Definition read_pins_at (attempts : nat -> Attempt Pins) : option Pins :=
  read_attempts (map attempts (seq 0 PINS_READ_ATTEMPTS)).

(** A file that does not change under the reads. *)
Definition attempt_of {A} (f : File A) : Attempt A :=
  match f with Holds a => Parsed a | _ => Garbled end.

Definition read_file (f : File Pins) : option Pins := read_pins_at (fun _ => attempt_of f).

Definition loaded_or_corrupt (o : option Pins) : PinsLoad :=
  match o with Some p => Loaded p | None => Corrupt end.

Definition load_pins (s : Stores) : PinsLoad :=
  if negb (resolved s) then Fresh
  else
    match pins_file s with
    | Absent =>
        match pins_backup s with
        | Absent => if legacy_pins s then Corrupt else Fresh
        | backup => loaded_or_corrupt (read_file backup)
        end
    | primary =>
        match read_file primary with
        | Some pins => Loaded pins
        | None => match pins_backup s with
                  | Absent => Corrupt
                  | backup => loaded_or_corrupt (read_file backup)
                  end
        end
    end.

(** The pins a caller works with; [None] is a lost baseline. *)
Definition usable_pins (l : PinsLoad) : option Pins :=
  match l with Loaded p => Some p | Fresh => Some ∅ | Corrupt => None end.

Definition is_legacy_added (record : json) : bool :=
  match change_of record with Some c => String.eqb c "added" | None => false end.

Definition without_legacy (q : Quarantine) : Quarantine :=
  filter (fun kv => is_legacy_added kv.2 = false) q.

Definition missing_quarantine_store (s : Stores) : result Quarantine Failure :=
  if legacy_quarantine s then Err (Failed "the quarantine store was not migrated")
  else match load_pins s with Fresh => Ok ∅ | _ => Err AbsentNotFresh end.

Definition load_quarantine (s : Stores) : result Quarantine Failure :=
  if negb (resolved s) then Ok ∅
  else match quarantine_file s with
       | Absent => missing_quarantine_store s
       | Unusable => Err (Failed "the quarantine store is unreadable, empty or corrupt")
       | Holds q => Ok (without_legacy q)
       end.

(** ** What the store enforces *)

Definition review_required (record : json) : bool := is_true (at_key "review_required" record).
Definition is_downgrade (record : json) : bool := is_true (at_key "gate_downgrade" record).
Definition is_tampered (record : json) : bool := is_text "tamper" (at_key "change" record).

Definition review_quarantine_set (q : Quarantine) : gset string :=
  dom (filter (fun kv => review_required kv.2 = true) q).

Definition mandatory_quarantine_set (q : Quarantine) : gset string :=
  dom (filter (fun kv => is_tampered kv.2 || review_required kv.2 || is_downgrade kv.2 = true) q).

(** Review metadata of the pins, remembered over failed reads. *)
Record ReviewPins := mk_reviews {
  reviews : Pins;
  ordinary : gset string;
  unreadable : bool
}.

Definition review_names (r : ReviewPins) : gset string := dom (reviews r).
Definition active_names (r : ReviewPins) : gset string :=
  dom (filter (fun kv => review_retired kv.2 = false) (reviews r)).

Definition from_pins (pins : Pins) : ReviewPins :=
  {| reviews := filter (fun kv => needs_review kv.2 = true) pins;
     ordinary := dom (filter (fun kv => needs_review kv.2 = false) pins);
     unreadable := false |}.

Definition no_reviews : ReviewPins := from_pins ∅.

(** [cached_review_pins], which reads again unless its stamps say the files are the same. *)
Definition refresh_reviews (s : Stores) (r : ReviewPins) : ReviewPins :=
  match load_pins s with
  | Loaded pins => from_pins pins
  | Fresh => no_reviews
  | Corrupt => {| reviews := reviews r; ordinary := ordinary r; unreadable := true |}
  end.

(** ** Operations *)

Record World := mk_world {
  stores : Stores;
  remembered : ReviewPins;
  log : list json;
  faults : list bool;
  clock : nat -> Z;
  tick : nat
}.

Definition with_stores (s : Stores) (w : World) : World :=
  mk_world s (remembered w) (log w) (faults w) (clock w) (tick w).
Definition with_remembered (r : ReviewPins) (w : World) : World :=
  mk_world (stores w) r (log w) (faults w) (clock w) (tick w).

Definition M (A : Type) : Type := World -> option (result A Failure * World).

#[export] Instance M_ret : MRet M := fun A a w => Some (Ok a, w).
#[export] Instance M_bind : MBind M := fun A B f m w =>
  match m w with
  | Some (Ok a, w) => f a w
  | Some (Err e, w) => Some (Err e, w)
  | None => None
  end.

Definition fail {A} (e : Failure) : M A := fun w => Some (Err e, w).
Definition panic {A} : M A := fun _ => None.
Definition read {A} (f : World -> A) : M A := fun w => Some (Ok (f w), w).
Definition of_result {A} (r : result A Failure) : M A := fun w => Some (r, w).
Definition of_option {A} (o : option A) : M A := match o with Some a => mret a | None => panic end.

(** A caller that looks at the outcome instead of passing the error on. *)
Definition attempt {A} (m : M A) : M (result A Failure) := fun w =>
  match m w with Some (r, w) => Some (Ok r, w) | None => None end.

Definition faulty : M bool := fun w =>
  match faults w with
  | [] => Some (Ok false, w)
  | b :: rest => Some (Ok b, mk_world (stores w) (remembered w) (log w) rest (clock w) (tick w))
  end.

Definition may_fail (what : string) : M unit :=
  b ← faulty; if (b : bool) then fail (Failed what) else mret tt.

Definition modify_stores (f : Stores -> Stores) : M unit := fun w =>
  Some (Ok tt, with_stores (f (stores w)) w).

Definition epoch_millis : M Z := fun w =>
  Some (Ok (clock w (tick w)), mk_world (stores w) (remembered w) (log w) (faults w) (clock w) (S (tick w))).

(** [n] readings, numbered from 0. *)
Definition readings (n : nat) : M (nat -> Z) := fun w =>
  let t := tick w in
  Some (Ok (fun i => clock w (t + i)%nat),
        mk_world (stores w) (remembered w) (log w) (faults w) (clock w) (t + n)).

(** The path of a store is known, and its lock is acquired. *)
Definition store_path : M unit :=
  ok ← read (fun w => resolved (stores w));
  if (ok : bool) then mret tt else fail (Failed "Could not resolve the store path").

Definition with_store_lock {A} (m : M A) : M A :=
  _ ← may_fail "Could not lock the integrity store"; m.

Definition cached_review_pins : M ReviewPins := fun w =>
  let r := refresh_reviews (stores w) (remembered w) in Some (Ok r, with_remembered r w).

(** The baseline is written, and what it says about reviews is remembered. *)
Definition write_pins (pins : Pins) : M unit := fun w =>
  Some (Ok tt, with_remembered (from_pins pins) (with_stores (set_pins (Holds pins) (stores w)) w)).

(** [save_pins_with]: the outgoing baseline, when it parses, becomes the backup; a failed
    backup does not stop the save. *)
Definition save_pins (pins : Pins) : M unit :=
  _ ← store_path;
  s ← read stores;
  _ ← match pins_file s with
      | Absent => mret tt
      | f => match read_file f with
             | Some previous =>
                 failed ← faulty;
                 if (failed : bool) then mret tt else modify_stores (set_backup (Holds previous))
             | None => mret tt
             end
      end;
  _ ← may_fail "Could not persist the integrity pin store";
  write_pins pins.

Definition save_quarantine (q : Quarantine) : M unit :=
  _ ← store_path;
  _ ← may_fail "Could not persist the quarantine store";
  modify_stores (set_quarantine (Holds q)).

(** [record_event]: whether the line is in the log, or was there already. *)
Definition record_event (e : json) : M bool := fun w =>
  match faults w with
  | true :: rest => Some (Ok false, mk_world (stores w) (remembered w) (log w) rest (clock w) (tick w))
  | false :: rest => Some (Ok true, mk_world (stores w) (remembered w) (e :: log w) rest (clock w) (tick w))
  | [] => Some (Ok true, mk_world (stores w) (remembered w) (e :: log w) [] (clock w) (tick w))
  end.

(** ** Checking a catalog *)

Section operations.
Variable to_string : json -> string.
Variable sha256 : string -> list N.
Variable scan_definition : json -> Scan.
Context {C : Type} `{!ToolCatalog C}.
(** The profile's id, empty without one. *)
Variable profile : string.

Local Abbreviation pin_with_source := (Pins.pin_with_source to_string sha256).
Local Abbreviation findings := (Pins.findings to_string sha256 scan_definition).
Local Abbreviation pins_now := (Pins.pins_now to_string sha256).

Definition reviewed_tools (events : list json) : gset string :=
  list_to_set (omap tool_in (List.filter review_required events)).

Definition with_logged (kind f : string) (p : Pin) : Pin :=
  with_review (review_pending p) (<[kind := f]> (review_logged_events p)) p.

(** The loop that writes the security log: a review's event is not logged twice, and a
    logged one is noted on its pin. *)
Fixpoint log_events (tools : gset string) (pins updated : Pins) (events : list json)
    : M (list json * Pins) :=
  match events with
  | [] => mret ([], updated)
  | e :: events =>
      let e := put "profile" (JString profile) e in
      let tool := default "" (tool_in e) in
      let f := text_at "new_fp" e in
      let kind := default "" (text_at "type" e) in
      let review := bool_decide (tool ∈ tools) in
      let seen := p ← pins !! tool; review_logged_events p !! kind in
      '(e, updated) ←
        (if review && is_some f && bool_decide (seen = f)
         then mret (put "log_suppressed" (JBool true) e, updated)
         else
           recorded ← record_event e;
           mret (e, match f with
                    | Some f => if (recorded : bool) && review then alter (with_logged kind f) tool updated
                                else updated
                    | None => updated
                    end));
      '(events, updated) ← log_events tools pins updated events;
      mret (e :: events, updated)
  end.

Definition tampered_baseline : M (list json) :=
  ts ← epoch_millis;
  let e := put "profile" (JString profile) (pins_tamper_event ts) in
  _ ← record_event e;
  mret [e].

(** [check_inner_with] on a baseline that loaded. *)
Definition check_pins (defer : bool) (c : C) (pins : Pins) : M (list json) :=
  clock ← readings (2 * length (pin_values c));
  let events := findings (fun i => (clock (2 * i)%nat, clock (2 * i + 1)%nat)) c pins in
  stamp ← epoch_millis;
  let updated := rebaseline stamp pins (pins_now c) in
  let updated := if defer then deferred (quarantine_candidates c events) pins updated else updated in
  '(events, updated) ← log_events (reviewed_tools events) pins updated events;
  _ ← (if bool_decide (updated = pins) then mret tt else save_pins updated);
  mret events.

Definition check_inner (defer : bool) (c : C) : M (list json) :=
  s ← read stores;
  match usable_pins (load_pins s) with
  | Some pins => check_pins defer c pins
  | None => tampered_baseline
  end.

Definition check_with_pin_policy (defer : bool) (c : C) : M (list json) :=
  _ ← store_path; with_store_lock (check_inner defer c).

Definition check : C -> M (list json) := check_with_pin_policy false.
Definition check_staged : C -> M (list json) := check_with_pin_policy true.

(** The pins, or the refusal to overwrite a lost baseline. *)
Definition trusted_pins : M Pins :=
  s ← read stores;
  of_result (match usable_pins (load_pins s) with
             | Some pins => Ok pins
             | None => Err (Failed "The integrity pin store is corrupt; refusing to overwrite the lost trust root")
             end).

Definition save_if_changed (pins updated : Pins) : M unit :=
  if bool_decide (updated = pins) then mret tt else save_pins updated.

Definition accept_staged_pins (c : C) (events : list json) : M unit :=
  let names := quarantine_candidates c events in
  if bool_decide (names = ∅) || baseline_tamper_detected events then mret tt
  else
    _ ← store_path;
    with_store_lock (
      pins ← trusted_pins;
      stamp ← epoch_millis;
      save_if_changed pins
        (fold_left (fun updated t =>
           match name_of t.1 with
           | Some name =>
               if bool_decide (name ∈ names)
               then <[name := merge_pending_pin (pins !! name) (pin_with_source t.1 t.2) stamp]> updated
               else updated
           | None => updated
           end) (pin_values c) pins)).

(** ** Quarantine *)

Definition tamper_reason : string := "the integrity baseline was corrupt or tampered with".

(** The loop over the records of a store whose baseline is lost; a record that is no object
    panics. *)
Definition tamper_record (record : json) : option json :=
  if is_tampered record then Some record
  else r ← set_field "change" (JString "tamper") record;
       set_field "reason" (JString tamper_reason) r.

Definition tamper_records (q : Quarantine) : option (Quarantine * bool) :=
  let changed := existsb (fun kv => negb (is_tampered kv.2)) (map_to_list q) in
  if forallb (fun kv => is_some (tamper_record kv.2)) (map_to_list q)
  then Some (omap tamper_record q, changed)
  else None.

Definition captured_pin (record : json) : option Pin := v ← get "pending_pin" record; decode v.

Definition tamper_row (ts : Z) (name : string) (tool : json) (pending : Pin) : json :=
  obj [("ts", JNumber (PosInt ts)); ("server", JString (server_of name)); ("tool", JString name);
       ("reason", JString tamper_reason); ("change", JString "tamper");
       ("pending_pin", encode pending); ("definition", tool)].

(** One tool of a catalog whose baseline is lost. *)
Definition tamper_tool (ts : Z) (qa : Quarantine * bool) (t : json * option string) : Quarantine * bool :=
  match name_of t.1 with
  | None => qa
  | Some name =>
      let pending := pin_with_source t.1 t.2 in
      let current := match qa.1 !! name with
                     | Some record => is_tampered record && bool_decide (captured_pin record = Some pending)
                     | None => false
                     end in
      if current then qa else (<[name := tamper_row ts name t.1 pending]> qa.1, true)
  end.

Definition quarantine_priority (record : json) : Z :=
  if is_text "poison" (at_key "change" record) then 3
  else if is_text "warn" (at_key "severity" record) then 1 else 2.

Definition gate_downgraded (events : list json) (tool : string) : bool :=
  existsb (fun e => is_text tool (at_key "tool" e) && is_downgrade e) events.

Definition ask_holds (e : json) : bool := is_downgrade e.

Definition is_destructive_named (c : C) (name : string) : bool :=
  existsb (fun t => bool_decide (name_of t = Some name) && is_destructive t) (values c).

(** The high-risk event of [tool] that names the reason: the first of the highest priority. *)
Definition strongest (events : list json) (tool : string) : option json :=
  fold_left (fun selected e =>
    match selected with
    | None => Some e
    | Some s => if quarantine_priority s <? quarantine_priority e then Some e else Some s
    end)
    (List.filter (fun e => is_high_risk_drift e && bool_decide (tool_in e = Some tool)) events) None.

(** Why the tool is held; [None] for a change that holds nothing. *)
Definition reason_of (c : C) (e : json) (tool change : string) : option string :=
  if String.eqb change "poison" then Some "a poisoned definition was detected"
  else if negb (String.eqb change "changed") then None
  else if review_required e
  then Some "This older block had no saved definition. Review the captured current definition before approving."
  else if is_downgrade e then Some "a destructive tool stopped declaring itself destructive"
  else if is_destructive_named c tool then Some "a destructive tool's definition changed"
  else if name_looks_destructive tool then Some "a write-named tool's definition changed"
  else if bool_decide (severity_of e = Some SEV_WARN) then Some "a tool's description or schema changed"
  else Some "a tool dropped a readOnly/destructive safety annotation".

Definition arrow : string := bytes_str [226%N; 134%N; 146%N].

Definition fmt_opt_hint (v : option json) : string :=
  match v with
  | None | Some JNull => "absent"
  | Some (JBool b) => if b then "true" else "false"
  | Some other => to_string other
  end.

Definition annotation_change_detail (e : json) : option string :=
  let part (l : string * string * string) :=
    let '(label, prev_k, new_k) := l in
    let prev := get prev_k e in
    let next := get new_k e in
    if match prev, next with
       | Some a, Some b => json_eqb a b
       | None, None => true
       | _, _ => false
       end
    then None
    else Some (label +:+ ": " +:+ fmt_opt_hint prev +:+ " " +:+ arrow +:+ " " +:+ fmt_opt_hint next) in
  match omap part [("readOnlyHint", "prev_ro", "new_ro"); ("destructiveHint", "prev_dh", "new_dh")] with
  | [] => None
  | parts => Some (String.concat "; " parts)
  end.

Definition put_if (b : bool) (k : string) (v record : json) : json := if b then put k v record else record.

Definition quarantine_row (ts : Z) (q : Quarantine) (events : list json) (e : json)
    (tool change reason : string) (definition : json) (pending : Pin) : json :=
  let rec := obj [("ts", JNumber (PosInt ts)); ("server", JString (default "?" (text_at "server" e)));
                  ("tool", JString tool); ("reason", JString reason); ("severity", at_key "severity" e);
                  ("change", JString change); ("pending_pin", encode pending);
                  ("definition", definition)] in
  let rec := put_if (existsb (fun e' => is_text tool (at_key "tool" e') && review_required e') events)
               "review_required" (JBool true) rec in
  let rec := put_if (gate_downgraded events tool ||
                     match q !! tool with Some r => is_downgrade r | None => false end)
               "gate_downgrade" (JBool true) rec in
  let rec := fold_left (fun rec k => match get k e with Some v => put k v rec | None => rec end)
               ["prev_ro"; "new_ro"; "prev_dh"; "new_dh"] rec in
  match annotation_change_detail e with
  | Some detail => put_if (negb (review_required e)) "detail" (JString detail) rec
  | None => rec
  end.

(** Whether the tool's record is written: there is none, or the event outranks it. *)
Definition replaces (events : list json) (e : json) (tool : string) (record : option json) : bool :=
  match record with
  | None => true
  | Some record =>
      (quarantine_priority record <? quarantine_priority e) ||
      (gate_downgraded events tool && negb (is_tampered record) && negb (review_required record) &&
       negb (is_downgrade record))
  end.

Definition find_definition (c : C) (tool : string) : option (json * option string) :=
  List.find (fun t => bool_decide (name_of t.1 = Some tool)) (pin_values c).

(** One tool with a high-risk event. *)
Definition quarantine_tool (ts : Z) (c : C) (events : list json) (qa : Quarantine * bool) (tool : string)
    : result (Quarantine * bool) Failure :=
  match (e ← strongest events tool; change ← change_of e; reason ← reason_of c e tool change;
         Some (e, change, reason)) with
  | None => Ok qa
  | Some (e, change, reason) =>
      if replaces events e tool (qa.1 !! tool) then
        match find_definition c tool with
        | None => Err (Failed ("Refusing to quarantine " +:+ tool +:+ "; its current definition could not be captured"))
        | Some (definition, source) =>
            Ok (<[tool := quarantine_row ts qa.1 events e tool change reason definition
                            (pin_with_source definition source)]> qa.1, true)
        end
      else Ok qa
  end.

Fixpoint quarantine_tools (clock : nat -> Z) (c : C) (events : list json) (qa : Quarantine * bool)
    (tools : list string) : result (Quarantine * bool) Failure :=
  match tools with
  | [] => Ok qa
  | tool :: tools =>
      match quarantine_tool (clock (length tools)) c events qa tool with
      | Ok qa => quarantine_tools clock c events qa tools
      | Err e => Err e
      end
  end.

(** The tools with a high-risk event, in order. *)
Definition risky_tools (events : list json) : list string :=
  dedup (sort_strings (omap tool_in (List.filter is_high_risk_drift events))).

(** The store a quarantine is written to: one that is gone for good starts empty. *)
Definition store_to_extend : M Quarantine :=
  s ← read stores;
  of_result (match load_quarantine s with
             | Err AbsentNotFresh => Ok ∅
             | Err (Failed _) => Err (Failed "refusing to apply quarantine until the store is fixed")
             | Ok q => Ok q
             end).

(** Every record and every tool of a catalog whose baseline is lost. *)
Definition tamper_catalog (c : C) (q : Quarantine) : M (Quarantine * bool) :=
  qa ← of_option (tamper_records q);
  clock ← readings (length (pin_values c));
  mret (fold_left (fun qa it => tamper_tool (clock it.1) qa it.2) (imap pair (pin_values c)) qa).

Definition quarantine_risky (c : C) (events : list json) (q : Quarantine) : M (Quarantine * bool) :=
  let tools := risky_tools events in
  clock ← readings (length tools);
  of_result (quarantine_tools clock c events (q, false) tools).

Definition apply_quarantine (c : C) (events : list json) : M bool :=
  _ ← store_path;
  with_store_lock (
    q ← store_to_extend;
    '(q, added) ← (if baseline_tamper_detected events then tamper_catalog c q else quarantine_risky c events q);
    _ ← (if (added : bool) then save_quarantine q else mret tt);
    mret added).

(** ** Accepting captured definitions *)

Definition accepts (record : json) : bool :=
  match change_of record with Some c => String.eqb c "changed" || String.eqb c "poison" | None => false end.

(** The captured pins of the ordinary records; an explicit review stays pending. *)
Definition pending_of (name : string) (record : json) : result (option Pin) Failure :=
  if negb (accepts record) then Ok None
  else match get "pending_pin" record with
       | None => Ok None
       | Some v =>
           match decode v with
           | Some pin => Ok (Some (with_review (review_pending pin || review_required record)
                                     (review_logged_events pin) pin))
           | None => Err (Failed ("The quarantine record for " +:+ name +:+ " has an invalid captured pin"))
           end
       end.

Fixpoint pending_pins (l : list (string * json)) : result (list (string * Pin)) Failure :=
  match l with
  | [] => Ok []
  | (name, record) :: l =>
      match pending_of name record, pending_pins l with
      | Ok (Some pin), Ok rest => Ok ((name, pin) :: rest)
      | Ok None, Ok rest => Ok rest
      | Err e, _ | _, Err e => Err e
      end
  end.

Definition merge_all (pins : Pins) (stamp : Z) (pending : list (string * Pin)) : Pins :=
  fold_left (fun updated np => <[np.1 := merge_pending_pin (pins !! np.1) np.2 stamp]> updated) pending pins.

(** The recovery marker becomes the identity that was reviewed. *)
Definition settle_record (pin : Pin) (record : json) : json :=
  match record with
  | JObject o => JObject (obj_remove "pending_pin" (obj_insert "definition_fp" (JString (fp pin)) o))
  | _ => record
  end.

Definition settle_all (pending : list (string * Pin)) (q : Quarantine) : Quarantine :=
  fold_left (fun q np => alter (settle_record np.2) np.1 q) pending q.

Definition accept_quarantined_pins : M unit :=
  _ ← store_path;
  with_store_lock (
    s ← read stores;
    q ← of_result (load_quarantine s);
    pending ← of_result (pending_pins (map_to_list q));
    if bool_decide (pending = []) then mret tt
    else
      _ ← store_path;
      _ ← with_store_lock (
            pins ← trusted_pins;
            stamp ← epoch_millis;
            save_if_changed pins (merge_all pins stamp pending));
      save_quarantine (settle_all pending q)).

(** ** Releasing *)

Definition release_pending_pin (tool : string) (record : json) : result (option Pin) Failure :=
  match get "pending_pin" record with
  | Some v =>
      match decode v with
      | Some pin => Ok (Some pin)
      | None => Err (Failed ("Refusing to release " +:+ tool +:+ "; the quarantine has no valid captured pin"))
      end
  | None =>
      if is_tampered record
      then Err (Failed ("Refusing to release " +:+ tool +:+ "; the tamper quarantine has no valid captured pin"))
      else Ok None
  end.

Definition has_definition (record : json) : bool := is_object (at_key "definition" record).

(** The pins a release starts from: re-approving after a lost baseline rebuilds it. *)
Definition pins_to_repair (tamper : bool) : M Pins :=
  s ← read stores;
  of_result (match usable_pins (load_pins s) with
             | Some pins => Ok pins
             | None => if tamper then Ok ∅
                       else Err (Failed "the integrity pin store is corrupt; refusing to overwrite the lost trust root")
             end).

Definition release_inner (tool : string) : M bool :=
  s ← read stores;
  q ← of_result (load_quarantine s);
  match q !! tool with
  | None => mret false
  | Some record =>
      pending ← of_result (release_pending_pin tool record);
      _ ← store_path;
      _ ← with_store_lock (
            pins ← pins_to_repair (is_tampered record);
            stamp ← epoch_millis;
            save_if_changed pins (apply_release_pin pins tool pending (has_definition record) stamp));
      _ ← save_quarantine (delete tool q);
      mret true
  end.

Definition release (tool : string) : M bool := _ ← store_path; with_store_lock (release_inner tool).

(** [quarantine_record_id]: the digest of a record without its presentation fields. *)
Definition quarantine_record_id (record : json) : string :=
  to_hex (sha256 (to_string (match record with
                             | JObject o => JObject (obj_remove "profile" (obj_remove "record_id" o))
                             | v => v
                             end))).

Definition release_record (tool expected_id : string) : M bool :=
  _ ← store_path;
  with_store_lock (
    s ← read stores;
    q ← of_result (load_quarantine s);
    match q !! tool with
    | Some record =>
        if String.eqb (quarantine_record_id record) expected_id then release_inner tool
        else fail (Failed "The blocked finding changed since you reviewed it. It remains blocked. Refresh and review the latest finding.")
    | None => release_inner tool
    end).

(** The fingerprint a record captured. *)
Definition captured_fp (record : json) : option string :=
  match (p ← get "pending_pin" record; text_at "fp" p) with
  | Some f => Some f
  | None => text_at "definition_fp" record
  end.

Definition release_definition (tool expected_fp : string) : M bool :=
  _ ← store_path;
  with_store_lock (
    s ← read stores;
    q ← of_result (load_quarantine s);
    match q !! tool with
    | Some record =>
        if review_required record
        then fail (Failed "Review the captured definition in Settings before accepting it.")
        else match captured_fp record with
             | None => fail (Failed "This older finding has no saved definition. Review the active block in Settings.")
             | Some f =>
                 if String.eqb f expected_fp then release_inner tool
                 else fail (Failed "The tool changed again. Refresh and review its latest definition.")
             end
    | None => release_inner tool
    end).

Record ReleaseAllOutcome := mk_outcome { released : Z; skipped : list string; changed : list string }.

(** Sorting the records of a bulk release: changed since they were shown, repairable, or
    neither. *)
Inductive Fate := Stale | Repaired (p : option Pin) | Stuck.

Definition fate (expected : option (gmap string string)) (tool : string) (record : json) : Fate :=
  if match expected with
     | Some expected => negb (bool_decide (expected !! tool = Some (quarantine_record_id record)))
     | None => false
     end
  then Stale
  else match release_pending_pin tool record with Ok p => Repaired p | Err _ => Stuck end.

Definition is_stale (f : Fate) : bool := match f with Stale => true | _ => false end.
Definition is_stuck (f : Fate) : bool := match f with Stuck => true | _ => false end.
Definition repairs (f : Fate) : bool := match f with Repaired _ => true | _ => false end.

Definition repair (stamp : Z) (pins : Pins) (tool : string) (record : json) (f : Fate) : Pins :=
  match f with
  | Repaired p => apply_release_pin pins tool p (has_definition record) stamp
  | _ => pins
  end.

Definition release_all (expected : option (gmap string string)) : M ReleaseAllOutcome :=
  _ ← store_path;
  with_store_lock (
    s ← read stores;
    q ← of_result (load_quarantine s);
    if bool_decide (q = ∅) then mret (mk_outcome 0 [] [])
    else
      let rows := map_to_list q in
      let fate_of (kv : string * json) := fate expected kv.1 kv.2 in
      let accepted := List.filter (fun kv => repairs (fate_of kv)) rows in
      _ ← (if bool_decide (accepted = []) then mret tt
           else
             _ ← store_path;
             with_store_lock (
               pins ← pins_to_repair (existsb (fun kv => is_tampered kv.2) accepted);
               stamp ← epoch_millis;
               save_if_changed pins
                 (fold_left (fun updated kv => repair stamp updated kv.1 kv.2 (fate_of kv)) accepted pins)));
      let remaining := filter (fun kv => repairs (fate_of kv) = false) q in
      let released := Z.of_nat (size q - size remaining) in
      _ ← (if 0 <? released then save_quarantine remaining else mret tt);
      mret (mk_outcome released
              (sort_strings (map fst (List.filter (fun kv => is_stuck (fate_of kv)) rows)))
              (sort_strings (map fst (List.filter (fun kv => is_stale (fate_of kv)) rows))))).

(** ** Reviews of identities that left the registry *)

(** [registry_has_tool_identity], on the ids of the registry's servers and the renames of
    their tools. *)
Definition registry_has_tool_identity (servers : list (string * list string)) (name : string) : bool :=
  existsb (fun sv =>
    starts_with (sanitize_segment sv.1 +:+ "__") name ||
    existsb (fun alias =>
      let alias := sanitize_segment alias in
      String.eqb name alias ||
      match (suffix ← strip_prefix alias name; n ← strip_prefix "_" suffix; parse_usize n) with
      | Some _ => true
      | None => false
      end) sv.2) servers.

(** A review is retired when its identity is gone, and taken up again when it returns.
    [gone] says that the profile itself was removed. *)
Definition retires (gone : bool) (servers : list (string * list string)) (present : gset string)
    (name : string) (p : Pin) : bool :=
  negb (review_retired p) && needs_review p && negb (bool_decide (name ∈ present)) &&
  (gone || negb (registry_has_tool_identity servers name)).

Definition returns (present : gset string) (name : string) (p : Pin) : bool :=
  review_retired p && bool_decide (name ∈ present).

Definition retire (p : Pin) : Pin := with_review (review_pending p) ∅ (with_retired true p).

Definition reconciled (gone : bool) (servers : list (string * list string)) (present : gset string)
    (name : string) (p : Pin) : Pin :=
  if retires gone servers present name p then retire p
  else if returns present name p then with_retired false p
  else p.

Definition reconcile_definition_reviews (gone : bool) (servers : list (string * list string))
    (present : gset string) : M unit :=
  r ← cached_review_pins;
  if bool_decide (active_names r = ∅) && bool_decide (review_names r ## present) then mret tt
  else
    _ ← store_path;
    with_store_lock (with_store_lock (
      s ← read stores;
      match load_pins s with
      | Loaded pins =>
          let absent := dom (filter (fun kv => retires gone servers present kv.1 kv.2 = true) pins) in
          let returned := dom (filter (fun kv => returns present kv.1 kv.2 = true) pins) in
          if bool_decide (absent = ∅) && bool_decide (returned = ∅) then mret tt
          else
            _ ← (if bool_decide (absent = ∅) then mret tt
                 else
                   q ← of_result (match load_quarantine s with
                                  | Err AbsentNotFresh => Ok ∅
                                  | r => r
                                  end);
                   save_quarantine (filter (fun kv => kv.1 ∉ absent) q));
            save_pins (map_imap (fun name p => Some (reconciled gone servers present name p)) pins)
      | _ => mret tt
      end)).

(** ** Stores that are created empty, and baselines that are given up *)

Definition ensure_quarantine_store_for_fresh_pins : M unit :=
  ok ← read (fun w => resolved (stores w));
  if negb ok then mret tt
  else
    with_store_lock (
      s ← read stores;
      match quarantine_file s with
      | Absent =>
          match load_pins s with
          | Fresh => _ ← may_fail "Could not create the quarantine store"; modify_stores (set_quarantine (Holds ∅))
          | _ => mret tt
          end
      | _ => mret tt
      end).

(** A store that existed before quarantine records did gets an empty file, only beside pins
    that load. *)
Definition ensure_quarantine_store_for_existing_pins : M unit :=
  s ← read stores;
  match resolved s, quarantine_file s, load_pins s with
  | true, Absent, Loaded _ =>
      r ← attempt (with_store_lock (
        s ← read stores;
        match quarantine_file s with
        | Absent => _ ← may_fail "Could not create the quarantine store"; modify_stores (set_quarantine (Holds ∅))
        | _ => mret tt
        end));
      mret tt
  | _, _, _ => mret tt
  end.

(** Off gives up an unreadable baseline: its bytes are set aside, the catalog is pinned as
    it is, and remembered reviews stay. *)
Definition recover_unreadable_baseline_at_off (c : C) : M unit :=
  r ← cached_review_pins;
  _ ← store_path;
  with_store_lock (
    s ← read stores;
    match usable_pins (load_pins s) with
    | Some _ => mret tt
    | None =>
        ts ← epoch_millis;
        _ ← may_fail "Could not save the unreadable baseline";
        _ ← modify_stores (fun s => match pins_file s with Absent => s | _ => set_pins Absent s end);
        _ ← record_event (put "profile" (JString profile) (pins_tamper_event ts));
        save_pins (reviews r ∪ pins_now c)
    end).

(** ** What the gateway reads *)

(** [quarantined], [mandatory_quarantined_checked] and [review_quarantined_checked]. *)
Definition quarantined : M (gset string) :=
  s ← read stores; of_result (match load_quarantine s with Ok q => Ok (dom q) | Err e => Err e end).

(** The checked reads refuse a store that was never migrated, whatever the file holds. *)
Definition checked {A} (m : M A) : M A :=
  s ← read stores;
  if resolved s && legacy_quarantine s then fail (Failed "the quarantine store was not migrated") else m.

Definition quarantined_checked : M (gset string) := checked quarantined.

Definition mandatory_quarantined_checked : M (gset string) :=
  r ← cached_review_pins;
  if unreadable r
  then fail (Failed "The integrity pin store is corrupt; retaining the live mandatory quarantine set")
  else checked (s ← read stores;
                of_result (match load_quarantine s with
                           | Ok q => Ok (mandatory_quarantine_set q)
                           | Err e => Err e
                           end)).

Definition definition_review_names : M (gset string) := r ← cached_review_pins; mret (review_names r).

Definition active_definition_review_names : M (gset string) :=
  r ← cached_review_pins; mret (if unreadable r then review_names r else active_names r).

Definition review_quarantined_checked : M (gset string) :=
  s ← read stores;
  if negb (resolved s) then mret ∅
  else if legacy_quarantine s then definition_review_names
  else
    stored ← match load_quarantine s with
             | Ok q => mret (review_quarantine_set q)
             | Err _ => active_definition_review_names
             end;
    names ← definition_review_names;
    mret (stored ∪ names).

(** The reviews of a catalog, and whether the baseline they come from was readable. *)
Definition definition_review_names_for_catalog (present : gset string) : M (gset string * bool) :=
  r ← cached_review_pins;
  mret (if unreadable r then ((review_names r ∩ present) ∪ (present ∖ ordinary r), false)
        else (review_names r ∩ present, true)).

End operations.
End Quarantine.
