(* ===== verification/Baseline.v ===== *)
(** What the operations of the integrity stores guarantee (src/integrity.rs), under every
    failure of a lock, a write or a log line: a weakest-precondition calculus for the
    computations of [Quarantine], the specification of each operation in it, and what
    follows for the baseline and the quarantine over any sequence of operations. *)

From S2P Require Import Prelude Text Json ToolNames Pins Quarantine.


Module Baseline.
Import ToolNames Pins Quarantine.

(** ** Weakest preconditions *)

(** [m] does not panic, and what it leaves satisfies [Q], whether it fails or not. *)
Definition wp {A} (m : M A) (Q : result A Failure -> World -> Prop) (w : World) : Prop :=
  match m w with Some (r, w) => Q r w | None => False end.

Lemma wp_mono {A} (m : M A) (P Q : result A Failure -> World -> Prop) w :
  wp m P w -> (forall r w', P r w' -> Q r w') -> wp m Q w.
Proof. unfold wp. destruct (m w) as [[r w']|]; auto. Qed.

Lemma wp_bind {A B} (m : M A) (f : A -> M B) Q w :
  wp m (fun r w' => match r with Ok a => wp (f a) Q w' | Err e => Q (Err e) w' end) w -> wp (m ≫= f) Q w.
Proof. unfold wp, mbind, M_bind. by destruct (m w) as [[[a|e] w']|]. Qed.

Lemma wp_ret {A} (a : A) Q w : Q (Ok a) w -> wp (mret a) Q w.
Proof. done. Qed.
Lemma wp_fail {A} e (Q : result A Failure -> World -> Prop) w : Q (Err e) w -> wp (fail e) Q w.
Proof. done. Qed.
Lemma wp_read {A} (f : World -> A) Q w : Q (Ok (f w)) w -> wp (read f) Q w.
Proof. done. Qed.
Lemma wp_of_result {A} (r : result A Failure) Q w : Q r w -> wp (of_result r) Q w.
Proof. done. Qed.
Lemma wp_modify f Q w : Q (Ok tt) (with_stores (f (stores w)) w) -> wp (modify_stores f) Q w.
Proof. done. Qed.

(** Nothing but the log, the clock's position and the faults moved. *)
Record quiet (w w' : World) : Prop := {
  quiet_stores : stores w' = stores w;
  quiet_remembered : remembered w' = remembered w
}.

#[export] Instance quiet_preorder : PreOrder quiet.
Proof.
  split; [by split|]. intros w1 w2 w3 [] []. split; congruence.
Qed.

Lemma wp_faulty Q w : (forall b w', quiet w w' -> Q (Ok b) w') -> wp faulty Q w.
Proof. intros H. unfold wp, faulty. destruct (faults w); by apply H. Qed.

Lemma wp_may_fail what Q w :
  (forall w', quiet w w' -> Q (Ok tt) w') -> (forall w', quiet w w' -> Q (Err (Failed what)) w') ->
  wp (may_fail what) Q w.
Proof. intros H1 H2. apply wp_bind, wp_faulty. intros [] w' Hw; [by apply wp_fail, H2|by apply wp_ret, H1]. Qed.

Lemma wp_millis Q w : (forall t w', quiet w w' -> Q (Ok t) w') -> wp epoch_millis Q w.
Proof. intros H. by apply H. Qed.

Lemma wp_readings n Q w : (forall t w', quiet w w' -> Q (Ok t) w') -> wp (readings n) Q w.
Proof. intros H. by apply H. Qed.

Lemma wp_record e Q w : (forall b w', quiet w w' -> Q (Ok b) w') -> wp (record_event e) Q w.
Proof. intros H. unfold wp, record_event. destruct (faults w) as [|[] ?]; by apply H. Qed.

Lemma wp_store_path Q w :
  (resolved (stores w) = true -> Q (Ok tt) w) ->
  (forall e, Q (Err (Failed e)) w) -> wp store_path Q w.
Proof.
  intros H1 H2. apply wp_bind, wp_read. destruct (resolved (stores w)) eqn:E; [by apply wp_ret, H1|by apply wp_fail].
Qed.

Lemma wp_lock {A} (m : M A) Q w :
  (forall w', quiet w w' -> wp m Q w') -> (forall e w', quiet w w' -> Q (Err (Failed e)) w') ->
  wp (with_store_lock m) Q w.
Proof. intros H1 H2. apply wp_bind, wp_may_fail; auto. Qed.

(** ** Writing the stores *)

(** The quarantine's side of the stores is the same. *)
Record same_quarantine (s s' : Stores) : Prop := {
  same_resolved : resolved s' = resolved s;
  same_file : quarantine_file s' = quarantine_file s;
  same_legacy : legacy_quarantine s' = legacy_quarantine s
}.

#[export] Instance same_quarantine_preorder : PreOrder same_quarantine.
Proof. split; [by split|]. intros s1 s2 s3 [] []. split; congruence. Qed.

(** The pins' side is the same. *)
Record same_pins (s s' : Stores) : Prop := {
  same_load : load_pins s' = load_pins s;
  same_resolved' : resolved s' = resolved s;
  same_legacies : legacy_quarantine s' = legacy_quarantine s /\ legacy_pins s' = legacy_pins s
}.

#[export] Instance same_pins_preorder : PreOrder same_pins.
Proof. split; [by split|]. intros s1 s2 s3 [? ? []] [? ? []]. split; [..|split]; congruence. Qed.

Lemma read_file_spec f : read_file f = match f with Holds p => Some p | _ => None end.
Proof. by destruct f. Qed.

(** The backup a save writes says what the baseline says. *)
Lemma backup_same_load s p : read_file (pins_file s) = Some p -> load_pins (set_backup (Holds p) s) = load_pins s.
Proof.
  rewrite read_file_spec. intros H. unfold load_pins. cbn. destruct (pins_file s); [done..|]. by injection H as ->.
Qed.

Lemma set_pins_load p s : resolved s = true -> load_pins (set_pins (Holds p) s) = Loaded p.
Proof. intros H. unfold load_pins. cbn. by rewrite H. Qed.

Lemma set_quarantine_load f s : load_pins (set_quarantine f s) = load_pins s.
Proof. done. Qed.

(** A save ends with the new baseline, or with the old one. *)
Record saved (p : Pins) (r : result unit Failure) (w w' : World) : Prop := {
  saved_other : same_quarantine (stores w) (stores w');
  saved_load : load_pins (stores w') = match r with Ok _ => Loaded p | Err _ => load_pins (stores w) end;
  saved_remembered : remembered w' = match r with Ok _ => from_pins p | Err _ => remembered w end
}.

Lemma save_pins_spec p w : wp (save_pins p) (fun r w' => saved p r w w') w.
Proof.
  unfold save_pins. apply wp_bind, wp_store_path; [|by intros; split]. intros Hr.
  apply wp_bind, wp_read, wp_bind.
  apply (wp_mono _ (fun r w' => r = Ok tt /\ same_quarantine (stores w) (stores w') /\
    load_pins (stores w') = load_pins (stores w) /\ remembered w' = remembered w)).
  - assert (Hsame : same_quarantine (stores w) (stores w)) by done.
    destruct (pins_file (stores w)) as [| |previous] eqn:Ef; [by apply wp_ret|by apply wp_ret|].
    rewrite read_file_spec. apply wp_bind, wp_faulty. intros b w' [Hs Hm]. destruct b.
    + apply wp_ret. by rewrite Hs.
    + apply wp_modify. cbn. rewrite Hs. split; [done|]. split; [by split|]. split; [|done].
      apply backup_same_load. by rewrite Ef.
  - intros r w1 (-> & Hq & Hl & Hm). apply wp_bind, wp_may_fail.
    + intros w2 [Hs2 Hm2]. unfold write_pins, wp. cbn. destruct Hq as [Hq1 Hq2 Hq3].
      split; cbn; [|by apply set_pins_load; rewrite Hs2, Hq1|done].
      rewrite Hs2. by split.
    + intros w2 [Hs2 Hm2]. split; rewrite ?Hs2; [done..|congruence].
Qed.

Lemma save_if_changed_spec pins updated w :
  usable_pins (load_pins (stores w)) = Some pins \/ updated <> pins ->
  wp (save_if_changed pins updated) (fun r w' => same_quarantine (stores w) (stores w') /\
    match r with
    | Ok _ => usable_pins (load_pins (stores w')) = Some updated
    | Err _ => load_pins (stores w') = load_pins (stores w)
    end) w.
Proof.
  intros Hp. unfold save_if_changed. case_bool_decide as E; [apply wp_ret; subst; by destruct Hp|].
  eapply wp_mono; [apply save_pins_spec|]. intros r w' [Hq Hl _]. split; [done|]. rewrite Hl. by destruct r.
Qed.

Record saved_records (q : Quarantine) (r : result unit Failure) (w w' : World) : Prop := {
  records_pins : same_pins (stores w) (stores w');
  records_remembered : remembered w' = remembered w;
  records_file : quarantine_file (stores w') =
                 match r with Ok _ => Holds q | Err _ => quarantine_file (stores w) end;
  records_resolved : r = Ok tt -> resolved (stores w') = true
}.

Lemma save_quarantine_spec q w : wp (save_quarantine q) (fun r w' => saved_records q r w w') w.
Proof.
  unfold save_quarantine. apply wp_bind, wp_store_path; [|by intros; split]. intros Hr.
  apply wp_bind, wp_may_fail; intros w' [Hs Hm].
  - apply wp_modify. cbn. rewrite Hs. split; [done|done|done|]. by cbn.
  - split; rewrite ?Hs; [done..|]. discriminate.
Qed.

(** ** Logging *)

(** An event with its profile noted, and perhaps that its log line was left out. *)
Definition relabelled (e e' : json) : Prop :=
  forall k, k <> "profile" -> k <> "log_suppressed" -> get k e' = get k e.

(** A pin without the events its review logged. *)
Definition forget (p : Pin) : Pin := with_review (review_pending p) ∅ p.
Definition similar (pins pins' : Pins) : Prop := forget <$> pins' = forget <$> pins.

#[export] Instance similar_equiv : Equivalence similar.
Proof. split; [by intros p|by intros p p'|]. unfold similar. intros p1 p2 p3. congruence. Qed.

Lemma similar_lookup pins pins' n : similar pins pins' -> forget <$> (pins' !! n) = forget <$> (pins !! n).
Proof. intros H. rewrite <- !lookup_fmap. by rewrite H. Qed.

Lemma similar_with_logged kind f tool pins : similar pins (alter (with_logged kind f) tool pins).
Proof.
  apply map_eq. intros n. rewrite !lookup_fmap. destruct (decide (n = tool)) as [->|Hn].
  - rewrite lookup_alter_eq. by destruct (pins !! tool).
  - by rewrite lookup_alter_ne.
Qed.

Section operations.
Variable to_string : json -> string.
Variable sha256 : string -> list N.
Variable scan_definition : json -> Scan.
Context {C : Type} `{!ToolCatalog C}.
Variable profile : string.

Local Abbreviation findings := (Pins.findings to_string sha256 scan_definition).
Local Abbreviation pins_now := (Pins.pins_now to_string sha256).
Local Abbreviation pin_with_source := (Pins.pin_with_source to_string sha256).
Local Abbreviation risky := (Pins.risky to_string sha256 scan_definition).

Lemma log_events_spec tools pins updated events w :
  wp (log_events profile tools pins updated events)
     (fun r w' => quiet w w' /\ exists events' updated', r = Ok (events', updated') /\
        Forall2 relabelled events events' /\ similar updated updated') w.
Proof.
  revert updated w. induction events as [|e events IH]; intros updated w.
  { apply wp_ret. split; [done|]. by exists [], updated. }
  cbn [log_events]. apply wp_bind.
  assert (Hput : relabelled e (put "profile" (JString profile) e)) by (intros k Hk _; by apply get_put_ne).
  apply (wp_mono _ (fun r w' => quiet w w' /\ exists e' updated', r = Ok (e', updated') /\
    relabelled e e' /\ similar updated updated')).
  - case_match.
    + apply wp_ret. split; [done|]. eexists _, _. split; [done|]. split; [|done].
      intros k Hk Hk'. rewrite get_put_ne by done. by apply Hput.
    + apply wp_bind, wp_record. intros b w1 Hw1. apply wp_ret. split; [done|]. eexists _, _. split; [done|].
      split; [done|]. repeat case_match; (done || apply similar_with_logged).
  - intros r w1 (Hw1 & e' & u1 & -> & He & Hu). apply wp_bind. eapply wp_mono; [apply IH|].
    intros r w2 (Hw2 & es & u2 & -> & Hes & Hu2). apply wp_ret. split; [by transitivity w1|].
    eexists _, _. split; [done|]. split; [by constructor|by transitivity u1].
Qed.

(** ** Checking *)

Definition next (defer : bool) (clock : nat -> Z * Z) (stamp : Z) (c : C) (pins : Pins) : Pins :=
  let u := rebaseline stamp pins (pins_now c) in
  if defer then deferred (quarantine_candidates c (findings clock c pins)) pins u else u.

(** What a check leaves: the events found against the baseline it read, and the baseline
    that follows; or the lost baseline as it was and the one event that says so; or, when
    it fails, the baseline as it was. *)
Definition check_post (defer : bool) (c : C) (r : result (list json) Failure) (w w' : World) : Prop :=
  same_quarantine (stores w) (stores w') /\
  match r, usable_pins (load_pins (stores w)) with
  | Ok events, Some pins =>
      exists clock stamp updated, Forall2 relabelled (findings clock c pins) events /\
        usable_pins (load_pins (stores w')) = Some updated /\ similar (next defer clock stamp c pins) updated
  | Ok events, None =>
      stores w' = stores w /\ exists ts e, events = [e] /\ relabelled (pins_tamper_event ts) e
  | Err _, _ => load_pins (stores w') = load_pins (stores w)
  end.

Lemma check_post_quiet defer c r w w1 w' : quiet w w1 -> check_post defer c r w1 w' -> check_post defer c r w w'.
Proof. intros [Hs _]. unfold check_post. by rewrite Hs. Qed.

Lemma check_inner_spec defer c w :
  wp (check_inner to_string sha256 scan_definition profile defer c) (fun r w' => check_post defer c r w w') w.
Proof.
  unfold check_inner. apply wp_bind, wp_read. destruct (usable_pins (load_pins (stores w))) as [pins|] eqn:Ep.
  - unfold check_pins. apply wp_bind, wp_readings. intros t w1 Hw1. apply wp_bind, wp_millis.
    intros stamp w2 Hw2. apply wp_bind. eapply wp_mono; [apply log_events_spec|].
    intros r w3 (Hw3 & events & updated & -> & Hev & Hup).
    assert (Hq : quiet w w3) by (transitivity w1; [done|by transitivity w2]). clear Hw1 Hw2 Hw3 w1 w2.
    apply wp_bind. eapply (wp_mono _ (fun r w' => same_quarantine (stores w3) (stores w') /\
      match r with
      | Ok _ => usable_pins (load_pins (stores w')) = Some updated
      | Err _ => load_pins (stores w') = load_pins (stores w3)
      end)).
    { apply (save_if_changed_spec pins). left. by rewrite (quiet_stores _ _ Hq). }
    intros r w4 [Hs Hl]. rewrite (quiet_stores _ _ Hq) in *. destruct r as [[]|e]; [apply wp_ret|]; split; [done| |done|].
    + rewrite Ep. eexists _, stamp, updated. split; [exact Hev|]. split; [done|]. exact Hup.
    + by rewrite Hl.
  - unfold tampered_baseline. apply wp_bind, wp_millis. intros ts w1 Hw1. apply wp_bind, wp_record.
    intros b w2 Hw2. apply wp_ret. unfold check_post. rewrite (quiet_stores _ _ Hw2), (quiet_stores _ _ Hw1), Ep.
    split; [done|]. split; [done|]. exists ts. eexists. split; [done|]. intros k Hk _. by apply get_put_ne.
Qed.

Lemma check_spec defer c w :
  wp (check_with_pin_policy to_string sha256 scan_definition profile defer c) (fun r w' => check_post defer c r w w') w.
Proof.
  apply wp_bind, wp_store_path; [|by intros; split]. intros _. apply wp_lock.
  - intros w1 Hw1. eapply wp_mono; [apply check_inner_spec|]. intros r w'. by apply check_post_quiet.
  - intros e w' [Hs _]. split; rewrite ?Hs; done.
Qed.

(** ** Events under relabelling *)

(** What a predicate on events may look at. *)
Definition label_free {A} (f : json -> A) : Prop := forall e e', relabelled e e' -> f e' = f e.

Lemma get_label_free k : k <> "profile" -> k <> "log_suppressed" -> label_free (get k).
Proof. intros H1 H2 e e' H. by apply H. Qed.

Lemma text_label_free k : k <> "profile" -> k <> "log_suppressed" -> label_free (text_at k).
Proof. intros H1 H2 e e' H. unfold text_at. by rewrite H. Qed.

Lemma tool_in_free : label_free tool_in.
Proof. by apply text_label_free. Qed.

Lemma high_risk_free : label_free is_high_risk_drift.
Proof. intros e e' H. apply high_risk_get; by apply H. Qed.

Lemma tamper_free : label_free is_tamper.
Proof.
  intros e e' H. unfold is_tamper, change_of, severity_of.
  assert (Ht : forall k, k <> "profile" -> k <> "log_suppressed" -> text_at k e' = text_at k e)
    by (intros; by apply text_label_free). by rewrite !Ht by done.
Qed.

Lemma review_free : label_free review_required.
Proof. intros e e' H. unfold review_required, at_key. by rewrite H. Qed.

Lemma downgrade_free : label_free is_downgrade.
Proof. intros e e' H. unfold is_downgrade, at_key. by rewrite H. Qed.

Lemma relabelled_filter (h : json -> bool) es es' :
  label_free h -> Forall2 relabelled es es' -> Forall2 relabelled (List.filter h es) (List.filter h es').
Proof.
  intros Hh. induction 1 as [|e e' es es' He Hes IH]; [constructor|]. cbn. rewrite (Hh _ _ He).
  destruct (h e); [by constructor|done].
Qed.

Lemma relabelled_existsb (h : json -> bool) es es' :
  label_free h -> Forall2 relabelled es es' -> existsb h es' = existsb h es.
Proof. intros Hh. induction 1 as [|e e' es es' He Hes IH]; [done|]. cbn. by rewrite (Hh _ _ He), IH. Qed.

Lemma relabelled_omap {A} (f : json -> option A) es es' :
  label_free f -> Forall2 relabelled es es' -> omap f es' = omap f es.
Proof.
  intros Hf. induction 1 as [|e e' es es' He Hes IH]; [done|]. cbn. rewrite (Hf _ _ He). by rewrite IH.
Qed.

Lemma relabelled_tamper es es' :
  Forall2 relabelled es es' -> baseline_tamper_detected es' = baseline_tamper_detected es.
Proof. apply relabelled_existsb, tamper_free. Qed.

Lemma relabelled_candidates c es es' :
  Forall2 relabelled es es' -> quarantine_candidates c es' = quarantine_candidates c es.
Proof.
  intros H. unfold quarantine_candidates. rewrite (relabelled_tamper _ _ H).
  by rewrite (relabelled_omap _ _ _ tool_in_free (relabelled_filter _ _ _ high_risk_free H)).
Qed.

(** ** Drift is not consumed *)

Lemma established_spec pins sv : sv ∈ established pins <-> exists n, is_Some (pins !! n) /\ server_of n = sv.
Proof.
  unfold established. rewrite elem_of_list_to_set, list_elem_of_In, in_map_iff. split.
  - intros ([n p] & <- & H). apply list_elem_of_In, elem_of_map_to_list in H. exists n. split; [by eexists|done].
  - intros (n & [p Hp] & <-). exists (n, p). split; [done|]. by apply list_elem_of_In, elem_of_map_to_list.
Qed.

Lemma established_mono pins pins' : dom pins ⊆ dom pins' -> established pins ⊆ established pins'.
Proof.
  intros H sv. rewrite !established_spec. intros (n & Hn & <-). exists n. split; [|done].
  apply elem_of_dom, H. by apply elem_of_dom.
Qed.

Lemma forget_fields p p' : forget p' = forget p ->
  fp p' = fp p /\ needs_review p' = needs_review p /\ parts p' = parts p /\ dh p' = dh p /\ ro p' = ro p /\
  first_seen p' = first_seen p.
Proof. destruct p, p'. unfold forget, with_review, needs_review. cbn. by intros [=]; subst. Qed.

Lemma forget_reported p p' new : forget p' = forget p -> reported p' new = reported p new.
Proof. intros (H1 & H2 & H3 & H4 & H5 & _)%forget_fields. unfold reported. by rewrite H1, H2, H3, H4, H5. Qed.

Lemma forget_severity p p' tool : forget p' = forget p ->
  annotation_downgrade p' tool = annotation_downgrade p tool.
Proof. intros (_ & _ & _ & H4 & H5 & _)%forget_fields. unfold annotation_downgrade. by rewrite H4, H5. Qed.

Lemma forget_content p p' new : forget p' = forget p ->
  definition_content_changed p' new = definition_content_changed p new.
Proof. intros (_ & _ & H3 & _)%forget_fields. unfold definition_content_changed. by rewrite H3. Qed.

(** What is risky stays so while the tool's own pin stays, whatever else is pinned. *)
Lemma risky_stays pins pins' tool source n :
  forget <$> (pins' !! n) = forget <$> (pins !! n) -> dom pins ⊆ dom pins' ->
  risky pins tool source n = true -> risky pins' tool source n = true.
Proof.
  intros Hn Hdom. unfold Pins.risky. pose proof (established_mono _ _ Hdom (server_of n)) as Hest.
  destruct (pins !! n) as [p|] eqn:Ep, (pins' !! n) as [p'|] eqn:Ep'; try done.
  - apply (inj Some (forget p')) in Hn. rewrite (forget_reported _ _ _ Hn), (forget_severity _ _ _ Hn), (forget_content _ _ _ Hn).
    rewrite (proj1 (proj2 (forget_fields _ _ Hn))).
    assert (Hs : server_of n ∈ established pins) by (apply established_spec; exists n; rewrite Ep; eauto).
    by rewrite (bool_decide_eq_true_2 _ Hs), (bool_decide_eq_true_2 _ (Hest Hs)).
  - by destruct (bool_decide (_ ∈ established pins)), (bool_decide (_ ∈ established pins')).
Qed.

Lemma similar_dom pins pins' : similar pins pins' -> dom pins' = dom pins.
Proof. intros H. rewrite <- (dom_fmap_L forget pins'), <- (dom_fmap_L forget pins). by rewrite H. Qed.

Lemma next_dom defer clock stamp c pins : dom pins ⊆ dom (next defer clock stamp c pins).
Proof.
  intros n [p Hp]%elem_of_dom. apply elem_of_dom. unfold next.
  assert (Hr : is_Some (rebaseline stamp pins (pins_now c) !! n)).
  { rewrite rebaseline_lookup, Hp. by destruct (pins_now c !! n). }
  destruct defer; [|done]. rewrite deferred_lookup, Hp. by case_decide.
Qed.

(** A staged check keeps the pin of every candidate. *)
Lemma staged_keeps clock stamp c pins updated n :
  similar (next true clock stamp c pins) updated ->
  n ∈ quarantine_candidates c (findings clock c pins) ->
  forget <$> (updated !! n) = forget <$> (pins !! n).
Proof.
  intros Hs Hn. rewrite (similar_lookup _ _ n Hs). unfold next. rewrite deferred_lookup.
  by rewrite decide_True by done.
Qed.

(** ** Quarantining *)

(** A record that holds a definition [c] lists under the name [n]. *)
Definition row (c : C) (n : string) (r : json) : Prop :=
  is_object r = true /\ is_legacy_added r = false /\
  exists t, t ∈ pin_values c /\ name_of t.1 = Some n /\ captured_pin r = Some (pin_with_source t.1 t.2).

(** A record that was there, whatever its reason says now. *)
Definition retained (q : Quarantine) (n : string) (r : json) : Prop :=
  exists r0, q !! n = Some r0 /\ get "pending_pin" r = get "pending_pin" r0 /\
    (is_object r0 = true -> is_object r = true) /\ (is_legacy_added r0 = false -> is_legacy_added r = false).

(** [q'] holds what [q] holds and definitions [c] lists; [false] when it is [q]. *)
Record extends (c : C) (qa qa' : Quarantine * bool) : Prop := {
  ext_dom : dom qa.1 ⊆ dom qa'.1;
  ext_row : forall n r, qa'.1 !! n = Some r -> retained qa.1 n r \/ row c n r;
  ext_same : qa'.2 = false -> qa'.1 = qa.1 /\ qa.2 = false
}.

Lemma retained_refl q n r : q !! n = Some r -> retained q n r.
Proof. intros H. by exists r. Qed.

#[local] Instance extends_preorder c : PreOrder (extends c).
Proof.
  split; [split; [done|intros; left; by apply retained_refl|done]|].
  intros qa1 qa2 qa3 [D1 R1 S1] [D2 R2 S2]. split; [by transitivity (dom qa2.1)| |].
  - intros n r [(r0 & H0 & Hc & Ho & Hl)|]%R2; [|by right].
    apply R1 in H0 as [(r1 & H1 & Hc1 & Ho1 & Hl1)|(Ho0 & Hl0 & t & Ht & Hn & Hp)].
    + left. exists r1. split; [done|]. split; [congruence|]. split; auto.
    + right. split; [auto|]. split; [auto|]. exists t. unfold captured_pin. by rewrite Hc.
  - intros [H3 H3']%S2. apply S1 in H3' as [? ?]. split; congruence.
Qed.

Lemma extends_insert c qa n r :
  row c n r -> extends c qa (<[n := r]> qa.1, true).
Proof.
  intros Hr. split; cbn; [set_solver| |done]. intros m r' H. destruct (decide (n = m)) as [->|Hne].
  - rewrite lookup_insert_eq in H. injection H as <-. by right.
  - rewrite lookup_insert_ne in H by done. left. by apply retained_refl.
Qed.

Definition row_added : list string :=
  ["review_required"; "gate_downgrade"; "prev_ro"; "new_ro"; "prev_dh"; "new_dh"; "detail"].

Lemma put_if_get b k k' v r : k <> k' -> get k' (put_if b k v r) = get k' r.
Proof. intros H. destruct b; [by apply get_put_ne|done]. Qed.

Lemma put_if_is_object b k v r : is_object (put_if b k v r) = is_object r.
Proof. destruct b; [apply put_object|done]. Qed.

Lemma quarantine_row_get k ts q events e tool change reason definition pending :
  k ∉ row_added ->
  get k (quarantine_row to_string ts q events e tool change reason definition pending) =
  obj_get k [("ts", JNumber (PosInt ts)); ("server", JString (default "?" (text_at "server" e)));
             ("tool", JString tool); ("reason", JString reason); ("severity", at_key "severity" e);
             ("change", JString change); ("pending_pin", encode pending); ("definition", definition)] /\
  is_object (quarantine_row to_string ts q events e tool change reason definition pending) = true.
Proof.
  intros Hk. unfold row_added in Hk. unfold quarantine_row. rewrite <- get_obj.
  set (base := obj _). assert (Ho : is_object base = true) by done. clearbody base.
  assert (Hf : forall ks r, k ∉ ks ->
    get k (fold_left (fun rec k => match get k e with Some v => put k v rec | None => rec end) ks r) = get k r /\
    is_object (fold_left (fun rec k => match get k e with Some v => put k v rec | None => rec end) ks r) = is_object r).
  { induction ks as [|k' ks IH]; intros r Hks; [done|]. cbn. destruct (IH (match get k' e with Some v => put k' v r | None => r end)) as [H1 H2]; [set_solver|].
    rewrite H1, H2. destruct (get k' e); [|done]. rewrite get_put_ne, put_object by set_solver. done. }
  assert (Hn : forall x, x ∈ row_added -> x <> k) by (unfold row_added; set_solver).
  destruct (annotation_change_detail to_string e) as [d|];
    rewrite ?put_if_is_object, ?put_if_get by (apply Hn; unfold row_added; set_solver);
    match goal with |- context [fold_left _ ?ks ?r] => destruct (Hf ks r ltac:(set_solver)) as [-> ->] end;
    rewrite ?put_if_is_object, ?put_if_get by (apply Hn; unfold row_added; set_solver); done.
Qed.

Lemma find_definition_spec c tool t :
  find_definition c tool = Some t -> t ∈ pin_values c /\ name_of t.1 = Some tool.
Proof.
  unfold find_definition. intros [Ht Hn]%find_some. apply bool_decide_eq_true in Hn.
  split; [by apply list_elem_of_In|done].
Qed.

Lemma quarantine_row_row ts q events e tool change reason definition source c :
  change <> "added" -> (definition, source) ∈ pin_values c -> name_of definition = Some tool ->
  row c tool (quarantine_row to_string ts q events e tool change reason definition (pin_with_source definition source)).
Proof.
  intros Hc Hin Hn. split; [|split].
  - by apply (quarantine_row_get "x"); unfold row_added; set_solver.
  - unfold is_legacy_added, change_of, text_at.
    rewrite (proj1 (quarantine_row_get "change" _ _ _ _ _ _ _ _ _ ltac:(unfold row_added; set_solver))). cbn.
    by apply String.eqb_neq.
  - exists (definition, source). split; [done|]. split; [done|]. unfold captured_pin.
    rewrite (proj1 (quarantine_row_get "pending_pin" _ _ _ _ _ _ _ _ _ ltac:(unfold row_added; set_solver))).
    cbn [obj_get String.eqb mbind option_bind]. apply decode_encode.
Qed.

Lemma strongest_spec events tool :
  match strongest events tool with
  | Some e => e ∈ events /\ is_high_risk_drift e = true /\ tool_in e = Some tool
  | None => forall e, e ∈ events -> is_high_risk_drift e = true -> tool_in e <> Some tool
  end.
Proof.
  unfold strongest. set (l := List.filter _ events).
  assert (Hl : forall e, e ∈ l <-> e ∈ events /\ is_high_risk_drift e = true /\ tool_in e = Some tool).
  { intros e. unfold l. rewrite !list_elem_of_In, filter_In, andb_true_iff, bool_decide_eq_true. done. }
  assert (Hf : forall l' s, match fold_left (fun selected e => match selected with None => Some e
      | Some s => if quarantine_priority s <? quarantine_priority e then Some e else Some s end) l' s with
    | Some e => e ∈ l' \/ s = Some e | None => l' = [] /\ s = None end).
  { induction l' as [|e l' IH]; intros s; cbn; [by destruct s; [right|]|].
    set (s' := match s with None => _ | Some _ => _ end).
    assert (Hs : s' = Some e \/ s' = s) by (destruct s; [unfold s'; destruct (_ <? _)|]; auto).
    specialize (IH s'). destruct (fold_left _ l' s') as [r|].
    - destruct IH as [H|H]; [left; set_solver|]. destruct Hs as [Hs|Hs]; [|right; congruence].
      left. rewrite Hs in H. injection H as ->. set_solver.
    - destruct IH as [_ H]. destruct s; [|done]. unfold s' in H. by destruct (_ <? _). }
  specialize (Hf l None). destruct (fold_left _ l None) as [e|].
  - destruct Hf as [H|]; [|done]. by apply Hl.
  - destruct Hf as [Hnil _]. intros e He Hr Ht. assert (H : e ∈ l) by by apply Hl. rewrite Hnil in H. set_solver.
Qed.

Lemma high_risk_change e : is_high_risk_drift e = true -> change_of e = Some "changed" \/ change_of e = Some "poison".
Proof.
  unfold is_high_risk_drift. intros [_ H]%andb_true_iff. destruct (change_of e) as [ch|]; [|done].
  apply orb_true_iff in H as [H|H]; apply String.eqb_eq in H; subst; auto.
Qed.

Lemma reason_of_some c e tool change :
  change = "changed" \/ change = "poison" -> is_Some (reason_of c e tool change).
Proof. unfold reason_of. intros [-> | ->]; cbn; [|eauto]. repeat case_match; eauto. Qed.

(** One tool: its record is in the store, unless no event names it. *)
Lemma quarantine_tool_spec ts c events qa tool qa' :
  quarantine_tool to_string sha256 ts c events qa tool = Ok qa' ->
  extends c qa qa' /\
  ((exists e, e ∈ events /\ is_high_risk_drift e = true /\ tool_in e = Some tool) -> tool ∈ dom qa'.1).
Proof.
  unfold quarantine_tool. pose proof (strongest_spec events tool) as Hs.
  destruct (strongest events tool) as [e|].
  2: { cbn. intros [= <-]. split; [done|]. intros (e & He & Hr & Ht). by destruct (Hs e He Hr). }
  destruct Hs as (He & Hr & Ht). cbn [mbind option_bind].
  destruct (high_risk_change e Hr) as [Hc|Hc]; rewrite Hc; cbn [mbind option_bind];
    [destruct (reason_of_some c e tool "changed") as [reason ->]; [auto|]
    |destruct (reason_of_some c e tool "poison") as [reason ->]; [auto|]]; cbn [mbind option_bind].
  all: destruct (replaces events e tool (qa.1 !! tool)) eqn:Er.
  all: try (destruct (find_definition c tool) as [[definition source]|] eqn:Ef; [|done];
    intros [= <-]; apply find_definition_spec in Ef as [Hin Hn]; cbn in Hn;
    split; [apply extends_insert; by apply quarantine_row_row|intros _; cbn; set_solver]).
  all: intros [= <-]; split; [done|]; intros _; apply elem_of_dom; destruct (qa.1 !! tool); [eauto|done].
Qed.

Lemma quarantine_tools_spec clock c events qa tools qa' :
  quarantine_tools to_string sha256 clock c events qa tools = Ok qa' ->
  extends c qa qa' /\
  forall tool, tool ∈ tools ->
    (exists e, e ∈ events /\ is_high_risk_drift e = true /\ tool_in e = Some tool) -> tool ∈ dom qa'.1.
Proof.
  revert qa. induction tools as [|tool tools IH]; intros qa; cbn [quarantine_tools].
  { intros [= <-]. split; [done|set_solver]. }
  destruct (quarantine_tool _ _ _ _ _ _ _) as [qa1|] eqn:E; [|done]. intros [H2 H2']%IH.
  apply quarantine_tool_spec in E as [H1 H1']. split; [by transitivity qa1|].
  intros t [->|Ht]%elem_of_cons Hev; [|by apply H2']. apply (ext_dom _ _ _ H2). by apply H1'.
Qed.

Lemma risky_tools_spec events tool :
  tool ∈ risky_tools events <-> exists e, e ∈ events /\ is_high_risk_drift e = true /\ tool_in e = Some tool.
Proof.
  assert (H : tool ∈ risky_tools events <-> tool ∈ omap tool_in (List.filter is_high_risk_drift events)).
  { unfold risky_tools. rewrite <- (sort_strings_in (omap _ _)). split; [apply dedup_incl|apply dedup_superset]. }
  rewrite H, list_elem_of_omap. split.
  - intros (e & He & Ht). apply list_elem_of_In, filter_In in He as [He Hr]. exists e. by rewrite list_elem_of_In.
  - intros (e & He & Hr & Ht). exists e. split; [|done]. apply list_elem_of_In, filter_In.
    by rewrite <- list_elem_of_In.
Qed.

(** ** Quarantining a whole catalog *)

Definition objects (q : Quarantine) : Prop := forall n r, q !! n = Some r -> is_object r = true.

Lemma tamper_record_spec r :
  is_object r = true -> exists r', tamper_record r = Some r' /\ is_object r' = true /\
    get "pending_pin" r' = get "pending_pin" r /\ (is_legacy_added r = false -> is_legacy_added r' = false) /\
    (is_tampered r = true -> r' = r).
Proof.
  intros Ho. unfold tamper_record. destruct (is_tampered r) eqn:Et; [by exists r|].
  destruct r as [| | | | |o]; try done. cbn [set_field mbind option_bind]. eexists. split; [done|].
  split; [done|]. unfold is_legacy_added, change_of, text_at. cbn [get].
  rewrite !obj_get_insert_ne by done. split; [done|]. split; [|done]. intros _.
  by rewrite obj_get_insert_eq.
Qed.

Lemma tamper_records_spec c q :
  objects q -> exists qa, tamper_records q = Some qa /\ extends c (q, false) qa.
Proof.
  intros Ho. unfold tamper_records. rewrite (proj2 (forallb_forall _ _)).
  2: { intros [n r] Hin. cbn. apply list_elem_of_In, elem_of_map_to_list in Hin.
       destruct (tamper_record_spec r (Ho _ _ Hin)) as (r' & -> & _). done. }
  eexists. split; [done|]. split; cbn.
  - intros n [r Hr]%elem_of_dom. apply elem_of_dom. rewrite lookup_omap, Hr. cbn.
    destruct (tamper_record_spec r (Ho _ _ Hr)) as (r' & -> & _). eauto.
  - intros n r'. rewrite lookup_omap. intros (r & Hr & Ht)%bind_Some. left. exists r. split; [done|].
    destruct (tamper_record_spec r (Ho _ _ Hr)) as (r2 & Hr2 & Hob & Hc & Hl & _).
    assert (r2 = r') as -> by congruence. done.
  - intros He. split; [|done]. apply map_eq. intros n. rewrite lookup_omap. destruct (q !! n) as [r|] eqn:Er; [|done].
    cbn. destruct (tamper_record_spec r (Ho _ _ Er)) as (r' & -> & _ & _ & _ & Hsame). f_equal. apply Hsame.
    destruct (is_tampered r) eqn:Et; [done|]. exfalso. apply not_true_iff_false in He. apply He.
    apply existsb_exists. exists (n, r). split; [by apply list_elem_of_In, elem_of_map_to_list|]. cbn. by rewrite Et.
Qed.

Lemma tamper_row_row ts name t c :
  t ∈ pin_values c -> name_of t.1 = Some name -> row c name (tamper_row ts name t.1 (pin_with_source t.1 t.2)).
Proof.
  intros Ht Hn. split; [done|]. split; [done|]. exists t. split; [done|]. split; [done|].
  unfold captured_pin, tamper_row. rewrite get_obj. cbn [obj_get String.eqb mbind option_bind]. apply decode_encode.
Qed.

Lemma tamper_tool_spec ts c qa t :
  t ∈ pin_values c ->
  extends c qa (tamper_tool to_string sha256 ts qa t) /\
  forall n, name_of t.1 = Some n -> n ∈ dom (tamper_tool to_string sha256 ts qa t).1.
Proof.
  intros Ht. unfold tamper_tool. destruct (name_of t.1) as [name|] eqn:En; [|done].
  destruct (qa.1 !! name) as [r|] eqn:Er.
  - destruct (_ && _).
    + split; [done|]. intros n [= <-]. apply elem_of_dom. eauto.
    + split; [apply extends_insert; by apply tamper_row_row|]. intros n [= <-]. cbn. set_solver.
  - split; [apply extends_insert; by apply tamper_row_row|]. intros n [= <-]. cbn. set_solver.
Qed.

Lemma tamper_tools_spec clock c l qa :
  (forall it, it ∈ l -> it.2 ∈ pin_values c) ->
  let qa' := fold_left (fun qa (it : nat * (json * option string)) => tamper_tool to_string sha256 (clock it.1) qa it.2) l qa in
  extends c qa qa' /\ forall it n, it ∈ l -> name_of it.2.1 = Some n -> n ∈ dom qa'.1.
Proof.
  revert qa. induction l as [|it l IH]; intros qa Hl; cbn; [split; [done|set_solver]|].
  destruct (tamper_tool_spec (clock it.1) c qa it.2 ltac:(apply Hl; set_solver)) as [H1 H1'].
  destruct (IH (tamper_tool to_string sha256 (clock it.1) qa it.2) ltac:(intros; apply Hl; set_solver)) as [H2 H2'].
  cbn in H2, H2'. split; [by etransitivity|]. intros it' n [->|Hin]%elem_of_cons Hn; [|by eapply H2'].
  apply (ext_dom _ _ _ H2). by apply H1'.
Qed.

(** A quarantine starts from the store, or from none when it is known to be gone. *)
Definition opened (s : Stores) (q : Quarantine) : Prop :=
  load_quarantine s = Ok q \/ load_quarantine s = Err AbsentNotFresh /\ q = ∅.

Definition quarantine_post (c : C) (events : list json) (r : result bool Failure) (w w' : World) : Prop :=
  same_pins (stores w) (stores w') /\ remembered w' = remembered w /\
  match r with
  | Ok added =>
      exists q q', opened (stores w) q /\ extends c (q, false) (q', added) /\
        quarantine_candidates c events ⊆ dom q' /\ resolved (stores w') = true /\
        quarantine_file (stores w') = (if added then Holds q' else quarantine_file (stores w))
  | Err _ => quarantine_file (stores w') = quarantine_file (stores w)
  end.

Lemma quarantined_tools c events q w :
  objects q ->
  wp (if baseline_tamper_detected events then tamper_catalog to_string sha256 c q
      else quarantine_risky to_string sha256 c events q)
     (fun r w' => quiet w w' /\ match r with
        | Ok qa => extends c (q, false) qa /\ quarantine_candidates c events ⊆ dom qa.1
        | Err _ => True
        end) w.
Proof.
  intros Ho. unfold quarantine_candidates. destruct (baseline_tamper_detected events).
  - unfold tamper_catalog. destruct (tamper_records_spec c q Ho) as (qa & -> & Hqa).
    apply wp_bind, wp_ret, wp_bind, wp_readings. intros t w' Hw. apply wp_ret. split; [done|].
    assert (Hl : forall it : nat * (json * option string), it ∈ imap pair (pin_values c) -> it.2 ∈ pin_values c).
    { intros it [i Hi]%list_elem_of_lookup. rewrite list_lookup_imap in Hi.
      destruct (pin_values c !! i) eqn:E; [|done]. injection Hi as <-. by eapply list_elem_of_lookup_2. }
    destruct (tamper_tools_spec t c (imap pair (pin_values c)) qa Hl) as [H1 H2]. split; [by etransitivity|].
    intros n. rewrite elem_of_list_to_set. unfold catalog_names, values. rewrite list_elem_of_omap.
    intros (v & Hv & Hn). apply list_elem_of_fmap in Hv as (t0 & -> & Ht0).
    apply list_elem_of_lookup in Ht0 as [i Hi]. apply (H2 (i, t0)); [|done].
    apply list_elem_of_lookup. exists i. by rewrite list_lookup_imap, Hi.
  - unfold quarantine_risky. apply wp_bind, wp_readings. intros t w' Hw. apply wp_of_result. split; [done|].
    destruct (quarantine_tools _ _ _ _ _ _ _) as [qa|] eqn:E; [|done].
    apply quarantine_tools_spec in E as [H1 H2]. split; [done|]. intros n.
    rewrite elem_of_list_to_set, list_elem_of_omap. intros (e & He & Hn).
    apply list_elem_of_In, filter_In in He as [He Hr]. apply list_elem_of_In in He.
    apply H2; [apply risky_tools_spec|]; by exists e.
Qed.

Lemma apply_quarantine_spec c events w :
  (forall q, load_quarantine (stores w) = Ok q -> objects q) ->
  wp (apply_quarantine to_string sha256 c events) (fun r w' => quarantine_post c events r w w') w.
Proof.
  intros Ho. apply wp_bind, wp_store_path; [|by intros; split; [|split]]. intros Hr. apply wp_lock.
  2: { intros e w' [Hs Hm]. unfold quarantine_post. by rewrite Hs. }
  intros w1 [Hs1 Hm1]. unfold store_to_extend. apply wp_bind, wp_bind, wp_read, wp_of_result.
  rewrite Hs1. destruct (match load_quarantine (stores w) with Ok _ => _ | Err _ => _ end) as [q|e] eqn:Eq.
  2: { unfold quarantine_post. by rewrite Hs1. }
  assert (Hop : opened (stores w) q /\ objects q).
  { unfold opened. destruct (load_quarantine (stores w)) as [q0|[|what]] eqn:El; [|injection Eq as <-|done].
    - injection Eq as ->. split; [by left|]. by apply Ho.
    - split; [by right|]. by intros n r. }
  destruct Hop as [Hop Hob]. apply wp_bind. eapply wp_mono; [by apply quarantined_tools|].
  intros r w2 [[Hs2 Hm2] Hr2]. destruct r as [[q' added]|e]; [destruct Hr2 as [Hext Hcand]|].
  2: { unfold quarantine_post. by rewrite Hs2, Hs1, Hm2, Hm1. }
  apply wp_bind. destruct added.
  - eapply wp_mono; [apply save_quarantine_spec|]. intros r w3 [Hp Hm3 Hf Hrs].
    rewrite Hs2, Hs1 in *. rewrite Hm2, Hm1 in Hm3. destruct r as [[]|e].
    + apply wp_ret. split; [done|]. split; [done|]. exists q, q'. by repeat (split; [done|]); auto.
    + by split.
  - apply wp_ret, wp_ret. unfold quarantine_post. rewrite Hs2, Hs1, Hm2, Hm1. split; [done|]. split; [done|].
    by exists q, q'.
Qed.

(** ** Accepting what was captured *)

(** Written by a change of the baseline, or left as it was. *)
Definition rebased (s s' : Stores) (f : Pins -> Pins) : Prop :=
  load_pins s' = load_pins s \/
  exists pins, usable_pins (load_pins s) = Some pins /\ usable_pins (load_pins s') = Some (f pins).

Definition accept_post (r : result unit Failure) (w w' : World) : Prop :=
  resolved (stores w') = resolved (stores w) /\ legacy_quarantine (stores w') = legacy_quarantine (stores w) /\
  (stores w' = stores w \/
   exists q pending stamp, load_quarantine (stores w) = Ok q /\ pending_pins (map_to_list q) = Ok pending /\ pending <> [] /\
     rebased (stores w) (stores w') (fun pins => merge_all pins stamp pending) /\
     quarantine_file (stores w') =
       match r with Ok _ => Holds (settle_all pending q) | Err _ => quarantine_file (stores w) end).

Lemma trusted_pins_spec Q w :
  (forall pins, usable_pins (load_pins (stores w)) = Some pins -> Q (Ok pins) w) ->
  (forall e, Q (Err (Failed e)) w) -> wp trusted_pins Q w.
Proof.
  intros H1 H2. apply wp_bind, wp_read, wp_of_result. destruct (usable_pins _) as [pins|]; [by apply H1|apply H2].
Qed.

(** Changing the baseline as [f] says, under the lock. *)
Lemma rewrite_pins_spec (m : M Pins) (f : Z -> Pins -> Pins) (base : Pins -> Prop) w :
  wp m (fun r w' => quiet w w' /\ forall pins, r = Ok pins -> base pins /\
    (usable_pins (load_pins (stores w)) = Some pins \/ forall stamp, f stamp pins <> pins)) w ->
  wp (pins ← m; stamp ← epoch_millis; save_if_changed pins (f stamp pins))
     (fun r w' => exists stamp, same_quarantine (stores w) (stores w') /\
        match r with
        | Ok _ => exists pins, base pins /\ usable_pins (load_pins (stores w')) = Some (f stamp pins)
        | Err _ => load_pins (stores w') = load_pins (stores w)
        end) w.
Proof.
  intros Hm. apply wp_bind. eapply wp_mono; [exact Hm|]. intros [pins|e] w1 [[Hs1 _] H1].
  2: { exists 0. by rewrite Hs1. }
  destruct (H1 pins eq_refl) as [Hb Hp]. apply wp_bind, wp_millis. intros stamp w2 [Hs2 _].
  eapply wp_mono; [apply (save_if_changed_spec pins); rewrite Hs2, Hs1; naive_solver|].
  intros r w3 [Hq Hl]. exists stamp. rewrite Hs2, Hs1 in *. split; [done|]. destruct r; [by exists pins|done].
Qed.

Lemma accept_quarantined_spec w : wp accept_quarantined_pins (fun r w' => accept_post r w w') w.
Proof.
  apply wp_bind, wp_store_path; [|intros; split; [done|split; [done|by left]]]. intros Hr. apply wp_lock.
  2: { intros e w1 [Hs _]. unfold accept_post. rewrite Hs. auto. }
  intros w1 [Hs1 _]. apply wp_bind, wp_read, wp_bind, wp_of_result. rewrite Hs1.
  destruct (load_quarantine (stores w)) as [q|e] eqn:Eq; [|unfold accept_post; rewrite Hs1; auto].
  apply wp_bind, wp_of_result. destruct (pending_pins (map_to_list q)) as [pending|e] eqn:Ep; [|unfold accept_post; rewrite Hs1; auto].
  case_bool_decide as Hnil; [apply wp_ret; unfold accept_post; rewrite Hs1; auto|].
  apply wp_bind, wp_store_path; [intros _|intros; unfold accept_post; rewrite Hs1; auto].
  apply wp_bind, wp_lock; [|intros e w2 [Hs2 _]; unfold accept_post; rewrite Hs2, Hs1; auto].
  intros w2 [Hs2 _]. eapply wp_mono; [apply (rewrite_pins_spec _ (fun stamp pins => merge_all pins stamp pending)
    (fun pins => usable_pins (load_pins (stores w2)) = Some pins))|].
  { apply trusted_pins_spec; intros; split; (done || naive_solver). }
  rewrite Hs2, Hs1. intros r w3 (stamp & [Hq1 Hq2 Hq3] & Hl). destruct r as [[]|e].
  - eapply wp_mono; [apply save_quarantine_spec|]. intros r w4 [[Hp1 Hp2 [Hp3 _]] _ Hf _].
    split; [congruence|]. split; [congruence|]. right. exists q, pending, stamp. split; [done|]. split; [done|]. split; [done|].
    split; [right; by rewrite Hp1|]. rewrite Hf. by destruct r.
  - split; [done|]. split; [done|]. right. exists q, pending, 0. repeat (split; [done|]). split; [by left|done].
Qed.

Lemma pending_pins_in l pending n p :
  pending_pins l = Ok pending -> (n, p) ∈ pending ->
  exists r p0, (n, r) ∈ l /\ accepts r = true /\ captured_pin r = Some p0 /\
    p = with_review (review_pending p0 || review_required r) (review_logged_events p0) p0.
Proof.
  revert pending. induction l as [|[n' r'] l IH]; intros pending; cbn [pending_pins]; [intros [= <-]; set_solver|].
  destruct (pending_of n' r') as [[p'|]|e] eqn:E, (pending_pins l) as [rest|e']; try done; intros [= <-].
  - intros [[= -> ->]|H]%elem_of_cons.
    + exists r'. unfold pending_of in E. destruct (accepts r') eqn:Ea; [|done]. cbn [negb] in E. unfold captured_pin.
      destruct (get "pending_pin" r') as [v|]; [|done]. cbn [mbind option_bind].
      destruct (decode v) as [p0|] eqn:Ed; [|done]. injection E as <-. exists p0. split; [set_solver|done].
    + apply IH in H as (r & p0 & H & ?); [|done]. exists r, p0. split; [set_solver|done].
  - intros H. apply IH in H as (r & p0 & H & ?); [|done]. exists r, p0. split; [set_solver|done].
Qed.

(** A pin is merged only from the record of the same tool. *)
Lemma merge_all_lookup pins stamp pending n :
  merge_all pins stamp pending !! n = pins !! n \/
  exists p, (n, p) ∈ pending /\ merge_all pins stamp pending !! n = Some (merge_pending_pin (pins !! n) p stamp).
Proof.
  unfold merge_all. set (F := fun (updated : Pins) np => _).
  assert (H : forall l (acc : Pins), fold_left F l acc !! n = acc !! n \/
    exists p, (n, p) ∈ l /\ fold_left F l acc !! n = Some (merge_pending_pin (pins !! n) p stamp)).
  { induction l as [|[m p] l IH]; intros acc; [by left|]. cbn [fold_left].
    destruct (IH (F acc (m, p))) as [H|(p' & Hp & H)].
    - destruct (decide (m = n)) as [->|Hne].
      + right. exists p. split; [set_solver|]. rewrite H. unfold F. cbn. by rewrite lookup_insert_eq.
      + left. rewrite H. unfold F. cbn. by rewrite lookup_insert_ne.
    - right. exists p'. split; [set_solver|done]. }
  apply H.
Qed.

Lemma settle_record_spec p r :
  is_object (settle_record p r) = is_object r /\ is_legacy_added (settle_record p r) = is_legacy_added r.
Proof.
  destruct r as [| | | | |o]; try done. split; [done|]. unfold is_legacy_added, change_of, text_at. cbn.
  by rewrite obj_get_remove_ne, obj_get_insert_ne by done.
Qed.

Lemma settle_all_dom pending q : dom (settle_all pending q) = dom q.
Proof.
  unfold settle_all. revert q. induction pending as [|np pending IH]; intros q; [done|]. cbn. rewrite IH.
  apply dom_alter_L.
Qed.

Lemma settle_all_keeps (P : json -> Prop) pending q :
  (forall p r, P r -> P (settle_record p r)) -> (forall n r, q !! n = Some r -> P r) ->
  forall n r, settle_all pending q !! n = Some r -> P r.
Proof.
  intros HP. unfold settle_all. revert q. induction pending as [|np pending IH]; intros q Hq; [done|]. cbn.
  apply IH. intros n r. destruct (decide (np.1 = n)) as [->|Hne].
  - rewrite lookup_alter_eq. intros (r0 & H & ->)%fmap_Some. apply HP. by eapply Hq.
  - rewrite lookup_alter_ne by done. apply Hq.
Qed.

(** ** Releasing *)

(** The baseline a release of a record starts from. *)
Definition repairable (s : Stores) (tamper : bool) (pins : Pins) : Prop :=
  usable_pins (load_pins s) = Some pins \/
  usable_pins (load_pins s) = None /\ tamper = true /\ pins = ∅.

Lemma pins_to_repair_spec tamper Q w :
  (forall pins, repairable (stores w) tamper pins -> Q (Ok pins) w) ->
  (forall e, Q (Err (Failed e)) w) -> wp (pins_to_repair tamper) Q w.
Proof.
  intros H1 H2. apply wp_bind, wp_read, wp_of_result. destruct (usable_pins _) as [pins|] eqn:E.
  - apply H1. by left.
  - destruct tamper; [apply H1; by right|apply H2].
Qed.

(** The record of [tool], and what the baseline becomes when it is released. *)
Record releasing (s : Stores) (q : Quarantine) (tool : string) (record : json) (pending : option Pin) : Prop := {
  rel_loaded : load_quarantine s = Ok q;
  rel_record : q !! tool = Some record;
  rel_pending : release_pending_pin tool record = Ok pending
}.

(** A release that succeeds has pinned what the record captured, and only then removed the
    record; one that fails keeps every record. *)
Definition release_post (tool : string) (r : result bool Failure) (w w' : World) : Prop :=
  resolved (stores w') = resolved (stores w) /\ legacy_quarantine (stores w') = legacy_quarantine (stores w) /\
  ((stores w' = stores w /\ r <> Ok true) \/
   exists q record pending stamp, releasing (stores w) q tool record pending /\
     (match r with Ok b => b = true | Err _ => False end \/ quarantine_file (stores w') = quarantine_file (stores w)) /\
     (load_pins (stores w') = load_pins (stores w) /\ r <> Ok true \/
      exists pins, repairable (stores w) (is_tampered record) pins /\
        usable_pins (load_pins (stores w')) =
          Some (apply_release_pin pins tool pending (has_definition record) stamp)) /\
     (r = Ok true -> resolved (stores w') = true /\ quarantine_file (stores w') = Holds (delete tool q))).

Lemma release_post_quiet tool r w w1 w' : quiet w w1 -> release_post tool r w1 w' -> release_post tool r w w'.
Proof. intros [Hs _]. unfold release_post. by rewrite Hs. Qed.

Lemma release_post_same tool r w w' :
  stores w' = stores w -> r <> Ok true -> release_post tool r w w'.
Proof. intros Hs Hr. unfold release_post. rewrite Hs. auto. Qed.

Lemma apply_release_pin_tool pins tool pending reviewed stamp :
  is_Some (apply_release_pin pins tool pending reviewed stamp !! tool).
Proof. unfold apply_release_pin. rewrite lookup_insert_eq. eauto. Qed.

Lemma release_inner_spec tool w : wp (release_inner tool) (fun r w' => release_post tool r w w') w.
Proof.
  unfold release_inner. apply wp_bind, wp_read, wp_bind, wp_of_result.
  destruct (load_quarantine (stores w)) as [q|e] eqn:Eq; [|by apply release_post_same].
  destruct (q !! tool) as [record|] eqn:Et; [|by apply wp_ret, release_post_same].
  apply wp_bind, wp_of_result. destruct (release_pending_pin tool record) as [pending|e] eqn:Ep; [|by apply release_post_same].
  apply wp_bind, wp_store_path; [intros _|by intros; apply release_post_same].
  apply wp_bind, wp_lock; [|intros e w1 [Hs1 _]; by apply release_post_same].
  intros w1 [Hs1 _]. eapply wp_mono; [apply (rewrite_pins_spec _
    (fun stamp pins => apply_release_pin pins tool pending (has_definition record) stamp)
    (repairable (stores w1) (is_tampered record)))|].
  { apply pins_to_repair_spec; [|done]. intros pins Hp. split; [done|]. intros ? [= <-]. split; [done|].
    destruct Hp as [Hp|(_ & _ & ->)]; [by left|right]. intros stamp Hemp.
    destruct (apply_release_pin_tool ∅ tool pending (has_definition record) stamp) as [p Hp]. by rewrite Hemp in Hp. }
  rewrite Hs1. intros r w2 (stamp & [Hq1 Hq2 Hq3] & Hl). destruct r as [[]|e].
  2: { split; [done|]. split; [done|]. right. exists q, record, pending, 0. split; [done|].
       split; [by right|]. split; [by left|done]. }
  apply wp_bind. eapply wp_mono; [apply save_quarantine_spec|]. intros r w3 [[Hp1 Hp2 [Hp3 _]] _ Hf Hrs].
  assert (Hl' : exists pins, repairable (stores w) (is_tampered record) pins /\
    usable_pins (load_pins (stores w3)) = Some (apply_release_pin pins tool pending (has_definition record) stamp))
    by (by rewrite Hp1).
  destruct r as [[]|e].
  - apply wp_ret. split; [congruence|]. split; [congruence|]. right. exists q, record, pending, stamp. split; [done|].
    split; [by left|]. split; [by right|]. by auto.
  - split; [congruence|]. split; [congruence|]. right. exists q, record, pending, stamp. split; [done|].
    split; [right; congruence|]. split; [by right|done].
Qed.

(** The entry points check the record against what the user saw first. *)
Lemma release_spec tool w : wp (release tool) (fun r w' => release_post tool r w w') w.
Proof.
  apply wp_bind, wp_store_path; [intros _|by intros; apply release_post_same]. apply wp_lock.
  - intros w1 Hw. eapply wp_mono; [apply release_inner_spec|]. intros r w2. by apply release_post_quiet.
  - intros e w1 [Hs _]. by apply release_post_same.
Qed.

Ltac release_guard :=
  match goal with
  | |- wp (fail _) _ _ => by apply wp_fail, release_post_same
  | |- wp (release_inner _) _ _ =>
      eapply wp_mono; [apply release_inner_spec|intros ? ?; by apply release_post_quiet]
  end.

Lemma release_record_spec tool id w :
  wp (release_record to_string sha256 tool id) (fun r w' => release_post tool r w w') w.
Proof.
  apply wp_bind, wp_store_path; [intros _|by intros; apply release_post_same]. apply wp_lock.
  2: { intros e w1 [Hs _]. by apply release_post_same. }
  intros w1 Hw. pose proof (quiet_stores _ _ Hw) as Hs1. apply wp_bind, wp_read, wp_bind, wp_of_result. rewrite Hs1.
  destruct (load_quarantine (stores w)) as [q|e]; [|by apply release_post_same].
  destruct (q !! tool) as [record|]; [destruct (String.eqb _ _)|]; release_guard.
Qed.

Lemma release_definition_spec tool f w :
  wp (release_definition tool f) (fun r w' => release_post tool r w w') w.
Proof.
  apply wp_bind, wp_store_path; [intros _|by intros; apply release_post_same]. apply wp_lock.
  2: { intros e w1 [Hs _]. by apply release_post_same. }
  intros w1 Hw. pose proof (quiet_stores _ _ Hw) as Hs1. apply wp_bind, wp_read, wp_bind, wp_of_result. rewrite Hs1.
  destruct (load_quarantine (stores w)) as [q|e]; [|by apply release_post_same].
  destruct (q !! tool) as [record|]; [|release_guard].
  destruct (review_required record); [release_guard|]. destruct (captured_fp record); [|release_guard].
  destruct (String.eqb _ _); release_guard.
Qed.

(** What a release pins has the fingerprint the record captured. *)
Lemma apply_release_fp pins tool p reviewed stamp :
  fp <$> (apply_release_pin pins tool (Some p) reviewed stamp !! tool) = Some (fp p).
Proof.
  unfold apply_release_pin. rewrite !lookup_insert_eq. cbn. by destruct (pins !! tool).
Qed.

Lemma apply_release_other pins tool pending reviewed stamp n :
  n <> tool -> apply_release_pin pins tool pending reviewed stamp !! n = pins !! n.
Proof.
  intros H. unfold apply_release_pin. rewrite lookup_insert_ne by done.
  destruct pending; [by rewrite lookup_insert_ne by done|done].
Qed.

Lemma apply_release_fp_none pins tool reviewed stamp :
  fp <$> (apply_release_pin pins tool None reviewed stamp !! tool) =
  Some (default "released-without-baseline" (fp <$> pins !! tool)).
Proof. unfold apply_release_pin. rewrite lookup_insert_eq. cbn. by destruct (pins !! tool). Qed.

(** ** Reviews, empty stores, staged acceptance *)

Lemma wp_reviews Q w :
  (forall w', stores w' = stores w -> remembered w' = refresh_reviews (stores w) (remembered w) ->
     Q (Ok (refresh_reviews (stores w) (remembered w))) w') -> wp cached_review_pins Q w.
Proof. intros H. by apply H. Qed.

(** A definition review changes no definition: a pin keeps its fingerprint, what it says of
    the definition, and whether a review is owed. *)
Definition settled (p : Pin) : Pin := with_retired false (forget p).
Definition reviews_only (pins pins' : Pins) : Prop := settled <$> pins' = settled <$> pins.

Lemma settled_fields p p' : settled p' = settled p ->
  fp p' = fp p /\ needs_review p' = needs_review p /\ parts p' = parts p /\ dh p' = dh p /\ ro p' = ro p /\
  first_seen p' = first_seen p.
Proof. destruct p, p'. unfold settled, with_retired, forget, with_review, needs_review. cbn. by intros [=]; subst. Qed.

Definition reconcile_post (gone : bool) (servers : list (string * list string)) (present : gset string)
    (r : result unit Failure) (w w' : World) : Prop :=
  resolved (stores w') = resolved (stores w) /\ legacy_quarantine (stores w') = legacy_quarantine (stores w) /\
  (stores w' = stores w \/
   exists pins (absent : gset string), load_pins (stores w) = Loaded pins /\
     (forall n, n ∈ absent -> exists p, pins !! n = Some p /\ needs_review p = true) /\
     (exists pins', load_pins (stores w') = Loaded pins' /\ reviews_only pins pins') /\
     (quarantine_file (stores w') = quarantine_file (stores w) \/
      exists q, opened (stores w) q /\
        quarantine_file (stores w') = Holds (filter (fun kv => kv.1 ∉ absent) q))).

Lemma reconciled_settled gone servers present n p : settled (reconciled gone servers present n p) = settled p.
Proof.
  unfold reconciled. destruct (retires _ _ _ _ _); [by destruct p|]. destruct (returns _ _ _); [|done]. by destruct p.
Qed.

Lemma reconciled_reviews gone servers present pins :
  reviews_only pins (map_imap (fun name p => Some (reconciled gone servers present name p)) pins).
Proof.
  apply map_eq. intros n. rewrite !lookup_fmap, map_lookup_imap. destruct (pins !! n) as [p|]; [|done]. cbn.
  by rewrite reconciled_settled.
Qed.

Lemma reconcile_spec gone servers present w :
  wp (reconcile_definition_reviews gone servers present) (fun r w' => reconcile_post gone servers present r w w') w.
Proof.
  assert (Hsame : forall r w', stores w' = stores w -> reconcile_post gone servers present r w w').
  { intros r w' H. unfold reconcile_post. rewrite H. auto. }
  apply wp_bind, wp_reviews. intros w1 Hs1 _. destruct (_ && _); [by apply wp_ret, Hsame|].
  apply wp_bind, wp_store_path; [intros _|by intros; apply Hsame].
  apply wp_lock; [|intros e w2 [Hs2 _]; apply Hsame; congruence]. intros w2 [Hs2 _].
  apply wp_lock; [|intros e w3 [Hs3 _]; apply Hsame; congruence]. intros w3 [Hs3 _].
  assert (Hs : stores w3 = stores w) by congruence. clear Hs1 Hs2 Hs3.
  apply wp_bind, wp_read. rewrite Hs. destruct (load_pins (stores w)) as [|pins|] eqn:El; [by apply wp_ret, Hsame| |by apply wp_ret, Hsame].
  set (absent := dom _). set (returned := dom _). cbv zeta.
  destruct (bool_decide (absent = ∅) && bool_decide (returned = ∅)); [by apply wp_ret, Hsame|]. clear returned.
  assert (Habs : forall n, n ∈ absent -> exists p, pins !! n = Some p /\ needs_review p = true).
  { intros n [p Hp]%elem_of_dom. apply map_lookup_filter_Some in Hp as [Hp Hr]. exists p. split; [done|].
    unfold retires in Hr. cbn in Hr. by destruct (needs_review p); rewrite ?andb_false_r in Hr. }
  apply wp_bind. eapply (wp_mono _ (fun r w' => same_pins (stores w) (stores w') /\
    (quarantine_file (stores w') = quarantine_file (stores w) \/
     exists q : Quarantine, opened (stores w) q /\
       quarantine_file (stores w') = Holds (filter (fun kv : string * json => kv.1 ∉ absent) q)))).
  - case_bool_decide; [apply wp_ret; rewrite Hs; split; [done|by left]|]. apply wp_bind, wp_of_result.
    destruct (match load_quarantine (stores w) with Ok _ => _ | Err _ => _ end) as [q|e] eqn:Eq; [|rewrite Hs; split; [done|by left]].
    eapply wp_mono; [apply save_quarantine_spec|]. intros r w4 [Hp _ Hf _]. rewrite Hs in *. split; [done|].
    destruct r; [|by left]. right. exists q. split; [|done]. unfold opened.
    destruct (load_quarantine (stores w)) as [|[|]]; [by injection Eq as ->; left|by injection Eq as <-; right|done].
  - intros r w4 [[Hp1 Hp2 [Hp3 _]] Hf]. destruct r as [[]|e].
    + eapply wp_mono; [apply save_pins_spec|]. intros r w5 [[Hq1 Hq2 Hq3] Hl _].
      split; [congruence|]. split; [congruence|]. right. exists pins, absent. split; [done|]. split; [done|].
      split; [|rewrite Hq2; done]. rewrite Hl, Hp1, El. destruct r.
      * eexists. split; [done|]. apply reconciled_reviews.
      * by exists pins.
    + split; [congruence|]. split; [congruence|]. right. exists pins, absent. split; [done|]. split; [done|].
      split; [|done]. exists pins. by rewrite Hp1, El.
Qed.

Definition ensure_post (r : result unit Failure) (w w' : World) : Prop :=
  same_pins (stores w) (stores w') /\
  (quarantine_file (stores w') = quarantine_file (stores w) /\
     (r = Ok tt -> resolved (stores w) = true -> quarantine_file (stores w) = Absent -> load_pins (stores w) <> Fresh) \/
   quarantine_file (stores w) = Absent /\ load_pins (stores w) = Fresh /\
     quarantine_file (stores w') = Holds ∅).

Lemma ensure_spec w : wp ensure_quarantine_store_for_fresh_pins (fun r w' => ensure_post r w w') w.
Proof.
  apply wp_bind, wp_read. destruct (resolved (stores w)) eqn:Er; [|apply wp_ret; split; [done|left; split; [done|congruence]]].
  apply wp_lock; [|intros e w1 [Hs1 _]; unfold ensure_post; rewrite Hs1; split; [done|by left]].
  intros w1 [Hs1 _]. unfold ensure_post. apply wp_bind, wp_read. rewrite Hs1.
  destruct (quarantine_file (stores w)) eqn:Ef; [|apply wp_ret; rewrite Hs1; split; [done|by left]..].
  destruct (load_pins (stores w)) eqn:El; [|apply wp_ret; rewrite Hs1; split; [done|by left]..].
  apply wp_bind, wp_may_fail; intros w2 [Hs2 _]; [apply wp_modify; cbn|]; rewrite Hs2, Hs1.
  - split; [done|]. by right.
  - split; [done|]. by left.
Qed.

(** ** What a baseline remembers *)

(** A baseline that follows another forgets no identity, and keeps when it was first seen. *)
Definition keeps_seen (p p' : Pin) : Prop := first_seen p <> 0 -> first_seen p' = first_seen p.
Definition remembers (pins pins' : Pins) : Prop :=
  forall n p, pins !! n = Some p -> exists p', pins' !! n = Some p' /\ keeps_seen p p'.

#[local] Instance remembers_preorder : PreOrder remembers.
Proof.
  split; [by intros pins n p H; exists p|]. intros p1 p2 p3 H12 H23 n p Hp.
  destruct (H12 n p Hp) as (p' & Hp' & H). destruct (H23 n p' Hp') as (p'' & Hp'' & H').
  exists p''. split; [done|]. intros Hf. rewrite H' by (by rewrite H). by apply H.
Qed.

Lemma remembers_same (f : Pin -> Pin) pins pins' :
  (forall p p', f p' = f p -> first_seen p' = first_seen p) -> f <$> pins' = f <$> pins -> remembers pins pins'.
Proof.
  intros Hf Hp n p H. assert (Hn : f <$> (pins' !! n) = f <$> (pins !! n)) by (by rewrite <- !lookup_fmap, Hp).
  rewrite H in Hn. destruct (pins' !! n) as [p'|]; [|done]. exists p'. split; [done|]. intros _. apply Hf.
  by apply (inj Some (f p')) in Hn.
Qed.

Lemma similar_remembers pins pins' : similar pins pins' -> remembers pins pins'.
Proof. apply remembers_same. intros p p' H. by apply forget_fields in H as (_ & _ & _ & _ & _ & H). Qed.

Lemma backfilled_seen stamp p l b : keeps_seen p (with_times (backfilled stamp (first_seen p)) l b).
Proof. intros Hf. cbn. unfold backfilled. by rewrite (proj2 (Z.eqb_neq _ _) Hf). Qed.

Lemma merge_seen p fresh stamp : keeps_seen p (merge_pending_pin (Some p) fresh stamp).
Proof. apply backfilled_seen. Qed.

Lemma insert_remembers pins n p' :
  (forall p, pins !! n = Some p -> keeps_seen p p') -> remembers pins (<[n := p']> pins).
Proof.
  intros H m p Hm. destruct (decide (n = m)) as [->|Hne].
  - exists p'. rewrite lookup_insert_eq. auto.
  - exists p. by rewrite lookup_insert_ne.
Qed.

Lemma next_remembers defer clock stamp c pins : remembers pins (next defer clock stamp c pins).
Proof.
  assert (Hr : remembers pins (rebaseline stamp pins (pins_now c))).
  { intros n p Hp. rewrite rebaseline_lookup, Hp. destruct (pins_now c !! n) as [fresh|]; [|by exists p].
    eexists. split; [done|]. apply backfilled_seen. }
  unfold next. destruct defer; [|done]. intros n p Hp. rewrite deferred_lookup. case_decide; [by exists p|].
  by apply Hr.
Qed.

(** Merging captured pins one after the other, each into the baseline there was. *)
Lemma fold_remembers {B} (F : Pins -> B -> Pins) l (pins acc : Pins) :
  (forall acc b, F acc b = acc \/
     exists n fresh stamp, F acc b = <[n := merge_pending_pin (pins !! n) fresh stamp]> acc) ->
  remembers pins acc -> remembers pins (fold_left F l acc).
Proof.
  intros HF. revert acc. induction l as [|b l IH]; intros acc Hacc; [done|]. cbn. apply IH.
  destruct (HF acc b) as [->|(n & fresh & stamp & ->)]; [done|]. intros m p Hp.
  destruct (decide (n = m)) as [->|Hne].
  - rewrite lookup_insert_eq, Hp. eexists. split; [done|]. apply merge_seen.
  - rewrite lookup_insert_ne by done. by apply Hacc.
Qed.

Lemma release_remembers pins tool pending reviewed stamp :
  remembers pins (apply_release_pin pins tool pending reviewed stamp).
Proof.
  intros n p Hp. destruct (decide (n = tool)) as [->|Hne].
  2: { exists p. by rewrite apply_release_other. }
  unfold apply_release_pin. rewrite lookup_insert_eq. eexists. split; [done|].
  destruct pending; rewrite ?lookup_insert_eq, Hp; [apply merge_seen|done].
Qed.

Lemma accept_staged_spec c events w :
  wp (accept_staged_pins to_string sha256 c events) (fun r w' => same_quarantine (stores w) (stores w') /\
    (usable_pins (load_pins (stores w)) = None -> load_pins (stores w') = load_pins (stores w)) /\
    forall pins, usable_pins (load_pins (stores w)) = Some pins ->
      exists pins', usable_pins (load_pins (stores w')) = Some pins' /\ remembers pins pins') w.
Proof.
  assert (Hsame : forall s, same_quarantine s s /\ (usable_pins (load_pins s) = None -> load_pins s = load_pins s) /\
    forall pins, usable_pins (load_pins s) = Some pins ->
      exists pins', usable_pins (load_pins s) = Some pins' /\ remembers pins pins').
  { intros s. split; [done|]. split; [done|]. intros pins Hp. by exists pins. }
  unfold accept_staged_pins. destruct (_ || _); [by apply wp_ret|].
  apply wp_bind, wp_store_path; [intros _|done].
  apply wp_lock; [|intros e w1 [Hs _]; by rewrite Hs]. intros w1 [Hs1 _].
  eapply wp_mono; [eapply (rewrite_pins_spec trusted_pins _ (fun pins => usable_pins (load_pins (stores w1)) = Some pins))|].
  { apply trusted_pins_spec; intros; split; (done || naive_solver). }
  rewrite Hs1. intros r w2 (stamp & Hq & Hl). split; [done|]. destruct r as [[]|e].
  2: { split; [done|]. intros pins Hp. exists pins. by rewrite Hl. }
  destruct Hl as (pins & Hp & Hl). split; [congruence|]. rewrite Hp. intros ? [= <-]. eexists. split; [exact Hl|].
  apply fold_remembers; [|done]. intros acc t. destruct (name_of t.1) as [name|]; [|by left].
  case_bool_decide; [|by left]. right. by eexists _, _, _.
Qed.

(** ** Releasing everything *)

Local Abbreviation fate := (Quarantine.fate to_string sha256).

(** Several records released at once: those that still are what the user saw and whose
    captured pin, if any, decodes. *)
Definition release_all_post (expected : option (gmap string string)) (r : result ReleaseAllOutcome Failure)
    (w w' : World) : Prop :=
  resolved (stores w') = resolved (stores w) /\ legacy_quarantine (stores w') = legacy_quarantine (stores w) /\
  (stores w' = stores w \/
   exists q stamp, load_quarantine (stores w) = Ok q /\ q <> ∅ /\
     (load_pins (stores w') = load_pins (stores w) /\
        quarantine_file (stores w') = quarantine_file (stores w) \/
      exists pins tamper, repairable (stores w) tamper pins /\
        (tamper = true -> exists n r, q !! n = Some r /\ repairs (fate expected n r) = true /\ is_tampered r = true) /\
        usable_pins (load_pins (stores w')) = Some
          (fold_left (fun updated kv => repair stamp updated kv.1 kv.2 (fate expected kv.1 kv.2))
             (List.filter (fun kv => repairs (fate expected kv.1 kv.2)) (map_to_list q)) pins) /\
        (quarantine_file (stores w') = quarantine_file (stores w) \/
         quarantine_file (stores w') =
           Holds (filter (fun kv => repairs (fate expected kv.1 kv.2) = false) q)))).

Lemma repair_fold_some expected stamp l pins :
  l <> [] -> Forall (fun kv => repairs (fate expected kv.1 kv.2) = true) l ->
  exists n, is_Some (fold_left (fun updated kv => repair stamp updated kv.1 kv.2 (fate expected kv.1 kv.2)) l pins !! n).
Proof.
  intros Hl. destruct (rev l) as [|kv l'] eqn:E; [by apply (f_equal (@rev _)) in E; rewrite rev_involutive in E|].
  apply (f_equal (@rev _)) in E. rewrite rev_involutive in E. cbn in E. rewrite E. intros HF.
  apply Forall_app in HF as [_ HF]. apply Forall_cons in HF as [Hr _]. exists kv.1. rewrite fold_left_app. cbn.
  destruct (fate expected kv.1 kv.2); [done| |done]. cbn. apply apply_release_pin_tool.
Qed.

Lemma release_all_spec expected w :
  wp (release_all to_string sha256 expected) (fun r w' => release_all_post expected r w w') w.
Proof.
  assert (Hsame : forall r w', stores w' = stores w -> release_all_post expected r w w').
  { intros r w' H. unfold release_all_post. rewrite H. auto. }
  apply wp_bind, wp_store_path; [intros _|by intros; apply Hsame].
  apply wp_lock; [|intros e w1 [Hs _]; by apply Hsame]. intros w1 [Hs1 _].
  apply wp_bind, wp_read, wp_bind, wp_of_result. rewrite Hs1.
  destruct (load_quarantine (stores w)) as [q|e] eqn:Eq; [|by apply Hsame].
  case_bool_decide as Hq; [by apply wp_ret, Hsame|]. cbv beta zeta.
  set (accepted := List.filter (fun kv => repairs (fate expected kv.1 kv.2)) (map_to_list q)).
  assert (Hacc : forall n r, (n, r) ∈ accepted <-> q !! n = Some r /\ repairs (fate expected n r) = true).
  { intros n r. unfold accepted. rewrite list_elem_of_In, filter_In, <- list_elem_of_In, elem_of_map_to_list. done. }
  set (f := fun (stamp : Z) (pins : Pins) =>
    fold_left (fun updated kv => repair stamp updated kv.1 kv.2 (fate expected kv.1 kv.2)) accepted pins).
  apply wp_bind. eapply (wp_mono _ (fun r w' => exists stamp, same_quarantine (stores w) (stores w') /\
    (load_pins (stores w') = load_pins (stores w) /\ (r = Ok tt -> accepted = []) \/
     exists pins tamper, repairable (stores w) tamper pins /\
       (tamper = true -> exists n r, q !! n = Some r /\ repairs (fate expected n r) = true /\ is_tampered r = true) /\
       usable_pins (load_pins (stores w')) = Some (f stamp pins)))).
  - case_bool_decide as Hnil; [apply wp_ret; exists 0; rewrite Hs1; split; [done|by left]|].
    apply wp_bind, wp_store_path; [intros _|intros; exists 0; rewrite Hs1; split; [done|by left]].
    apply wp_lock; [|intros e w2 [Hs2 _]; exists 0; rewrite Hs2, Hs1; split; [done|by left]]. intros w2 [Hs2 _].
    set (tamper := existsb _ accepted).
    eapply wp_mono; [apply (rewrite_pins_spec _ f (repairable (stores w2) tamper))|].
    + apply pins_to_repair_spec; [|done]. intros pins Hp. split; [done|]. intros ? [= <-]. split; [done|].
      destruct Hp as [Hp|(_ & _ & ->)]; [by left|right]. intros stamp Hemp. unfold f in Hemp.
      destruct (repair_fold_some expected stamp accepted ∅ Hnil) as (n & p & Hp); [|by rewrite Hemp in Hp].
      apply Forall_forall. intros [n r] H. by apply Hacc in H as [_ ?].
    + rewrite Hs2, Hs1. intros r w3 (stamp & Hsame' & Hl). exists stamp. split; [done|]. destruct r; [|by left].
      right. destruct Hl as (pins & Hp & Hl). exists pins, tamper. split; [done|]. split; [|done].
      intros ([n r] & Hin & Ht)%existsb_exists. apply list_elem_of_In, Hacc in Hin as [? ?]. by exists n, r.
  - intros r w2 (stamp & [Hq1 Hq2 Hq3] & Hp).
    assert (Hnone : accepted = [] -> (filter (fun kv => repairs (fate expected kv.1 kv.2) = false) q) = q).
    { intros Hnil. apply map_eq. intros n. rewrite map_lookup_filter. destruct (q !! n) as [rec|] eqn:En; [|done]. cbn.
      rewrite option_guard_True; [done|]. destruct (repairs _) eqn:Er; [|done].
      assert (H : (n, rec) ∈ accepted) by by apply Hacc. rewrite Hnil in H. set_solver. }
    destruct r as [[]|e].
    2: { split; [done|]. split; [done|]. right. exists q, stamp. split; [done|]. split; [done|].
         destruct Hp as [[Hl _]|(pins & tamper & Hr & Ht & Hl)]; [by left|right]. exists pins, tamper.
         repeat (split; [done|]). by left. }
    apply wp_bind. destruct Hp as [[Hl Hnil]|(pins & tamper & Hr & Ht & Hl)].
    + rewrite Hnone, Nat.sub_diag by auto. apply wp_ret, wp_ret. split; [done|]. split; [done|]. right.
      exists q, stamp. split; [done|]. split; [done|]. by left.
    + destruct (0 <? _).
      * eapply wp_mono; [apply save_quarantine_spec|]. intros r w3 [[Hp1 Hp2 [Hp3 _]] _ Hf _].
        destruct r as [[]|e]; [apply wp_ret|]; (split; [congruence|split; [congruence|]]); right; exists q, stamp;
          (split; [done|]); (split; [done|]); right; exists pins, tamper; rewrite Hp1, Hf; repeat (split; [done|]); [by right|by left].
      * apply wp_ret, wp_ret. split; [done|]. split; [done|]. right. exists q, stamp. split; [done|]. split; [done|]. right.
        exists pins, tamper. repeat (split; [done|]). by left.
Qed.

(** ** Any sequence of operations *)

(** Every record the store holds is an object, as every record written is. *)
Definition wf (s : Stores) : Prop := forall q, quarantine_file s = Holds q -> objects q.

Lemma objects_filter (P : string * json -> Prop) `{!forall kv, Decision (P kv)} q : objects q -> objects (filter P q).
Proof. intros Ho n r [Hr _]%map_lookup_filter_Some. by eapply Ho. Qed.

Lemma load_objects s q : wf s -> load_quarantine s = Ok q -> objects q.
Proof.
  intros Hwf. unfold load_quarantine. destruct (negb (resolved s)); [by intros [= <-] n r|].
  destruct (quarantine_file s) as [| |q0] eqn:Ef; [|done|].
  - unfold missing_quarantine_store. destruct (legacy_quarantine s); [done|].
    destruct (load_pins s); try done. by intros [= <-] n r.
  - intros [= <-]. by apply objects_filter, Hwf.
Qed.

Lemma opened_objects s q : wf s -> opened s q -> objects q.
Proof. intros Hwf [H|[_ ->]]; [by eapply load_objects|by intros n r]. Qed.

Lemma wf_file s s' : quarantine_file s' = quarantine_file s -> wf s -> wf s'.
Proof. unfold wf. by intros ->. Qed.

Lemma wf_holds s q : quarantine_file s = Holds q -> objects q -> wf s.
Proof. intros H Ho q'. rewrite H. by intros [= <-]. Qed.

Lemma extends_objects c q qa : objects q -> extends c (q, false) qa -> objects qa.1.
Proof. intros Ho [_ Hr _] n r [(r0 & H & _ & Hor & _)|[H _]]%Hr; [apply Hor; by eapply Ho|done]. Qed.

(** [w'] is what one operation leaves of [w], failed or not. *)
Inductive ran (w w' : World) : Prop :=
| ran_check defer c r :
    check_with_pin_policy to_string sha256 scan_definition profile defer c w = Some (r, w') -> ran w w'
| ran_accept_staged c events r : accept_staged_pins to_string sha256 c events w = Some (r, w') -> ran w w'
| ran_quarantine c events r : apply_quarantine to_string sha256 c events w = Some (r, w') -> ran w w'
| ran_accept r : accept_quarantined_pins w = Some (r, w') -> ran w w'
| ran_release tool r : release tool w = Some (r, w') -> ran w w'
| ran_release_record tool id r : release_record to_string sha256 tool id w = Some (r, w') -> ran w w'
| ran_release_definition tool f r : release_definition tool f w = Some (r, w') -> ran w w'
| ran_release_all expected r : release_all to_string sha256 expected w = Some (r, w') -> ran w w'
| ran_reconcile gone servers present r :
    reconcile_definition_reviews gone servers present w = Some (r, w') -> ran w w'
| ran_ensure r : ensure_quarantine_store_for_fresh_pins w = Some (r, w') -> ran w w'.

Lemma wp_run {A} (m : M A) Q r w w' : wp m Q w -> m w = Some (r, w') -> Q r w'.
Proof. unfold wp. intros H E. by rewrite E in H. Qed.

(** What every operation keeps. *)
Definition persists (w w' : World) : Prop :=
  wf (stores w') /\ forall pins, usable_pins (load_pins (stores w)) = Some pins ->
    exists pins', usable_pins (load_pins (stores w')) = Some pins' /\ remembers pins pins'.

Lemma persists_load w w' : wf (stores w') -> load_pins (stores w') = load_pins (stores w) -> persists w w'.
Proof. intros H Hl. split; [done|]. intros pins Hp. exists pins. by rewrite Hl. Qed.

Lemma persists_check defer c r w w' : wf (stores w) -> check_post defer c r w w' -> persists w w'.
Proof.
  intros Hwf [[_ Hf _] H]. split; [by eapply wf_file|]. intros pins Hp. rewrite Hp in H. destruct r as [events|e].
  - destruct H as (clock & stamp & updated & _ & Hu & Hs). exists updated. split; [done|].
    etransitivity; [apply next_remembers|by apply similar_remembers].
  - exists pins. by rewrite H.
Qed.

Lemma persists_accept r w w' : wf (stores w) -> accept_post r w w' -> persists w w'.
Proof.
  intros Hwf (_ & _ & [H|(q & pending & stamp & Hq & Hp & _ & Hl & Hf)]).
  { apply persists_load; rewrite H; done. }
  split.
  - destruct r as [[]|e]; [|by eapply wf_file]. eapply wf_holds; [exact Hf|]. intros n rec.
    apply (settle_all_keeps (fun rec => is_object rec = true)); [|by eapply load_objects].
    intros p r. by rewrite (proj1 (settle_record_spec p r)).
  - intros pins Hpins. destruct Hl as [Hl|(pins0 & H0 & Hl)]; [exists pins; by rewrite Hl|].
    assert (pins0 = pins) as -> by congruence. eexists. split; [exact Hl|]. apply fold_remembers; [|done].
    intros acc [n p]. right. by exists n, p, stamp.
Qed.

Lemma repairable_usable s tamper pins pins0 :
  usable_pins (load_pins s) = Some pins -> repairable s tamper pins0 -> pins0 = pins.
Proof. intros H [H'|[H' _]]; congruence. Qed.

Lemma persists_release tool r w w' : wf (stores w) -> release_post tool r w w' -> persists w w'.
Proof.
  intros Hwf (_ & _ & [[H _]|(q & record & pending & stamp & [Hq _ _] & Hf & Hl & Hok)]).
  { apply persists_load; rewrite H; done. }
  split.
  - destruct Hf as [Hf|Hf]; [|by eapply wf_file]. destruct r as [b|]; [subst b|done].
    eapply wf_holds; [apply (Hok eq_refl)|]. intros n rec Hn. eapply (load_objects _ _ Hwf Hq).
    by apply lookup_delete_Some in Hn as [_ ?].
  - intros pins Hp. destruct Hl as [[Hl _]|(pins0 & H0 & Hl)]; [exists pins; by rewrite Hl|].
    rewrite (repairable_usable _ _ _ _ Hp H0) in Hl. eexists. split; [exact Hl|]. apply release_remembers.
Qed.

Lemma persists_release_all expected r w w' : wf (stores w) -> release_all_post expected r w w' -> persists w w'.
Proof.
  intros Hwf (_ & _ & [H|(q & stamp & Hq & _ & [[Hl Hf]|(pins0 & tamper & H0 & _ & Hl & Hf)])]).
  - apply persists_load; rewrite H; done.
  - apply persists_load; [by eapply wf_file|done].
  - split.
    + destruct Hf as [Hf|Hf]; [by eapply wf_file|]. eapply wf_holds; [exact Hf|]. apply objects_filter.
      by eapply load_objects.
    + intros pins Hp. rewrite (repairable_usable _ _ _ _ Hp H0) in Hl. eexists. split; [exact Hl|]. clear.
      revert pins. induction (List.filter _ _) as [|kv l IH]; intros pins; [done|]. cbn. etransitivity; [|apply IH].
      destruct (fate expected kv.1 kv.2); [done|apply release_remembers|done].
Qed.

Lemma persists_reconcile gone servers present r w w' :
  wf (stores w) -> reconcile_post gone servers present r w w' -> persists w w'.
Proof.
  intros Hwf (_ & _ & [H|(pins & absent & Hl & _ & (pins' & Hl' & Hr) & Hf)]).
  { apply persists_load; rewrite H; done. }
  split.
  - destruct Hf as [Hf|(q & Hq & Hf)]; [by eapply wf_file|]. eapply wf_holds; [exact Hf|]. apply objects_filter.
    by eapply opened_objects.
  - rewrite Hl, Hl'. intros ? [= <-]. exists pins'. split; [done|]. revert Hr. apply remembers_same.
    intros p p' H. by apply settled_fields in H as (_ & _ & _ & _ & _ & H).
Qed.

Lemma ran_persists w w' : wf (stores w) -> ran w w' -> persists w w'.
Proof.
  intros Hwf [defer c r H|c events r H|c events r H|r H|tool r H|tool id r H|tool f r H|expected r H|gone servers present r H|r H].
  - eapply persists_check; [done|]. by eapply (wp_run _ _ _ _ _ (check_spec defer c w)).
  - apply (wp_run _ _ _ _ _ (accept_staged_spec c events w)) in H as [[_ Hf _] [_ H]]. split; [by eapply wf_file|done].
  - apply (wp_run _ _ _ _ _ (apply_quarantine_spec c events w (fun q => load_objects _ q Hwf))) in H as ([Hl _ _] & _ & H).
    apply persists_load; [|done]. destruct r as [added|e]; [|by eapply wf_file].
    destruct H as (q & q' & Ho & He & _ & _ & Hf). destruct added; [|by eapply wf_file]. eapply wf_holds; [exact Hf|].
    apply (extends_objects c q (q', true)); [by eapply opened_objects|done].
  - eapply persists_accept; [done|]. by eapply (wp_run _ _ _ _ _ (accept_quarantined_spec w)).
  - eapply persists_release; [done|]. by eapply (wp_run _ _ _ _ _ (release_spec tool w)).
  - eapply persists_release; [done|]. by eapply (wp_run _ _ _ _ _ (release_record_spec tool id w)).
  - eapply persists_release; [done|]. by eapply (wp_run _ _ _ _ _ (release_definition_spec tool f w)).
  - eapply persists_release_all; [done|]. by eapply (wp_run _ _ _ _ _ (release_all_spec expected w)).
  - eapply persists_reconcile; [done|]. by eapply (wp_run _ _ _ _ _ (reconcile_spec gone servers present w)).
  - apply (wp_run _ _ _ _ _ (ensure_spec w)) in H as ([Hl _ _] & H). apply persists_load; [|done].
    destruct H as [[Hf _]|(_ & _ & Hf)]; [by eapply wf_file|]. eapply wf_holds; [exact Hf|]. by intros n rec.
Qed.

(** ** What the stores say afterwards *)

Lemma load_not_legacy s q : load_quarantine s = Ok q -> forall n r, q !! n = Some r -> is_legacy_added r = false.
Proof.
  unfold load_quarantine. destruct (negb (resolved s)); [by intros [= <-]|].
  destruct (quarantine_file s) as [| |q0]; [|done|].
  - unfold missing_quarantine_store. destruct (legacy_quarantine s); [done|].
    destruct (load_pins s); try done. by intros [= <-].
  - intros [= <-] n r. by intros [_ H]%map_lookup_filter_Some.
Qed.

Lemma opened_not_legacy s q : opened s q -> forall n r, q !! n = Some r -> is_legacy_added r = false.
Proof. intros [H|[_ ->]]; [by eapply load_not_legacy|done]. Qed.

Lemma load_holds s q :
  resolved s = true -> quarantine_file s = Holds q -> (forall n r, q !! n = Some r -> is_legacy_added r = false) ->
  load_quarantine s = Ok q.
Proof.
  intros Hr Hf Hl. unfold load_quarantine. rewrite Hr, Hf. cbn. f_equal. apply map_filter_id. cbn. eauto.
Qed.

Lemma load_same s s' :
  same_pins s s' -> quarantine_file s' = quarantine_file s -> load_quarantine s' = load_quarantine s.
Proof.
  intros [H1 H2 [H3 _]] Hf. unfold load_quarantine, missing_quarantine_store. by rewrite H1, H2, H3, Hf.
Qed.

(** What [apply_quarantine] leaves, read back. *)
Lemma quarantined_load c events added w w' :
  quarantine_post c events (Ok added) w w' ->
  exists q q', opened (stores w) q /\ opened (stores w') q' /\ dom q ∪ quarantine_candidates c events ⊆ dom q' /\
    (quarantine_candidates c events <> ∅ -> load_quarantine (stores w') = Ok q') /\
    (forall n r, q' !! n = Some r -> retained q n r \/ row c n r) /\
    (load_quarantine (stores w) = Ok q -> load_quarantine (stores w') = Ok q').
Proof.
  intros (Hp & _ & q & q' & Hq & [Hd Hrow Hsame] & Hc & Hr & Hf). cbn in *. exists q, q'. split; [done|].
  assert (Hload : (added = true -> load_quarantine (stores w') = Ok q') /\
    (added = false -> q' = q /\ load_quarantine (stores w') = load_quarantine (stores w))).
  { destruct added; (split; [intros ?; try done|intros ?; try done]).
    - apply load_holds; [done..|]. intros n r [(r0 & H0 & _ & _ & Hl)|(_ & Hl & _)]%Hrow; [|done].
      apply Hl. by eapply opened_not_legacy.
    - split; [by apply Hsame|by apply load_same]. }
  destruct Hload as [Ht Hfa]. split; [|split; [set_solver|split; [|split; [done|]]]].
  - destruct added; [left; by apply Ht|]. destruct (Hfa eq_refl) as [-> H]. unfold opened. by rewrite H.
  - intros Hne. destruct added; [by apply Ht|]. destruct (Hfa eq_refl) as [-> ->].
    destruct Hq as [|[_ ->]]; [done|]. exfalso. apply Hne. set_solver.
  - intros Hq'. destruct added; [by apply Ht|]. by destruct (Hfa eq_refl) as [-> ->].
Qed.

(** ** The type of a record *)

(** A record is an object, and the pin it captured, if it has one, decodes. *)
Definition typed (r : json) : Prop :=
  is_object r = true /\ forall v, get "pending_pin" r = Some v -> is_Some (decode (A := Pin) v).

Definition typed_records (q : Quarantine) : Prop := forall n r, q !! n = Some r -> typed r.
Definition typed_store (s : Stores) : Prop := forall q, quarantine_file s = Holds q -> typed_records q.

Lemma typed_store_wf s : typed_store s -> wf s.
Proof. intros H q Hq n r Hr. by destruct (H q Hq n r Hr). Qed.

Lemma typed_file s s' : quarantine_file s' = quarantine_file s -> typed_store s -> typed_store s'.
Proof. unfold typed_store. by intros ->. Qed.

Lemma typed_holds s q : quarantine_file s = Holds q -> typed_records q -> typed_store s.
Proof. intros H Ht q'. rewrite H. by intros [= <-]. Qed.

Lemma typed_weaken q q' : q' ⊆ q -> typed_records q -> typed_records q'.
Proof. intros Hs H n r Hr. eapply H. by eapply lookup_weaken. Qed.

Lemma typed_load s q : typed_store s -> load_quarantine s = Ok q -> typed_records q.
Proof.
  intros Ht. unfold load_quarantine. destruct (negb (resolved s)); [by intros [= <-] n r|].
  destruct (quarantine_file s) as [| |q0] eqn:Ef; [|done|].
  - unfold missing_quarantine_store. destruct (legacy_quarantine s); [done|].
    destruct (load_pins s); try done. by intros [= <-] n r.
  - intros [= <-]. eapply typed_weaken; [apply map_filter_subseteq|]. by apply Ht.
Qed.

Lemma typed_opened s q : typed_store s -> opened s q -> typed_records q.
Proof. intros Ht [H|[_ ->]]; [by eapply typed_load|by intros n r]. Qed.

Lemma typed_extends c q qa : typed_records q -> extends c (q, false) qa -> typed_records qa.1.
Proof.
  intros Hq He n r Hr. destruct (ext_row _ _ _ He n r Hr) as [(r0 & H0 & Hp & Ho & _)|(Ho & _ & t & _ & _ & Hc)].
  - destruct (Hq n r0 H0) as [H1 H2]. split; [by apply Ho|]. by rewrite Hp.
  - split; [done|]. intros v Hv. unfold captured_pin in Hc. rewrite Hv in Hc. eauto.
Qed.

Lemma settle_record_typed p r : typed r -> typed (settle_record p r).
Proof.
  intros [Ho _]. destruct r as [| | | | |o]; try done. split; [done|]. intros v. cbn. by rewrite obj_get_remove_eq.
Qed.

Lemma released_typed tool r w w' : typed_store (stores w) -> release_post tool r w w' -> typed_store (stores w').
Proof.
  intros Ht (_ & _ & [[-> _]|(q & rec & pending & stamp & [Hq _ _] & Hf & _ & Hok)]); [done|].
  destruct Hf as [Hf|Hf]; [|by eapply typed_file]. destruct r as [b|]; [subst b|done].
  destruct (Hok eq_refl) as [_ Hfile]. eapply typed_holds; [exact Hfile|].
  eapply typed_weaken; [apply delete_subseteq|by eapply typed_load].
Qed.

Lemma ran_typed w w' : typed_store (stores w) -> ran w w' -> typed_store (stores w').
Proof.
  intros Ht [defer c r H|c events r H|c events r H|r H|tool r H|tool id r H|tool f r H|expected r H|gone servers present r H|r H];
    pose proof (typed_store_wf _ Ht) as Hwf.
  - apply (wp_run _ _ _ _ _ (check_spec defer c w)) in H as [[_ Hf _] _]. by eapply typed_file.
  - apply (wp_run _ _ _ _ _ (accept_staged_spec c events w)) in H as [[_ Hf _] _]. by eapply typed_file.
  - apply (wp_run _ _ _ _ _ (apply_quarantine_spec c events w (fun q => load_objects _ q Hwf))) in H as (_ & _ & H).
    destruct r as [[]|e]; [|by destruct H as (? & ? & _ & _ & _ & _ & Hf); eapply typed_file|by eapply typed_file].
    destruct H as (q & q' & Ho & He & _ & _ & Hf). eapply typed_holds; [exact Hf|].
    apply (typed_extends c q (q', true)); [by eapply typed_opened|done].
  - apply (wp_run _ _ _ _ _ (accept_quarantined_spec w)) in H as (_ & _ & [->|(q & pending & stamp & Hq & _ & _ & _ & Hf)]); [done|].
    destruct r; [|by eapply typed_file]. eapply typed_holds; [exact Hf|]. intros n rec.
    apply settle_all_keeps; [intros; by apply settle_record_typed|]. by eapply typed_load.
  - apply (wp_run _ _ _ _ _ (release_spec tool w)) in H. by eapply released_typed.
  - apply (wp_run _ _ _ _ _ (release_record_spec tool id w)) in H. by eapply released_typed.
  - apply (wp_run _ _ _ _ _ (release_definition_spec tool f w)) in H. by eapply released_typed.
  - apply (wp_run _ _ _ _ _ (release_all_spec expected w)) in H as (_ & _ & [->|(q & stamp & Hq & _ & [[_ Hf]|(_ & _ & _ & _ & _ & [Hf|Hf])])]);
      [done|by eapply typed_file|by eapply typed_file|].
    eapply typed_holds; [exact Hf|]. eapply typed_weaken; [apply map_filter_subseteq|by eapply typed_load].
  - apply (wp_run _ _ _ _ _ (reconcile_spec gone servers present w)) in H as (_ & _ & [->|(_ & absent & _ & _ & _ & [Hf|(q & Ho & Hf)])]);
      [done|by eapply typed_file|]. eapply typed_holds; [exact Hf|].
    eapply typed_weaken; [apply map_filter_subseteq|by eapply typed_opened].
  - apply (wp_run _ _ _ _ _ (ensure_spec w)) in H as (_ & [[Hf _]|(_ & _ & Hf)]); [by eapply typed_file|].
    eapply typed_holds; [exact Hf|]. by intros n r0.
Qed.

(** ** The guarantees *)

(** A staged check consumes no drift: whatever lock, log line or write fails, and however
    the check ends, every tool whose definition is risky against the baseline keeps the
    fingerprint it was approved with and is still risky against the baseline that follows,
    so a crash before the quarantine is durable loses nothing; the quarantine file is not
    touched, and a lost baseline is not replaced. *)
Theorem staged_check_consumes_no_drift c w :
  wp (check_staged to_string sha256 scan_definition profile c) (fun r w' =>
    quarantine_file (stores w') = quarantine_file (stores w) /\
    match usable_pins (load_pins (stores w)) with
    | None => load_pins (stores w') = load_pins (stores w)
    | Some pins =>
        exists pins', usable_pins (load_pins (stores w')) = Some pins' /\
          forall t n, t ∈ pin_values c -> name_of t.1 = Some n -> risky pins t.1 t.2 n = true ->
            fp <$> pins' !! n = fp <$> pins !! n /\ risky pins' t.1 t.2 n = true
    end) w.
Proof.
  eapply wp_mono; [apply check_spec|]. intros r w' [[_ Hf _] H]. split; [done|].
  destruct (usable_pins (load_pins (stores w))) as [pins|] eqn:Ep.
  2: { destruct r; [|done]. by destruct H as [-> _]. }
  destruct r as [events|e]; [|exists pins; by rewrite H].
  destruct H as (clock & stamp & updated & _ & Hu & Hs). exists updated. split; [done|]. intros t n Ht Hn Hr.
  assert (Hkeep : forget <$> (updated !! n) = forget <$> (pins !! n)).
  { eapply staged_keeps; [exact Hs|]. apply candidates_spec. by exists t. }
  split.
  - destruct (pins !! n) as [p|], (updated !! n) as [p'|]; try done.
    apply (inj Some (forget p')) in Hkeep. cbn. by rewrite (proj1 (forget_fields _ _ Hkeep)).
  - eapply risky_stays; [exact Hkeep| |done]. rewrite (similar_dom _ _ Hs). apply next_dom.
Qed.

(** A quarantine that succeeds holds every candidate of the events it was given, keeps
    every record there was, and writes no record but for a definition the checked catalog
    lists under that very name, with the pin of that definition; one that fails leaves the
    file as it was. Neither changes the baseline. *)
Theorem quarantine_holds_every_candidate c events w :
  wf (stores w) ->
  wp (apply_quarantine to_string sha256 c events) (fun r w' =>
    load_pins (stores w') = load_pins (stores w) /\
    match r with
    | Ok _ => exists q q', opened (stores w) q /\ opened (stores w') q' /\
        dom q ∪ quarantine_candidates c events ⊆ dom q' /\
        (quarantine_candidates c events <> ∅ -> load_quarantine (stores w') = Ok q') /\
        forall n r, q' !! n = Some r -> retained q n r \/ row c n r
    | Err _ => quarantine_file (stores w') = quarantine_file (stores w)
    end) w.
Proof.
  intros Hwf. eapply wp_mono; [apply apply_quarantine_spec; intros q; by apply load_objects|].
  intros r w' H. split; [apply H|]. destruct r as [added|e]; [|apply H].
  destruct (quarantined_load c events added w w' H) as (q & q' & H1 & H2 & H3 & H4 & H5 & _). by exists q, q'.
Qed.

(** C18. A release pins what was captured before it unblocks: when it succeeds, the record is
    gone and no other, the tool's pin has the captured fingerprint and no other pin
    changed; a record of a lost baseline is released only with a captured pin. When it
    does not succeed every record is still there. *)
Theorem release_pins_before_unblocking tool w :
  wp (release tool) (fun r w' =>
    match r with
    | Ok true => exists q record pins pins',
        load_quarantine (stores w) = Ok q /\ q !! tool = Some record /\
        load_quarantine (stores w') = Ok (delete tool q) /\
        repairable (stores w) (is_tampered record) pins /\ usable_pins (load_pins (stores w')) = Some pins' /\
        (forall n, n <> tool -> pins' !! n = pins !! n) /\
        match captured_pin record with
        | Some p => fp <$> pins' !! tool = Some (fp p)
        | None => is_tampered record = false /\
                  fp <$> pins' !! tool = Some (default "released-without-baseline" (fp <$> pins !! tool))
        end
    | _ => quarantine_file (stores w') = quarantine_file (stores w)
    end) w.
Proof.
  eapply wp_mono; [apply release_spec|]. intros r w' (_ & _ & [[Hs Hr]|(q & record & pending & stamp & [Hq Hrec Hpe] & Hf & Hl & Hok)]).
  { destruct r as [[]|]; [done|by rewrite Hs..]. }
  destruct r as [[]|e]; [|by destruct Hf|by destruct Hf].
  destruct Hl as [[_ ?]|(pins & Hrep & Hl)]; [done|]. destruct (Hok eq_refl) as [Hres Hfile].
  exists q, record, pins. eexists. split; [done|]. split; [done|]. split.
  { apply load_holds; [done..|]. intros n rec [_ H]%lookup_delete_Some. by eapply load_not_legacy. }
  split; [done|]. split; [exact Hl|]. split; [intros n Hn; by apply apply_release_other|].
  unfold release_pending_pin in Hpe. unfold captured_pin. destruct (get "pending_pin" record) as [v|]; cbn [mbind option_bind].
  - destruct (decode v) as [p|]; [|done]. injection Hpe as <-. apply apply_release_fp.
  - destruct (is_tampered record); [done|]. injection Hpe as <-. split; [done|]. apply apply_release_fp_none.
Qed.

(** C17. An approved identity is never forgotten: through any sequence of checks, acceptances,
    quarantines, releases, reviews and their failures, from a baseline that reads, the
    baseline still reads and every pinned tool is pinned, with the time it was first seen
    unchanged, so no tool becomes a first sight again. *)
Theorem approved_identities_persist w w' pins n p :
  wf (stores w) -> rtc ran w w' -> usable_pins (load_pins (stores w)) = Some pins -> pins !! n = Some p ->
  first_seen p <> 0 ->
  exists pins' p', usable_pins (load_pins (stores w')) = Some pins' /\ pins' !! n = Some p' /\ first_seen p' = first_seen p.
Proof.
  intros Hwf Hran. revert pins p. induction Hran as [w|w1 w2 w3 H12 H23 IH]; intros pins p Hp Hn Hf.
  { by exists pins, p. }
  destruct (ran_persists w1 w2 Hwf H12) as [Hwf2 Hp2]. destruct (Hp2 pins Hp) as (pins2 & Hu2 & Hr).
  destruct (Hr n p Hn) as (p2 & Hn2 & Hs2). rewrite <- (Hs2 Hf). apply (IH Hwf2 pins2 p2 Hu2 Hn2). by rewrite Hs2.
Qed.

(** Only a user's release replaces a lost baseline: any other operation, and a release of
    anything but a record whose baseline was lost, leaves it lost. *)
Theorem lost_baseline_needs_release w w' :
  wf (stores w) -> ran w w' -> usable_pins (load_pins (stores w)) = None ->
  load_pins (stores w') = load_pins (stores w) \/
  exists q n r, load_quarantine (stores w) = Ok q /\ q !! n = Some r /\ is_tampered r = true /\
    is_Some (captured_pin r).
Proof.
  assert (Hrelease : forall tool r w w', release_post tool r w w' -> usable_pins (load_pins (stores w)) = None ->
    load_pins (stores w') = load_pins (stores w) \/
    exists q n r, load_quarantine (stores w) = Ok q /\ q !! n = Some r /\ is_tampered r = true /\ is_Some (captured_pin r)).
  { clear w w'. intros tool r w w' (_ & _ & [[Hs _]|(q & rec & pending & stamp & [Hq Hrec Hpe] & _ & [[? _]|(pins & Hrep & _)] & _)]) Hn;
      [left; by rewrite Hs|by left|]. right. exists q, tool, rec. split; [done|]. split; [done|].
    destruct Hrep as [Hrep|(_ & Ht & _)]; [congruence|]. split; [done|]. unfold release_pending_pin in Hpe. rewrite Ht in Hpe.
    unfold captured_pin. destruct (get "pending_pin" rec) as [v|]; [|done]. cbn [mbind option_bind]. destruct (decode v); [by eexists|done]. }
  intros Hwf [defer c r H|c events r H|c events r H|r H|tool r H|tool id r H|tool f r H|expected r H|gone servers present r H|r H] Hn.
  - apply (wp_run _ _ _ _ _ (check_spec defer c w)) in H as [_ H]. rewrite Hn in H. left.
    destruct r; [by destruct H as [-> _]|done].
  - apply (wp_run _ _ _ _ _ (accept_staged_spec c events w)) in H as (_ & H & _). left. by apply H.
  - apply (wp_run _ _ _ _ _ (apply_quarantine_spec c events w (fun q => load_objects _ q Hwf))) in H as ([Hl _ _] & _). by left.
  - apply (wp_run _ _ _ _ _ (accept_quarantined_spec w)) in H as (_ & _ & [->|(q & pending & stamp & _ & _ & _ & [?|(pins & H & _)] & _)]);
      [by left|by left|congruence].
  - eapply Hrelease; [by eapply (wp_run _ _ _ _ _ (release_spec tool w))|done].
  - eapply Hrelease; [by eapply (wp_run _ _ _ _ _ (release_record_spec tool id w))|done].
  - eapply Hrelease; [by eapply (wp_run _ _ _ _ _ (release_definition_spec tool f w))|done].
  - apply (wp_run _ _ _ _ _ (release_all_spec expected w)) in H as (_ & _ & [->|(q & stamp & Hq & _ & [[? _]|(pins & tamper & Hrep & Ht & _)])]);
      [by left|by left|]. right. destruct Hrep as [Hrep|(_ & -> & _)]; [congruence|].
    destruct (Ht eq_refl) as (n & rec & Hrec & Hfate & Htam). exists q, n, rec. split; [done|]. split; [done|]. split; [done|].
    unfold Quarantine.fate in Hfate. destruct (match expected with Some _ => _ | None => _ end); [done|].
    unfold release_pending_pin in Hfate. rewrite Htam in Hfate. unfold captured_pin.
    destruct (get "pending_pin" rec) as [v|]; [|done]. cbn [mbind option_bind]. destruct (decode v); [by eexists|done].
  - apply (wp_run _ _ _ _ _ (reconcile_spec gone servers present w)) in H as (_ & _ & [->|(pins & absent & Hl & _)]); [by left|].
    rewrite Hl in Hn. done.
  - apply (wp_run _ _ _ _ _ (ensure_spec w)) in H as ([Hl _ _] & _). by left.
Qed.


End operations.
(** ** Witnesses *)

Section demo.

Definition demo_text (j : json) : string := match j with JString s => s | _ => "" end.
Definition demo_digest (s : string) : list N := map Ascii.N_of_ascii (String.list_ascii_of_string s).
Definition demo_scan (tool : json) : Scan := mk_scan [] JNull None.

#[local] Instance demo_catalog : ToolCatalog (list (json * option string)) :=
  {| pin_values := fun c => c; gate_name := fun _ _ => None |}.

(** A tool that was pinned as a reader of rows and now drops tables. *)
Definition demo_tool (description : string) : json :=
  obj [("name", JString "db__rows"); ("description", JString description)].
Definition demo_pin (seen : Z) : Pin :=
  with_times seen seen (pin_with_source demo_text demo_digest (demo_tool "reads rows") None).
Definition demo_pins : Pins := {["db__rows" := demo_pin 7]}.
Definition demo_now : list (json * option string) := [(demo_tool "drops tables", None)].

Definition demo_world (pins : File Pins) : World :=
  mk_world (mk_stores true pins Absent (Holds ∅) false false) no_reviews [] [] (fun i => Z.of_nat i + 1) 0.

Lemma demo_wf pins : wf (stores (demo_world pins)).
Proof. by intros q [= <-] n r. Qed.

Local Abbreviation demo_check := (check_staged demo_text demo_digest demo_scan "default" demo_now).

Definition demo_events : list json :=
  match demo_check (demo_world (Holds demo_pins)) with Some (Ok events, _) => events | _ => [] end.

Lemma quarantine_holds_every_candidate_witness :
  demo_events <> [] /\ quarantine_candidates demo_now demo_events = {["db__rows"]} /\
  wp (apply_quarantine demo_text demo_digest demo_now demo_events) (fun r w' =>
    match r with
    | Ok _ => exists q', load_quarantine (stores w') = Ok q' /\ "db__rows" ∈ dom q'
    | Err _ => quarantine_file (stores w') = Holds ∅
    end) (demo_world (Holds demo_pins)).
Proof.
  assert (Hc : quarantine_candidates demo_now demo_events = {["db__rows"]}) by (by vm_compute).
  split; [by vm_compute|]. split; [exact Hc|].
  eapply wp_mono; [apply (quarantine_holds_every_candidate demo_text demo_digest demo_scan); apply demo_wf|].
  intros [b|e] w'; [|by intros [_ H]]. intros (_ & q & q' & _ & _ & Hd & Hl & _). exists q'.
  split; [apply Hl; rewrite Hc; apply non_empty_singleton_L|].
  apply Hd, elem_of_union_r. rewrite Hc. by apply elem_of_singleton.
Defined.

Lemma approved_identities_persist_witness :
  exists w' pins' p', rtc (ran demo_text demo_digest demo_scan "default") (demo_world (Holds demo_pins)) w' /\
    usable_pins (load_pins (stores w')) = Some pins' /\ pins' !! "db__rows" = Some p' /\ first_seen p' = 7.
Proof.
  destruct (demo_check (demo_world (Holds demo_pins))) as [[r w']|] eqn:E; [|vm_compute in E; discriminate].
  assert (Hran : rtc (ran demo_text demo_digest demo_scan "default") (demo_world (Holds demo_pins)) w')
    by (exact (rtc_once _ _ (ran_check _ _ _ _ _ _ true demo_now r E))).
  destruct (approved_identities_persist demo_text demo_digest demo_scan "default" _ w' demo_pins "db__rows" (demo_pin 7)
    (demo_wf _) Hran) as (pins' & p' & H1 & H2 & H3); [done|done|done|].
  exists w', pins', p'. split; [exact Hran|]. split; [exact H1|]. split; [exact H2|exact H3].
Defined.

Lemma lost_baseline_needs_release_witness :
  exists w', ran demo_text demo_digest demo_scan "default" (demo_world Unusable) w' /\ load_pins (stores w') = Corrupt.
Proof.
  destruct (demo_check (demo_world Unusable)) as [[r w']|] eqn:E; [|vm_compute in E; discriminate].
  assert (Hran : ran demo_text demo_digest demo_scan "default" (demo_world Unusable) w')
    by (exact (ran_check _ _ _ _ _ _ true demo_now r E)).
  exists w'. split; [exact Hran|].
  destruct (lost_baseline_needs_release demo_text demo_digest demo_scan "default" _ w' (demo_wf _) Hran)
    as [H|(q & n & rec & Hq & Hn & _)]; [done|exact H|].
  assert (Hnone : load_quarantine (stores (demo_world Unusable)) = Ok ∅) by done.
  rewrite Hnone in Hq. injection Hq as <-. by rewrite lookup_empty in Hn.
Defined.


End demo.

End Baseline.
