(* ===== verification/Exposure.v ===== *)
(** What a change of policy can do to the catalog a router exposes (src/router.rs): a
    rebuild of a rebuilt router changes nothing, and a rebuild under a tighter policy
    exposes a part of what it exposed before, each definition unchanged and under the
    same policy name. The proofs run the two rebuilds in lock step. *)

From S2P Require Import Prelude Text Json ToolNames SchemaCompat SchemaRefs Aliases Catalog.


Module Exposure.
Import ToolNames Aliases Catalog.

Section router.
Variable content_digest : json -> list N.
Variable regex : Type.
Variable regex_new : string -> option regex.
Variable number_from_str : string -> option number.
Variable number_from_f64_str : string -> option number.

Local Abbreviation ToolIndex := (Catalog.ToolIndex regex).
Local Abbreviation Index := (Catalog.Index regex).
Local Abbreviation Router := (Catalog.Router regex).
Local Abbreviation RestoredTool := (Catalog.RestoredTool regex).
Local Abbreviation names := (Catalog.names regex).
Local Abbreviation tools := (Catalog.tools regex).
Local Abbreviation routes := (Catalog.routes regex).
Local Abbreviation blocked := (Catalog.blocked regex).
Local Abbreviation policy_names := (Catalog.policy_names regex).
Local Abbreviation block := (Catalog.block regex).
Local Abbreviation publish := (Catalog.publish regex).
Local Abbreviation refuse := (Catalog.refuse regex).
Local Abbreviation rebuild := (rebuild_preserving_restored content_digest regex regex_new number_from_str number_from_f64_str).
Local Abbreviation index_tool := (Catalog.index_tool content_digest regex regex_new number_from_str number_from_f64_str).
Local Abbreviation index_tools := (Catalog.index_tools content_digest regex regex_new number_from_str number_from_f64_str).
Local Abbreviation index_server := (Catalog.index_server content_digest regex regex_new number_from_str number_from_f64_str).
Local Abbreviation index_slots := (Catalog.index_slots content_digest regex regex_new number_from_str number_from_f64_str).
Local Abbreviation apply_candidate := (Catalog.apply_candidate regex).

(** [p'] hides whatever [p] hides. *)
Record tighter (p p' : ToolPolicy) : Prop := {
  tight_servers : servers_allowed p' = servers_allowed p;
  tight_disabled : disabled p' = disabled p;
  tight_allow : allow p' = allow p;
  tight_destructive : deny_destructive p' = deny_destructive p;
  tight_quarantined : quarantined p ⊆ quarantined p';
  tight_closed : fail_closed p = true -> fail_closed p' = true
}.

#[export] Instance tighter_preorder : PreOrder tighter.
Proof. split; [by split|]. intros p1 p2 p3 [] []. split; try congruence; [set_solver|auto]. Qed.

Lemma tighter_scope p p' sv og : tighter p p' -> in_scope p' sv og = in_scope p sv og.
Proof. intros [H1 H2 H3 _ _ _]. unfold in_scope, allows_server. by rewrite ?H1, ?H2, ?H3. Qed.

Lemma tighter_reason p p' e sv og m :
  tighter p p' -> blocked_reason p' e sv og m = None -> blocked_reason p e sv og m = None.
Proof.
  intros Ht. rewrite !blocked_reason_None, (tighter_scope _ _ sv og Ht). destruct Ht as [H1 H2 H3 H4 H5 H6].
  rewrite H2, H4. intros (? & ? & ? & Hc & Hq). repeat (split; [done|]). split; [|set_solver].
  destruct (fail_closed p); [|done]. by rewrite H6 in Hc.
Qed.

Section lockstep.
Variables s s' : Settings.
Hypothesis same_rule : alias_rule s' = alias_rule s.
Hypothesis same_overrides : overrides s' = overrides s.
Hypothesis same_canonical : canonical_policy s' = canonical_policy s.
Hypothesis tight : tighter (policy s) (policy s').

Definition taken (x : ToolIndex) (e : string) : Prop := is_Some (routes x !! e) \/ is_Some (blocked x !! e).

(** [x'], built under [s'], against [x], built under [s]. *)
Record below (x' x : ToolIndex) : Prop := {
  below_legacy : legacy_names (names x') = legacy_names (names x);
  below_policy : policy_names x' = policy_names x;
  below_tools : forall d, d ∈ tools x' -> d ∈ tools x;
  below_blocked : forall e, is_Some (blocked x !! e) -> is_Some (blocked x' !! e);
  below_taken : forall e, taken x' e <-> taken x e
}.

Lemma unscoped_same x x' e sv og :
  legacy_names (names x') = legacy_names (names x) ->
  unscoped_policy_name regex s' x' e sv og = unscoped_policy_name regex s x e sv og.
Proof. intros H. unfold unscoped_policy_name. by rewrite same_canonical, same_overrides, H. Qed.

Lemma reason_below x x' e sv og m :
  policy_names x' = policy_names x ->
  policy_blocked_reason regex s' x' e sv og m = None -> policy_blocked_reason regex s x e sv og m = None.
Proof.
  intros H. unfold policy_blocked_reason, has_canonical_policy, policy_name. rewrite same_canonical, H.
  destruct (lookup2 _ sv og); [by apply tighter_reason|].
  destruct (blocked_reason (policy s') e sv og m) eqn:E; [done|]. rewrite (tighter_reason _ _ _ _ _ _ tight E).
  by apply tighter_reason.
Qed.

Lemma below_record n n' x x' e sv og h :
  legacy_names n' = legacy_names n -> below x' x ->
  below (record_tool regex s' n' x' e sv og h) (record_tool regex s n x e sv og h).
Proof. intros Hn [H1 H2 H3 H4 H5]. by split. Qed.

Lemma refused_blocked_iff x refused e :
  is_Some (blocked (refuse x refused) !! e) <-> e ∈ refused \/ is_Some (blocked x !! e).
Proof. cbn. rewrite refused_blocked. case_decide; naive_solver. Qed.

Lemma refused_taken x refused e : taken (refuse x refused) e <-> taken x e \/ e ∈ refused.
Proof.
  unfold taken. rewrite refused_blocked_iff. cbn [Catalog.routes Catalog.refuse]. rewrite map_lookup_filter.
  destruct (decide (e ∈ refused)) as [He|He]; [naive_solver|].
  destruct (routes x !! e) as [[]|]; cbn; [|naive_solver]. rewrite option_guard_True by done. naive_solver.
Qed.

Lemma below_bind x x' e sv og :
  below x' x -> below (bind_policy_name regex s' x' e sv og) (bind_policy_name regex s x e sv og).
Proof.
  intros H. unfold bind_policy_name. rewrite (tighter_scope _ _ _ _ tight), (unscoped_same x x') by apply H.
  destruct (negb _); [done|]. destruct (_ && _); [done|].
  set (n := unscoped_policy_name _ _ _ _ _ _).
  assert (Hc : claimants regex x' e n = claimants regex x e n) by (unfold claimants; by rewrite (below_policy _ _ H)).
  rewrite Hc. assert (Hb : below (bind_name regex x' e n) (bind_name regex x e n)).
  { destruct H as [H1 H2 H3 H4 H5]. split; cbn; [done|by rewrite H2|done..]. }
  case_bool_decide; [done|]. destruct Hb as [H1 H2 H3 H4 H5]. split; [done|done| | |].
  - intros d. cbn. rewrite !list_elem_of_In, !filter_In, <- !list_elem_of_In. intros [Hd Hk]. split; [by apply H3|done].
  - intros k. rewrite !refused_blocked_iff. intros [?|Hk]; [by left|right; by apply H4].
  - intros k. by rewrite !refused_taken, H5.
Qed.

Lemma block_taken x e r k : taken (block x e r) k <-> k = e \/ taken x k.
Proof.
  unfold taken, Catalog.block. cbn. destruct (decide (e = k)) as [->|Hne].
  - rewrite lookup_insert_eq. naive_solver.
  - rewrite lookup_insert_ne by done. naive_solver.
Qed.

Lemma publish_taken x d a e sv og k : taken (publish x d a e sv og) k <-> k = e \/ taken x k.
Proof.
  unfold taken, Catalog.publish. cbn. destruct (decide (e = k)) as [->|Hne].
  - rewrite lookup_insert_eq. naive_solver.
  - rewrite lookup_insert_ne by done. naive_solver.
Qed.

Lemma block_blocked x e r k : is_Some (blocked (block x e r) !! k) <-> k = e \/ is_Some (blocked x !! k).
Proof.
  cbn. destruct (decide (e = k)) as [->|Hne].
  - rewrite lookup_insert_eq. naive_solver.
  - rewrite lookup_insert_ne by done. naive_solver.
Qed.

(** What the three ends of indexing a tool leave. *)
Inductive settles (x : ToolIndex) (e : string) : ToolIndex -> Prop :=
| settles_skip : is_Some (blocked x !! e) -> settles x e x
| settles_block r : settles x e (block x e r)
| settles_publish d a sv og : settles x e (publish x d a e sv og).

Lemma settles_below x x1 e x' x1' :
  below x' x -> settles x e x1 -> settles x' e x1' ->
  (forall d, d ∈ tools x1' -> d ∈ tools x1) ->
  (is_Some (blocked x1 !! e) -> is_Some (blocked x1' !! e)) -> below x1' x1.
Proof.
  intros [H1 H2 H3 H4 H5] Hx Hx' Ht Hb.
  assert (Htaken : forall y y1, settles y e y1 -> forall k, taken y1 k <-> k = e \/ taken y k).
  { intros y y1 [H|r|d a sv og] k; [|apply block_taken|apply publish_taken].
    split; [by right|]. intros [->|?]; [by right|done]. }
  assert (Hsame : forall y y1, settles y e y1 -> names y1 = names y /\ policy_names y1 = policy_names y /\
    forall k, k <> e -> blocked y1 !! k = blocked y !! k).
  { intros y y1 [H|r|d a sv og]; repeat (split; [done|]); [done| |done].
    intros k Hk. cbn. by rewrite lookup_insert_ne. }
  destruct (Hsame _ _ Hx) as (N & P & B), (Hsame _ _ Hx') as (N' & P' & B').
  split; [by rewrite N, N'|by rewrite P, P'|done| |].
  - intros k. destruct (decide (k = e)) as [->|Hk]; [done|]. rewrite B, B' by done. apply H4.
  - intros k. by rewrite (Htaken _ _ Hx), (Htaken _ _ Hx'), H5.
Qed.

Definition hidden_by (st : Settings) (x : ToolIndex) (e sv og : string) (m : ToolPolicyMetadata) : Prop :=
  blocked x !! e <> None \/ policy_blocked_reason regex st x e sv og m <> None.

Lemma hidden_below x x' e sv og m :
  below x' x -> hidden_by s x e sv og m -> hidden_by s' x' e sv og m.
Proof.
  intros Hb [H|H]; [left|right].
  - destruct (blocked x !! e) eqn:E; [|done]. destruct (below_blocked _ _ Hb e) as [r ->]; [by rewrite E|done].
  - intros H'. by apply (reason_below x) in H'; [|apply Hb].
Qed.

(** The end of indexing a tool: hidden with a reason, or published. *)
Definition finish (st : Settings) (x : ToolIndex) (e sv og : string) (m : ToolPolicyMetadata)
    (d : ToolDefinition regex) (a : option (SchemaCompat.ArgumentMap regex)) (x1 : ToolIndex) : Prop :=
  hidden_by st x e sv og m /\ tools x1 = tools x /\ is_Some (blocked x1 !! e) \/
  blocked x !! e = None /\ policy_blocked_reason regex st x e sv og m = None /\ x1 = publish x d a e sv og.

Lemma finish_below x x1 x' x1' e sv og m d a :
  below x' x -> settles x e x1 -> settles x' e x1' -> finish s x e sv og m d a x1 -> finish s' x' e sv og m d a x1' ->
  below x1' x1.
Proof.
  intros Hb S S' R R'. eapply settles_below; [done..| |].
  - intros d0 Hd. destruct R' as [(_ & Ht & _)|(Hnone & Hreason & ->)].
    + rewrite Ht in Hd. apply (below_tools _ _ Hb) in Hd. destruct S; cbn; set_solver.
    + destruct R as [[Hh _]|(_ & _ & ->)].
      * apply (hidden_below _ x') in Hh; [|done]. by destruct Hh.
      * revert Hd. cbn. intros [H|H]%elem_of_app; apply elem_of_app; [left; by apply (below_tools _ _ Hb)|by right].
  - intros Hbl. destruct R' as [(_ & _ & ?)|(Hnone & Hreason & ->)]; [done|].
    destruct R as [[Hh _]|(Hn & _ & ->)]; [apply (hidden_below _ x') in Hh; [|done]; by destruct Hh|].
    cbn in Hbl. rewrite Hn in Hbl. by destruct Hbl.
Qed.

(** One tool under the two policies: what the tighter one publishes, both do. *)
Lemma below_index_tool server_id x x' t base x1 x1' b b' :
  names x' = names x -> below x' x ->
  index_tool s server_id x t base = Some (x1, b) -> index_tool s' server_id x' t base = Some (x1', b') ->
  below x1' x1 /\ names x1' = names x1.
Proof.
  intros Hn Hb. unfold Catalog.index_tool. destruct (name t) as [orig|]; [|by intros [= <- _] [= <- _]].
  destruct base as [base|]; [|done]. cbn [mbind option_bind]. unfold choose_name.
  rewrite same_overrides, same_rule, Hn.
  destruct (match (o ← lookup2 (overrides s) server_id orig; ov_name o) with Some _ => _ | None => _ end)
    as [[n e]|]; [|done]. cbn [mbind option_bind].
  cbv zeta. set (y := bind_policy_name regex s _ e server_id orig). set (y' := bind_policy_name regex s' _ e server_id orig).
  assert (Hy : below y' y) by (by apply below_bind, below_record).
  assert (Hny : names y' = names y) by (unfold y, y'; by rewrite !bind_names).
  clearbody y y'. clear Hb Hn x x'.
  set (defined := define _ _ _ _ _ _ _ _).
  assert (Hset : forall (z : ToolIndex) (st : Settings) z1 c,
    (match blocked z !! e with
     | Some _ => Some (z, false)
     | None => match policy_blocked_reason regex st z e server_id orig (raw_policy t) with
               | Some reason => Some (block z e reason, false)
               | None => d ← defined; Some (publish z d (arguments regex d) e server_id orig, true)
               end
     end) = Some (z1, c) ->
    settles z e z1 /\ names z1 = names z /\ forall d, (forall d', defined = Some d' -> d = d') ->
      finish st z e server_id orig (raw_policy t) d (arguments regex d) z1).
  { intros z st z1 c. unfold finish, hidden_by. destruct (blocked z !! e) as [r0|] eqn:Ez.
    { intros [= <- _]. split; [constructor; by eexists|]. split; [done|]. intros d _. left.
      split; [by left|]. split; [done|by eexists]. }
    destruct (policy_blocked_reason _ _ _ _ _ _ _) as [r|].
    - intros [= <- _]. split; [constructor|]. split; [done|]. intros d _. left. split; [by right|]. split; [done|].
      apply block_blocked. by left.
    - destruct defined as [d|]; [|done]. intros [= <- _]. split; [constructor|]. split; [done|].
      intros d0 Hd0. right. by rewrite (Hd0 d eq_refl). }
  intros (S & N & R)%Hset (S' & N' & R')%Hset. split; [|congruence].
  destruct defined as [d|].
  - eapply finish_below; [done..|apply R|apply R']; by intros ? [= ->].
  - eapply finish_below; [done..|apply (R (Build_ToolDefinition regex JNull None None None))
                              |apply (R' (Build_ToolDefinition regex JNull None None None))]; done.
Qed.

Lemma below_index_tools server_id b b' ts x x' r r' x1 x1' r1 r1' :
  names x' = names x -> below x' x ->
  index_tools s server_id b x r ts = Some (x1, r1) -> index_tools s' server_id b' x' r' ts = Some (x1', r1') ->
  below x1' x1 /\ names x1' = names x1.
Proof.
  revert x x' r r'. induction ts as [|[t base] ts IH]; intros x x' r r' Hn Hb; cbn [Catalog.index_tools].
  { by intros [= <- _] [= <- _]. }
  destruct (index_tool s server_id x t base) as [[y c]|] eqn:E; [|done].
  destruct (index_tool s' server_id x' t base) as [[y' c']|] eqn:E'; [|done]. cbn [mbind option_bind].
  destruct (below_index_tool _ _ _ _ _ _ _ _ _ Hn Hb E E') as [Hy Hny]. by apply IH.
Qed.

Definition below_index (i' i : Index) : Prop :=
  below (tool_index regex i') (tool_index regex i) /\
  names (tool_index regex i') = names (tool_index regex i).

Lemma below_with_names x x' n : below x' x -> below (with_names regex x' n) (with_names regex x n).
Proof. intros [H1 H2 H3 H4 H5]. by split. Qed.

Lemma below_index_server i i' slot j j' :
  below_index i' i -> index_server s i slot = Some j -> index_server s' i' slot = Some j' -> below_index j' j.
Proof.
  intros [Hb Hn]. unfold Catalog.index_server. rewrite same_rule, Hn.
  destruct (allocate_names _ _ _ _ _) as [[n bases]|]; [|done]. cbn [mbind option_bind].
  destruct (index_tools s _ _ _ _ _) as [[x r]|] eqn:E; [|done].
  destruct (index_tools s' _ _ _ _ _) as [[x' r']|] eqn:E'; [|done]. cbn [mbind option_bind].
  assert (Hx : below x' x /\ names x' = names x)
    by (eapply below_index_tools; [|by apply below_with_names|exact E|exact E']; done).
  destruct Hx as [Hx Hnx].
  rewrite Hnx. destruct (allocate_names _ _ _ _ _) as [[n2 bases2]|]; [|done]. cbn [mbind option_bind].
  destruct (index_prompts _ _ _ (prompt_routes regex i)) as [[ps rs]|]; [|done].
  destruct (index_prompts _ _ _ (prompt_routes regex i')) as [[ps' rs']|]; [|done]. cbn [mbind option_bind].
  intros [= <-] [= <-]. split; [by apply below_with_names|done].
Qed.

Lemma below_index_slots slots i i' j j' :
  below_index i' i -> index_slots s i slots = Some j -> index_slots s' i' slots = Some j' -> below_index j' j.
Proof.
  revert i i'. induction slots as [|slot slots IH]; intros i i' Hb; cbn [Catalog.index_slots].
  { by intros [= <-] [= <-]. }
  unfold index_slot. set (i0 := if catalog_complete slot then _ else i). set (i0' := if catalog_complete slot then _ else i').
  assert (Hb0 : below_index i0' i0) by (unfold i0, i0'; by destruct (catalog_complete slot)).
  clearbody i0 i0'. destruct (index_server s i0 slot) as [i1|] eqn:E; [|done].
  destruct (index_server s' i0' slot) as [i1'|] eqn:E'; [|done]. cbn [mbind option_bind].
  apply IH. by eapply below_index_server.
Qed.

#[local] Instance below_preorder : PreOrder below.
Proof.
  split; [by split|]. intros x1 x2 x3 [] []. split; [congruence|congruence|auto|auto|].
  intros e. etransitivity; eauto.
Qed.

Lemma with_names_below x n :
  legacy_names n = legacy_names (names x) -> below (with_names regex x n) x /\ below x (with_names regex x n).
Proof. intros H. by split; split. Qed.

Lemma below_candidate r r' x x' c :
  settings regex r = s -> settings regex r' = s' -> by_id regex r' = by_id regex r -> below x' x ->
  below (apply_candidate r' x' c) (apply_candidate r x c).
Proof.
  intros Hs Hs' Hid Hb. unfold Catalog.apply_candidate. rewrite Hs, Hs', Hid.
  set (e := exposed regex c).
  assert (Hskip : forall y : ToolIndex, bool_decide (is_Some (routes y !! e)) || bool_decide (is_Some (blocked y !! e)) =
    bool_decide (is_Some (routes y !! e) \/ is_Some (blocked y !! e))).
  { intros y. by repeat case_bool_decide; naive_solver. }
  rewrite !Hskip, (bool_decide_ext _ _ (below_taken _ _ Hb e)). destruct (_ || _); [done|].
  cbv zeta.
  set (y := bind_policy_name regex s _ e _ _). set (y' := bind_policy_name regex s' _ e _ _).
  assert (Hy : below y' y).
  { apply below_bind. destruct Hb as [H1 H2 H3 H4 H5]. split; [|done..]. cbn.
    destruct (policy_name_kept regex c); cbn; by rewrite H1. }
  clearbody y y'. clear Hb Hskip x x'.
  set (d := definition regex c). set (a := schema_arguments_kept regex c).
  assert (Hset : forall (z : ToolIndex) (st : Settings) m,
    let z1 := match blocked z !! e with
     | Some _ => z
     | None => match policy_blocked_reason regex st z e (server regex c) (original regex c) m with
               | Some reason => block z e reason
               | None => with_names regex (publish z d a e (server regex c) (original regex c))
                           (mk_names ({[e]} ∪ seen (names (publish z d a e (server regex c) (original regex c))))
                              (legacy_seen (names (publish z d a e (server regex c) (original regex c))))
                              (legacy_names (names (publish z d a e (server regex c) (original regex c)))))
               end
     end in
    exists z2, settles z e z2 /\ finish st z e (server regex c) (original regex c) m d a z2 /\ below z1 z2 /\ below z2 z1).
  { intros z st m. cbv zeta. unfold finish, hidden_by. destruct (blocked z !! e) as [r0|] eqn:Ez.
    { exists z. split; [constructor; by eexists|]. split; [|done]. left. split; [by left|]. split; [done|by eexists]. }
    destruct (policy_blocked_reason _ _ _ _ _ _ _) as [reason|].
    - exists (block z e reason). split; [constructor|]. split; [|done]. left. split; [by right|]. split; [done|].
      apply block_blocked. by left.
    - exists (publish z d a e (server regex c) (original regex c)). split; [constructor|].
      split; [right; by split|]. by apply with_names_below. }
  destruct (Hset y s (restored_metadata regex c)) as (z & S & F & _ & B).
  destruct (Hset y' s' (restored_metadata regex c)) as (z' & S' & F' & B' & _).
  etransitivity; [exact B'|]. etransitivity; [|exact B]. eapply finish_below; [exact Hy|exact S|exact S'|exact F|exact F'].
Qed.

Lemma below_candidates r r' cs x x' :
  settings regex r = s -> settings regex r' = s' -> by_id regex r' = by_id regex r -> below x' x ->
  below (fold_left (apply_candidate r') cs x') (fold_left (apply_candidate r) cs x).
Proof.
  intros Hs Hs' Hid. revert x x'. induction cs as [|c cs IH]; intros x x' Hb; [done|]. cbn. apply IH.
  by apply below_candidate.
Qed.

End lockstep.
(** ** Rebuilding *)

(** A rebuild depends on the servers, the settings and the restored tools alone. *)
Lemma rebuild_servers r r1 :
  rebuild r = Some r1 ->
  servers regex r1 = servers regex r /\ by_id regex r1 = by_id regex r /\ settings regex r1 = settings regex r /\
  restored_candidates regex r1 = List.filter
    (fun c => bool_decide (revision_of regex r (server regex c) = Some (source_revision regex c))) (restored_candidates regex r).
Proof.
  unfold rebuild_preserving_restored, rebuild_aggregation_with_reserved.
  destruct (Catalog.index_slots _ _ _ _ _ _ _ _) as [i|]; [|done]. cbn [mbind option_bind]. by intros [= <-].
Qed.

Lemma filter_idem {A} (f : A -> bool) l : List.filter f (List.filter f l) = List.filter f l.
Proof. induction l as [|a l IH]; [done|]. cbn. destruct (f a) eqn:E; cbn; [by rewrite E, IH|done]. Qed.

Lemma rebuild_ext r r0 r1 :
  servers regex r0 = servers regex r -> by_id regex r0 = by_id regex r -> settings regex r0 = settings regex r ->
  restored_candidates regex r0 = List.filter
    (fun c => bool_decide (revision_of regex r (server regex c) = Some (source_revision regex c))) (restored_candidates regex r) ->
  rebuild r = Some r1 -> rebuild r0 = Some r1.
Proof.
  intros H1 H2 H3 H4. unfold rebuild_preserving_restored, rebuild_aggregation_with_reserved.
  assert (Hrev : forall sv, revision_of regex r0 sv = revision_of regex r sv)
    by (intros; unfold revision_of, slot_of; by rewrite H1, H2).
  assert (Hres : forall n c, reserve regex r0 n c = reserve regex r n c)
    by (intros; unfold reserve, slot_of; by rewrite H1, H2).
  assert (Hf : List.filter (fun c => bool_decide (revision_of regex r0 (server regex c) = Some (source_revision regex c)))
      (restored_candidates regex r0) = List.filter
    (fun c => bool_decide (revision_of regex r (server regex c) = Some (source_revision regex c))) (restored_candidates regex r)).
  { rewrite H4. erewrite (List.filter_ext (fun c => bool_decide (revision_of regex r0 (server regex c) = _)));
      [apply filter_idem|]. intros c. by rewrite Hrev. }
  rewrite Hf, H1, H2, H3. clear Hf H4 Hrev.
  assert (Hfold : forall l n, fold_left (reserve regex r0) l n = fold_left (reserve regex r) l n).
  { induction l as [|c l IH]; intros n; [done|]. cbn. by rewrite Hres, IH. }
  by rewrite Hfold.
Qed.

Lemma rebuild_idempotent r r1 : rebuild r = Some r1 -> rebuild r1 = Some r1.
Proof.
  intros H. destruct (rebuild_servers r r1 H) as (H1 & H2 & H3 & H4). by apply (rebuild_ext r).
Qed.

(** What a router shows, and under which policy name. *)
Definition shown (r : Router) : list (ToolDefinition regex) := tools (tool_index regex (index regex r)).
Definition policy_name_of (r : Router) (e : string) : string := policy_name regex (tool_index regex (index regex r)) e.

Lemma rebuild_below r p r1 r1' :
  tighter (policy (settings regex r)) p -> rebuild r = Some r1 -> rebuild (with_policy regex r p) = Some r1' ->
  (forall d, d ∈ shown r1' -> d ∈ shown r1) /\ forall e, policy_name_of r1' e = policy_name_of r1 e.
Proof.
  intros Ht. unfold rebuild_preserving_restored, rebuild_aggregation_with_reserved. cbn [servers with_policy by_id settings restored_candidates].
  change (reserve regex (with_policy regex r p)) with (reserve regex r).
  change (revision_of regex (with_policy regex r p)) with (revision_of regex r).
  set (cs := List.filter _ (restored_candidates regex r)).
  set (n := fold_left _ cs no_names). set (s' := Build_Settings _ p _ _).
  destruct (index_slots (settings regex r) _ (servers regex r)) as [i|] eqn:E; [|done].
  destruct (index_slots s' _ (servers regex r)) as [i'|] eqn:E'; [|done]. cbn [mbind option_bind].
  intros [= <-] [= <-].
  assert (Hi : below_index i' i).
  { eapply (below_index_slots (settings regex r) s' eq_refl eq_refl eq_refl Ht); [|exact E|exact E'].
    split; [by split|done]. }
  destruct Hi as [Hi _].
  set (R := with_candidates regex {| servers := servers regex r; by_id := by_id regex r; settings := settings regex r;
    restored_candidates := []; index := i |} cs).
  set (R' := with_candidates regex {| servers := servers regex r; by_id := by_id regex r; settings := s';
    restored_candidates := []; index := i' |} cs).
  assert (Hb : below (fold_left (apply_candidate R') cs (tool_index regex i'))
    (fold_left (apply_candidate R) cs (tool_index regex i))) by (by apply (below_candidates (settings regex r) s')).
  split; [apply Hb|]. intros e. unfold policy_name_of, policy_name. cbn. by rewrite (below_policy _ _ Hb).
Qed.

(** Any two rebuilds of the same router, the second under a tighter policy. *)
Theorem tighter_policy_exposes_less r p r' :
  rebuild r = Some r -> tighter (policy (settings regex r)) p -> rebuild (with_policy regex r p) = Some r' ->
  (forall d, d ∈ shown r' -> d ∈ shown r) /\ forall e, policy_name_of r' e = policy_name_of r e.
Proof. intros H Ht. by apply rebuild_below. Qed.

End router.
End Exposure.
