(* ===== verification/Vouched.v ===== *)
(** Who vouched for a pinned definition: a relation between the integrity stores and the
    set of definitions (a tool's name and a fingerprint) that were accepted, either by the
    policy of a check (a first sight or a benign change, unpoisoned) or by a user's
    release, and its preservation by every operation of the stores. It is what lets a
    later check trust a pin that matches. *)

From S2P Require Import Prelude Text Json ToolNames Pins Quarantine Baseline.


Module Vouched.
Import ToolNames Pins Quarantine Baseline.

(** The definitions accepted so far. *)
Definition Trust : Type := string -> string -> Prop.

Section stores.
Variable to_string : json -> string.
Variable sha256 : string -> list N.
Variable scan_definition : json -> Scan.
Context {C : Type} `{!ToolCatalog C}.
Variable profile : string.

Local Abbreviation pin_with_source := (Pins.pin_with_source to_string sha256).
Local Abbreviation pins_now := (Pins.pins_now to_string sha256).
Local Abbreviation risky := (Pins.risky to_string sha256 scan_definition).
Local Abbreviation findings := (Pins.findings to_string sha256 scan_definition).

(** The stores read, and every pin is of an accepted definition, or of one that is in
    quarantine, or of one whose review is owed. *)
Record tracked (T : Trust) (s : Stores) (pins : Pins) (q : Quarantine) : Prop := {
  tr_resolved : resolved s = true;
  tr_legacy : legacy_quarantine s = false;
  tr_pins : usable_pins (load_pins s) = Some pins;
  tr_records : load_quarantine s = Ok q;
  tr_wf : wf s;
  tr_accepted : forall n p, pins !! n = Some p -> T n (fp p) \/ n ∈ dom q \/ needs_review p = true
}.

(** [s'] follows [s]: what was quarantined still is. *)
Definition carries (T T' : Trust) (s s' : Stores) : Prop :=
  forall pins q, tracked T s pins q -> exists pins' q', tracked T' s' pins' q' /\ dom q ⊆ dom q'.

Lemma carries_refl T s s' : s' = s -> carries T T s s'.
Proof. intros -> pins q H. by exists pins, q. Qed.

Lemma carries_trans T1 T2 T3 s1 s2 s3 : carries T1 T2 s1 s2 -> carries T2 T3 s2 s3 -> carries T1 T3 s1 s3.
Proof.
  intros H12 H23 pins q H. destruct (H12 pins q H) as (p2 & q2 & H2 & D2). destruct (H23 p2 q2 H2) as (p3 & q3 & H3 & D3).
  exists p3, q3. split; [done|by transitivity (dom q2)].
Qed.

(** The policy of a check accepts what a tool lists now: it is new and unpoisoned, or no
    review is owed and it is the same definition in a new format of fingerprints, or a
    benign and unpoisoned change. *)
Definition vouched (pins : Pins) (tool : json) (source : option string) (n : string) : bool :=
  let clean := bool_decide (signatures (scan_definition tool) = []) in
  let new := pin_with_source tool source in
  match pins !! n with
  | None => clean
  | Some old =>
      negb (needs_review old) &&
      (negb (String.eqb (fp_version (fp old)) (fp_version (fp new))) ||
       String.eqb (drift_severity tool (annotation_downgrade old tool) (definition_content_changed old new)) SEV_INFO &&
       clean)
  end.

(** What is not risky is pinned already, or vouched for. *)
Lemma calm_vouched pins tool source n :
  risky pins tool source n = false ->
  vouched pins tool source n = true \/
  exists old, pins !! n = Some old /\ fp old = fp (pin_with_source tool source) /\ needs_review old = false.
Proof.
  unfold Pins.risky, vouched. generalize (pin_with_source tool source). intros new.
  destruct (pins !! n) as [old|] eqn:En.
  - assert (Hs : server_of n ∈ established pins) by (apply established_spec; exists n; rewrite En; eauto).
    rewrite (bool_decide_eq_true_2 _ Hs). destruct (reported old _) eqn:Er; cbn [andb].
    + intros H. left. destruct (needs_review old), (String.eqb (drift_severity _ _ _) _), (bool_decide _); try done.
      by rewrite orb_true_r.
    + intros _. unfold reported in Er. destruct (needs_review old) eqn:Enr; [done|]. cbn in Er |- *.
      destruct (String.eqb_spec (fp_version (fp old)) (fp_version (fp new))); [|by left].
      right. exists old. split; [done|]. split; [|done]. cbn in Er.
      by destruct (String.eqb_spec (fp old) (fp new)).
  - intros H. left. destruct (bool_decide (server_of n ∈ established pins)); by destruct (bool_decide (signatures _ = [])).
Qed.

(** What the catalog [c] adds to the accepted definitions. *)
Definition accepting (T : Trust) (pins : Pins) (c : C) : Trust := fun n f =>
  T n f \/ exists t, t ∈ pin_values c /\ name_of t.1 = Some n /\ f = fp (pin_with_source t.1 t.2) /\
    vouched pins t.1 t.2 n = true.

Lemma tracked_mono (T T' : Trust) s pins q : (forall n f, T n f -> T' n f) -> tracked T s pins q -> tracked T' s pins q.
Proof. intros H [H1 H2 H3 H4 H5 H6]. split; [done..|]. intros n p Hp. destruct (H6 n p Hp) as [?|?]; auto. Qed.

(** Replacing the pins, and the records, of tracked stores. *)
Lemma tracked_pins T T' s s' pins pins' q :
  tracked T s pins q -> same_quarantine s s' -> (exists f, quarantine_file s = Holds f) ->
  usable_pins (load_pins s') = Some pins' ->
  (forall n p, pins' !! n = Some p -> T' n (fp p) \/ n ∈ dom q \/ needs_review p = true) -> tracked T' s' pins' q.
Proof.
  intros [H1 H2 H3 H4 H5 H6] [Q1 Q2 Q3] [f Hf] Hp Ha. split; [congruence|congruence|done| |by eapply wf_file|done].
  revert H4. unfold load_quarantine. by rewrite Q1, Q2, Hf.
Qed.

Lemma tracked_same_load T s s' pins q :
  tracked T s pins q -> same_quarantine s s' -> load_pins s' = load_pins s -> tracked T s' pins q.
Proof.
  intros [H1 H2 H3 H4 H5 H6] [Q1 Q2 Q3] Hl. split; [congruence|congruence|by rewrite Hl| |by eapply wf_file|done].
  revert H4. unfold load_quarantine, missing_quarantine_store. by rewrite Q1, Q2, Q3, Hl.
Qed.

Lemma tracked_records T s s' pins q q' :
  tracked T s pins q -> load_pins s' = load_pins s -> resolved s' = resolved s ->
  legacy_quarantine s' = legacy_quarantine s -> quarantine_file s' = Holds q' -> objects q' ->
  (forall n r, q' !! n = Some r -> is_legacy_added r = false) ->
  (forall n, n ∈ dom q -> n ∈ dom q' \/ exists p, pins !! n = Some p /\ needs_review p = true) ->
  tracked T s' pins q'.
Proof.
  intros [H1 H2 H3 H4 H5 H6] Hl Hr Hleg Hf Ho Hq Hd. split; [congruence|congruence|by rewrite Hl| |by eapply wf_holds|].
  - apply load_holds; [congruence|done..].
  - intros n p Hp. destruct (H6 n p Hp) as [?|[Hn|?]]; [by left| |by auto].
    destruct (Hd n Hn) as [?|(p' & Hp' & ?)]; [by auto|]. right. right. congruence.
Qed.

(** ** The operations of the gate *)

(** A staged check pins nothing but what it vouches for; the store must exist, since its
    absence beside pins reads as a loss. *)
Lemma check_carries T c r w w' pins q :
  tracked T (stores w) pins q -> (exists f, quarantine_file (stores w) = Holds f) ->
  check_post to_string sha256 scan_definition true c r w w' ->
  exists pins', tracked (accepting T pins c) (stores w') pins' q.
Proof.
  intros Ht Hf [Hq H]. rewrite (tr_pins _ _ _ _ Ht) in H. destruct r as [events|e].
  2: { exists pins. eapply tracked_mono; [|by eapply tracked_same_load]. intros n f ?. by left. }
  destruct H as (clock & stamp & updated & _ & Hu & Hs). exists updated.
  eapply tracked_pins; [done|done|done|done|]. intros n p Hp.
  assert (Hn : exists p0, next to_string sha256 scan_definition true clock stamp c pins !! n = Some p0 /\ forget p = forget p0).
  { pose proof (similar_lookup _ _ n Hs) as E. rewrite Hp in E.
    destruct (next _ _ _ _ _ _ _ _ !! n) as [p0|]; [|done]. exists p0. split; [done|]. by apply (inj Some (forget p)) in E. }
  destruct Hn as (p0 & Hn & Hforget). apply forget_fields in Hforget as (F1 & F2 & _). rewrite F1, F2.
  assert (Hold : forall old, pins !! n = Some old -> accepting T pins c n (fp old) \/ n ∈ dom q \/ needs_review old = true).
  { intros old Ho. destruct (tr_accepted _ _ _ _ Ht n old Ho) as [?|?]; [left; by left|by auto]. }
  unfold next in Hn. rewrite deferred_lookup in Hn. destruct (decide _) as [Hc|Hc]; [by apply Hold|].
  rewrite rebaseline_lookup in Hn. destruct (pins_now c !! n) as [fresh|] eqn:Ef; [|by apply Hold].
  injection Hn as <-. apply pins_now_lookup in Ef as (t & Htin & Htn & ->).
  assert (Hcalm : risky pins t.1 t.2 n = false).
  { destruct (risky pins t.1 t.2 n) eqn:E; [|done]. destruct Hc. apply candidates_spec. by exists t. }
  rewrite rebaselined_fp, rebaselined_review. destruct (calm_vouched _ _ _ _ Hcalm) as [Hv|(old & Ho & Hfp & _)].
  - left. right. by exists t.
  - rewrite Ho, <- Hfp. destruct (Hold old Ho) as [?|[?|Hr]]; [by left|by auto|]. right. right. by rewrite Hr, orb_true_r.
Qed.

Lemma quarantine_carries T c events r w w' :
  quarantine_post to_string sha256 c events r w w' -> carries T T (stores w) (stores w').
Proof.
  intros H pins q Ht. destruct r as [added|e].
  - destruct (quarantined_load to_string sha256 c events added w w' H) as (q0 & q' & Ho & _ & Hd & _ & Hrow & Hload).
    assert (q0 = q) as -> by (destruct Ho as [Ho|[Ho _]]; rewrite (tr_records _ _ _ _ Ht) in Ho; congruence).
    specialize (Hload (tr_records _ _ _ _ Ht)). exists pins, q'. split; [|set_solver].
    destruct H as ([Hl Hr [Hleg _]] & _ & qa & qb & Hop & Hext & _ & _ & Hfile). destruct Ht as [H1 H2 H3 H4 H5 H6].
    split; [congruence|congruence|by rewrite Hl|done| |].
    + destruct added; [|by eapply wf_file]. eapply wf_holds; [exact Hfile|].
      apply (extends_objects to_string sha256 c qa (qb, true)); [by eapply opened_objects|done].
    + intros n p Hp. destruct (H6 n p Hp) as [?|[?|?]]; [by left|right; left; set_solver|by auto].
  - destruct H as ([Hl Hr [Hleg _]] & _ & Hfile). exists pins, q. split; [|done].
    eapply tracked_same_load; [done|by split|done].
Qed.

Lemma accept_carries T r w w' : accept_post r w w' -> carries T T (stores w) (stores w').
Proof.
  intros (Hr & Hleg & [->|(q0 & pending & stamp & Hq & Hp & Hne & Hl & Hf)]); [by apply carries_refl|].
  intros pins q Ht. assert (q0 = q) as -> by (rewrite (tr_records _ _ _ _ Ht) in Hq; congruence).
  assert (Hmerge : forall n p, merge_all pins stamp pending !! n = Some p -> T n (fp p) \/ n ∈ dom q \/ needs_review p = true).
  { intros n p Hn. destruct (merge_all_lookup sha256 pins stamp pending n) as [H|(p' & Hin & _)].
    - rewrite H in Hn. by eapply tr_accepted.
    - right. left. destruct (pending_pins_in to_string sha256 scan_definition _ _ _ _ Hp Hin) as (rec & _ & Hrec & _).
      apply elem_of_map_to_list in Hrec. apply elem_of_dom. eauto. }
  assert (Hpins : exists pins', usable_pins (load_pins (stores w')) = Some pins' /\
    forall n p, pins' !! n = Some p -> T n (fp p) \/ n ∈ dom q \/ needs_review p = true).
  { destruct Hl as [Hl|(pins0 & H0 & Hl)].
    - exists pins. rewrite Hl. split; [apply Ht|]. apply Ht.
    - assert (pins0 = pins) as -> by (rewrite (tr_pins _ _ _ _ Ht) in H0; congruence). eexists. split; [exact Hl|done]. }
  destruct Hpins as (pins' & Hu & Ha). destruct Ht as [H1 H2 H3 H4 H5 H6].
  assert (Hlegacy := load_not_legacy _ _ H4). assert (Hobj := load_objects _ _ H5 H4).
  destruct r as [[]|e].
  - exists pins', (settle_all pending q). rewrite settle_all_dom. split; [|done]. split; [congruence|congruence|done| | |by rewrite settle_all_dom].
    + apply load_holds; [congruence|done|]. intros n rec. apply settle_all_keeps with (P := fun rec => is_legacy_added rec = false); [|done].
      intros p rec0. by rewrite (proj2 (settle_record_spec p rec0)).
    + eapply wf_holds; [exact Hf|]. intros n rec. apply settle_all_keeps with (P := fun rec => is_object rec = true); [|done].
      intros p rec0. by rewrite (proj1 (settle_record_spec p rec0)).
  - exists pins', q. split; [|done].
    assert (Hhold : exists f, quarantine_file (stores w) = Holds f).
    { revert H4. unfold load_quarantine. rewrite H1. cbn. destruct (quarantine_file (stores w)) as [| |f]; [|done|by eexists].
      unfold missing_quarantine_store. rewrite H2. destruct (load_pins (stores w)); try done. intros [= <-].
      exfalso. apply Hne. rewrite map_to_list_empty in Hp. cbn in Hp. congruence. }
    eapply tracked_pins; [by split|by split|by apply Hhold|done|done].
Qed.

Lemma load_file T s pins q :
  tracked T s pins q -> (exists f, quarantine_file s = Holds f) \/ quarantine_file s = Absent /\ load_pins s = Fresh /\ q = ∅.
Proof.
  intros [H1 H2 _ H4 _ _]. revert H4. unfold load_quarantine. rewrite H1. cbn.
  destruct (quarantine_file s) as [| |f]; [|done|by left; eexists]. unfold missing_quarantine_store. rewrite H2.
  destruct (load_pins s); try done. intros [= <-]. by right.
Qed.

Lemma ensure_tracked T r w w' pins q :
  tracked T (stores w) pins q -> ensure_post r w w' ->
  exists q', tracked T (stores w') pins q' /\ dom q ⊆ dom q' /\
    (r = Ok tt -> exists f, quarantine_file (stores w') = Holds f).
Proof.
  intros Ht ([Hl Hr [Hleg _]] & [[Hf Hok]|(Ha & Hfresh & Hf)]).
  - exists q. split; [by eapply tracked_same_load|]. split; [done|]. intros ->. rewrite Hf.
    destruct (load_file _ _ _ _ Ht) as [?|(Ha & Hfr & _)]; [done|].
    by destruct (Hok eq_refl (tr_resolved _ _ _ _ Ht) Ha).
  - exists ∅. destruct (load_file _ _ _ _ Ht) as [[f Hf']|(_ & _ & ->)]; [congruence|]. split; [|split; [done|by eexists]].
    by eapply tracked_records.
Qed.

Lemma reconcile_tracked T gone servers present r w w' pins q :
  tracked T (stores w) pins q -> reconcile_post gone servers present r w w' ->
  exists pins' q', tracked T (stores w') pins' q' /\ reviews_only pins pins' /\
    forall n, n ∈ dom q -> n ∈ dom q' \/ exists p, pins' !! n = Some p /\ needs_review p = true.
Proof.
  intros Ht (Hr & Hleg & [->|(pins0 & absent & Hl & Habs & (pins' & Hl' & Hrev) & Hf)]).
  { exists pins, q. split; [done|]. split; [done|]. auto. }
  pose proof (tr_pins _ _ _ _ Ht) as Hp. rewrite Hl in Hp. injection Hp as <-.
  assert (Hfields : forall n p', pins' !! n = Some p' -> exists p, pins0 !! n = Some p /\ fp p' = fp p /\ needs_review p' = needs_review p).
  { intros n p' Hn. pose proof (f_equal (fun m : gmap string Pin => m !! n) Hrev) as E. cbn in E.
    rewrite !lookup_fmap, Hn in E. destruct (pins0 !! n) as [p|]; [|done]. exists p. split; [done|].
    apply (inj Some (settled p')) in E. by apply settled_fields in E as (? & ? & _). }
  assert (Hback : forall n p, pins0 !! n = Some p -> exists p', pins' !! n = Some p' /\ needs_review p' = needs_review p).
  { intros n p Hn. pose proof (f_equal (fun m : gmap string Pin => m !! n) Hrev) as E. cbn in E.
    rewrite !lookup_fmap, Hn in E. destruct (pins' !! n) as [p'|]; [|done]. exists p'. split; [done|].
    apply (inj Some (settled p')) in E. by apply settled_fields in E as (_ & ? & _). }
  destruct (load_file _ _ _ _ Ht) as [Hfile|(_ & ? & _)]; [|congruence].
  assert (Hq : exists q', load_quarantine (stores w') = Ok q' /\ wf (stores w') /\
    forall n, n ∈ dom q -> n ∈ dom q' \/ n ∈ absent).
  { pose proof (tr_records _ _ _ _ Ht) as H4. pose proof (tr_wf _ _ _ _ Ht) as H5.
    destruct Hf as [Hf|(q0 & Ho & Hf)].
    - exists q. split; [|split; [by eapply wf_file|auto]]. revert H4. unfold load_quarantine. rewrite Hr, Hf.
      destruct Hfile as [f ->]. by destruct (negb _).
    - assert (q0 = q) as -> by (destruct Ho as [Ho|[Ho _]]; congruence). eexists. split; [|split].
      + apply load_holds; [rewrite Hr; apply Ht|exact Hf|]. intros n rec [H _]%map_lookup_filter_Some.
        by eapply load_not_legacy.
      + eapply wf_holds; [exact Hf|]. apply objects_filter. by eapply load_objects.
      + intros n [rec Hn]%elem_of_dom. destruct (decide (n ∈ absent)) as [?|Hna]; [by right|left].
        apply elem_of_dom. exists rec. by apply map_lookup_filter_Some. }
  destruct Hq as (q' & Hq & Hwf & Hd). exists pins', q'. split; [|split; [done|]].
  - split; [rewrite Hr; apply Ht|rewrite Hleg; apply Ht|by rewrite Hl'|done|done|]. intros n p' Hn.
    destruct (Hfields n p' Hn) as (p & Hp & -> & ->). destruct (tr_accepted _ _ _ _ Ht n p Hp) as [?|[Hin|?]]; [by left| |by auto].
    destruct (Hd n Hin) as [?|Hab]; [by auto|]. destruct (Habs n Hab) as (p2 & Hp2 & Hn2). right. right. congruence.
  - intros n Hn. destruct (Hd n Hn) as [?|Hab]; [by left|]. right. destruct (Habs n Hab) as (p & Hp & Hr2).
    destruct (Hback n p Hp) as (p' & ? & ?). exists p'. split; [done|congruence].
Qed.

(** ** What a user releases *)

Definition released (T : Trust) (names : string -> Prop) (s' : Stores) : Trust := fun n f =>
  T n f \/ names n /\ exists pins p, usable_pins (load_pins s') = Some pins /\ pins !! n = Some p /\ f = fp p.

(** Releasing [names]: their pins change, their records may go. *)
Lemma released_tracked T (names : string -> Prop) s s' pins q pins' q' :
  tracked T s pins q -> resolved s' = resolved s -> legacy_quarantine s' = legacy_quarantine s ->
  usable_pins (load_pins s') = Some pins' ->
  (exists f, quarantine_file s = Holds f) ->
  (quarantine_file s' = quarantine_file s /\ q' = q \/ quarantine_file s' = Holds q' /\ q' ⊆ q) ->
  (forall n, n ∈ dom q -> n ∈ dom q' \/ names n) ->
  (forall n, names n \/ pins' !! n = pins !! n) ->
  tracked (released T names s') s' pins' q'.
Proof.
  intros [H1 H2 H3 H4 H5 H6] Hr Hleg Hp [f Hfile] Hf Hd Hn.
  assert (Hq : load_quarantine s' = Ok q' /\ wf s').
  { destruct Hf as [[Hf ->]|[Hf Hsub]].
    - split; [|by eapply wf_file]. revert H4. unfold load_quarantine. by rewrite Hr, Hf, Hfile.
    - split; [|eapply wf_holds; [exact Hf|]; intros n rec Hrec; eapply (load_objects _ _ H5 H4); by eapply lookup_weaken].
      apply load_holds; [congruence|done|]. intros n rec Hrec. eapply load_not_legacy; [exact H4|]. by eapply lookup_weaken. }
  destruct Hq as [Hq Hwf]. split; [congruence|congruence|done|done|done|]. intros n p Hpn.
  assert (Hrel : names n -> released T names s' n (fp p)) by (intros ?; right; split; [done|]; by exists pins', p).
  destruct (Hn n) as [?|E]; [left; by apply Hrel|]. rewrite E in Hpn. destruct (H6 n p Hpn) as [?|[Hin|?]]; [left; by left| |by auto].
  destruct (Hd n Hin) as [?|?]; [by auto|left; by apply Hrel].
Qed.

Lemma release_tracked T tool r w w' pins q :
  tracked T (stores w) pins q -> release_post tool r w w' ->
  exists pins' q', tracked (released T (fun n => n = tool) (stores w')) (stores w') pins' q'.
Proof.
  intros Ht (Hr & Hleg & H).
  assert (Hsame : stores w' = stores w -> exists pins' q', tracked (released T (fun n => n = tool) (stores w')) (stores w') pins' q').
  { intros ->. exists pins, q. eapply tracked_mono; [|exact Ht]. intros n f ?. by left. }
  destruct H as [[Hs _]|(q0 & record & pending & stamp & [Hq Hrec _] & Hf & Hl & Hok)]; [by apply Hsame|].
  assert (q0 = q) as -> by (pose proof (tr_records _ _ _ _ Ht); congruence).
  destruct (load_file _ _ _ _ Ht) as [Hfile|(_ & _ & ->)]; [|by rewrite lookup_empty in Hrec].
  assert (Hpins : exists pins', usable_pins (load_pins (stores w')) = Some pins' /\ forall n, n = tool \/ pins' !! n = pins !! n).
  { destruct Hl as [[-> _]|(pins0 & H0 & Hl)]; [exists pins; split; [apply Ht|by right]|].
    rewrite (repairable_usable _ _ _ _ (tr_pins _ _ _ _ Ht) H0) in Hl. eexists. split; [exact Hl|]. intros n.
    destruct (decide (n = tool)); [by left|right]. by apply apply_release_other. }
  destruct Hpins as (pins' & Hu & Hother).
  assert (Hcase : quarantine_file (stores w') = quarantine_file (stores w) \/ quarantine_file (stores w') = Holds (delete tool q)).
  { destruct Hf as [Hf|?]; [|by left]. destruct r as [b|]; [subst b; right; by apply Hok|done]. }
  destruct Hcase as [Hc|Hc].
  - exists pins', q. eapply released_tracked; [exact Ht|done..|by left|auto|done].
  - exists pins', (delete tool q). eapply released_tracked; [exact Ht|done..| | |done].
    + right. split; [done|apply delete_subseteq].
    + intros n Hn. destruct (decide (n = tool)); [by right|left]. rewrite dom_delete_L. set_solver.
Qed.

Lemma repair_fold_other expected stamp l pins n :
  (forall kv, kv ∈ l -> kv.1 <> n) ->
  fold_left (fun updated kv => repair stamp updated kv.1 kv.2 (fate to_string sha256 expected kv.1 kv.2)) l pins !! n = pins !! n.
Proof.
  revert pins. induction l as [|kv l IH]; intros pins Hl; [done|]. cbn. rewrite IH by set_solver.
  destruct (fate _ _ expected kv.1 kv.2); [done| |done]. apply apply_release_other. intros ->. by eapply Hl; [left|].
Qed.

(** The tools a bulk release releases. *)
Definition released_in_bulk (expected : option (gmap string string)) (s : Stores) (n : string) : Prop :=
  exists q record, load_quarantine s = Ok q /\ q !! n = Some record /\
    repairs (fate to_string sha256 expected n record) = true.

Lemma release_all_tracked T expected r w w' pins q :
  tracked T (stores w) pins q -> release_all_post to_string sha256 expected r w w' ->
  exists pins' q', tracked (released T (released_in_bulk expected (stores w)) (stores w')) (stores w') pins' q'.
Proof.
  intros Ht (Hr & Hleg & H).
  assert (Hmono : forall s p0 q0, tracked T s p0 q0 -> tracked (released T (released_in_bulk expected (stores w)) s) s p0 q0)
    by (intros; eapply tracked_mono; [|done]; by left).
  destruct H as [->|(q0 & stamp & Hq & Hne & [[Hl Hf]|(pins0 & tamper & H0 & _ & Hl & Hf)])]; [by exists pins, q; apply Hmono| |].
  { exists pins, q. apply Hmono. by eapply tracked_same_load. }
  assert (q0 = q) as -> by (pose proof (tr_records _ _ _ _ Ht); congruence).
  rewrite (repairable_usable _ _ _ _ (tr_pins _ _ _ _ Ht) H0) in Hl.
  set (accepted := List.filter _ _) in Hl.
  assert (Hacc : forall n rec, (n, rec) ∈ accepted <-> q !! n = Some rec /\ repairs (fate to_string sha256 expected n rec) = true).
  { intros n rec. unfold accepted. rewrite list_elem_of_In, filter_In, <- list_elem_of_In, elem_of_map_to_list. done. }
  destruct (load_file _ _ _ _ Ht) as [Hfile|(_ & _ & ?)]; [|done].
  assert (Hother : forall n, released_in_bulk expected (stores w) n \/ ~ exists rec, (n, rec) ∈ accepted).
  { intros n. destruct (q !! n) as [rec|] eqn:En; [|right; intros [rec Hin]; apply Hacc in Hin as [? _]; congruence].
    destruct (repairs (fate to_string sha256 expected n rec)) eqn:E; [left; by exists q, rec|right].
    intros [rec' Hin]. apply Hacc in Hin as [? ?]. congruence. }
  eexists. destruct Hf as [Hf|Hf].
  - exists q. eapply released_tracked; [exact Ht|done|done|exact Hl|done|by left|auto|].
    intros n. destruct (Hother n) as [?|Hno]; [by left|right]. apply repair_fold_other. intros [m rec] Hin <-. apply Hno. by exists rec.
  - eexists. eapply released_tracked; [exact Ht|done|done|exact Hl|done| | |].
    + right. split; [exact Hf|apply map_filter_subseteq].
    + intros n [rec Hn]%elem_of_dom. destruct (repairs (fate to_string sha256 expected n rec)) eqn:E; [right; by exists q, rec|left].
      apply elem_of_dom. exists rec. by apply map_lookup_filter_Some.
    + intros n. destruct (Hother n) as [?|Hno]; [by left|right]. apply repair_fold_other. intros [m rec] Hin <-. apply Hno. by exists rec.
Qed.

End stores.
End Vouched.
