(* ===== verification/Gate.v ===== *)
(** The integrity gate (src/bin/toolport-gateway.rs and the catalogs of src/router.rs it
    checks): every router is checked against the stored baseline before it goes live, what
    drifted is quarantined and hidden, and the live router follows the stored quarantine.

    A step of the gate is a computation over the integrity stores ([Quarantine.World]),
    which ends with the router to publish. The supervisors of a router, the log and the
    list_changed notices are not modelled; publishing is the exchange of the live router,
    and one gateway at a time writes the stores. *)

From S2P Require Import Prelude Text Json ToolNames SchemaCompat SchemaRefs Aliases Catalog.
From S2P Require Import Safety Pins Quarantine Baseline Exposure.


Module Gate.
Import ToolNames Aliases Pins Quarantine Baseline.

Section gate.
Variable content_digest : json -> list N.
Variable regex : Type.
Variable regex_new : string -> option regex.
Variable number_from_str : string -> option number.
Variable number_from_f64_str : string -> option number.
Variable to_string : json -> string.
Variable sha256 : string -> list N.
Variable scan_definition : json -> Scan.
Variable profile : string.

Local Abbreviation Router := (Catalog.Router regex).
Local Abbreviation ToolDefinition := (Catalog.ToolDefinition regex).
Local Abbreviation shown := (Exposure.shown regex).
Local Abbreviation tool_index r := (Catalog.tool_index regex (Catalog.index regex r)).
Local Abbreviation policy_of r := (Catalog.policy (Catalog.settings regex r)).
Local Abbreviation requarantine := (Catalog.requarantine content_digest regex regex_new number_from_str number_from_f64_str).
Local Abbreviation requarantine_from_store := (Catalog.requarantine_from_store content_digest regex regex_new number_from_str number_from_f64_str).
Local Abbreviation fail_closed_catalog := (Catalog.fail_closed_catalog content_digest regex regex_new number_from_str number_from_f64_str).

(** ** Catalogs *)

Abbreviation SharedTools := (list ToolDefinition).

Definition shared_pin_values (ts : SharedTools) : list (json * option string) :=
  map (fun d => (Catalog.value regex d, Catalog.source_input_schema regex d)) ts.

Definition shared_gate_name (ts : SharedTools) (name : string) : option string :=
  d ← List.find (fun d => is_some (Catalog.gate_name regex d) &&
                          bool_decide (Catalog.definition_name regex d = Some name)) ts;
  Catalog.gate_name regex d.

#[export] Instance shared_catalog : ToolCatalog SharedTools :=
  {| pin_values := shared_pin_values; Pins.gate_name := shared_gate_name |}.

(** The downstream name the call gate judges, when the catalog shows another. *)
Definition shown_part (policy : string) : string :=
  match split_on_str "__" policy with Some (_, tool) => tool | None => policy end.

Definition judged_name (r : Router) (tool definition : json) : option string :=
  let shown := shown_part (default "" (Catalog.name_in definition)) in
  e ← Catalog.name_in tool;
  '(_, original) ← Catalog.route_of regex r e;
  if negb (String.eqb original shown) && negb (String.eqb (sanitize_segment original) shown)
  then Some original else None.

(** [policy_definition] borrows the definition when it has its policy name already. *)
Definition keeps_name (r : Router) (tool : json) : bool :=
  match Catalog.name_in tool with
  | None => true
  | Some e => String.eqb (Catalog.policy_name regex (tool_index r) e) e
  end.

Definition policy_entry (r : Router) (d : ToolDefinition) : ToolDefinition :=
  let tool := Catalog.value regex d in
  let definition := Catalog.policy_definition regex r tool in
  let judged := judged_name r tool definition in
  if keeps_name r tool && negb (is_some judged) then d
  else {| Catalog.value := definition; Catalog.arguments := None;
          Catalog.source_input_schema := Catalog.source_input_schema regex d;
          Catalog.gate_name := judged |}.

Definition policy_catalog (r : Router) (ts : SharedTools) : SharedTools := map (policy_entry r) ts.

Definition upstream_name (r : Router) (server original name : string) : string :=
  default name (Catalog.lookup2 (Catalog.canonical_policy (Catalog.settings regex r)) server original).

Definition indexed_policy_names (r : Router) : gset string :=
  list_to_set (concat (map (fun st => map (fun on => upstream_name r st.1 on.1 on.2) (map_to_list st.2))
    (map_to_list (Catalog.policy_by_original regex (tool_index r)))) ++
  map (fun c => default (Catalog.exposed regex c) (Catalog.policy_name_kept regex c)) (Catalog.restored_candidates regex r)).

Definition integrity_candidate_names (r : Router) : gset string :=
  list_to_set (omap (fun e =>
    match Catalog.blocked regex (tool_index r) !! e with
    | None => Some (Catalog.policy_name regex (tool_index r) e)
    | Some reason =>
        if String.eqb reason Catalog.quarantined_reason || String.eqb reason Catalog.unreadable_reason
        then Some (Catalog.policy_name regex (tool_index r) e) else None
    end) (elements (dom (Catalog.tool_owners regex (tool_index r))))).

(** ** The check *)

(** What the gate reads of the registry. *)
Record RegistryView := {
  safety : Safety.Registry;
  identities : list (string * list string);
  profile_gone : bool
}.

Definition quarantines_drift (v : RegistryView) : bool := Safety.quarantine_on_drift_effective (safety v).
Definition level (v : RegistryView) : Safety.SafetyLevel := Safety.safety_level_effective (safety v).
Definition blocking (v : RegistryView) : bool := negb (bool_decide (level v = Safety.Off)).

(** [Result<Option<names>, (error, names)>]: names to hide, or a failure and the names
    that must stay hidden. *)
Inductive Outcome := Checked (pending : option (gset string)) | Hide (pending : gset string).

(** [map_err] with the names to hide, and an early return. *)
Definition or_hide {A} (m : M A) (pending : gset string) (k : A -> M Outcome) : M Outcome :=
  r ← attempt m;
  match r with Ok a => k a | Err _ => mret (Hide pending) end.

Definition reviewed_names (events : list json) : gset string :=
  list_to_set (omap tool_in (List.filter review_required events)).

Definition held (v : RegistryView) (e : json) : bool := review_required e || (blocking v && ask_holds e).

Definition enforces_drift (v : RegistryView) (events : list json) : bool :=
  quarantines_drift v || (blocking v && baseline_tamper_detected events).

(** The events found are enforced or recorded. *)
Definition enforce (v : RegistryView) (tools : SharedTools) (required : bool) (events : list json) : M Outcome :=
  let drift := enforces_drift v events in
  if drift || required || (blocking v && existsb ask_holds events) then
    let req := List.filter (fun e => drift || held v e) events in
    let pending := quarantine_candidates tools req in
    or_hide (apply_quarantine to_string sha256 tools req) pending (fun _ =>
    or_hide accept_quarantined_pins pending (fun _ =>
    or_hide (if drift then mret tt
             else accept_staged_pins to_string sha256 tools (List.filter (fun e => negb (held v e)) events)) pending (fun _ =>
    mret (Checked (if bool_decide (pending = ∅) then None else Some pending)))))
  else
    or_hide (accept_staged_pins to_string sha256 tools events) ∅ (fun _ => mret (Checked None)).

(** From the check of the catalog on; with the reviews it found. *)
Definition check_catalog (v : RegistryView) (tools : SharedTools) (reviews : gset string) (required : bool)
    : M (Outcome * (gset string * bool)) :=
  let all_names := list_to_set (catalog_names tools) in
  made ← attempt ensure_quarantine_store_for_fresh_pins;
  match made with
  | Err _ => mret (Hide all_names, (reviews, required))
  | Ok _ =>
      checked ← attempt (check_staged to_string sha256 scan_definition profile tools);
      match checked with
      | Err _ => mret (Hide all_names, (reviews, required))
      | Ok events =>
          let recapture := existsb review_required events in
          let reviews := reviews ∪ reviewed_names events in
          let required := required || recapture in
          o ← or_hide (if negb (baseline_tamper_detected events) && negb recapture
                       then accept_quarantined_pins else mret tt) (quarantine_candidates tools events)
                (fun _ => enforce v tools required events);
          mret (o, (reviews, required))
      end
  end.

Definition maybe_check_integrity (v : RegistryView) (tools : SharedTools) : M Outcome :=
  let all_names := list_to_set (catalog_names tools) in
  let record_only := negb (blocking v) && negb (quarantines_drift v) in
  '(reviews, readable) ← definition_review_names_for_catalog all_names;
  '(o, (reviews, required)) ←
    (if negb (readable : bool) && record_only then
       names ← definition_review_names;
       let reviews := names ∩ all_names in
       recovered ← attempt (recover_unreadable_baseline_at_off to_string sha256 profile tools);
       match recovered with
       | Ok _ => check_catalog v tools reviews (negb (bool_decide (reviews = ∅)))
       | Err _ => mret (Hide reviews, (reviews, negb (bool_decide (reviews = ∅))))
       end
     else check_catalog v tools reviews (negb (bool_decide (reviews = ∅))));
  mret (match o with
        | Hide _ => if record_only then if (required : bool) then Hide reviews else Checked None else o
        | Checked _ => o
        end).

(** ** The quarantine a router enforces *)

Definition effective_quarantine (v : RegistryView) : M (option (gset string)) :=
  stored ← attempt (if quarantines_drift v then quarantined_checked
                    else if bool_decide (level v = Safety.Ask) then mandatory_quarantined_checked
                    else review_quarantined_checked);
  match stored with
  | Ok names => reviews ← definition_review_names; mret (Some (names ∪ reviews))
  | Err _ => mret None
  end.

Definition requarantine_after_integrity_change (r : Router) (pending : gset string)
    (persisted : option (gset string)) : M Router :=
  names ← match persisted with
          | Some names => mret names
          | None => reviews ← definition_review_names; mret (Catalog.quarantined (policy_of r) ∪ reviews)
          end;
  of_option (if is_some persisted then requarantine_from_store r (names ∪ pending)
             else requarantine r (names ∪ pending)).

Definition fail_closed_integrity_catalog (v : RegistryView) (r : Router) (pending : gset string) : M Router :=
  let off := bool_decide (level v = Safety.Off) && negb (quarantines_drift v) in
  reviews ← definition_review_names;
  let hidden := (if off then ∅ else Catalog.quarantined (policy_of r)) ∪ pending ∪ reviews in
  stored ← attempt (if off then review_quarantined_checked else quarantined);
  '(r, hidden) ← match stored with
                 | Ok names => mret (r, hidden ∪ names)
                 | Err _ => r ← of_option (fail_closed_catalog r); mret (r, hidden)
                 end;
  of_option (if off then requarantine_from_store r hidden else requarantine r hidden).

(** [requarantine_if_needed] on the router about to be published. *)
Definition requarantine_if_needed (v : RegistryView) (built : Router) : M Router :=
  reviews ← definition_review_names;
  let checking := Catalog.quarantined (policy_of built) ∖ reviews in
  built ← (if bool_decide (checking = Catalog.quarantined (policy_of built)) then mret built
           else of_option (requarantine_from_store built checking));
  cleanup ← attempt (reconcile_definition_reviews (profile_gone v) (identities v) (indexed_policy_names built));
  o ← maybe_check_integrity v (policy_catalog built (shown built));
  let hidden := Catalog.quarantined (policy_of built) in
  match o with
  | Checked (Some pending) =>
      stored ← effective_quarantine v;
      requarantine_after_integrity_change built (pending ∪ hidden) stored
  | Checked None =>
      stored ← effective_quarantine v;
      match stored with
      | Some names => if bool_decide (names ∪ hidden = hidden) then mret built
                      else of_option (requarantine built (names ∪ hidden))
      | None => of_option (fail_closed_catalog built)
      end
  | Hide pending => fail_closed_integrity_catalog v built pending
  end.

(** The router that goes live. *)
Definition publish_built_router (v : RegistryView) (built : Router) : M Router := requarantine_if_needed v built.

(** ** Following the store *)

Definition definition_reviews_need_capture (present : gset string) : M bool :=
  r ← cached_review_pins;
  if unreadable r || bool_decide (review_names r ## present) then mret false
  else
    s ← read stores;
    mret (match load_quarantine s with
          | Ok q => negb (bool_decide (review_names r ∩ present ⊆
              dom (filter (fun kv => review_required kv.2 && has_definition kv.2 = true) q)))
          | Err _ => true
          end).

(** One turn of the watcher whose exchange of the live router succeeds. *)
Definition reconcile_quarantine (v : RegistryView) (live : Router) : M Router :=
  want ← effective_quarantine v;
  match want with
  | None => mret live
  | Some want =>
      retry ← definition_reviews_need_capture (integrity_candidate_names live);
      let current := Catalog.quarantined (policy_of live) in
      let closed := Catalog.fail_closed (policy_of live) in
      if bool_decide (current = want) && negb closed && negb (retry : bool) then mret live
      else
        next ← of_option (requarantine_from_store live want);
        if negb (bool_decide (current ⊆ want)) || closed || retry then requarantine_if_needed v next else mret next
  end.

End gate.
End Gate.
