(* ===== verification/Vetting.v ===== *)
(** What the integrity gate guarantees (src/bin/toolport-gateway.rs): no router goes live
    but with definitions that passed the check against the stored baseline, whatever
    store operation fails, and over any history of checks and releases every definition a
    client sees at Strict was accepted, by policy when it was new or benign or by the
    user. *)

From S2P Require Import Prelude Text Json ToolNames SchemaCompat SchemaRefs Aliases Catalog.
From S2P Require Import Safety Pins Quarantine Baseline Exposure Vouched Gate.


Module Vetting.
Import ToolNames Aliases Pins Quarantine Baseline Vouched Gate.

Lemma wp_attempt {A} (m : M A) Q w : wp m (fun r w' => Q (Ok r) w') w -> wp (attempt m) Q w.
Proof. unfold wp, attempt. by destruct (m w) as [[r w']|]. Qed.

Lemma wp_or_hide {A} (m : M A) pending (k : A -> M Outcome) Q w :
  wp m (fun r w' => match r with Ok a => wp (k a) Q w' | Err _ => Q (Ok (Hide pending)) w' end) w ->
  wp (or_hide m pending k) Q w.
Proof.
  intros H. apply wp_bind, wp_attempt. eapply wp_mono; [exact H|]. intros [a|e] w'; [done|]. by intros ?; apply wp_ret.
Qed.

Lemma wp_of_option {A} (o : option A) Q w : (exists a, o = Some a /\ Q (Ok a) w) -> wp (of_option o) Q w.
Proof. intros (a & -> & H). done. Qed.

(** Reading what is remembered of the reviews changes no file. *)
Lemma wp_review_names Q w :
  (forall names w', stores w' = stores w -> Q (Ok names) w') -> wp definition_review_names Q w.
Proof. intros H. apply wp_bind, wp_reviews. intros w' Hs _. by apply wp_ret, H. Qed.

Lemma wp_reviews_for present Q w :
  (forall names b w', stores w' = stores w -> Q (Ok (names, b)) w') -> wp (definition_review_names_for_catalog present) Q w.
Proof. intros H. apply wp_bind, wp_reviews. intros w' Hs _. apply wp_ret. by destruct (unreadable _); apply H. Qed.

Section gate.
Variable content_digest : json -> list N.
Variable regex : Type.
Variable regex_new : string -> option regex.
Variable number_from_str : string -> option number.
Variable number_from_f64_str : string -> option number.
Variable to_string : json -> string.
Variable sha256 : string -> list N.
Variable scan_definition : json -> Scan.
Variable profile : string.

Local Abbreviation Router := (Catalog.Router regex).
Local Abbreviation ToolDefinition := (Catalog.ToolDefinition regex).
Local Abbreviation SharedTools := (list ToolDefinition).
Local Abbreviation shown := (Exposure.shown regex).
Local Abbreviation policy_of r := (Catalog.policy (Catalog.settings regex r)).
Local Abbreviation rebuild := (Catalog.rebuild_preserving_restored content_digest regex regex_new number_from_str number_from_f64_str).
Local Abbreviation risky := (Pins.risky to_string sha256 scan_definition).
Local Abbreviation pin_with_source := (Pins.pin_with_source to_string sha256).
Local Abbreviation findings := (Pins.findings to_string sha256 scan_definition).

(** ** What a check must hide *)

(** Ask holds what owes a review, and a destructive tool that stopped declaring itself so
    with a change the quarantine counts. *)
Definition held_back (v : RegistryView) (c : SharedTools) (pins : Pins) (t : json * option string) (n : string) : bool :=
  match pins !! n with
  | Some old =>
      needs_review old ||
      (blocking v && reported old (pin_with_source t.1 t.2) &&
       gate_downgrade old t.1 n (Pins.gate_name c n) &&
       negb (String.eqb (drift_severity t.1 (annotation_downgrade old t.1)
                           (definition_content_changed old (pin_with_source t.1 t.2))) SEV_INFO))
  | None => false
  end.

Definition must_hide (v : RegistryView) (c : SharedTools) (base : option Pins) (n : string) : Prop :=
  match base with
  | None => n ∈ catalog_names c
  | Some pins => exists t, t ∈ pin_values c /\ name_of t.1 = Some n /\
      (quarantines_drift v && risky pins t.1 t.2 n || held_back v c pins t n = true)
  end.

Lemma must_hide_listed v c base n : must_hide v c base n -> n ∈ catalog_names c.
Proof.
  destruct base as [pins|]; [|done]. intros (t & Ht & Hn & _). unfold catalog_names, values.
  apply list_elem_of_omap. exists t.1. split; [|done]. apply list_elem_of_fmap. by exists t.
Qed.

(** The flags of a change. *)
Lemma changed_flags ts (c : SharedTools) tool name old new :
  review_required (changed_finding ts c tool name old new) = needs_review old /\
  is_downgrade (changed_finding ts c tool name old new) =
    negb (needs_review old) && gate_downgrade old tool name (Pins.gate_name c name).
Proof.
  set (sev := if needs_review old then SEV_HIGH
              else drift_severity tool (annotation_downgrade old tool) (definition_content_changed old new)).
  assert (Hev : forall k, k ∈ added_keys -> get k (event ts (server_of name) name "changed" sev) = None).
  { intros k Hk. unfold event. rewrite get_obj. unfold added_keys in Hk.
    repeat (apply elem_of_cons in Hk as [->|Hk]; [done|]). by apply not_elem_of_nil in Hk. }
  assert (Hobj : is_object (changed_event ts (server_of name) name sev old new) = true).
  { unfold changed_event.
    destruct (needs_review old), (parameters old), (parameters new), (changed_definition_fields old new);
      by rewrite ?put_object. }
  assert (Hrev : get "review_required" (changed_event ts (server_of name) name sev old new) =
    if needs_review old then Some (JBool true) else None).
  { unfold changed_event.
    destruct (changed_definition_fields old new), (parameters old), (parameters new), (needs_review old);
      rewrite ?get_put_ne by done; try (by rewrite get_put_eq); apply Hev; unfold added_keys; set_solver. }
  assert (Hgate : get "gate_downgrade" (changed_event ts (server_of name) name sev old new) = None).
  { unfold changed_event.
    destruct (changed_definition_fields old new), (parameters old), (parameters new), (needs_review old);
      rewrite !get_put_ne by done; apply Hev; unfold added_keys; set_solver. }
  unfold changed_finding. fold sev. unfold review_required, is_downgrade, at_key.
  destruct (negb (needs_review old) && gate_downgrade old tool name (Pins.gate_name c name)) eqn:E.
  - rewrite get_put_ne, get_put_eq, Hrev by done. by destruct (needs_review old).
  - rewrite Hrev, Hgate. by destruct (needs_review old).
Qed.

Lemma changed_high_risk ts (c : SharedTools) tool name old new :
  is_high_risk_drift (changed_finding ts c tool name old new) =
  needs_review old || negb (String.eqb (drift_severity tool (annotation_downgrade old tool)
                                          (definition_content_changed old new)) SEV_INFO).
Proof.
  rewrite (high_risk_get _ _ (changed_finding_get to_string sha256 scan_definition c "severity" _ _ _ _ _ ltac:(unfold added_keys; set_solver))
    (changed_finding_get to_string sha256 scan_definition c "change" _ _ _ _ _ ltac:(unfold added_keys; set_solver))), event_high_risk.
  destruct (needs_review old); [done|].
  by destruct (drift_severity_cases tool (annotation_downgrade old tool) (definition_content_changed old new)) as [->|[-> | ->]].
Qed.

Lemma filter_untampered (h : json -> bool) clock (c : SharedTools) pins :
  baseline_tamper_detected (List.filter h (findings clock c pins)) = false.
Proof.
  apply not_true_iff_false. intros (e & He & Ht)%existsb_exists. apply filter_In in He as [He _].
  pose proof (findings_untampered to_string sha256 scan_definition c clock pins) as Hno.
  apply not_true_iff_false in Hno. apply Hno. apply existsb_exists. by exists e.
Qed.

(** What Ask holds is an event of the check. *)
Lemma held_back_event v clock (c : SharedTools) pins t n :
  t ∈ pin_values c -> name_of t.1 = Some n -> held_back v c pins t n = true ->
  exists e, e ∈ findings clock c pins /\ tool_in e = Some n /\ is_high_risk_drift e = true /\ held v e = true.
Proof.
  intros Ht Hn H. unfold held_back in H. destruct (pins !! n) as [old|] eqn:Eo; [|done].
  apply list_elem_of_lookup in Ht as [i Hi].
  assert (Hrep : reported old (pin_with_source t.1 t.2) = true).
  { destruct (reported old _) eqn:Er; [done|]. unfold reported in Er. apply orb_false_iff in Er as [Er _].
    revert H. by rewrite Er, andb_false_r. }
  exists (changed_finding (clock i).1 c t.1 n old (pin_with_source t.1 t.2)).
  split; [|split; [apply (changed_tool to_string sha256 scan_definition)|]].
  - apply findings_in. exists i, t. split; [done|]. unfold tool_findings. rewrite Hn.
    unfold drift_finding. assert (Hs : server_of n ∈ established pins) by (apply established_spec; exists n; rewrite Eo; eauto).
    rewrite (bool_decide_eq_true_2 _ Hs), Eo, Hrep. left.
  - rewrite changed_high_risk. destruct (changed_flags (clock i).1 c t.1 n old (pin_with_source t.1 t.2)) as [F1 F2].
    unfold held, ask_holds. rewrite F1, F2. destruct (needs_review old); [done|]. cbn in H |- *.
    destruct (blocking v), (reported old _), (gate_downgrade _ _ _ _), (String.eqb _ _); done.
Qed.

(** What must be hidden is among the candidates of the events that are enforced. *)
Lemma must_hide_candidates v clock (c : SharedTools) pins n :
  must_hide v c (Some pins) n ->
  n ∈ quarantine_candidates c (List.filter (fun e => quarantines_drift v || held v e) (findings clock c pins)).
Proof.
  intros (t & Ht & Hn & H). unfold quarantine_candidates. rewrite filter_untampered.
  assert (He : exists e, e ∈ findings clock c pins /\ tool_in e = Some n /\ is_high_risk_drift e = true /\
    quarantines_drift v || held v e = true).
  { destruct (quarantines_drift v && risky pins t.1 t.2 n) eqn:E.
    - apply andb_true_iff in E as [Eq Er].
      assert (Hc : n ∈ quarantine_candidates c (findings clock c pins)) by (apply candidates_spec; by exists t).
      unfold quarantine_candidates in Hc. rewrite findings_untampered in Hc.
      apply elem_of_list_to_set, list_elem_of_omap in Hc as (e & He & Hto).
      apply list_elem_of_In, filter_In in He as [He Hr]. exists e. rewrite list_elem_of_In, Eq. done.
    - destruct (held_back_event v clock c pins t n Ht Hn H) as (e & He & Hto & Hr & Hh). exists e.
      by rewrite Hh, orb_true_r. }
  destruct He as (e & He & Hto & Hr & Hh). apply elem_of_list_to_set, list_elem_of_omap. exists e. split; [|done].
  apply list_elem_of_In, filter_In. split; [|done]. apply filter_In. by rewrite <- list_elem_of_In.
Qed.

Lemma held_free v : label_free (fun e => quarantines_drift v || held v e).
Proof.
  intros e e' H. unfold held, ask_holds. by rewrite (review_free e e' H), (downgrade_free e e' H).
Qed.

(** Every candidate is a tool of the catalog. *)
Lemma candidates_listed (h : json -> bool) clock (c : SharedTools) pins events :
  Forall2 relabelled (findings clock c pins) events -> label_free h ->
  quarantine_candidates c (List.filter h events) ⊆ list_to_set (catalog_names c).
Proof.
  intros Hev Hh. rewrite (relabelled_candidates c _ _ (relabelled_filter _ _ _ Hh Hev)).
  unfold quarantine_candidates. rewrite filter_untampered. intros n.
  rewrite !elem_of_list_to_set, list_elem_of_omap. intros (e & He & Hto).
  apply list_elem_of_In, filter_In in He as [He _]. apply filter_In in He as [He _].
  apply list_elem_of_In, findings_in in He as (i & t & Hi & He).
  apply tool_findings_named in He as (name & Hname & Hto' & _).
  unfold catalog_names, values. apply list_elem_of_omap. exists t.1. split; [|congruence].
  apply list_elem_of_fmap. exists t. split; [done|]. by eapply list_elem_of_lookup_2.
Qed.

(** ** The check of a catalog *)

Definition hide_of (o : Outcome) : gset string :=
  match o with Checked None => ∅ | Checked (Some p) => p | Hide p => p end.

Lemma quarantine_wf (c : SharedTools) events r w w' :
  wf (stores w) -> quarantine_post to_string sha256 c events r w w' -> wf (stores w').
Proof.
  intros Hwf (_ & _ & H). destruct r as [added|e]; [|by eapply wf_file].
  destruct H as (q & q' & Ho & He & _ & _ & Hf). destruct added; [|by eapply wf_file]. eapply wf_holds; [exact Hf|].
  apply (extends_objects to_string sha256 c q (q', true)); [by eapply opened_objects|done].
Qed.

Lemma accept_wf r w w' : wf (stores w) -> accept_post r w w' -> wf (stores w').
Proof. intros Hwf H. by destruct (persists_accept r w w' Hwf H). Qed.

Lemma ensure_wf r w w' : wf (stores w) -> ensure_post r w w' -> wf (stores w').
Proof.
  intros Hwf [_ [[Hf _]|(_ & _ & Hf)]]; [by eapply wf_file|]. eapply wf_holds; [exact Hf|]. by intros n rec.
Qed.

Definition enforced_events (v : RegistryView) (events : list json) : list json :=
  List.filter (fun e => enforces_drift v events || held v e) events.

(** What enforcing the events of a check guarantees: the candidates are hidden, whatever
    fails. *)
Definition enforce_post (v : RegistryView) (tools : SharedTools) (events : list json) (r : result Outcome Failure) (w w' : World) : Prop :=
  exists o, r = Ok o /\ wf (stores w') /\
    quarantine_candidates tools (enforced_events v events) ⊆ hide_of o /\
    (forall p, o = Checked (Some p) -> p <> ∅ /\ p = quarantine_candidates tools (enforced_events v events)) /\
    (quarantines_drift v = true -> forall T, carries T T (stores w) (stores w')).

Lemma nothing_enforced v (tools : SharedTools) events :
  enforces_drift v events = false -> existsb review_required events = false ->
  (blocking v && existsb ask_holds events) = false ->
  quarantine_candidates tools (enforced_events v events) = ∅.
Proof.
  intros Hd Hr Ha. assert (Hnil : enforced_events v events = []).
  { unfold enforced_events. rewrite Hd. clear Hd. induction events as [|e events IH]; [done|]. cbn in *.
    apply orb_false_iff in Hr as [Hr1 Hr2].
    assert (He : held v e = false) by (unfold held; destruct (blocking v), (ask_holds e); by rewrite Hr1).
    rewrite He. apply IH; [done|]. by destruct (blocking v), (ask_holds e). }
  by rewrite Hnil.
Qed.

Lemma enforce_spec v (tools : SharedTools) required events w :
  wf (stores w) -> (existsb review_required events = true -> required = true) ->
  wp (enforce regex to_string sha256 v tools required events) (fun r w' => enforce_post v tools events r w w') w.
Proof.
  intros Hwf Hreq. unfold enforce. set (drift := enforces_drift v events).
  assert (Hdrift : quarantines_drift v = true -> drift = true) by (unfold drift, enforces_drift; by intros ->).
  destruct (drift || required || (blocking v && existsb ask_holds events)) eqn:Ec.
  2: { apply orb_false_iff in Ec as [[Ed Er]%orb_false_iff Ea].
       assert (Hno : quarantine_candidates tools (enforced_events v events) = ∅).
       { apply nothing_enforced; [done| |done]. destruct (existsb review_required events); [|done]. specialize (Hreq eq_refl). congruence. }
       apply wp_or_hide. eapply wp_mono; [apply (accept_staged_spec to_string sha256 profile)|]. intros r w' [[_ Hf _] _].
       unfold enforce_post. rewrite Hno.
       destruct r; [apply wp_ret; exists (Checked None)|exists (Hide ∅)];
         (split; [done|]); (split; [by eapply wf_file|]); (split; [set_solver|]); (split; [done|]);
         intros Hq; rewrite Hdrift in Ed; done. }
  cbv zeta. change (List.filter (fun e => drift || held v e) events) with (enforced_events v events).
  set (pending := quarantine_candidates tools (enforced_events v events)).
  assert (Hhide : forall w1, wf (stores w1) -> (quarantines_drift v = true -> forall T, carries T T (stores w) (stores w1)) ->
    enforce_post v tools events (Ok (Hide pending)) w w1) by (intros w1 ? ?; exists (Hide pending); split; [done|]; split; [done|]; split; [done|]; by split).
  apply wp_or_hide. eapply wp_mono; [apply (apply_quarantine_spec to_string sha256 scan_definition); intros q; by apply load_objects|].
  intros r1 w1 H1. cbn beta in H1. assert (Hwf1 : wf (stores w1)) by (by eapply quarantine_wf).
  assert (HC1 : forall T, carries T T (stores w) (stores w1)) by (intros T; by eapply quarantine_carries).
  destruct r1; [|by apply Hhide].
  apply wp_or_hide. eapply wp_mono; [apply (accept_quarantined_spec sha256 profile)|]. intros r2 w2 H2. cbn beta in H2.
  assert (Hwf2 : wf (stores w2)) by (by eapply accept_wf).
  assert (HC2 : forall T, carries T T (stores w) (stores w2)) by (intros T; exact (carries_trans T T T _ _ _ (HC1 T) (accept_carries to_string sha256 scan_definition T _ _ _ H2))).
  destruct r2; [|by apply Hhide].
  apply wp_or_hide. apply (wp_mono _ (fun r w3 => quarantine_file (stores w3) = quarantine_file (stores w2) /\
    (quarantines_drift v = true -> stores w3 = stores w2))).
  { destruct drift; [by apply wp_ret|]. eapply wp_mono; [apply (accept_staged_spec to_string sha256 profile)|]. intros r w3 [[_ Hf _] _].
    split; [done|]. by intros ?%Hdrift. }
  intros r3 w3 [Hf3 Hs3].
  assert (HC3 : quarantines_drift v = true -> forall T, carries T T (stores w) (stores w3))
    by (intros Hq T; exact (carries_trans T T T _ _ _ (HC2 T) (carries_refl T _ _ (Hs3 Hq)))).
  assert (Hwf3 : wf (stores w3)) by (by eapply wf_file).
  destruct r3; [|by apply Hhide]. apply wp_ret.
  case_bool_decide as Ep; eexists; (split; [done|]); (split; [done|]); fold pending.
  - split; [by rewrite Ep|]. split; [done|done].
  - split; [done|]. split; [|done]. by intros p [= <-].
Qed.

(** What the gate's check guarantees: what must be hidden is, whatever fails; only tools of
    the catalog are named for a change; and at Strict the stores stay tracked, with what
    the check vouched for. *)
Definition gate_post (v : RegistryView) (tools : SharedTools) (o : Outcome) (w w' : World) : Prop :=
  wf (stores w') /\
  (forall n, must_hide v tools (usable_pins (load_pins (stores w))) n -> n ∈ hide_of o) /\
  (forall p, o = Checked (Some p) -> p <> ∅ /\ p ⊆ list_to_set (catalog_names tools)) /\
  (quarantines_drift v = true -> forall T pins q, tracked T (stores w) pins q ->
     exists pins' q', tracked (accepting to_string sha256 scan_definition T pins tools) (stores w') pins' q' /\ dom q ⊆ dom q').

Lemma accepting_tracked T pins (tools : SharedTools) s p q :
  tracked T s p q -> tracked (accepting to_string sha256 scan_definition T pins tools) s p q.
Proof. apply tracked_mono. by left. Qed.

(** A failure before the events are known hides every tool of the catalog. *)
Lemma hide_all_post v (tools : SharedTools) w w' :
  wf (stores w') -> (forall T pins q, tracked T (stores w) pins q ->
    exists pins' q', tracked (accepting to_string sha256 scan_definition T pins tools) (stores w') pins' q' /\ dom q ⊆ dom q') ->
  gate_post v tools (Hide (list_to_set (catalog_names tools))) w w'.
Proof.
  intros Hwf HT. split; [done|]. split; [|done]. intros n Hn. apply elem_of_list_to_set. by eapply must_hide_listed.
Qed.

Lemma check_catalog_spec v (tools : SharedTools) reviews required w :
  wf (stores w) -> blocking v || quarantines_drift v = true ->
  wp (check_catalog regex to_string sha256 scan_definition profile v tools reviews required)
     (fun r w' => exists o x, r = Ok (o, x) /\ gate_post v tools o w w') w.
Proof.
  intros Hwf Hb. unfold check_catalog. apply wp_bind, wp_attempt. eapply wp_mono; [apply ensure_spec|].
  intros r1 w1 H1. cbn beta in H1. assert (Hwf1 : wf (stores w1)) by (by eapply ensure_wf).
  assert (HE : forall T pins q, tracked T (stores w) pins q -> exists q', tracked T (stores w1) pins q' /\ dom q ⊆ dom q' /\
    (r1 = Ok tt -> exists f, quarantine_file (stores w1) = Holds f)) by (intros; by eapply ensure_tracked).
  assert (Hl1 : load_pins (stores w1) = load_pins (stores w)) by (destruct H1 as [[Hl1 _ _] _]; exact Hl1).
  destruct r1 as [[]|e].
  2: { apply wp_ret. eexists _, _. split; [done|]. apply hide_all_post; [done|]. intros T pins q Ht.
       destruct (HE T pins q Ht) as (q' & Ht' & Hd & _). exists pins, q'. split; [by apply accepting_tracked|done]. }
  apply wp_bind, wp_attempt. eapply wp_mono; [exact (check_spec to_string sha256 scan_definition profile true tools w1)|]. intros r2 w2 H2. cbn beta in H2.
  assert (Hwf2 : wf (stores w2)) by (eapply wf_file; [|done]; apply H2).
  assert (HK : forall T pins q, tracked T (stores w) pins q ->
    exists pins' q', tracked (accepting to_string sha256 scan_definition T pins tools) (stores w2) pins' q' /\ dom q ⊆ dom q').
  { intros T pins q Ht. destruct (HE T pins q Ht) as (q1 & Ht1 & Hd1 & Hf1).
    destruct (check_carries to_string sha256 scan_definition T tools r2 w1 w2 pins q1 Ht1 (Hf1 eq_refl) H2) as (pins' & Ht2).
    by exists pins', q1. }
  destruct r2 as [events|e].
  2: { apply wp_ret. eexists _, _. split; [done|]. by apply hide_all_post. }
  set (required' := required || existsb review_required events).
  assert (Hevents : (forall n, must_hide v tools (usable_pins (load_pins (stores w))) n ->
      n ∈ quarantine_candidates tools (enforced_events v events) /\ n ∈ quarantine_candidates tools events) /\
    quarantine_candidates tools (enforced_events v events) ⊆ list_to_set (catalog_names tools)).
  { destruct H2 as [_ H2]. rewrite Hl1 in H2. destruct (usable_pins (load_pins (stores w))) as [pins|].
    - destruct H2 as (clock & stamp & updated & Hev & _).
      assert (Hd : enforces_drift v events = quarantines_drift v).
      { unfold enforces_drift. rewrite (relabelled_tamper _ _ Hev), findings_untampered. by rewrite andb_false_r, orb_false_r. }
      assert (Hcand : quarantine_candidates tools (enforced_events v events) =
        quarantine_candidates tools (List.filter (fun e => quarantines_drift v || held v e) (findings clock tools pins))).
      { unfold enforced_events. rewrite Hd. by apply relabelled_candidates, relabelled_filter; [apply held_free|]. }
      split.
      + intros n Hn. apply (must_hide_candidates v clock) in Hn. split; [by rewrite Hcand|].
        rewrite (relabelled_candidates tools _ _ Hev). revert Hn. unfold quarantine_candidates.
        rewrite filter_untampered, findings_untampered, !elem_of_list_to_set, !list_elem_of_omap.
        intros (e & He & Hto). exists e. split; [|done]. apply list_elem_of_In, filter_In in He as [[He _]%filter_In Hr].
        by apply list_elem_of_In, filter_In.
      + unfold enforced_events. rewrite Hd. eapply candidates_listed; [exact Hev|apply held_free].
    - destruct H2 as [_ (ts & e & -> & He)].
      assert (Ht : is_tamper e = true) by (by rewrite (tamper_free _ _ He)).
      assert (Hd : enforces_drift v [e] = true).
      { unfold enforces_drift, baseline_tamper_detected. cbn. rewrite Ht. cbn. by destruct (blocking v), (quarantines_drift v). }
      unfold enforced_events. rewrite Hd. cbn [List.filter orb]. unfold quarantine_candidates, baseline_tamper_detected.
      cbn [existsb]. rewrite Ht. cbn [orb]. split; [|done]. intros n Hn. by rewrite elem_of_list_to_set. }
  destruct Hevents as [Hmust Hlisted].
  apply wp_bind, wp_or_hide.
  apply (wp_mono _ (fun r w3 => wf (stores w3) /\ forall T, carries T T (stores w2) (stores w3))).
  { destruct (_ && _); [|apply wp_ret; split; [done|]; intros T; by apply carries_refl].
    eapply wp_mono; [apply (accept_quarantined_spec sha256 profile)|]. intros r w3 H3. cbn beta in H3.
    split; [by eapply accept_wf|]. intros T. exact (accept_carries to_string sha256 scan_definition T _ _ _ H3). }
  intros r3 w3 [Hwf3 HC3].
  assert (HK3 : forall T pins q, tracked T (stores w) pins q ->
    exists pins' q', tracked (accepting to_string sha256 scan_definition T pins tools) (stores w3) pins' q' /\ dom q ⊆ dom q').
  { intros T pins q Ht. destruct (HK T pins q Ht) as (p2 & q2 & Ht2 & Hd2). destruct (HC3 _ _ _ Ht2) as (p3 & q3 & Ht3 & Hd3).
    exists p3, q3. split; [done|set_solver]. }
  destruct r3 as [[]|e].
  - eapply wp_mono; [apply enforce_spec; [done|]|].
    { intros Hr. unfold required'. by rewrite Hr, orb_true_r. }
    intros r4 w4 (o & -> & Hwf4 & Hhide & Hsome & HC4). apply wp_ret. eexists _, _. split; [done|]. split; [done|].
    split; [intros n Hn; apply Hhide; by apply Hmust|]. split.
    { intros p Hp. destruct (Hsome p Hp) as [? ->]. done. }
    intros Hq T pins q Ht. destruct (HK3 T pins q Ht) as (p3 & q3 & Ht3 & Hd3). destruct (HC4 Hq _ _ _ Ht3) as (p4 & q4 & Ht4 & Hd4).
    exists p4, q4. split; [done|set_solver].
  - apply wp_ret. eexists _, _. split; [done|]. split; [done|]. split; [intros n Hn; by apply Hmust|]. split; [done|]. auto.
Qed.

Lemma maybe_check_spec v (tools : SharedTools) w :
  wf (stores w) -> blocking v || quarantines_drift v = true ->
  wp (maybe_check_integrity regex to_string sha256 scan_definition profile v tools)
     (fun r w' => exists o, r = Ok o /\ gate_post v tools o w w') w.
Proof.
  intros Hwf Hb. unfold maybe_check_integrity.
  assert (Hro : negb (blocking v) && negb (quarantines_drift v) = false) by (by destruct (blocking v), (quarantines_drift v)).
  rewrite Hro. apply wp_bind, wp_reviews_for. intros names b w1 Hs1. rewrite andb_false_r. apply wp_bind.
  eapply wp_mono; [apply check_catalog_spec; [by rewrite Hs1|done]|].
  intros r w2 (o & [reviews required] & -> & Hg). apply wp_ret. exists o. unfold gate_post in *. rewrite Hs1 in Hg.
  by destruct o.
Qed.

(** ** Routers that can be filtered *)

(** A router that indexing built, and that any policy can rebuild. *)
Record ready (r : Router) : Prop := {
  ready_ok : Catalog.router_ok regex r;
  ready_settled : rebuild r = Some r;
  ready_any : forall p, is_Some (rebuild (Catalog.with_policy regex r p))
}.

(** What makes every rebuild of a router complete. *)
Record sane (r : Router) : Prop := {
  sane_bytes : forall v, Forall (fun b => (b < 256)%N) (content_digest v);
  sane_long : forall v, (6 <= length (content_digest v))%nat;
  sane_rule : 16 <= limit (Catalog.alias_rule (Catalog.settings regex r));
  sane_tools : Forall (fun slot => Forall Catalog.tool_wf (Catalog.slot_tools slot)) (Catalog.servers regex r);
  sane_named : Catalog.candidates_named regex r;
  sane_restored : Forall (fun c => good_name (Catalog.alias_rule (Catalog.settings regex r)) (Catalog.exposed regex c))
                    (Catalog.restored_candidates regex r);
  sane_apart : forall server_id tool, attempts_apart content_digest (2 * Catalog.names_budget regex r + 1) server_id tool
}.

(** Rebuilding gives a router the gate can filter. *)
Lemma rebuilt_ready r : sane r -> exists r', rebuild r = Some r' /\ ready r'.
Proof.
  intros [H1 H2 H3 H4 H5 H6 H7].
  destruct (Catalog.rebuild_total content_digest regex regex_new number_from_str number_from_f64_str r) as (r' & Hr & _);
    [done..|]. exists r'. split; [done|].
  destruct (Catalog.rebuild_ok _ _ _ _ _ _ _ Hr H5) as (Hok & Hsv & Hid & Hst).
  split; [done|by eapply Exposure.rebuild_idempotent|]. intros p.
  destruct (Exposure.rebuild_servers _ _ _ _ _ _ _ Hr) as (_ & _ & _ & Hre).
  assert (Hsub : forall c, c ∈ Catalog.restored_candidates regex r' -> c ∈ Catalog.restored_candidates regex r).
  { intros c. rewrite Hre. rewrite !list_elem_of_In, filter_In. by intros [? _]. }
  assert (Hsize : (length (Catalog.restored_candidates regex r') <= length (Catalog.restored_candidates regex r))%nat)
    by (rewrite Hre; apply List.filter_length_le).
  cut (exists r2, rebuild (Catalog.with_policy regex r' p) = Some r2 /\
    forall e, is_Some (Catalog.routes regex (Catalog.tool_index regex (Catalog.index regex r2)) !! e) ->
      good_name (Catalog.alias_rule (Catalog.settings regex (Catalog.with_policy regex r' p))) e).
  { intros (r2 & Hr2 & _). by exists r2. }
  apply Catalog.rebuild_total; cbn; rewrite ?Hst, ?Hsv; [done..| | |].
  - apply Hok.
  - rewrite Forall_forall in *. intros c Hc. by apply H6, Hsub.
  - intros sv tool. eapply apart_mono; [|apply H7]. unfold Catalog.names_budget. cbn. unfold list_sum. lia.
Qed.

(** [r'] shows a part of what [r] shows, under the same policy names. *)
Definition shows_less (r' r : Router) : Prop :=
  (forall d, d ∈ shown r' -> d ∈ shown r) /\
  forall e, Exposure.policy_name_of regex r' e = Exposure.policy_name_of regex r e.

#[local] Instance shows_less_preorder : PreOrder shows_less.
Proof. split; [by split|]. intros r1 r2 r3 [H1 N1] [H2 N2]. split; [auto|]. intros e. by rewrite N1. Qed.

Lemma republish r p :
  ready r -> exists r', rebuild (Catalog.with_policy regex r p) = Some r' /\ ready r' /\ policy_of r' = p /\
    (Exposure.tighter (policy_of r) p -> shows_less r' r).
Proof.
  intros [Hok Hset Hany]. destruct (Hany p) as [r' Hr']. exists r'. split; [done|].
  destruct (Catalog.rebuild_ok _ _ _ _ _ _ _ Hr' (Catalog.ok_candidates _ _ Hok)) as (Hok' & Hsv & Hid & Hst).
  split; [|split; [by rewrite Hst|]].
  - split; [done|by eapply Exposure.rebuild_idempotent|]. intros p2. destruct (Hany p2) as [r2 Hr2]. exists r2.
    destruct (Exposure.rebuild_servers _ _ _ _ _ _ _ Hr') as (E1 & E2 & E3 & E4).
    apply (Exposure.rebuild_ext _ _ _ _ _ (Catalog.with_policy regex r p2)); [done|done| | |done].
    + cbn. by rewrite E3.
    + exact E4.
  - intros Ht. by apply (Exposure.rebuild_below content_digest regex regex_new number_from_str number_from_f64_str r p r r').
Qed.

(** What is shown is admitted: the catalog is not closed and the tool's policy name is not
    in quarantine. *)
Lemma shown_admitted r d :
  ready r -> d ∈ shown r -> exists e, Catalog.definition_name regex d = Some e /\
    Catalog.fail_closed (policy_of r) = false /\ Exposure.policy_name_of regex r e ∉ Catalog.quarantined (policy_of r).
Proof.
  intros [Hok _ _] Hd. destruct (Catalog.router_ok_sound _ _ Hok) as (_ & Hlist & Hroute).
  assert (Hin : Catalog.definition_name regex d ∈ map (Catalog.definition_name regex) (shown r))
    by (apply list_elem_of_fmap; by exists d).
  apply Hlist in Hin as (e & He & [[sv og] Hr]). exists e. split; [done|].
  destruct (Hroute e sv og Hr) as (_ & (m & _ & (_ & _ & _ & Hc & Hq)) & _). done.
Qed.

Lemma closed_shows_nothing r d : ready r -> Catalog.fail_closed (policy_of r) = true -> d ∉ shown r.
Proof. intros Hr Hc Hd. destruct (shown_admitted r d Hr Hd) as (e & _ & Hc' & _). congruence. Qed.

(** The policy name of a shown definition is the name of its catalog entry. *)
Lemma policy_entry_name r d e :
  Catalog.definition_name regex d = Some e ->
  name_of (Catalog.value regex (policy_entry regex r d)) = Some (Exposure.policy_name_of regex r e) /\
  Catalog.value regex (policy_entry regex r d) = Catalog.policy_definition regex r (Catalog.value regex d) /\
  Catalog.source_input_schema regex (policy_entry regex r d) = Catalog.source_input_schema regex d.
Proof.
  unfold Catalog.definition_name. intros He. unfold policy_entry, keeps_name, Catalog.policy_definition. rewrite He.
  unfold Exposure.policy_name_of. set (n := Catalog.policy_name _ _ e).
  assert (Hset : n <> e -> name_of (default (Catalog.value regex d) (set_field "name" (JString n) (Catalog.value regex d))) = Some n).
  { intros _. unfold Catalog.name_in in He. destruct (Catalog.value regex d) as [| | | | |o]; try done. cbn.
    by rewrite obj_get_insert_eq. }
  destruct (String.eqb_spec n e) as [E|Hne]; cbn [andb].
  - destruct (is_some _); cbn; rewrite ?E; done.
  - cbn. split; [by apply Hset|done].
Qed.

Lemma entry_listed r d :
  d ∈ shown r -> (Catalog.value regex (policy_entry regex r d), Catalog.source_input_schema regex d) ∈
    pin_values (policy_catalog regex r (shown r)).
Proof.
  intros Hd. apply list_elem_of_fmap. exists (policy_entry regex r d). split.
  - f_equal. unfold policy_entry. by destruct (_ && _).
  - apply list_elem_of_fmap. by exists d.
Qed.

(** The router shown in place of [r] once [o] is known. *)
Definition gate_end (v : RegistryView) (r : Router) (o : Outcome) : M Router :=
  let hidden := Catalog.quarantined (policy_of r) in
  match o with
  | Checked (Some pending) =>
      stored ← effective_quarantine v;
      requarantine_after_integrity_change content_digest regex regex_new number_from_str number_from_f64_str
        r (pending ∪ hidden) stored
  | Checked None =>
      stored ← effective_quarantine v;
      match stored with
      | Some names => if bool_decide (names ∪ hidden = hidden) then mret r
                      else of_option (Catalog.requarantine content_digest regex regex_new number_from_str number_from_f64_str r (names ∪ hidden))
      | None => of_option (Catalog.fail_closed_catalog content_digest regex regex_new number_from_str number_from_f64_str r)
      end
  | Hide pending => fail_closed_integrity_catalog content_digest regex regex_new number_from_str number_from_f64_str v r pending
  end.

Lemma effective_quarantine_spec v Q w :
  (forall o w', stores w' = stores w ->
     (quarantines_drift v = true -> forall T pins q, tracked T (stores w) pins q -> exists names, o = Some names /\ dom q ⊆ names) ->
     Q (Ok o) w') -> wp (effective_quarantine v) Q w.
Proof.
  intros H. unfold effective_quarantine. apply wp_bind, wp_attempt.
  apply (wp_mono _ (fun r w' => stores w' = stores w /\ (quarantines_drift v = true -> forall T pins q,
    tracked T (stores w) pins q -> r = Ok (dom q)))).
  - assert (Hread : forall w0, stores w0 = stores w -> wp quarantined_checked (fun r w' => stores w' = stores w /\
      forall T pins q, tracked T (stores w) pins q -> r = Ok (dom q)) w0).
    { intros w0 Hs0. unfold quarantined_checked, checked. apply wp_bind, wp_read. rewrite Hs0.
      destruct (resolved (stores w) && legacy_quarantine (stores w)) eqn:El.
      - apply wp_fail. split; [done|]. intros T pins q [H1 H2 _ _ _ _]. by rewrite H1, H2 in El.
      - apply wp_bind, wp_read, wp_of_result. rewrite Hs0. split; [done|]. intros T pins q [_ _ _ H4 _ _]. by rewrite H4. }
    destruct (quarantines_drift v).
    + eapply wp_mono; [by apply Hread|]. intros r w' [Hs Ht]. split; [done|]. intros _. apply Ht.
    + eapply (wp_mono _ (fun r w' => stores w' = stores w)); [|by intros r w' ?; split].
      destruct (bool_decide (level v = Safety.Ask)).
      * apply wp_bind, wp_reviews. intros w1 Hs1 _. destruct (unreadable _); [by apply wp_fail|].
        unfold checked. apply wp_bind, wp_read. destruct (_ && _); [by apply wp_fail|].
        by apply wp_bind, wp_read, wp_of_result.
      * apply wp_bind, wp_read. destruct (negb _); [by apply wp_ret|].
        destruct (legacy_quarantine _); [by apply wp_review_names|]. apply wp_bind.
        apply (wp_mono _ (fun r w' => stores w' = stores w /\ exists names, r = Ok names)).
        { destruct (load_quarantine _); [apply wp_ret; split; [done|by eexists]|].
          apply wp_bind, wp_reviews. intros w1 Hs1 _. apply wp_ret. split; [done|by eexists]. }
        intros r w1 [Hs1 [names ->]]. apply wp_bind, wp_review_names. intros names2 w2 Hs2. apply wp_ret. congruence.
  - intros r w1 [Hs1 Ht]. destruct r as [names|e].
    + apply wp_bind, wp_review_names. intros reviews w2 Hs2. apply wp_ret, H; [congruence|]. intros Hq T pins q Htr.
      specialize (Ht Hq T pins q Htr). injection Ht as ->. eexists. split; [done|]. set_solver.
    + apply wp_ret, H; [done|]. intros Hq T pins q Htr. by specialize (Ht Hq T pins q Htr).
Qed.

(** A router under a larger quarantine, and closed if it was. *)
Lemma settle_policy b (q : gset string) closed :
  ready b -> Catalog.quarantined (policy_of b) ⊆ q -> (Catalog.fail_closed (policy_of b) = true -> closed = true) ->
  exists r', rebuild (Catalog.with_policy regex b (Catalog.set_quarantine (policy_of b) q closed)) = Some r' /\
    ready r' /\ shows_less r' b /\ policy_of r' = Catalog.set_quarantine (policy_of b) q closed.
Proof.
  intros Hb Hq Hc. destruct (republish b (Catalog.set_quarantine (policy_of b) q closed) Hb) as (r' & Hr & Hr' & Hp & Hless).
  exists r'. split; [done|]. split; [done|]. split; [|done]. apply Hless. by split.
Qed.

(** Nothing that [o] hides, nor at Strict what the stores hold, is shown. *)
Definition filtered (v : RegistryView) (b : Router) (o : Outcome) (s : Stores) (r : Router) : Prop :=
  ready r /\ shows_less r b /\ forall d e, d ∈ shown r -> Catalog.definition_name regex d = Some e ->
    Exposure.policy_name_of regex r e ∉ hide_of o /\
    (quarantines_drift v = true -> forall T pins q, tracked T s pins q -> Exposure.policy_name_of regex r e ∉ dom q).

Lemma filtered_by v b o s r (q : gset string) :
  ready r -> shows_less r b -> Catalog.quarantined (policy_of r) = q -> hide_of o ⊆ q ->
  (quarantines_drift v = true -> forall T pins qs, tracked T s pins qs -> dom qs ⊆ q) -> filtered v b o s r.
Proof.
  intros Hr Hless Hq Ho Hs. split; [done|]. split; [done|]. intros d e Hd He.
  destruct (shown_admitted r d Hr Hd) as (e' & He' & _ & Hn). rewrite He in He'. injection He' as <-. rewrite Hq in Hn.
  split; [intros H; by apply Hn, Ho|]. intros Hv T pins qs Ht H. by eapply Hn, Hs.
Qed.

Lemma filtered_closed v b o s r :
  ready r -> shows_less r b -> Catalog.fail_closed (policy_of r) = true -> filtered v b o s r.
Proof.
  intros Hr Hless Hc. split; [done|]. split; [done|]. intros d e Hd. by destruct (closed_shows_nothing r d Hr Hc).
Qed.

Lemma shown_not_closed b (p : gset string) :
  ready b -> p <> ∅ -> p ⊆ list_to_set (catalog_names (policy_catalog regex b (shown b))) ->
  Catalog.fail_closed (policy_of b) = false.
Proof.
  intros Hb Hne Hp. apply not_true_iff_false. intros Hc. apply Hne.
  assert (Hnil : shown b = []).
  { destruct (shown b) as [|d l] eqn:E; [done|]. destruct (closed_shows_nothing b d Hb Hc). rewrite E. left. }
  rewrite Hnil in Hp. apply set_eq. intros n. split; [|by intros ?%elem_of_empty]. intros H%Hp. done.
Qed.

Lemma gate_end_spec v b o w :
  ready b -> blocking v || quarantines_drift v = true ->
  (forall p, o = Checked (Some p) -> p <> ∅ /\ p ⊆ list_to_set (catalog_names (policy_catalog regex b (shown b)))) ->
  wp (gate_end v b o) (fun r w' => exists r', r = Ok r' /\ stores w' = stores w /\ filtered v b o (stores w) r') w.
Proof.
  intros Hb Hv Hpend. set (hidden := Catalog.quarantined (policy_of b)).
  assert (Hre : forall (q : gset string) closed, hidden ⊆ q -> (Catalog.fail_closed (policy_of b) = true -> closed = true) ->
    hide_of o ⊆ q -> (quarantines_drift v = true -> forall T pins qs, tracked T (stores w) pins qs -> dom qs ⊆ q) ->
    exists r', rebuild (Catalog.with_policy regex b (Catalog.set_quarantine (policy_of b) q closed)) = Some r' /\
      filtered v b o (stores w) r').
  { intros q closed Hq Hc Ho Hs. destruct (settle_policy b q closed Hb Hq Hc) as (r' & Hr & Hr' & Hless & Hp).
    exists r'. split; [done|]. by apply (filtered_by v b o (stores w) r' q); rewrite ?Hp. }
  assert (Hclosed : exists r', rebuild (Catalog.with_policy regex b (Catalog.set_quarantine (policy_of b) hidden true)) = Some r' /\
      filtered v b o (stores w) r' /\ policy_of r' = Catalog.set_quarantine (policy_of b) hidden true).
  { destruct (settle_policy b hidden true Hb) as (r' & Hr & Hr' & Hless & Hp); [done..|].
    exists r'. split; [done|]. split; [|done]. apply filtered_closed; by rewrite ?Hp. }
  unfold gate_end. fold hidden. destruct o as [[pending|]|pending].
  - destruct (Hpend pending eq_refl) as [Hne Hsub]. assert (Hopen := shown_not_closed b pending Hb Hne Hsub).
    apply wp_bind, effective_quarantine_spec. intros stored w1 Hs1 Ht. unfold requarantine_after_integrity_change.
    destruct stored as [names|].
    + apply wp_bind, wp_ret, wp_of_option. edestruct (Hre (names ∪ (pending ∪ hidden)) false) as (r' & Hr & Hf).
      * set_solver.
      * congruence.
      * set_solver.
      * intros Hq T pins qs Htr. destruct (Ht Hq T pins qs Htr) as (ns & [= <-] & Hd). set_solver.
      * exists r'. split; [exact Hr|]. by exists r'.
    + apply wp_bind, wp_bind, wp_review_names. intros reviews w2 Hs2. apply wp_ret, wp_of_option.
      edestruct (Hre (hidden ∪ reviews ∪ (pending ∪ hidden)) (Catalog.fail_closed (policy_of b))) as (r' & Hr & Hf).
      * set_solver.
      * done.
      * set_solver.
      * intros Hq T pins qs Htr. by destruct (Ht Hq T pins qs Htr) as (ns & ? & _).
      * exists r'. split; [exact Hr|]. exists r'. split; [done|]. split; [congruence|done].
  - apply wp_bind, effective_quarantine_spec. intros stored w1 Hs1 Ht. destruct stored as [names|].
    + case_bool_decide as Eq.
      * apply wp_ret. exists b. split; [done|]. split; [done|]. apply (filtered_by v b _ _ b hidden); [done..|set_solver|].
        intros Hq T pins qs Htr. destruct (Ht Hq T pins qs Htr) as (ns & [= <-] & Hd). rewrite <- Eq. set_solver.
      * apply wp_of_option. edestruct (Hre (names ∪ hidden) (Catalog.fail_closed (policy_of b))) as (r' & Hr & Hf).
        -- set_solver.
        -- done.
        -- set_solver.
        -- intros Hq T pins qs Htr. destruct (Ht Hq T pins qs Htr) as (ns & [= <-] & Hd). set_solver.
        -- exists r'. split; [exact Hr|]. by exists r'.
    + apply wp_of_option. destruct Hclosed as (r' & Hr & Hf & _). exists r'. split; [exact Hr|]. by exists r'.
  - unfold fail_closed_integrity_catalog.
    assert (Hoff : bool_decide (level v = Safety.Off) && negb (quarantines_drift v) = false).
    { revert Hv. unfold blocking. by destruct (bool_decide _), (quarantines_drift v). }
    rewrite Hoff. fold hidden. apply wp_bind, wp_review_names. intros reviews w1 Hs1. apply wp_bind, wp_attempt.
    apply wp_bind, wp_read, wp_of_result. rewrite Hs1. apply wp_bind.
    destruct (load_quarantine (stores w)) as [q|e] eqn:El.
    + apply wp_ret, wp_of_option.
      edestruct (Hre (hidden ∪ pending ∪ reviews ∪ dom q) (Catalog.fail_closed (policy_of b))) as (r' & Hr & Hf).
      * set_solver.
      * done.
      * set_solver.
      * intros Hq T pins qs Htr. pose proof (tr_records _ _ _ _ Htr) as E. rewrite El in E. injection E as <-. set_solver.
      * exists r'. split; [exact Hr|]. by exists r'.
    + apply wp_bind, wp_of_option. destruct Hclosed as (r1 & Hr1 & (Hready1 & Hless1 & _) & Hp1).
      exists r1. split; [exact Hr1|]. apply wp_ret, wp_of_option.
      destruct (settle_policy r1 (hidden ∪ pending ∪ reviews) (Catalog.fail_closed (policy_of r1)) Hready1) as (r2 & Hr2 & Hready2 & Hless2 & Hp2).
      { rewrite Hp1. cbn. set_solver. }
      { done. }
      exists r2. split; [exact Hr2|]. exists r2. split; [done|]. split; [done|].
      apply filtered_closed; [done|by etransitivity|]. by rewrite Hp2; cbn; rewrite Hp1.
Qed.

(** ** What a review leaves unchanged *)

(** [F] does not read whether a review is retired or was logged. *)
Lemma reviews_only_lookup {A} (F : option Pin -> A) pins pins' n :
  (forall p, F (Some (settled p)) = F (Some p)) -> reviews_only pins pins' -> F (pins' !! n) = F (pins !! n).
Proof.
  intros HF H. pose proof (f_equal (fun m : gmap string Pin => m !! n) H) as E. cbn in E. rewrite !lookup_fmap in E.
  destruct (pins' !! n) as [p'|], (pins !! n) as [p|]; try done. cbn in E. apply (inj Some (settled p')) in E.
  by rewrite <- (HF p'), E, HF.
Qed.

Lemma reviews_only_established pins pins' : reviews_only pins pins' -> established pins' = established pins.
Proof.
  intros H. apply set_eq. intros sv. rewrite !established_spec. assert (Hd : forall n, is_Some (pins' !! n) <-> is_Some (pins !! n)).
  { intros n. pose proof (reviews_only_lookup (fun o => bool_decide (is_Some o)) pins pins' n (fun p => eq_refl) H) as E.
    rewrite <- (bool_decide_eq_true (is_Some (pins' !! n))), E. apply bool_decide_eq_true. }
  split; intros (n & Hn & ?); exists n; (split; [by apply Hd|done]).
Qed.

Lemma risky_reviews pins pins' tool source n :
  reviews_only pins pins' -> risky pins' tool source n = risky pins tool source n.
Proof.
  intros H. unfold Pins.risky. rewrite (reviews_only_established _ _ H). destruct (bool_decide (server_of n ∈ _)); [|done].
  generalize (pin_with_source tool source). intros new.
  apply (reviews_only_lookup (fun o => match o with Some old => _ | None => _ end)); [|done]. by intros [].
Qed.

Lemma held_back_reviews v c pins pins' t n :
  reviews_only pins pins' -> held_back v c pins' t n = held_back v c pins t n.
Proof.
  intros H. unfold held_back. generalize (pin_with_source t.1 t.2). intros new.
  apply (reviews_only_lookup (fun o => match o with Some old => _ | None => _ end)); [|done]. by intros [].
Qed.

Lemma vouched_reviews pins pins' tool source n :
  reviews_only pins pins' ->
  vouched to_string sha256 scan_definition pins' tool source n = vouched to_string sha256 scan_definition pins tool source n.
Proof.
  intros H. unfold vouched. generalize (pin_with_source tool source). intros new.
  apply (reviews_only_lookup (fun o => match o with Some old => _ | None => _ end)); [|done]. by intros [].
Qed.

(** ** The gate *)

Local Abbreviation requarantine_from_store :=
  (Catalog.requarantine_from_store content_digest regex regex_new number_from_str number_from_f64_str).
Local Abbreviation publish_built_router :=
  (Gate.publish_built_router content_digest regex regex_new number_from_str number_from_f64_str
     to_string sha256 scan_definition profile).

(** The router whose catalog is checked: the tools a review hides are looked at again. *)
Definition checked_router (built : Router) (w : World) : option Router :=
  let checking := Catalog.quarantined (policy_of built) ∖ review_names (refresh_reviews (stores w) (remembered w)) in
  if bool_decide (checking = Catalog.quarantined (policy_of built)) then Some built
  else requarantine_from_store built checking.

Definition checked_catalog (b : Router) : SharedTools := policy_catalog regex b (shown b).

Lemma checked_router_ready built w : ready built -> exists b, checked_router built w = Some b /\ ready b.
Proof.
  intros H. unfold checked_router. case_bool_decide; [by exists built|].
  set (q := Catalog.quarantined (policy_of built) ∖ _).
  destruct (republish built (Catalog.set_quarantine (policy_of built) q false) H) as (b & Hb & Hr & _). by exists b.
Qed.

(** What a publication leaves: the reviews were reconciled, the catalog of the checked
    router was checked, and the published router shows nothing that was to be hidden. *)
Definition publish_post (v : RegistryView) (built : Router) (w : World) (r : result Router Failure) (w' : World) : Prop :=
  exists router b o w1 present rc, r = Ok router /\ checked_router built w = Some b /\
    reconcile_post (profile_gone v) (identities v) present rc w w1 /\ wf (stores w1) /\
    gate_post v (checked_catalog b) o w1 w' /\ filtered v b o (stores w') router.

Lemma publish_spec v built w :
  ready built -> wf (stores w) -> blocking v || quarantines_drift v = true ->
  wp (publish_built_router v built) (publish_post v built w) w.
Proof.
  intros Hready Hwf Hv. unfold Gate.publish_built_router, requarantine_if_needed.
  apply wp_bind, wp_bind, wp_reviews. intros w0 Hs0 Hrem. apply wp_ret. cbv zeta.
  destruct (checked_router_ready built w Hready) as (b & Hb & Hreadyb).
  apply wp_bind. apply (wp_mono _ (fun r w' => r = Ok b /\ stores w' = stores w)).
  { revert Hb. unfold checked_router. case_bool_decide.
    - intros [= ->]. by apply wp_ret.
    - intros Hb. apply wp_of_option. by exists b. }
  intros r w1 [-> Hs1]. apply wp_bind, wp_attempt. eapply wp_mono; [apply reconcile_spec|]. intros rc w2 Hrc. cbn beta in Hrc.
  assert (Hwf2 : wf (stores w2)).
  { eapply persists_reconcile; [|exact Hrc]. by rewrite Hs1. }
  apply wp_bind. eapply wp_mono; [apply maybe_check_spec; done|]. intros r w3 (o & -> & Hgate).
  eapply wp_mono; [apply (gate_end_spec v b o w3 Hreadyb Hv)|].
  { intros p Hp. by apply (proj1 (proj2 (proj2 Hgate))). }
  intros r w4 (router & -> & Hs4 & Hf). exists router, b, o, w2, (indexed_policy_names regex b), rc. split; [done|]. split; [done|].
  split; [|split; [done|split]].
  - unfold reconcile_post in *. rewrite Hs1 in Hrc. exact Hrc.
  - unfold gate_post in *. by rewrite Hs4.
  - by rewrite Hs4.
Qed.

(** Routers that show the same names have the same definitions under their policy names. *)
Lemma shows_less_definition router b d e :
  shows_less router b -> Catalog.definition_name regex d = Some e ->
  Catalog.policy_definition regex router (Catalog.value regex d) = Catalog.policy_definition regex b (Catalog.value regex d).
Proof.
  intros [_ Hname] He. unfold Catalog.policy_definition. unfold Catalog.definition_name in He. rewrite He.
  change (Catalog.policy_name regex (Catalog.tool_index regex (Catalog.index regex router)) e)
    with (Exposure.policy_name_of regex router e).
  change (Catalog.policy_name regex (Catalog.tool_index regex (Catalog.index regex b)) e)
    with (Exposure.policy_name_of regex b e). by rewrite Hname.
Qed.

(** What a shown definition is for the check: its entry in the catalog, under its policy
    name. *)
Lemma shown_entry router b d :
  shows_less router b -> ready router -> d ∈ shown router ->
  exists e, Catalog.definition_name regex d = Some e /\
    let n := Exposure.policy_name_of regex router e in
    let t := (Catalog.policy_definition regex router (Catalog.value regex d), Catalog.source_input_schema regex d) in
    t ∈ pin_values (checked_catalog b) /\ name_of t.1 = Some n.
Proof.
  intros Hless Hr Hd. destruct (shown_admitted router d Hr Hd) as (e & He & _). exists e. split; [done|]. cbv zeta.
  destruct (policy_entry_name b d e He) as (Hn & Hv & _). rewrite (shows_less_definition router b d e Hless He), <- Hv.
  rewrite (proj2 Hless). split; [|done]. by apply entry_listed, Hless.
Qed.

(** The definition shown was judged: the baseline read, and it is not to be hidden. *)
Lemma published_definition v built w r w' router d :
  publish_post v built w r w' -> r = Ok router -> d ∈ shown router ->
  exists b o w1 pins present rc e, checked_router built w = Some b /\ Catalog.definition_name regex d = Some e /\
    reconcile_post (profile_gone v) (identities v) present rc w w1 /\ gate_post v (checked_catalog b) o w1 w' /\
    usable_pins (load_pins (stores w1)) = Some pins /\
    let n := Exposure.policy_name_of regex router e in
    let t := (Catalog.policy_definition regex router (Catalog.value regex d), Catalog.source_input_schema regex d) in
    t ∈ pin_values (checked_catalog b) /\ name_of t.1 = Some n /\
    quarantines_drift v && risky pins t.1 t.2 n = false /\ held_back v (checked_catalog b) pins t n = false /\
    (quarantines_drift v = true -> forall T pins' q, tracked T (stores w') pins' q -> n ∉ dom q).
Proof.
  intros (router' & b & o & w1 & present & rc & -> & Hb & Hrc & _ & Hgate & (Hr & Hless & Hshown)) [= ->] Hd.
  destruct (shown_entry router b d Hless Hr Hd) as (e & He & Ht & Hn). destruct (Hshown d e Hd He) as [Hout Hq].
  destruct Hgate as (Hwf & Hmust & Hrest).
  destruct (usable_pins (load_pins (stores w1))) as [pins|] eqn:Ep.
  2: { exfalso. apply Hout, Hmust. cbn. unfold catalog_names, values. apply list_elem_of_omap.
       eexists. split; [|exact Hn]. apply list_elem_of_fmap. by eexists. }
  exists b, o, w1, pins, present, rc, e. split; [done|]. split; [done|]. split; [done|]. split; [|split; [done|]].
  { split; [done|]. split; [|done]. intros n. rewrite Ep. apply Hmust. }
  cbv zeta. split; [done|]. split; [done|]. apply and_assoc. split; [|done]. apply orb_false_iff, not_true_iff_false. intros H.
  apply Hout, Hmust. by eexists.
Qed.

Lemma usable_reconciled gone servers present rc w w1 pins :
  reconcile_post gone servers present rc w w1 -> usable_pins (load_pins (stores w1)) = Some pins ->
  exists pins0, usable_pins (load_pins (stores w)) = Some pins0 /\ reviews_only pins0 pins.
Proof.
  intros (_ & _ & [->|(pins0 & absent & Hl & _ & (pins' & Hl' & Hrev) & _)]) Hp; [by exists pins|].
  rewrite Hl' in Hp. injection Hp as <-. exists pins0. by rewrite Hl.
Qed.

(** ** The watcher *)

Local Abbreviation reconcile_quarantine :=
  (Gate.reconcile_quarantine content_digest regex regex_new number_from_str number_from_f64_str
     to_string sha256 scan_definition profile).

Lemma wp_need_capture present Q w :
  (forall b w', stores w' = stores w -> Q (Ok b) w') -> wp (definition_reviews_need_capture present) Q w.
Proof.
  intros H. apply wp_bind, wp_reviews. intros w1 Hs1 _. destruct (_ || _); [by apply wp_ret, H|].
  by apply wp_bind, wp_read, wp_ret, H.
Qed.

(** A turn of the watcher hides more of the live router, or publishes through the gate. *)
Definition watch_post (v : RegistryView) (live : Router) (w : World) (r : result Router Failure) (w' : World) : Prop :=
  exists router, r = Ok router /\
    (stores w' = stores w /\ ready router /\ shows_less router live \/
     exists want next w1, stores w1 = stores w /\ requarantine_from_store live want = Some next /\ ready next /\
       publish_built_router v next w1 = Some (Ok router, w')).

Lemma watch_spec v live w :
  ready live -> wf (stores w) -> blocking v || quarantines_drift v = true ->
  wp (reconcile_quarantine v live) (watch_post v live w) w.
Proof.
  intros Hready Hwf Hv. unfold Gate.reconcile_quarantine. apply wp_bind, effective_quarantine_spec.
  intros want w1 Hs1 _. assert (Hstay : watch_post v live w (Ok live) w1) by (exists live; split; [done|left; by split]).
  destruct want as [want|]; [|by apply wp_ret]. apply wp_bind, wp_need_capture. intros retry w2 Hs2. cbv zeta.
  destruct (_ && _ && _); [apply wp_ret; exists live; split; [done|]; left; split; [congruence|by split]|].
  destruct (republish live (Catalog.set_quarantine (policy_of live) want false) Hready) as (next & Hn & Hrn & _ & Hless).
  apply wp_bind, wp_of_option. exists next. split; [exact Hn|].
  destruct (negb (bool_decide (Catalog.quarantined (policy_of live) ⊆ want)) || Catalog.fail_closed (policy_of live) || retry)
    eqn:Eg.
  - assert (Hpub : wp (publish_built_router v next) (publish_post v next w2) w2)
      by (apply publish_spec; [done|by rewrite Hs2, Hs1|done]).
    change (requarantine_if_needed _ _ _ _ _ _ _ _ _ v next) with (publish_built_router v next).
    unfold wp in *. destruct (publish_built_router v next w2) as [[r w3]|] eqn:Erun; [|done].
    destruct Hpub as (router & _ & _ & _ & _ & _ & -> & _). exists router. split; [done|]. right.
    exists want, next, w2. split; [congruence|done].
  - apply orb_false_iff in Eg as [[Hsub Hc]%orb_false_iff _]. apply negb_false_iff, bool_decide_eq_true in Hsub.
    apply wp_ret. exists next. split; [done|]. left. split; [congruence|]. split; [done|]. apply Hless. by split; cbn; [..|congruence].
Qed.

(** ** Histories *)

(** What a check of the catalog of [built] accepts. *)
Definition vetting (T : Trust) (built : Router) (w : World) : Trust := fun n f =>
  T n f \/ exists b pins, checked_router built w = Some b /\ usable_pins (load_pins (stores w)) = Some pins /\
    accepting to_string sha256 scan_definition T pins (checked_catalog b) n f.

(** What the turns of the watcher accept: what the checks of the restored catalog do. *)
Definition watching (T : Trust) (live : Router) (w : World) : Trust := fun n f =>
  T n f \/ exists want next w1, stores w1 = stores w /\ requarantine_from_store live want = Some next /\
    vetting T next w1 n f.

(** The gateway at Strict: the definitions accepted so far, the stores, the live router. A
    router is published, the watcher takes a turn, or a user releases tools. *)
Inductive step : Trust * World * Router -> Trust * World * Router -> Prop :=
| step_publish T w live v built router w' :
    quarantines_drift v = true -> ready built -> publish_built_router v built w = Some (Ok router, w') ->
    step (T, w, live) (vetting T built w, w', router)
| step_watch T w live v router w' :
    quarantines_drift v = true -> reconcile_quarantine v live w = Some (Ok router, w') ->
    step (T, w, live) (watching T live w, w', router)
| step_release T w live tool id r w' :
    release_record to_string sha256 tool id w = Some (r, w') ->
    step (T, w, live) (released T (fun n => n = tool) (stores w'), w', live)
| step_release_definition T w live tool definition r w' :
    release_definition tool definition w = Some (r, w') ->
    step (T, w, live) (released T (fun n => n = tool) (stores w'), w', live)
| step_release_all T w live expected r w' :
    release_all to_string sha256 expected w = Some (r, w') ->
    step (T, w, live) (released T (released_in_bulk to_string sha256 expected (stores w)) (stores w'), w', live).

(** The stores are tracked, with the definitions accepted so far. *)
Definition follows (T : Trust) (w : World) : Prop := exists pins q, tracked T (stores w) pins q.

(** A shown definition is accepted under its policy name. *)
Definition accepted (T : Trust) (r : Router) (d : ToolDefinition) : Prop :=
  exists e, Catalog.definition_name regex d = Some e /\
    T (Exposure.policy_name_of regex r e)
      (fp (pin_with_source (Catalog.policy_definition regex r (Catalog.value regex d)) (Catalog.source_input_schema regex d))).

Record sound (x : Trust * World * Router) : Prop := {
  sound_follows : follows x.1.1 x.1.2;
  sound_ready : ready x.2;
  sound_shown : forall d, d ∈ shown x.2 -> accepted x.1.1 x.2 d
}.

Lemma follows_mono (T T' : Trust) w : (forall n f, T n f -> T' n f) -> follows T w -> follows T' w.
Proof. intros H (pins & q & Ht). exists pins, q. by eapply tracked_mono. Qed.

Lemma accepted_mono (T T' : Trust) r d : (forall n f, T n f -> T' n f) -> accepted T r d -> accepted T' r d.
Proof. intros H (e & He & Ht). exists e. split; [done|by apply H]. Qed.

Lemma follows_stores T w w' : stores w' = stores w -> follows T w -> follows T w'.
Proof. intros H. unfold follows. by rewrite H. Qed.

Lemma publish_follows T v built w r w' :
  quarantines_drift v = true -> publish_post v built w r w' -> follows T w -> follows (vetting T built w) w'.
Proof.
  intros Hv (router & b & o & w1 & present & rc & _ & Hb & Hrc & _ & Hgate & _) (pins & q & Ht).
  destruct (reconcile_tracked _ _ _ _ _ _ _ _ _ Ht Hrc) as (pins1 & q1 & Ht1 & Hrev & _).
  destruct Hgate as (_ & _ & _ & Hg). destruct (Hg Hv T pins1 q1 Ht1) as (pins' & q' & Ht' & _). exists pins', q'.
  eapply tracked_mono; [|exact Ht']. intros n f [?|(t & Hin & Hn & Hf & Hvo)]; [by left|right].
  exists b, pins. split; [done|]. split; [apply Ht|]. right. exists t. by rewrite <- (vouched_reviews _ _ _ _ _ Hrev).
Qed.

(** A definition that is shown is accepted: it was not risky when it was checked. *)
Lemma published_accepted T v built w r w' router d :
  quarantines_drift v = true -> publish_post v built w r w' -> r = Ok router -> d ∈ shown router -> follows T w ->
  accepted (vetting T built w) router d.
Proof.
  intros Hv Hpost Hr Hd (pins0 & q & Ht).
  destruct (published_definition v built w r w' router d Hpost Hr Hd)
    as (b & o & w1 & pins1 & present & rc & e & Hb & He & Hrc & Hgate & Hp1 & Hin & Hn & Hrisk & _ & Hq).
  destruct (usable_reconciled _ _ _ _ _ _ _ Hrc Hp1) as (pins & Hp & Hrev). exists e. split; [done|].
  rewrite Hv in Hrisk. cbn [andb fst snd] in *.
  destruct (calm_vouched to_string sha256 scan_definition _ _ _ _ Hrisk) as [Hvo|(old & Ho & <- & Hnr)].
  - right. exists b, pins. split; [done|]. split; [done|]. right. eexists. split; [exact Hin|]. split; [done|].
    split; [done|]. by rewrite <- (vouched_reviews _ _ _ _ _ Hrev).
  - left. destruct (reconcile_tracked _ _ _ _ _ _ _ _ _ Ht Hrc) as (pins2 & q1 & Ht1 & _).
    pose proof (tr_pins _ _ _ _ Ht1) as E. rewrite Hp1 in E. injection E as <-.
    destruct (tr_accepted _ _ _ _ Ht1 _ _ Ho) as [?|[Hdom|?]]; [done| |congruence].
    destruct Hgate as (_ & _ & _ & Hg). destruct (Hg Hv T pins1 q1 Ht1) as (pins' & q' & Ht' & Hsub).
    destruct (Hq Hv _ _ _ Ht'). by apply Hsub.
Qed.

(** A publication from a state whose stores are tracked. *)
Lemma published_sound T v built w router w' :
  quarantines_drift v = true -> ready built -> publish_built_router v built w = Some (Ok router, w') -> follows T w ->
  sound (vetting T built w, w', router).
Proof.
  intros Hv Hready Hrun Hf.
  assert (Hpost : publish_post v built w (Ok router) w').
  { refine (wp_run _ _ _ _ _ _ Hrun). destruct Hf as (pins & q & Ht).
    apply publish_spec; [done|apply Ht|by rewrite Hv, orb_true_r]. }
  split; cbn.
  - by eapply publish_follows.
  - destruct Hpost as (router' & _ & _ & _ & _ & _ & [= <-] & _ & _ & _ & _ & (? & _)). done.
  - intros d Hd. by eapply published_accepted.
Qed.

Lemma released_sound T (names : string -> Prop) w w' live :
  sound (T, w, live) ->
  (forall pins q, tracked T (stores w) pins q -> exists pins' q', tracked (released T names (stores w')) (stores w') pins' q') ->
  sound (released T names (stores w'), w', live).
Proof.
  intros [(pins & q & Ht) Hr Hs] H. split; cbn in *; [by eapply H|done|].
  intros d Hd. eapply accepted_mono; [|by apply Hs]. by left.
Qed.

Lemma watch_sound T w live v router w' :
  quarantines_drift v = true -> reconcile_quarantine v live w = Some (Ok router, w') -> sound (T, w, live) ->
  sound (watching T live w, w', router).
Proof.
  intros Hv Hrun [Hf Hready Hshown]. cbn in Hf, Hready, Hshown.
  assert (Hpost : watch_post v live w (Ok router) w').
  { refine (wp_run _ _ _ _ _ _ Hrun). destruct Hf as (pins & q & Ht).
    apply watch_spec; [done|apply Ht|by rewrite Hv, orb_true_r]. }
  destruct Hpost as (router' & [= <-] & [(Hst & Hr & Hless)|(want & next & w1 & Hst & Hn & Hrn & Hpub)]).
  - split; cbn; [|done|].
    + eapply follows_stores; [exact Hst|]. eapply follows_mono; [|exact Hf]. by left.
    + intros d Hd. destruct (Hshown d (proj1 Hless d Hd)) as (e & He & HT). exists e. split; [done|]. left.
      by rewrite (proj2 Hless), (shows_less_definition router live d e Hless He).
  - assert (Hp : sound (vetting T next w1, w', router)) by (eapply published_sound; [done..|by eapply follows_stores]).
    assert (Hin : forall n f, vetting T next w1 n f -> watching T live w n f) by (intros n f H; right; by exists want, next, w1).
    destruct Hp as [H1 H2 H3]. split; cbn in *; [by eapply follows_mono|done|].
    intros d Hd. eapply accepted_mono; [exact Hin|by apply H3].
Qed.

Lemma step_sound x y : step x y -> sound x -> sound y.
Proof.
  intros [T w live v built router w' Hv Hready Hrun|T w live v router w' Hv Hrun|T w live tool id r w' Hrun
    |T w live tool definition r w' Hrun|T w live expected r w' Hrun] Hs.
  - eapply published_sound; [done..|apply Hs].
  - by eapply watch_sound.
  - apply (released_sound _ _ w); [done|]. intros pins q Ht. eapply (release_tracked to_string sha256 scan_definition); [exact Ht|].
    exact (wp_run _ _ _ _ _ (release_record_spec to_string sha256 profile tool id w) Hrun).
  - apply (released_sound _ _ w); [done|]. intros pins q Ht. eapply (release_tracked to_string sha256 scan_definition); [exact Ht|].
    exact (wp_run _ _ _ _ _ (release_definition_spec sha256 profile tool definition w) Hrun).
  - apply (released_sound _ _ w); [done|]. intros pins q Ht. eapply release_all_tracked; [exact Ht|].
    exact (wp_run _ _ _ _ _ (release_all_spec to_string sha256 profile expected w) Hrun).
Qed.

(** * The properties *)

(** C11. No definition escapes the check, whatever store operation fails: with blocking or drift
    quarantine in force, publishing a router never panics and returns one, every definition
    it shows is, under its policy name, an entry of the catalog that was checked against
    the stored baseline, which could be read; at Strict that definition is neither new and
    poisoned nor a risky change of its pin; and at Ask neither is its review owed, nor did it
    drop its destructive hint in a change the quarantine counts. *)
Theorem published_definitions_passed_the_check v built w :
  ready built -> wf (stores w) -> blocking v || quarantines_drift v = true ->
  wp (publish_built_router v built) (fun r w' =>
    exists router b, r = Ok router /\ checked_router built w = Some b /\ shows_less router b /\
      forall d, d ∈ shown router -> exists pins e,
        usable_pins (load_pins (stores w)) = Some pins /\ Catalog.definition_name regex d = Some e /\
        let n := Exposure.policy_name_of regex router e in
        let t := (Catalog.policy_definition regex router (Catalog.value regex d), Catalog.source_input_schema regex d) in
        t ∈ pin_values (checked_catalog b) /\ name_of t.1 = Some n /\
        quarantines_drift v && risky pins t.1 t.2 n = false /\
        held_back v (checked_catalog b) pins t n = false) w.
Proof.
  intros Hready Hwf Hv. eapply wp_mono; [by apply publish_spec|]. intros r w' Hpost.
  pose proof Hpost as (router & b & o & w1 & present & rc & Hr & Hb & _ & _ & _ & (_ & Hless & _)).
  exists router, b. split; [done|]. split; [done|]. split; [done|]. intros d Hd.
  destruct (published_definition v built w r w' router d Hpost Hr Hd)
    as (b' & _ & w2 & pins1 & present' & rc' & e & Hb' & He & Hrc & _ & Hp1 & Hin & Hn & Hrisk & Hheld & _).
  rewrite Hb in Hb'. injection Hb' as <-. destruct (usable_reconciled _ _ _ _ _ _ _ Hrc Hp1) as (pins & Hp & Hrev).
  exists pins, e. do 4 (split; [done|]). by rewrite <- (risky_reviews _ _ _ _ _ Hrev), <- (held_back_reviews _ _ _ _ _ _ Hrev).
Qed.

(** C4. Over any history of the gateway at Strict (routers published, turns of the watcher,
    releases by the user, in any order, with any failures of the stores) every definition
    the live router shows was accepted under its policy name: at some check it was new and
    unpoisoned or a benign unpoisoned change, or the user released it. *)
Theorem shown_definitions_were_accepted x T w live d :
  sound x -> rtc step x (T, w, live) -> d ∈ shown live ->
  exists e, Catalog.definition_name regex d = Some e /\
    T (Exposure.policy_name_of regex live e)
      (fp (pin_with_source (Catalog.policy_definition regex live (Catalog.value regex d))
             (Catalog.source_input_schema regex d))).
Proof.
  intros Hx Hsteps Hd. assert (Hy : sound (T, w, live)) by (induction Hsteps; eauto using step_sound).
  by apply (sound_shown _ Hy).
Qed.

(** C19. The watcher restores nothing unchecked: a turn never panics, and what it leaves live
    shows no more than before, under the same names, with the stores untouched, or was
    published through the gate. *)
Theorem watcher_restores_only_checked v live w :
  ready live -> wf (stores w) -> blocking v || quarantines_drift v = true ->
  wp (reconcile_quarantine v live) (fun r w' =>
    exists router, r = Ok router /\
      (stores w' = stores w /\ shows_less router live \/
       exists want next w1, stores w1 = stores w /\ requarantine_from_store live want = Some next /\ ready next /\
         publish_built_router v next w1 = Some (Ok router, w'))) w.
Proof.
  intros Hr Hwf Hv. eapply wp_mono; [by apply watch_spec|]. intros r w' (router & -> & [(Hs & _ & Hl)|H]); exists router;
    (split; [done|]); [by left|by right].
Qed.

End gate.
(** ** Witnesses *)

Section demo.

Local Abbreviation no_regex := (fun _ : string => @None unit).
Local Abbreviation no_number := (fun _ : string => @None number).

Definition strict_view : RegistryView :=
  {| safety := Safety.mk_registry 2 (Some Safety.Strict) None false false false false false false Safety.Off
                 false false false false ∅;
     identities := []; profile_gone := false |}.

(** An installation before any baseline. *)
Definition new_world : World :=
  mk_world (mk_stores true Absent Absent Absent false false) no_reviews [] [] (fun i => Z.of_nat i + 1) 0.

Lemma new_follows : follows (fun _ _ => False) new_world.
Proof. exists ∅, ∅. by split. Qed.

Lemma new_wf : wf (stores new_world).
Proof. by intros q. Qed.

Definition demo_publish (built : Catalog.Router unit) : option (result (Catalog.Router unit) Failure * World) :=
  publish_built_router counting_digest unit no_regex no_number no_number demo_text demo_digest demo_scan "default"
    strict_view built new_world.

Definition demo_shown : option (list (option string)) :=
  built ← Catalog.demo_rebuilt;
  out ← demo_publish built;
  match out with (Ok r, _) => Some (map (Catalog.definition_name unit) (Exposure.shown unit r)) | _ => None end.

Lemma demo_shows : demo_shown = Some [Some "files__list"].
Proof. by vm_compute. Qed.

Lemma demo_ready : exists built, Catalog.demo_rebuilt = Some built /\
  ready counting_digest unit no_regex no_number no_number built.
Proof.
  apply rebuilt_ready. split.
  - apply counting_digest_bytes.
  - apply counting_digest_long.
  - done.
  - apply Forall_singleton. cbn [Catalog.demo_slot Catalog.slot_tools map].
    repeat (apply Forall_cons; split; [apply Catalog.demo_tool_wf|]). done.
  - constructor.
  - constructor.
  - intros sv t. apply counting_digest_apart. vm_compute. lia.
Qed.

Lemma outcome_shows (o : option (result (Catalog.Router unit) Failure * World)) n l :
  (out ← o; match out with (Ok r, _) => Some (map (Catalog.definition_name unit) (Exposure.shown unit r)) | _ => None end) =
    Some (n :: l) ->
  exists router w' d, o = Some (Ok router, w') /\ d ∈ Exposure.shown unit router.
Proof.
  destruct o as [[[r|e] w']|]; try done. cbn. intros [= H]. destruct (Exposure.shown unit r) as [|d ds] eqn:El; [done|].
  exists r, w', d. split; [done|]. rewrite El. left.
Qed.

(** The demonstration shows a tool, which was checked. *)
Lemma demo_published built : Catalog.demo_rebuilt = Some built ->
  exists router w' d, demo_publish built = Some (Ok router, w') /\ d ∈ Exposure.shown unit router.
Proof.
  intros E. pose proof demo_shows as H. unfold demo_shown in H. rewrite E in H. cbn [mbind option_bind] in H.
  exact (outcome_shows _ _ _ H).
Qed.

Lemma published_definitions_passed_the_check_witness :
  exists built router w' d, Catalog.demo_rebuilt = Some built /\ demo_publish built = Some (Ok router, w') /\
    d ∈ Exposure.shown unit router /\
    exists e, Catalog.definition_name unit d = Some e /\
      risky demo_text demo_digest demo_scan ∅ (Catalog.policy_definition unit router (Catalog.value unit d))
        (Catalog.source_input_schema unit d) (Exposure.policy_name_of unit router e) = false.
Proof.
  destruct demo_ready as (built & Hb & Hready). destruct (demo_published built Hb) as (router & w' & d & Hrun & Hd).
  exists built, router, w', d. split; [exact Hb|]. split; [exact Hrun|]. split; [exact Hd|].
  pose proof (published_definitions_passed_the_check counting_digest unit no_regex no_number no_number demo_text demo_digest
    demo_scan "default" strict_view built new_world Hready new_wf eq_refl) as H.
  unfold wp in H. unfold demo_publish in Hrun. rewrite Hrun in H. destruct H as (router' & b & [= <-] & _ & _ & Hall).
  destruct (Hall d Hd) as (pins & e & [= <-] & He & _ & _ & Hr & _). exists e. split; [exact He|]. exact Hr.
Defined.

Lemma shown_definitions_were_accepted_witness :
  exists live0 T w live d,
    rtc (step counting_digest unit no_regex no_number no_number demo_text demo_digest demo_scan "default")
      (fun _ _ => False, new_world, live0) (T, w, live) /\
    d ∈ Exposure.shown unit live /\
    exists e, Catalog.definition_name unit d = Some e /\
      T (Exposure.policy_name_of unit live e)
        (fp (pin_with_source demo_text demo_digest (Catalog.policy_definition unit live (Catalog.value unit d))
               (Catalog.source_input_schema unit d))).
Proof.
  destruct demo_ready as (built & Hb & Hready). destruct (demo_published built Hb) as (router & w' & d & Hrun & Hd).
  destruct (republish counting_digest unit no_regex no_number no_number built
    (Catalog.set_quarantine (Catalog.policy (Catalog.settings unit built)) ∅ true) Hready) as (live0 & _ & Hr0 & Hp0 & _).
  set (T0 := (fun _ _ => False) : Trust).
  set (T := vetting counting_digest unit no_regex no_number no_number demo_text demo_digest demo_scan T0 built new_world).
  assert (Hsteps : rtc (step counting_digest unit no_regex no_number no_number demo_text demo_digest demo_scan "default")
    (T0, new_world, live0) (T, w', router)).
  { apply rtc_once. exact (step_publish _ _ _ _ _ _ _ _ _ T0 new_world live0 strict_view built router w' eq_refl Hready Hrun). }
  assert (H0 : sound counting_digest unit no_regex no_number no_number demo_text demo_digest (T0, new_world, live0)).
  { split; [exact new_follows|exact Hr0|]. intros d0 Hd0.
    destruct (closed_shows_nothing _ _ _ _ _ live0 d0 Hr0); [|exact Hd0]. cbn [fst snd]. by rewrite Hp0. }
  exists live0, T, w', router, d. split; [exact Hsteps|]. split; [exact Hd|].
  exact (shown_definitions_were_accepted counting_digest unit no_regex no_number no_number demo_text demo_digest
    demo_scan "default" _ T w' router d H0 Hsteps Hd).
Defined.

(** The watcher, after that publication and without the store's files. *)
Lemma watcher_restores_only_checked_witness :
  exists live, Catalog.demo_rebuilt = Some live /\
    wp (reconcile_quarantine counting_digest unit no_regex no_number no_number demo_text demo_digest demo_scan "default"
          strict_view live)
      (fun r _ => exists router, r = Ok router) new_world.
Proof.
  destruct demo_ready as (live & Hb & Hready). exists live. split; [exact Hb|].
  eapply wp_mono; [exact (watcher_restores_only_checked counting_digest unit no_regex no_number no_number demo_text demo_digest
    demo_scan "default" strict_view live new_world Hready new_wf eq_refl)|].
  intros r w' (router & Hr & _). exists router. exact Hr.
Defined.

(** ** A downgrade Ask means to hold *)

Definition ask_view : RegistryView :=
  {| safety := Safety.mk_registry 2 (Some Safety.Ask) None false false false false false false Safety.Off
                 false false false false ∅;
     identities := []; profile_gone := false |}.

(** [delete_rows], shown as [cleanup]; its server then declares it not destructive. *)
Definition cleanup (annotations : list (string * json)) : list (Catalog.ToolDefinition unit) :=
  [{| Catalog.value := obj (("name", JString "db__cleanup") :: annotations); Catalog.arguments := None;
      Catalog.source_input_schema := None; Catalog.gate_name := Some "delete_rows" |}].

Definition cleanup_before := cleanup [].
Definition cleanup_after := cleanup [("annotations", obj [("destructiveHint", JBool false)])].

Definition cleanup_world : World :=
  mk_world (mk_stores true (Holds (pins_now demo_text demo_digest cleanup_before)) Absent (Holds ∅) false false)
    no_reviews [] [] (fun i => Z.of_nat i + 1) 0.

(** The check reports a change that Ask holds, yet enforces nothing: the tool is not
    quarantined, its pin follows, and no later check reports it again. *)
Lemma held_downgrade_is_not_enforced :
  let run := maybe_check_integrity unit demo_text demo_digest demo_scan "default" ask_view cleanup_after cleanup_world in
  let events := findings demo_text demo_digest demo_scan (fun _ => (1, 1)) cleanup_after
                  (pins_now demo_text demo_digest cleanup_before) in
  existsb ask_holds events = true /\
  match run with
  | Some (Ok (Checked None), w') =>
      quarantine_file (stores w') = Holds ∅ /\
      findings demo_text demo_digest demo_scan (fun _ => (1, 1)) cleanup_after
        (default ∅ (usable_pins (load_pins (stores w')))) = []
  | _ => False
  end.
Proof. by vm_compute. Qed.

End demo.

End Vetting.
