(* ===== verification/Masking.v ===== *)
(** Masking of personal data (src/pii.rs): the detectors' matches are resolved to
    disjoint detections, each detected value gets a token in the session's map, and
    a token in the arguments of a call is turned back for a server that has the value.

    The regular expressions are compiled by a third-party engine: [find_iter] is what
    a detector's expression finds in a text.  [None] is a panic: a slice off a
    character boundary or out of range. *)

From Stdlib Require Import FunctionalExtensionality.
From S2P Require Import Prelude Text Json.

Module Masking.

Definition MAX_SCAN_BYTES : Z := 512 * 1024.
Definition DEFAULT_MAX_VALUES : Z := 10000.

Inductive Category := Email | Card | Ssn | Iban | Phone | Ipv4 | Secret.

#[global] Instance Category_eq : EqDecision Category.
Proof. solve_decision. Defined.

Definition categories : list Category := [Email; Card; Ssn; Iban; Phone; Ipv4; Secret].

(** The declaration order, which the derived [Ord] compares. *)
Definition rank (c : Category) : Z :=
  match c with
  | Email => 0 | Card => 1 | Ssn => 2 | Iban => 3 | Phone => 4 | Ipv4 => 5 | Secret => 6
  end.

#[global] Instance Category_countable : Countable Category.
Proof.
  refine (inj_countable' (fun c => Z.to_nat (rank c))
    (fun n => default Email (categories !! n)) _). by intros [].
Defined.

Definition label (c : Category) : string :=
  match c with
  | Email => "EMAIL" | Card => "CARD" | Ssn => "SSN" | Iban => "IBAN"
  | Phone => "PHONE" | Ipv4 => "IPV4" | Secret => "SECRET"
  end.

Record Detection := mk_detection { category : Category; start : Z; end_ : Z }.

Definition ipv4_valid (s : string) : bool :=
  forallb (fun o => match parse_unsigned 255 o with Some _ => true | None => false end)
    (split_on "." s).

(** [c.to_digit(10)]. *)
Definition to_digit (c : string) : option Z :=
  match c with String b EmptyString => digit_value b | _ => None end.

Definition luhn_term (i : nat) (d : Z) : Z :=
  if Nat.odd i then let doubled := d * 2 in if 9 <? doubled then doubled - 9 else doubled
  else d.

Definition luhn_valid (s : string) : bool :=
  let digits := omap to_digit (chars s) in
  let n := Z.of_nat (length digits) in
  if negb ((13 <=? n) && (n <=? 19)) then false
  else Zsum (imap luhn_term (rev digits)) mod 10 =? 0.

(** The [valid] field of a detector. *)
Definition valid (c : Category) (s : string) : bool :=
  match c with Card => luhn_valid s | Ipv4 => ipv4_valid s | _ => true end.

(** The order [found] is sorted by: longest first, then earliest, then category. *)
Definition detection_le (a b : Detection) : Prop :=
  let la := end_ a - start a in let lb := end_ b - start b in
  lb < la \/ (lb = la /\ (start a < start b \/
    (start a = start b /\ rank (category a) <= rank (category b)))).

#[global] Instance detection_le_dec : RelDecision detection_le.
Proof. intros a b. unfold detection_le. apply _. Defined.

(** [slice::partition_point] on a slice partitioned by [p]. *)
Fixpoint partition_point {A} (p : A -> bool) (l : list A) : nat :=
  match l with
  | [] => 0
  | x :: l => if p x then S (partition_point p l) else 0
  end.

(** One turn of the loop over [found]: keep a detection that overlaps neither
    neighbour of its place. *)
Definition keep (kept : list Detection) (d : Detection) : list Detection :=
  let i := partition_point (fun k => start k <? start d) kept in
  let overlaps_next :=
    match kept !! i with Some k => start k <? end_ d | None => false end in
  let overlaps_prev :=
    match i with
    | O => false
    | S j => match kept !! j with Some k => start d <? end_ k | None => false end
    end in
  if negb overlaps_next && negb overlaps_prev
  then take i kept ++ d :: drop i kept else kept.

Section scan.
Variable find_iter : Category -> string -> list (Z * Z).

(** The matches of every detector, in the order of [detectors()]. *)
Definition found (text : string) : option (list Detection) :=
  per ← mapM (fun c =>
          ms ← mapM (fun m => raw ← str_slice text m.1 m.2; Some (valid c raw, m))
                 (find_iter c text);
          Some (map (fun m : bool * (Z * Z) => mk_detection c m.2.1 m.2.2)
                  (List.filter fst ms))) categories;
  Some (mjoin per).

Definition scan (text : string) : option (list Detection) :=
  l ← found text; Some (foldl keep [] (merge_sort detection_le l)).
End scan.

(** ** The token map of one session *)

Record Entry := mk_entry { value : string; origins : gset string }.

Record SessionMap := mk_map {
  by_value : gmap (Category * string) string;
  by_token : gmap string Entry;
  counts : gmap Category Z;
  max_values : Z;
  overflowed : bool
}.

Definition with_capacity (max : Z) : SessionMap :=
  {| by_value := ∅; by_token := ∅; counts := ∅; max_values := max; overflowed := false |}.

Definition new : SessionMap := with_capacity DEFAULT_MAX_VALUES.

Definition len (m : SessionMap) : Z := Z.of_nat (size (by_token m)).
Definition is_empty (m : SessionMap) : bool := len m =? 0.

Definition with_tokens (t : gmap string Entry) (m : SessionMap) : SessionMap :=
  {| by_value := by_value m; by_token := t; counts := counts m;
     max_values := max_values m; overflowed := overflowed m |}.

Definition add_origin (o : string) (e : Entry) : Entry :=
  {| value := value e; origins := {[o]} ∪ origins e |}.

(** [if let Some(entry) = by_token.get_mut(token) { entry.origins.insert(o) }]. *)
Definition credit (token o : string) (m : SessionMap) : SessionMap :=
  with_tokens (alter (add_origin o) token (by_token m)) m.

Definition opening : string := "⟦".
Definition closing : string := "⟧".

Definition token_text (c : Category) (n : Z) : string :=
  opening +:+ label c +:+ "_" +:+ pretty n +:+ closing.

Definition token_for (origin : string) (c : Category) (v : string) (m : SessionMap)
    : option string * SessionMap :=
  match by_value m !! (c, v) with
  | Some token => (Some token, credit token origin m)
  | None =>
      if max_values m <=? len m
      then (None, {| by_value := by_value m; by_token := by_token m; counts := counts m;
                     max_values := max_values m; overflowed := true |})
      else
        let n := wrap64 (default 0 (counts m !! c) + 1) in
        let token := token_text c n in
        (Some token,
         {| by_value := <[(c, v) := token]> (by_value m);
            by_token := <[token := {| value := v; origins := {[origin]} |}]> (by_token m);
            counts := <[c := n]> (counts m);
            max_values := max_values m; overflowed := overflowed m |})
  end.

(** Largest prefix of at most [max] bytes that ends on a character boundary. *)
Fixpoint floor_boundary (n : nat) (s : string) : nat :=
  match n with
  | O => O
  | S n' => if is_char_boundary s (Z.of_nat n) then n else floor_boundary n' s
  end.

Definition truncate_on_char_boundary (s : string) (max : Z) : option string :=
  if slen s <=? max then Some s
  else str_slice s 0 (Z.of_nat (floor_boundary (Z.to_nat max) s)).

Record Pseudonymized := mk_pass { text : string; replaced : Z; complete : bool }.

(** The loop of [pseudonymize] over the detections. *)
Record Loop := mk_loop {
  out : string; cursor : Z; hits : Z; passed_through : bool; session : SessionMap
}.

Definition replace_one (origin scanned : string) (l : Loop) (d : Detection) : option Loop :=
  raw ← str_slice scanned (start d) (end_ d);
  match token_for origin (category d) raw (session l) with
  | (Some token, m) =>
      gap ← str_slice scanned (cursor l) (start d);
      Some {| out := out l +:+ gap +:+ token; cursor := end_ d; hits := hits l + 1;
              passed_through := passed_through l; session := m |}
  | (None, m) =>
      Some {| out := out l; cursor := cursor l; hits := hits l;
              passed_through := true; session := m |}
  end.

Fixpoint replace_all (origin scanned : string) (l : Loop) (ds : list Detection) : option Loop :=
  match ds with
  | [] => Some l
  | d :: ds => l ← replace_one origin scanned l d; replace_all origin scanned l ds
  end.

Section pseudonymize.
Variable find_iter : Category -> string -> list (Z * Z).

Definition pseudonymize (origin t : string) (m : SessionMap)
    : option (Pseudonymized * SessionMap) :=
  scanned ← truncate_on_char_boundary t MAX_SCAN_BYTES;
  let truncated := slen scanned <? slen t in
  ds ← scan find_iter scanned;
  l ← replace_all origin scanned
        {| out := ""; cursor := 0; hits := 0; passed_through := false; session := m |} ds;
  tail ← str_slice scanned (cursor l) (slen scanned);
  rest ← (if truncated then str_slice t (slen scanned) (slen t) else Some "");
  Some ({| text := out l +:+ tail +:+ rest; replaced := hits l;
           complete := negb (passed_through l) && negb truncated |}, session l).
End pseudonymize.

Definition approve_origin (token target : string) (m : SessionMap) : bool * SessionMap :=
  match by_token m !! token with
  | Some _ => (true, credit token target m)
  | None => (false, m)
  end.

Definition disclose (token : string) (m : SessionMap) : option Entry := by_token m !! token.

(** ** Tokens back to values *)

Record Rehydrated := mk_rehydrated { rtext : string; refused : gset string }.

(** What the map says about a complete token, for a call to [target]. *)
Definition resolve (m : SessionMap) (target token : string) : string * gset string :=
  match by_token m !! token with
  | Some e => if decide (target ∈ origins e) then (value e, ∅) else (token, {[token]})
  | None => (token, ∅)
  end.

(** The loop of [rehydrate]: every turn consumes at least the opening bracket. *)
Fixpoint rehydrate_loop (fuel : nat) (res : string -> string * gset string) (rest : string)
    : Rehydrated :=
  match fuel with
  | O => mk_rehydrated rest ∅
  | S fuel =>
      match split_on_str opening rest with
      | None => mk_rehydrated rest ∅
      | Some (before, tail) =>
          match split_on_str closing (opening +:+ tail) with
          | Some (body, rest') =>
              let (v, ref) := res (body +:+ closing) in
              let r := rehydrate_loop fuel res rest' in
              mk_rehydrated (before +:+ v +:+ rtext r) (ref ∪ refused r)
          | None => mk_rehydrated (before +:+ opening +:+ tail) ∅
          end
      end
  end.

Definition rehydrate (target t : string) (m : SessionMap) : Rehydrated :=
  if is_empty m || negb (contains opening t) then mk_rehydrated t ∅
  else rehydrate_loop (S (String.length t)) (resolve m target) t.

(** ** Strings inside JSON *)

(** A computation that threads a state and may panic. *)
Definition St (S A : Type) : Type := S -> option (A * S).
#[global] Instance St_ret S : MRet (St S) := fun A x s => Some (x, s).
#[global] Instance St_bind S : MBind (St S) := fun A B f c s => '(x, s) ← c s; f x s.

(** The loop over [renames]: a key in use is never overwritten. *)
Fixpoint rename_keys {V} (renames : list (string * string)) (o : list (string * V))
    : list (string * V) :=
  match renames with
  | [] => o
  | (old, new) :: renames =>
      if obj_contains new o then rename_keys renames o
      else match obj_get old o with
           | Some v => rename_keys renames (obj_insert new v (obj_remove old o))
           | None => rename_keys renames o
           end
  end.

Section walk.
Context {S : Type} (f : string -> St S string).

Definition renames (keys : list string) : St S (list (string * string)) :=
  candidates ← mapM f keys;
  mret (List.filter (fun kc => negb (String.eqb kc.2 kc.1)) (zip keys candidates)).

(** The values of an object are walked after its keys were renamed, so the walks of
    the values travel with their keys. *)
Fixpoint walk_strings (v : json) : St S json :=
  match v with
  | JString s => s ← f s; mret (JString s)
  | JArray l => l ← mapM walk_strings l; mret (JArray l)
  | JObject o =>
      let walks := map (fun kv => (kv.1, walk_strings kv.2)) o in
      rs ← renames (map fst o);
      o ← mapM (fun kw : string * St S json => v ← kw.2; mret (kw.1, v)) (rename_keys rs walks);
      mret (JObject o)
  | _ => mret v
  end.

(** [if let Some(v) = obj.get_mut(k) { g(v) }]. *)
Definition on_field (k : string) (g : json -> St S json) (o : list (string * json))
    : St S (list (string * json)) :=
  match obj_get k o with
  | Some v => v ← g v; mret (obj_update k (fun _ => v) o)
  | None => mret o
  end.

Definition on_text (v : json) : St S json :=
  match v with JString s => s ← f s; mret (JString s) | _ => mret v end.

(** [item.content] as a bare string or a nested text object, else [item.text]. *)
Definition on_item (item : json) : St S json :=
  match item with
  | JObject o =>
      o ← match obj_get "content" o with
          | Some _ =>
              on_field "content" (fun content =>
                match content with
                | JObject nested => nested ← on_field "text" on_text nested; mret (JObject nested)
                | _ => on_text content
                end) o
          | None => on_field "text" on_text o
          end;
      mret (JObject o)
  | _ => mret item
  end.

Definition on_items (v : json) : St S json :=
  match v with JArray l => l ← mapM on_item l; mret (JArray l) | _ => mret v end.

Definition for_each_result_text (result : json) : St S json :=
  match result with
  | JObject o =>
      o ← on_field "structuredContent" walk_strings o;
      o ← on_field "content" on_items o;
      o ← on_field "contents" on_items o;
      o ← on_field "messages" on_items o;
      mret (JObject o)
  | _ => mret result
  end.
End walk.

(** The result is rewritten in place; the count and the flag are accumulated. *)
Definition pseudonymize_result (find_iter : Category -> string -> list (Z * Z))
    (origin : string) (result : json) (m : SessionMap)
    : option (json * (Z * bool) * SessionMap) :=
  '(result, (n, c, m)) ← for_each_result_text (fun t (s : Z * bool * SessionMap) =>
      let '(n, c, m) := s in
      '(p, m) ← pseudonymize find_iter origin t m;
      Some (text p, (n + replaced p, c && complete p, m))) result (0, true, m);
  Some (result, (n, c), m).

Definition rehydrate_string (target : string) (m : SessionMap) (s : string)
    : St (gset string) string := fun refs =>
  if contains opening s
  then let r := rehydrate target s m in Some (rtext r, refs ∪ refused r)
  else Some (s, refs).

(** The arguments with their tokens resolved, and the refused tokens. *)
Definition rehydrate_args (target : string) (args : json) (m : SessionMap)
    : option (json * gset string) :=
  if is_empty m then Some (args, ∅)
  else walk_strings (rehydrate_string target m) args ∅.
(** ** Detections *)

(** A range that a slice of [t] accepts. *)
Definition placed (t : string) (m : Z * Z) : Prop :=
  0 <= m.1 < m.2 /\ m.2 <= slen t /\ is_char_boundary t m.1 = true /\ is_char_boundary t m.2 = true.

#[global] Instance placed_dec t m : Decision (placed t m).
Proof. unfold placed. apply _. Defined.

Definition range (d : Detection) : Z * Z := (start d, end_ d).
Definition before (a b : Detection) : Prop := end_ a <= start b.
Definition overlap (a b : Detection) : bool := (start a <? end_ b) && (start b <? end_ a).

(** The reference resolution: in order, a detection is kept when it overlaps none of
    those kept so far. *)
Fixpoint greedy (kept ds : list Detection) : list Detection :=
  match ds with
  | [] => kept
  | d :: ds => greedy (if existsb (overlap d) kept then kept else d :: kept) ds
  end.

Definition values_in (t : string) (ds : list Detection) : list string :=
  map (fun d => bytes_between t (start d) (end_ d)) ds.

Lemma str_slice_placed t m : placed t m -> str_slice t m.1 m.2 = Some (bytes_between t m.1 m.2).
Proof.
  intros (H1 & H2 & H3 & H4). unfold str_slice. rewrite H3, H4.
  destruct (Z.leb_spec m.1 m.2); [|lia]. by destruct (Z.leb_spec m.2 (slen t)); [|lia].
Qed.

Lemma partition_split {A} (p : A -> bool) l :
  exists a b, l = a ++ b /\ partition_point p l = length a /\ Forall (fun x => p x = true) a /\
    match b with [] => True | x :: _ => p x = false end.
Proof.
  induction l as [|x l (a & b & -> & H1 & H2 & H3)]; [by exists [], []|]. cbn.
  destruct (p x) eqn:E.
  - exists (x :: a), b. cbn. rewrite H1. by repeat constructor.
  - by exists [], (x :: a ++ b).
Qed.

Definition wide (d : Detection) : Prop := start d < end_ d.
Definition spaced (l : list Detection) : Prop := StronglySorted before l /\ Forall wide l.

Lemma spaced_app a b :
  spaced (a ++ b) -> spaced a /\ spaced b /\ Forall (fun x => Forall (before x) b) a.
Proof.
  intros [Hs [Ha Hb]%Forall_app]. unfold spaced. induction a as [|x a IH]; [by repeat constructor|].
  apply StronglySorted_inv in Hs as [Hs Hx]. apply Forall_cons in Ha as [Hwx Ha].
  destruct (IH Hs Ha) as ([H1 _] & H2 & H3). apply Forall_app in Hx as [Hx1 Hx2].
  split; [split; by constructor|]. split; [exact H2|by constructor].
Qed.

Lemma spaced_mid a d b :
  spaced (a ++ b) -> wide d -> Forall (fun x => before x d) a -> Forall (before d) b ->
  spaced (a ++ d :: b).
Proof.
  intros Hs Hw Ha Hb. destruct (spaced_app _ _ Hs) as ([Hsa Hwa] & [Hsb Hwb] & Hab). split.
  - clear Hs Hwa. induction Hsa as [|x a Hsa IH Hx]; cbn; [by constructor|].
    inversion Ha; inversion Hab; subst. constructor; [by apply IH|].
    apply Forall_app. split; [done|by constructor].
  - apply Forall_app. split; [done|by constructor].
Qed.

(** The last element of a spaced list ends last. *)
Lemma spaced_last a x : spaced (a ++ [x]) -> Forall (fun y => end_ y <= end_ x) (a ++ [x]).
Proof.
  intros Hs. destruct (spaced_app _ _ Hs) as (_ & [_ Hw] & H). inversion Hw; subst.
  apply Forall_app. split; [|by repeat constructor]. eapply Forall_impl; [exact H|].
  intros y Hy. inversion Hy; subst. unfold before, wide in *. lia.
Qed.


(** What the neighbours say about the detections on their side. *)
Lemma next_decides d b :
  wide d -> spaced b -> (match b with [] => True | x :: _ => start d <= start x end) ->
  existsb (overlap d) b = match b with k :: _ => start k <? end_ d | [] => false end /\
  Forall (fun x => overlap d x = false -> before d x) b.
Proof.
  intros Hw [Hs Hwb] Hb. destruct b as [|k b]; [done|].
  apply StronglySorted_inv in Hs as [_ Hk]. apply Forall_cons in Hwb as [Hwk Hwb].
  rewrite Forall_forall in Hk, Hwb. unfold before, wide, overlap in *.
  assert (Hx : forall x, x ∈ b -> start k <= start x /\ start x < end_ x).
  { intros x Hin. specialize (Hk x Hin). specialize (Hwb x Hin). cbn in *. lia. }
  split; [|constructor; [lia|apply Forall_forall; intros x Hin; specialize (Hx x Hin); lia]].
  cbn. destruct (Z.ltb_spec (start k) (end_ d)); [by destruct (Z.ltb_spec (start d) (end_ k)); [|lia]|].
  rewrite andb_false_r. cbn. apply not_true_iff_false. rewrite existsb_exists.
  intros (x & Hin%list_elem_of_In & Ho). specialize (Hx x Hin). lia.
Qed.

Lemma prev_decides d a :
  wide d -> spaced a -> Forall (fun x => start x < start d) a ->
  existsb (overlap d) a = match last a with Some k => start d <? end_ k | None => false end /\
  Forall (fun x => overlap d x = false -> before x d) a.
Proof.
  intros Hw Hs Ha. unfold wide in Hw. split.
  2: { eapply Forall_impl; [exact Ha|]. intros x Hx. unfold overlap, before. cbn in *. lia. }
  destruct a as [|k a] using rev_ind; [done|]. clear IHa. rewrite last_snoc.
  pose proof (spaced_last _ _ Hs) as Hl. rewrite Forall_forall in Hl, Ha.
  assert (Hk : k ∈ a ++ [k]) by set_solver. unfold overlap.
  destruct (Z.ltb_spec (start d) (end_ k)) as [Hlt|Hge].
  - apply existsb_exists. exists k. rewrite <- list_elem_of_In. split; [done|].
    specialize (Ha k Hk). cbn in Ha. lia.
  - apply not_true_iff_false. rewrite existsb_exists.
    intros (x & Hin%list_elem_of_In & Ho). specialize (Hl x Hin). cbn in Hl. lia.
Qed.

Lemma existsb_false_Forall {A} (p : A -> bool) l :
  existsb p l = false -> Forall (fun x => p x = false) l.
Proof.
  induction l as [|x l IH]; [constructor|]. cbn. intros [H1 H2]%orb_false_iff.
  constructor; [done|by apply IH].
Qed.

(** Looking at the two neighbours is enough. *)
Lemma keep_spec kept d :
  spaced kept -> wide d ->
  if existsb (overlap d) kept then keep kept d = kept
  else spaced (keep kept d) /\ keep kept d ≡ₚ d :: kept.
Proof.
  intros Hs Hw. unfold keep.
  destruct (partition_split (fun k => start k <? start d) kept) as (a & b & -> & Hp & Ha & Hb).
  rewrite Hp, take_app_length, drop_app_length, existsb_app, lookup_app_r, Nat.sub_diag by lia.
  destruct (spaced_app _ _ Hs) as (Hsa & Hsb & _).
  destruct (next_decides d b Hw Hsb) as [Hn Hnb]; [destruct b; [done|by apply Z.ltb_ge]|].
  destruct (prev_decides d a Hw Hsa) as [Hv Hva].
  { eapply Forall_impl; [exact Ha|]. intros x. by rewrite Z.ltb_lt. }
  replace (match length a with O => false | S j => _ end) with (existsb (overlap d) a).
  2: { rewrite Hv. destruct a as [|k a] using rev_ind; [done|].
       rewrite last_snoc, length_app, Nat.add_1_r, lookup_app_l by (rewrite length_app; cbn; lia).
       by rewrite list_lookup_middle. }
  replace (match b !! 0%nat with Some k => _ | None => false end) with (existsb (overlap d) b)
    by (rewrite Hn; by destruct b).
  destruct (existsb (overlap d) a) eqn:Ea, (existsb (overlap d) b) eqn:Eb; cbn; try done.
  split; [|by rewrite Permutation_middle].
  apply existsb_false_Forall in Ea, Eb. apply spaced_mid; [done..| |].
  - eapply Forall_impl; [apply Forall_and; split; [exact Hva|exact Ea]|]. cbn. intros x [H1 H2]. by apply H1.
  - eapply Forall_impl; [apply Forall_and; split; [exact Hnb|exact Eb]|]. cbn. intros x [H1 H2]. by apply H1.
Qed.

Lemma existsb_permutation {A} (p : A -> bool) l k : l ≡ₚ k -> existsb p l = existsb p k.
Proof. induction 1; cbn; congruence || (destruct (p x), (p y); done). Qed.

#[export] Instance greedy_permutation : Proper ((≡ₚ) ==> eq ==> (≡ₚ)) greedy.
Proof.
  intros l k H ds ? <-. revert l k H. induction ds as [|d ds IH]; intros l k H; [done|]. cbn.
  apply IH. rewrite (existsb_permutation _ _ _ H). case_match; [done|by constructor].
Qed.

Lemma fold_keep kept ds :
  spaced kept -> Forall wide ds ->
  spaced (foldl keep kept ds) /\ foldl keep kept ds ≡ₚ greedy kept ds.
Proof.
  intros Hs Hd. revert kept Hs. induction Hd as [|d ds Hw _ IH]; intros kept Hs; [done|].
  cbn. pose proof (keep_spec kept d Hs Hw) as H. destruct (existsb (overlap d) kept).
  - rewrite H. by apply IH.
  - destruct H as [H1 H2]. destruct (IH _ H1) as [H3 H4]. split; [done|]. by rewrite H4, H2.
Qed.

(** What the reference leaves out overlaps something kept before it. *)
Lemma greedy_spec kept ds :
  (forall k, k ∈ greedy kept ds -> k ∈ kept \/ k ∈ ds) /\ kept ⊆ greedy kept ds /\
  (StronglySorted detection_le ds -> forall d, d ∈ ds -> d ∈ greedy kept ds \/
    exists k, k ∈ greedy kept ds /\ overlap d k = true /\ (k ∈ kept \/ detection_le k d)).
Proof.
  revert kept. induction ds as [|d ds IH]; intros kept; [set_solver|]. cbn [greedy].
  destruct (IH (if existsb (overlap d) kept then kept else d :: kept)) as (H1 & H2 & H3).
  destruct (existsb (overlap d) kept) eqn:E; (split; [set_solver|split; [set_solver|]]);
    intros [Hs Hd]%StronglySorted_inv x [->|Hx]%elem_of_cons; auto.
  - apply existsb_exists in E as (k & Hk%list_elem_of_In & Ho). right. exists k. set_solver.
  - set_solver.
  - destruct (H3 Hs x Hx) as [|(k & Hk & Ho & [[->|Hin]%elem_of_cons|Hle])]; [by left|right..].
    + exists d. rewrite Forall_forall in Hd. repeat split; [done..|right; by apply Hd].
    + exists k. set_solver.
    + exists k. set_solver.
Qed.

Lemma mapM_all_Some {A B} (f : A -> option B) g l :
  Forall (fun x => f x = Some (g x)) l -> mapM f l = Some (map g l).
Proof. induction 1 as [|x l Hx _ IH]; [done|]. cbn. by rewrite Hx, IH. Qed.

Lemma in_join {A} (x : A) ls : In x (mjoin ls) <-> exists l, In l ls /\ In x l.
Proof.
  induction ls as [|l ls IH]; [split; [done|by intros (? & [] & _)]|].
  change (mjoin (l :: ls)) with (l ++ mjoin ls). rewrite in_app_iff, IH. cbn. naive_solver.
Qed.

#[export] Instance detection_le_total : Total detection_le.
Proof. intros a b. unfold detection_le. lia. Qed.

#[export] Instance detection_le_trans : Transitive detection_le.
Proof. intros a b c. unfold detection_le. lia. Qed.

Section detection.
Variable find_iter : Category -> string -> list (Z * Z).
(** Matches are non-empty ranges of whole characters, as the engine documents. *)
Hypothesis find_iter_ok : forall c t, Forall (placed t) (find_iter c t).

Definition detected (t : string) (d : Detection) : Prop :=
  range d ∈ find_iter (category d) t /\
  valid (category d) (bytes_between t (start d) (end_ d)) = true.

Lemma found_spec t :
  exists l, found find_iter t = Some l /\ (forall d, d ∈ l <-> detected t d).
Proof.
  unfold found. erewrite mapM_all_Some.
  2: { apply Forall_forall. intros c _.
       rewrite (mapM_all_Some _ (fun m => (valid c (bytes_between t m.1 m.2), m))); [reflexivity|].
       eapply Forall_impl; [apply find_iter_ok|]. intros m Hm. by rewrite str_slice_placed. }
  eexists. split; [reflexivity|]. intros d. rewrite list_elem_of_In, in_join.
  unfold detected, range. split.
  - intros (x & (c & <- & _)%in_map_iff & (b & <- & Hb)%in_map_iff). apply filter_In in Hb as [Hb Hv].
    apply in_map_iff in Hb as (m & <- & Hm). cbn in *. rewrite list_elem_of_In. by destruct m.
  - intros [Hm Hv]. eexists. split.
    + apply in_map_iff. exists (category d). split; [reflexivity|]. destruct (category d); cbn; auto 10.
    + apply in_map_iff. exists (true, (start d, end_ d)). cbn. split; [by destruct d|].
      apply filter_In. split; [|done]. apply in_map_iff. exists (start d, end_ d). cbn.
      rewrite Hv, <- list_elem_of_In. done.
Qed.

Lemma detected_placed t d : detected t d -> placed t (range d).
Proof.
  intros [Hm _]. pose proof (find_iter_ok (category d) t) as H. rewrite Forall_forall in H.
  by apply H.
Qed.

Lemma detected_wide t d : detected t d -> wide d.
Proof. intros [H _]%detected_placed. unfold wide. cbn in H. lia. Qed.

Lemma scan_spec t :
  exists l kept, found find_iter t = Some l /\ scan find_iter t = Some kept /\ spaced kept /\
    kept ≡ₚ greedy [] (merge_sort detection_le l) /\ (forall d, d ∈ kept -> detected t d) /\
    (forall d, detected t d -> exists k, k ∈ kept /\ (k = d \/ overlap d k = true) /\ detection_le k d).
Proof.
  destruct (found_spec t) as (l & Hl & Hd). exists l.
  assert (Hin : forall d, d ∈ merge_sort detection_le l <-> detected t d).
  { intros d. by rewrite merge_sort_Permutation. }
  destruct (fold_keep [] (merge_sort detection_le l)) as [Hs Hp].
  { by repeat constructor. }
  { apply Forall_forall. intros d ?%Hin. by eapply detected_wide. }
  eexists. split; [done|]. unfold scan. rewrite Hl. split; [reflexivity|]. split; [exact Hs|].
  split; [exact Hp|]. destruct (greedy_spec [] (merge_sort detection_le l)) as (H1 & _ & H3).
  split.
  - intros d Hk. rewrite Hp in Hk. apply Hin. destruct (H1 d Hk); [set_solver|done].
  - intros d Hk%Hin. destruct (H3 (StronglySorted_merge_sort _ _) d Hk) as [Hg|(k & Hg & Ho & [Hk'|Hk'])];
      [|set_solver|].
    + exists d. rewrite Hp. split; [done|]. split; [by left|unfold detection_le; lia].
    + exists k. rewrite Hp. auto.
Qed.
End detection.

(** ** Pieces of a text *)

Lemma substring_add n a b s :
  String.substring n (a + b) s = String.substring n a s +:+ String.substring (n + a) b s.
Proof.
  revert n a. induction s as [|x s IH]; intros n a; [by destruct n, a|].
  destruct n as [|n]; [|exact (IH n a)]. destruct a as [|a]; [done|].
  cbn. f_equal. exact (IH 0%nat a).
Qed.

Lemma bytes_between_split s i k j :
  0 <= i <= k -> k <= j -> bytes_between s i j = bytes_between s i k +:+ bytes_between s k j.
Proof.
  intros Hi Hj. unfold bytes_between.
  replace (Z.to_nat (j - i)) with (Z.to_nat (k - i) + Z.to_nat (j - k))%nat by lia.
  rewrite substring_add. do 2 f_equal. lia.
Qed.

Lemma bytes_between_full s : bytes_between s 0 (slen s) = s.
Proof. unfold bytes_between, slen. rewrite Z.sub_0_r, Nat2Z.id. apply substring_all. Qed.

(** [s'] is [s] with some of its parts replaced by the tokens that stand for them. *)
Inductive masks (own : string -> option string) : string -> string -> Prop :=
| masks_same s : masks own s s
| masks_token gap v token s s' :
    own token = Some v -> masks own s s' ->
    masks own (gap +:+ v +:+ s) (gap +:+ token +:+ s').

Lemma masks_app_same own s s' g : masks own s s' -> masks own (s +:+ g) (s' +:+ g).
Proof.
  induction 1 as [s|gap v token s s' Ho _ IH]; [constructor|].
  rewrite !app_str_assoc. by constructor.
Qed.

Lemma masks_snoc own s s' gap v token :
  masks own s s' -> own token = Some v -> masks own (s +:+ gap +:+ v) (s' +:+ gap +:+ token).
Proof.
  intros H Ho. induction H as [s|g v' t' s s' Ho' _ IH].
  - pose proof (masks_token own (s +:+ gap) v token "" "" Ho (masks_same _ _)) as H.
    by rewrite !app_str_nil_r, !app_str_assoc in H.
  - rewrite !app_str_assoc. by constructor.
Qed.

Lemma masks_mono own own' s s' :
  (forall t v, own t = Some v -> own' t = Some v) -> masks own s s' -> masks own' s s'.
Proof. intros Ho. induction 1; constructor; auto. Qed.

(** ** Tokens *)

Lemma app_str_inj_r a b c : a +:+ c = b +:+ c -> a = b.
Proof.
  intros H. assert (Hl : String.length a = String.length b).
  { apply (f_equal slen) in H. rewrite !slen_app in H. unfold slen in H. lia. }
  revert b Hl H. induction a as [|x a IH]; intros [|y b] Hl H; try done.
  injection H as -> H. f_equal. apply IH; [by injection Hl|done].
Qed.

Lemma token_text_inj c n c' n' :
  0 <= n -> 0 <= n' -> token_text c n = token_text c' n' -> c = c' /\ n = n'.
Proof.
  intros Hn Hn' E. unfold token_text in E. apply app_str_inj in E.
  rewrite <- !(app_str_assoc _ _ closing), <- !app_str_assoc in E. apply app_str_inj_r in E.
  rewrite !app_str_assoc in E. change ("_" +:+ ?x) with (String "_" x) in E.
  apply suffix_number_inj in E as [E ->]; [|done..]. split; [|done]. by destruct c, c'.
Qed.

(** ** What the map keeps *)

Record wf (m : SessionMap) : Prop := {
  wf_max : 0 <= max_values m <= u64_max;
  wf_len : len m <= max_values m;
  wf_counts : forall c, 0 <= default 0 (counts m !! c) <= len m;
  wf_token : forall t e, by_token m !! t = Some e -> exists c n,
    t = token_text c n /\ 1 <= n <= default 0 (counts m !! c) /\
    by_value m !! (c, value e) = Some t;
  wf_value : forall c v t, by_value m !! (c, v) = Some t -> exists e n,
    by_token m !! t = Some e /\ value e = v /\ t = token_text c n /\ 0 <= n
}.

(** The server [target] may receive what [token] stands for. *)
Definition owned (m : SessionMap) (target token : string) : option string :=
  match by_token m !! token with
  | Some e => if decide (target ∈ origins e) then Some (value e) else None
  | None => None
  end.

(** Later maps of a session: tokens keep their values and their servers. *)
Definition extends (m m' : SessionMap) : Prop :=
  max_values m' = max_values m /\ (overflowed m = true -> overflowed m' = true) /\
  forall t e, by_token m !! t = Some e ->
    exists e', by_token m' !! t = Some e' /\ value e' = value e /\ origins e ⊆ origins e'.

#[global] Instance extends_preorder : PreOrder extends.
Proof.
  split.
  - intros m. split; [done|]. split; [done|]. intros t e H. by exists e.
  - intros m1 m2 m3 (A1 & A2 & A3) (B1 & B2 & B3). split; [congruence|]. split; [auto|].
    intros t e (e2 & H2 & V2 & O2)%A3. destruct (B3 t e2 H2) as (e3 & H3 & V3 & O3).
    exists e3. split; [done|]. split; [congruence|set_solver].
Qed.

Lemma extends_owned m m' target t v :
  extends m m' -> owned m target t = Some v -> owned m' target t = Some v.
Proof.
  intros (_ & _ & H). unfold owned. destruct (by_token m !! t) as [e|] eqn:E; [|done].
  destruct (H t e E) as (e' & -> & -> & Ho). repeat case_decide; naive_solver.
Qed.

(** Every server of every value is one that [T] trusts with it. *)
Definition vouched (T : string -> string -> Prop) (m : SessionMap) : Prop :=
  forall t e o, by_token m !! t = Some e -> o ∈ origins e -> T o (value e).

Lemma lookup_credit token o m t :
  by_token (credit token o m) !! t =
  (if decide (t = token) then add_origin o <$> by_token m !! t else by_token m !! t).
Proof.
  unfold credit, with_tokens. cbn. case_decide as H; [by rewrite H, lookup_alter_eq|by rewrite lookup_alter_ne].
Qed.

Lemma credit_len token o m : len (credit token o m) = len m.
Proof. unfold len, credit, with_tokens. cbn. by rewrite <- !(size_dom (D := gset string)), dom_alter_L. Qed.

Lemma credit_wf token o m : wf m -> wf (credit token o m).
Proof.
  intros [H1 H2 H3 H4 H5]. split; rewrite ?credit_len; try done.
  - intros t e. rewrite lookup_credit. case_decide; [|by apply H4].
    intros (e0 & He & ->)%fmap_Some. by apply (H4 t e0).
  - intros c v t (e & n & He & Hv & Ht)%H5. rewrite lookup_credit, He.
    case_decide; [exists (add_origin o e), n|exists e, n]; done.
Qed.

Lemma credit_extends token o m : extends m (credit token o m).
Proof.
  split; [done|]. split; [done|]. intros t e He. rewrite lookup_credit, He.
  case_decide; [exists (add_origin o e)|by exists e]. cbn. set_solver.
Qed.

Lemma credit_vouched T token o m :
  vouched T m -> (forall e, by_token m !! token = Some e -> T o (value e)) ->
  vouched T (credit token o m).
Proof.
  intros Hv Ht t e o'. rewrite lookup_credit. case_decide; [|by apply Hv]. subst.
  intros (e0 & He & ->)%fmap_Some. cbn. intros [->%elem_of_singleton|Ho]%elem_of_union;
    [by apply Ht|by apply (Hv token e0)].
Qed.

Lemma token_fresh m c :
  wf m -> by_token m !! token_text c (default 0 (counts m !! c) + 1) = None.
Proof.
  intros [_ _ H3 H4 _]. destruct (_ !! _) as [e|] eqn:E; [|done].
  destruct (H4 _ _ E) as (c' & n & Et & Hn & _). pose proof (H3 c). exfalso.
  destruct (token_text_inj c (default 0 (counts m !! c) + 1) c' n); [lia..|done|]. subst. lia.
Qed.

Lemma mint_wf o c v m :
  wf m -> by_value m !! (c, v) = None -> len m < max_values m ->
  let n := default 0 (counts m !! c) + 1 in
  wf {| by_value := <[(c, v) := token_text c n]> (by_value m);
        by_token := <[token_text c n := {| value := v; origins := {[o]} |}]> (by_token m);
        counts := <[c := n]> (counts m);
        max_values := max_values m; overflowed := overflowed m |}.
Proof.
  intros Hwf Hv Hlt n. pose proof (token_fresh m c Hwf) as Hf. fold n in Hf.
  assert (Hc : forall c', default 0 (<[c:=n]> (counts m) !! c') =
    if decide (c' = c) then n else default 0 (counts m !! c')).
  { intros c'. case_decide as E; [by rewrite E, lookup_insert_eq|by rewrite lookup_insert_ne]. }
  set (m' := mk_map _ _ _ _ _). assert (Hl : len m' = len m + 1).
  { unfold len, m'. cbn [by_token]. rewrite map_size_insert_None by done. lia. }
  destruct Hwf as [H1 H2 H3 H4 H5]. pose proof (H3 c) as Hn0.
  split; rewrite ?Hl; unfold m'; cbn [by_value by_token counts max_values]; [done|lia|..].
  - intros c'. rewrite Hc. pose proof (H3 c'). case_decide; lia.
  - intros t e [[<- <-]|[Hne He]]%lookup_insert_Some.
    + exists c, n. rewrite Hc, decide_True, lookup_insert_eq by done. split; [done|]. split; [lia|done].
    + destruct (H4 t e He) as (c' & n' & -> & Hn & Hb). exists c', n'. rewrite Hc.
      split; [done|]. split; [case_decide; subst; lia|].
      rewrite lookup_insert_ne; [done|]. intros [= <- Ev]. congruence.
  - intros c' v' t [[[= <- <-] <-]|[Hne Hb]]%lookup_insert_Some.
    + eexists _, n. rewrite lookup_insert_eq. repeat split; lia.
    + destruct (H5 c' v' t Hb) as (e & n' & He & Hve & Ht & Hn). exists e, n'.
      rewrite lookup_insert_ne; [done|]. congruence.
Qed.

Lemma token_for_spec o c v m r m' :
  wf m -> token_for o c v m = (r, m') ->
  wf m' /\ extends m m' /\ (forall T, vouched T m -> T o v -> vouched T m') /\
  match r with
  | Some t => owned m' o t = Some v /\ overflowed m' = overflowed m /\ exists n, t = token_text c n
  | None => overflowed m' = true /\ len m = max_values m
  end.
Proof.
  intros Hwf. unfold token_for. destruct (by_value m !! (c, v)) as [t|] eqn:Hb.
  { intros [= <- <-]. destruct (wf_value _ Hwf _ _ _ Hb) as (e & n & He & Hv & -> & Hn).
    split; [by apply credit_wf|]. split; [apply credit_extends|]. split.
    - intros T HT Ho. apply credit_vouched; [done|]. congruence.
    - split; [|by split; [|exists n]]. unfold owned. rewrite lookup_credit, He. cbn [fmap option_fmap option_map].
      rewrite decide_True by done. cbn. rewrite decide_True by set_solver. congruence. }
  pose proof (wf_len _ Hwf) as Hl. destruct (Z.leb_spec (max_values m) (len m)) as [Hfull|Hlt]; intros [= <- <-].
  { split; [by destruct Hwf|]. split; [|split; [done|split; [done|lia]]].
    split; [done|]. split; [done|]. intros t e He. by exists e. }
  pose proof (wf_counts _ Hwf c) as Hn. pose proof (wf_max _ Hwf) as Hmax.
  rewrite wrap64_small by (unfold u64; lia). pose proof (token_fresh m c Hwf) as Hf.
  split; [by apply mint_wf|]. split; [|split].
  - split; [done|]. split; [done|]. cbn [by_token]. intros t e He. exists e.
    rewrite lookup_insert_ne; [done|]. congruence.
  - intros T HT Ho t e o'. cbn [by_token]. intros [[<- <-]|[Hne He]]%lookup_insert_Some; cbn.
    + by intros ->%elem_of_singleton.
    + exact (HT t e o' He).
  - cbn. split; [|by split; [|eexists]]. unfold owned. cbn [by_token]. rewrite lookup_insert_eq. cbn.
    by rewrite decide_True by set_solver.
Qed.

(** ** One pass over a text *)

Definition unmasked (t : string) (l : Loop) : Prop :=
  0 <= cursor l <= slen t /\ is_char_boundary t (cursor l) = true /\ wf (session l).

(** What a pass has done between two of its moments. *)
Record progress (o t : string) (ds : list Detection) (l l' : Loop) : Prop := {
  pr_unmasked : unmasked t l';
  pr_extends : extends (session l) (session l');
  pr_masks : masks (owned (session l') o) (bytes_between t 0 (cursor l')) (out l');
  pr_vouched : forall T, vouched T (session l) -> (forall v, v ∈ values_in t ds -> T o v) ->
    vouched T (session l');
  pr_hits : hits l <= hits l' <= hits l + Z.of_nat (length ds);
  pr_all : passed_through l' = false ->
    passed_through l = false /\ hits l' = hits l + Z.of_nat (length ds);
  pr_some : passed_through l' = true -> passed_through l = true \/ overflowed (session l') = true
}.

Lemma replace_one_spec o t l d :
  unmasked t l -> placed t (range d) -> cursor l <= start d ->
  masks (owned (session l) o) (bytes_between t 0 (cursor l)) (out l) ->
  exists l', replace_one o t l d = Some l' /\ progress o t [d] l l' /\ cursor l' <= end_ d.
Proof.
  intros (Hc & Hb & Hwf) Hd Hcd Hm. unfold replace_one.
  pose proof (str_slice_placed t _ Hd) as Hraw. cbn in Hraw. rewrite Hraw. cbn [mbind option_bind].
  destruct (token_for o (category d) _ (session l)) as [r m'] eqn:E.
  destruct (token_for_spec _ _ _ _ _ _ Hwf E) as (Hwf' & Hext & Hv & Hr). destruct Hd as (H1 & H2 & H3 & H4).
  cbn in H1, H2, H3, H4.
  assert (Hvouch : forall T, vouched T (session l) -> (forall v, v ∈ values_in t [d] -> T o v) -> vouched T m').
  { intros T HT Hall. apply Hv; [done|]. apply Hall. by left. }
  assert (Hm' : masks (owned m' o) (bytes_between t 0 (cursor l)) (out l)).
  { eapply masks_mono; [|exact Hm]. intros. by eapply extends_owned. }
  destruct r as [token|].
  - assert (Hgap : str_slice t (cursor l) (start d) = Some (bytes_between t (cursor l) (start d))).
    { unfold str_slice. rewrite Hb, H3. destruct (Z.leb_spec (cursor l) (start d)); [|lia].
      by destruct (Z.leb_spec (start d) (slen t)); [|lia]. }
    rewrite Hgap. cbn [mbind option_bind]. eexists. split; [reflexivity|]. cbn. split; [|lia].
    destruct Hr as (Ho & Hov & _). split; cbn; try done; [split; [cbn; lia|by split]|..].
    + rewrite (bytes_between_split t 0 (cursor l) (end_ d)),
        (bytes_between_split t (cursor l) (start d) (end_ d)) by lia. by apply masks_snoc.
    + lia.
    + by left.
  - eexists. split; [reflexivity|]. cbn. split; [|lia]. destruct Hr as [Hov _].
    split; cbn; first [done|by split|lia|by right].
Qed.

Lemma progress_trans o t d ds l1 l2 l3 :
  progress o t [d] l1 l2 -> progress o t ds l2 l3 -> progress o t (d :: ds) l1 l3.
Proof.
  intros [A1 A2 A3 A4 A5 A6 A7] [B1 B2 B3 B4 B5 B6 B7]. cbn in A5, A6. split; cbn; try done.
  - by etrans.
  - intros T HT Hall. apply B4; [apply A4|]; intros; try done; apply Hall; set_solver.
  - lia.
  - intros [Hp Hh]%B6. destruct (A6 Hp). split; [done|lia].
  - intros [Hp|]%B7; [|by right]. destruct (A7 Hp) as [|Ho]; [by left|right]. by apply B2.
Qed.

(** The turns of the loop over detections that follow the cursor in order. *)
Lemma replace_all_spec o t ds l :
  unmasked t l -> Forall (fun d => placed t (range d)) ds -> spaced ds ->
  Forall (fun d => cursor l <= start d) ds ->
  masks (owned (session l) o) (bytes_between t 0 (cursor l)) (out l) ->
  exists l', replace_all o t l ds = Some l' /\ progress o t ds l l'.
Proof.
  intros Hl Hp. revert l Hl. induction Hp as [|d ds Hd Hp IH]; intros l Hl Hs Hcur Hm.
  { exists l. split; [done|]. split; cbn; try done; [lia|..]; intros; split || left; done || lia. }
  destruct Hs as [[Hs Hbd]%StronglySorted_inv [_ Hws]%Forall_cons].
  apply Forall_cons in Hcur as [Hcd _]. cbn [replace_all].
  destruct (replace_one_spec o t l d Hl Hd Hcd Hm) as (l1 & -> & Hp1 & Hc1). cbn [mbind option_bind].
  destruct (IH l1) as (l2 & -> & Hp2).
  - apply Hp1.
  - done.
  - eapply Forall_impl; [exact Hbd|]. unfold before. intros. cbn in *. lia.
  - apply Hp1.
  - exists l2. split; [done|]. by eapply progress_trans.
Qed.

(** ** Occurrences *)

(** A pattern whose first byte it does not repeat is found first where it was put. *)
Lemma prefix_short x q g r :
  all_bytes (fun b => negb (Stdlib.Strings.Ascii.eqb b x)) q = true ->
  String.prefix q (g +:+ String x r) = true -> String.prefix q g = true.
Proof.
  revert g. induction q as [|c q IH]; intros g; [by destruct g|].
  cbn [all_bytes]. intros [Hc Hq]%andb_prop. destruct g as [|d g]; cbn.
  - destruct (Stdlib.Strings.Ascii.ascii_dec c x) as [->|]; [|done].
    by rewrite Stdlib.Strings.Ascii.eqb_refl in Hc.
  - destruct (Stdlib.Strings.Ascii.ascii_dec c d); [|done]. by apply IH.
Qed.

Lemma split_first x q g r :
  all_bytes (fun b => negb (Stdlib.Strings.Ascii.eqb b x)) q = true ->
  contains (String x q) g = false ->
  split_on_str (String x q) (g +:+ String x q +:+ r) = Some (g, r).
Proof.
  intros Hq. induction g as [|b g IH].
  - intros _. change ("" +:+ ?s) with s. change (String x q +:+ r) with (String x (q +:+ r)).
    rewrite split_on_str_cons. change (String x (q +:+ r)) with (String x q +:+ r).
    by rewrite (proj2 (strip_prefix_spec _ _ _) eq_refl).
  - rewrite contains_cons. intros [H1 H2]%orb_false_iff.
    change (String b g +:+ ?s) with (String b (g +:+ s)). rewrite split_on_str_cons, (IH H2).
    replace (strip_prefix _ _) with (@None string); [done|]. symmetry. apply strip_prefix_None.
    cbn in H1 |- *. destruct (Stdlib.Strings.Ascii.ascii_dec x b); [|done].
    apply not_true_iff_false. intros H. apply (prefix_short x q g (q +:+ r) Hq) in H. congruence.
Qed.

Lemma contains_no_first x q s :
  all_bytes (fun b => negb (Stdlib.Strings.Ascii.eqb b x)) s = true -> contains (String x q) s = false.
Proof.
  induction s as [|b s IH]; [done|]. cbn [all_bytes]. intros [Hb Hs]%andb_prop.
  rewrite contains_cons, IH by done. cbn. destruct (Stdlib.Strings.Ascii.ascii_dec x b) as [->|]; [|done].
  by rewrite Stdlib.Strings.Ascii.eqb_refl in Hb.
Qed.

Lemma prefix_longer p a b : String.prefix p a = true -> String.prefix p (a +:+ b) = true.
Proof. rewrite !prefix_spec. intros (r & ->). exists (r +:+ b). by rewrite app_str_assoc. Qed.

Lemma contains_app_false x q a b :
  contains (String x q) (a +:+ b) = false ->
  contains (String x q) a = false /\ contains (String x q) b = false.
Proof.
  induction a as [|c a IH]; [done|]. change (String c a +:+ b) with (String c (a +:+ b)).
  rewrite !contains_cons. intros [H1 H2]%orb_false_iff. destruct (IH H2) as [-> Hb]. split; [|done].
  rewrite orb_false_r. apply not_true_iff_false. intros H.
  apply (prefix_longer _ _ b) in H. change (String c a +:+ b) with (String c (a +:+ b)) in H. congruence.
Qed.

(** ** Reading tokens back *)

Lemma split_opening g r : contains opening g = false -> split_on_str opening (g +:+ opening +:+ r) = Some (g, r).
Proof. by apply split_first. Qed.

Lemma no_opening s : contains opening s = false -> split_on_str opening s = None.
Proof. apply split_on_str_None. Qed.

Lemma split_closing g r : contains closing g = false -> split_on_str closing (g +:+ closing +:+ r) = Some (g, r).
Proof. by apply split_first. Qed.

Lemma token_body_closed c n :
  0 <= n -> contains closing (opening +:+ label c +:+ "_" +:+ pretty n) = false.
Proof.
  intros Hn. assert (H : contains closing (label c +:+ "_" +:+ pretty n) = false).
  { apply contains_no_first. rewrite !all_bytes_app, !andb_true_iff. split; [by destruct c|]. split; [done|].
    pose proof (pretty_digits n Hn) as Hd. revert Hd. generalize (pretty n). clear.
    induction s as [|b s IH]; [done|]. cbn. intros [Hb Hs]%andb_prop. rewrite IH by done.
    rewrite andb_true_r. apply negb_true_iff, Stdlib.Strings.Ascii.eqb_neq. by intros ->. }
  remember (label c +:+ "_" +:+ pretty n) as rest. cbn [opening String.append].
  by rewrite !contains_cons, H.
Qed.

Lemma str_length_app a b : String.length (a +:+ b) = (String.length a + String.length b)%nat.
Proof. pose proof (slen_app a b) as H. unfold slen in H. lia. Qed.

(** A turn leaves less to read, so the fuel never decides. *)
Lemma rehydrate_loop_fuel res n n' rest :
  (String.length rest < n)%nat -> (String.length rest < n')%nat ->
  rehydrate_loop n res rest = rehydrate_loop n' res rest.
Proof.
  revert n' rest. induction n as [|n IH]; intros [|n'] rest Hn Hn'; try lia. cbn [rehydrate_loop].
  destruct (split_on_str opening rest) as [[before tail]|] eqn:E1; [|done].
  destruct (split_on_str closing (opening +:+ tail)) as [[body rest']|] eqn:E2; [|done].
  assert (Hl : (String.length rest' < String.length rest)%nat).
  { apply split_on_str_Some in E1 as ->, E2. apply (f_equal slen) in E2. rewrite !slen_app in E2.
    rewrite (eq_refl : slen opening = 3), (eq_refl : slen closing = 3) in E2.
    rewrite !str_length_app. change (String.length opening) with 3%nat. unfold slen in E2. lia. }
  by rewrite (IH n' rest') by lia.
Qed.

(** Where no token resolves, the text is as it was. *)
Lemma rehydrate_loop_unknown n rest : rehydrate_loop n (fun t => (t, ∅)) rest = mk_rehydrated rest ∅.
Proof.
  revert rest. induction n as [|n IH]; intros rest; [done|]. cbn [rehydrate_loop].
  destruct (split_on_str opening rest) as [[before tail]|] eqn:E1; [|done].
  apply split_on_str_Some in E1 as ->.
  destruct (split_on_str closing (opening +:+ tail)) as [[body rest']|] eqn:E2; [|done].
  rewrite IH. cbn [rtext refused]. apply split_on_str_Some in E2.
  by rewrite (union_idemp_L (∅ : gset string)), E2, app_str_assoc.
Qed.

Lemma empty_resolve m target t : is_empty m = true -> resolve m target t = (t, ∅).
Proof.
  unfold is_empty, len, resolve. intros H.
  assert (E : by_token m = ∅) by (apply map_size_empty_inv; lia). by rewrite E, lookup_empty.
Qed.

Lemma rehydrate_loop_ext n res res' rest :
  (forall t, res t = res' t) -> rehydrate_loop n res rest = rehydrate_loop n res' rest.
Proof.
  intros H. revert rest. induction n as [|n IH]; intros rest; [done|]. cbn [rehydrate_loop].
  destruct (split_on_str opening rest) as [[before tail]|]; [|done].
  destruct (split_on_str closing _) as [[body rest']|]; [|done]. by rewrite H, IH.
Qed.

(** The early return of [rehydrate] changes nothing. *)
Lemma rehydrate_unfold target t m n :
  (String.length t < n)%nat -> rehydrate target t m = rehydrate_loop n (resolve m target) t.
Proof.
  intros Hn. unfold rehydrate. destruct (is_empty m) eqn:Em; cbn [orb].
  { erewrite rehydrate_loop_ext by (intros; by apply empty_resolve). by rewrite rehydrate_loop_unknown. }
  destruct (contains opening t) eqn:Ec; cbn [negb].
  - apply rehydrate_loop_fuel; lia.
  - destruct n as [|n]; [lia|]. cbn [rehydrate_loop]. by rewrite no_opening.
Qed.

Lemma rehydrate_masks res own n s s' :
  masks own s s' -> contains opening s = false -> (String.length s' < n)%nat ->
  (forall t v, own t = Some v -> res t = (v, ∅) /\ exists c k, t = token_text c k /\ 0 <= k) ->
  rehydrate_loop n res s' = mk_rehydrated s ∅.
Proof.
  intros Hm. revert n. induction Hm as [s|gap v t s s' Ho Hm IH]; intros n Hs Hn Hres.
  { destruct n as [|n]; [done|]. cbn [rehydrate_loop]. by rewrite no_opening. }
  destruct (Hres t v Ho) as (Hr & c & k & -> & Hk).
  apply contains_app_false in Hs as [Hgap Hs]. apply contains_app_false in Hs as [_ Hs].
  unfold token_text in *. destruct n as [|n]; [lia|]. cbn [rehydrate_loop].
  rewrite !app_str_assoc, (split_opening gap) by exact Hgap.
  replace (opening +:+ label c +:+ "_" +:+ pretty k +:+ closing +:+ s')
    with ((opening +:+ label c +:+ "_" +:+ pretty k) +:+ closing +:+ s') by (by rewrite !app_str_assoc).
  rewrite split_closing by (by apply token_body_closed).
  rewrite !app_str_assoc, Hr, IH by (done || (rewrite !str_length_app in Hn; cbn in Hn; lia)).
  cbn. by rewrite (union_idemp_L (∅ : gset string)).
Qed.

(** Tokens that [target] has resolve for it, in this map and in every later one. *)
Lemma rehydrate_owned m m' target s s' :
  wf m -> extends m m' -> masks (owned m target) s s' -> contains opening s = false ->
  rehydrate target s' m' = mk_rehydrated s ∅.
Proof.
  intros Hwf Hext Hm Hs. rewrite (rehydrate_unfold _ _ _ (S (String.length s'))) by lia.
  apply (rehydrate_masks _ (owned m target)); [done..|lia|]. intros t v Ho. split.
  - apply (extends_owned _ _ _ _ _ Hext) in Ho. unfold owned, resolve in *.
    destruct (by_token m' !! t) as [e|]; [|done]. case_decide; [|done]. by injection Ho as ->.
  - unfold owned in Ho. destruct (by_token m !! t) as [e|] eqn:E; [|done].
    destruct (wf_token _ Hwf _ _ E) as (c & n & -> & Hn & _). exists c, n. split; [done|lia].
Qed.

(** ** Truncation *)

Lemma floor_boundary_spec n s :
  (floor_boundary n s <= n)%nat /\ is_char_boundary s (Z.of_nat (floor_boundary n s)) = true.
Proof.
  induction n as [|n IH]; [done|]. cbn [floor_boundary].
  destruct (is_char_boundary s (Z.of_nat (S n))) eqn:E; [done|]. destruct IH. split; [lia|done].
Qed.

Lemma end_boundary s : is_char_boundary s (slen s) = true.
Proof.
  pose proof (app_boundary s "" (or_intror eq_refl)) as H. by rewrite app_str_nil_r in H.
Qed.

Lemma bytes_between_length s i j : 0 <= i <= j -> j <= slen s -> slen (bytes_between s i j) = j - i.
Proof.
  intros Hi Hj. pose proof (bytes_between_full s) as Hf.
  assert (Hlen : forall n m t, (n + m <= String.length t)%nat -> String.length (String.substring n m t) = m).
  { clear. intros n m t. revert n m. induction t as [|b t IH]; intros n m H; cbn in *.
    - by destruct n, m; cbn in *; lia.
    - destruct n as [|n]; [destruct m as [|m]; [done|]|]; cbn.
      + f_equal. apply (IH 0%nat). lia.
      + apply IH. lia. }
  unfold bytes_between, slen in *. rewrite Hlen; lia.
Qed.

Lemma str_slice_from s i :
  0 <= i <= slen s -> is_char_boundary s i = true ->
  str_slice s i (slen s) = Some (bytes_between s i (slen s)).
Proof.
  intros Hi Hb. unfold str_slice. rewrite Hb, end_boundary, Z.leb_refl.
  by destruct (Z.leb_spec i (slen s)); [|lia].
Qed.

Lemma truncate_spec t max :
  0 <= max ->
  exists s, truncate_on_char_boundary t max = Some s /\ s = bytes_between t 0 (slen s) /\
    slen s <= slen t /\ slen s <= max /\ is_char_boundary t (slen s) = true /\
    (slen s <? slen t) = negb (slen t <=? max) /\ (slen t <= max -> s = t).
Proof.
  intros Hmax. unfold truncate_on_char_boundary. destruct (Z.leb_spec (slen t) max) as [Hle|Hgt].
  - exists t. rewrite bytes_between_full, end_boundary. repeat split; try done || lia.
  - destruct (floor_boundary_spec (Z.to_nat max) t) as [H1 H2]. set (n := floor_boundary _ _) in *.
    exists (bytes_between t 0 (Z.of_nat n)).
    rewrite bytes_between_length by lia. rewrite Z.sub_0_r. split.
    + unfold str_slice. rewrite H2. destruct (Z.leb_spec 0 (Z.of_nat n)); [|lia].
      destruct (Z.leb_spec (Z.of_nat n) (slen t)); [done|lia].
    + repeat split; try done || lia.
Qed.

(** ** The contract of a pass *)
Section pass.
Variable find_iter : Category -> string -> list (Z * Z).
Hypothesis find_iter_ok : forall c t, Forall (placed t) (find_iter c t).

(** The values a pass over [t] finds. *)
Definition values_of (t : string) : list string :=
  match truncate_on_char_boundary t MAX_SCAN_BYTES with
  | Some s => match scan find_iter s with Some ds => values_in s ds | None => [] end
  | None => []
  end.

Record pass_ok (o t : string) (m : SessionMap) (p : Pseudonymized) (m' : SessionMap) : Prop := {
  ps_wf : wf m';
  ps_extends : extends m m';
  ps_masks : masks (owned m' o) t (text p);
  ps_vouched : forall T, vouched T m -> (forall v, v ∈ values_of t -> T o v) -> vouched T m';
  ps_complete : complete p = true ->
    slen t <= MAX_SCAN_BYTES /\ replaced p = Z.of_nat (length (values_of t));
  ps_incomplete : complete p = false -> MAX_SCAN_BYTES < slen t \/ overflowed m' = true
}.

Lemma pseudonymize_spec o t m :
  wf m -> exists p m', pseudonymize find_iter o t m = Some (p, m') /\ pass_ok o t m p m'.
Proof.
  intros Hwf. unfold pseudonymize.
  destruct (truncate_spec t MAX_SCAN_BYTES) as (s & Ht & Hs & Hle & _ & Hb & Htr & Hall); [done|].
  destruct (scan_spec find_iter find_iter_ok s) as (cands & ds & _ & Hscan & Hsp & _ & Hdet & _).
  assert (Hv : values_of t = values_in s ds) by (unfold values_of; by rewrite Ht, Hscan).
  rewrite Ht. cbn [mbind option_bind]. rewrite Hscan. cbn [mbind option_bind].
  pose proof (slen_nonneg s) as Hnn. set (l0 := mk_loop _ _ _ _ _).
  destruct (replace_all_spec o s ds l0) as (l & Hr & Hl).
  { split; [cbn; lia|by split]. }
  { apply Forall_forall. intros d Hd%Hdet. by eapply detected_placed. }
  { done. }
  { apply Forall_forall. intros d Hd%Hdet. apply (detected_placed _ find_iter_ok) in Hd. apply Hd. }
  { unfold l0, bytes_between. cbn. rewrite (eq_refl : Z.to_nat (0 - 0) = 0%nat). destruct s; constructor. }
  rewrite Hr. cbn [mbind option_bind]. destruct Hl as [(Hc & Hcb & Hwf') Hext Hm Hvo _ Hyes Hno].
  rewrite Htr. set (rest := if negb (slen t <=? MAX_SCAN_BYTES) then str_slice t (slen s) (slen t) else Some "").
  assert (Hrest : exists r, rest = Some r /\ s +:+ r = t).
  { unfold rest. destruct (Z.leb_spec (slen t) MAX_SCAN_BYTES); cbn [negb].
    - exists "". rewrite app_str_nil_r. split; [done|by apply Hall].
    - exists (bytes_between t (slen s) (slen t)). split; [by apply str_slice_from|].
      rewrite Hs at 1. rewrite <- bytes_between_split by lia. apply bytes_between_full. }
  destruct Hrest as (r & Er & Est).
  rewrite str_slice_from by done. cbn [mbind option_bind]. rewrite Er. cbn [mbind option_bind].
  eexists _, _. split; [reflexivity|]. split; try done; cbn [text complete replaced].
  - rewrite <- Est. apply (masks_app_same _ _ _ (bytes_between s (cursor l) (slen s) +:+ r)) in Hm.
    by rewrite <- app_str_assoc, <- bytes_between_split, bytes_between_full in Hm by lia.
  - intros T HT Hvals. apply Hvo; [done|]. by rewrite <- Hv.
  - intros [Hp Hn]%andb_prop. apply negb_true_iff in Hp. destruct (Hyes Hp) as [_ Hh].
    rewrite negb_involutive in Hn. split; [lia|]. rewrite Hh, Hv. unfold values_in. by rewrite length_map.
  - intros [Hp|Hn]%andb_false_iff.
    + apply negb_false_iff in Hp. right. by destruct (Hno Hp).
    + left. rewrite negb_involutive in Hn. lia.
Qed.
End pass.

(** ** Walks over JSON *)

(** Every string of a value: the texts and the keys. *)
Fixpoint strings_of (v : json) : list string :=
  match v with
  | JString s => [s]
  | JArray l => mjoin (map strings_of l)
  | JObject o => map fst o ++ mjoin (map (fun kv => strings_of kv.2) o)
  | _ => []
  end.

Section keeps.
Context {S : Type}.
Implicit Types I : S -> Prop.

(** [c] runs without a panic from [I] to [J]. *)
Definition runs {A} I (c : St S A) (J : A -> S -> Prop) : Prop :=
  forall s, I s -> exists x s', c s = Some (x, s') /\ J x s'.

Definition keeps {A} I (c : St S A) : Prop := runs I c (fun _ => I).

Lemma runs_bind {A B} I J K (c : St S A) (f : A -> St S B) :
  runs I c J -> (forall x, runs (J x) (f x) K) -> runs I (c ≫= f) K.
Proof.
  intros Hc Hf s Hs. destruct (Hc s Hs) as (x & s1 & E & H1). destruct (Hf x s1 H1) as (y & s2 & E2 & H2).
  exists y, s2. split; [|done]. unfold mbind, St_bind. rewrite E. exact E2.
Qed.

Lemma keeps_ret {A} I (x : A) : keeps I (mret x).
Proof. intros s Hs. by exists x, s. Qed.

Lemma keeps_then {A B} I (c : St S A) (f : A -> B) : keeps I c -> keeps I (x ← c; mret (f x)).
Proof. intros H. eapply runs_bind; [exact H|]. intros x. apply keeps_ret. Qed.

Lemma keeps_mapM {A B} I (f : A -> St S B) l : Forall (fun x => keeps I (f x)) l -> keeps I (mapM f l).
Proof.
  induction 1 as [|x l Hx _ IH]; [apply keeps_ret|]. eapply runs_bind; [exact Hx|].
  intros y. by apply keeps_then.
Qed.
End keeps.

(** Renaming keys makes up no value. *)
Lemma obj_insert_incl {V} k (v : V) o kv : kv ∈ obj_insert k v o -> kv.2 = v \/ kv ∈ o.
Proof.
  induction o as [|[k' v'] o IH]; cbn; [set_solver|].
  destruct (String.compare k k'); set_solver.
Qed.

Lemma obj_get_elem {V} k (o : list (string * V)) v : obj_get k o = Some v -> (k, v) ∈ o.
Proof.
  induction o as [|[j w] o IH]; [done|]. cbn. destruct (String.eqb_spec k j) as [->|]; [|set_solver].
  intros [= ->]. set_solver.
Qed.

Lemma rename_incl {V} rs (o : list (string * V)) kv :
  kv ∈ rename_keys rs o -> exists k, (k, kv.2) ∈ o.
Proof.
  revert o. induction rs as [|[old new] rs IH]; intros o; cbn [rename_keys].
  { intros H. exists kv.1. by destruct kv. }
  case_match; [apply IH|]. destruct (obj_get old o) as [v|] eqn:E; [|apply IH].
  intros [k Hk]%IH. apply obj_insert_incl in Hk as [Hv|Hk]; cbn in *.
  - subst. exists old. by apply obj_get_elem.
  - exists k. unfold obj_remove in Hk. apply list_elem_of_In, filter_In in Hk as [Hk _]. by apply list_elem_of_In.
Qed.

Lemma elem_of_mjoin {A} (x : A) (ls : list (list A)) l : l ∈ ls -> x ∈ l -> x ∈ mjoin ls.
Proof. rewrite !list_elem_of_In, in_join. eauto. Qed.

Section visits.
Context {S : Type} (f : string -> St S string) (I : S -> Prop).
Definition visited (v : json) : Prop := forall s, s ∈ strings_of v -> keeps I (f s).

Lemma keeps_renames keys : Forall (fun k => keeps I (f k)) keys -> keeps I (renames f keys).
Proof. intros H. by apply keeps_then, keeps_mapM. Qed.

Lemma visited_field o k v : visited (JObject o) -> (k, v) ∈ o -> visited v.
Proof.
  intros H Hin s Hs. apply H. cbn. apply elem_of_app. right. eapply elem_of_mjoin; [|exact Hs].
  apply list_elem_of_In, in_map_iff. exists (k, v). by rewrite <- list_elem_of_In.
Qed.

Lemma visited_elem l v : visited (JArray l) -> v ∈ l -> visited v.
Proof.
  intros H Hin s Hs. apply H. cbn. eapply elem_of_mjoin; [|exact Hs].
  apply list_elem_of_In, in_map_iff. exists v. by rewrite <- list_elem_of_In.
Qed.

Lemma keeps_walk v : visited v -> keeps I (walk_strings f v).
Proof.
  induction v as [|b|n|s|l IH|o IH] using json_rec_strong; intros Hv; try apply keeps_ret.
  - cbn. apply keeps_then, Hv. by left.
  - apply keeps_then, keeps_mapM. rewrite Forall_forall in IH |- *. intros x Hx.
    apply IH; [done|]. by eapply visited_elem.
  - cbn [walk_strings]. eapply runs_bind.
    { apply keeps_renames, Forall_forall. intros k Hk. apply Hv. cbn. set_solver. }
    intros rs. apply keeps_then, keeps_mapM, Forall_forall. intros kw [k Hk]%rename_incl.
    apply keeps_then. apply list_elem_of_In, in_map_iff in Hk as ([k' w] & [= -> Ew] & Hin).
    apply list_elem_of_In in Hin. rewrite <- Ew. rewrite Forall_forall in IH. apply (IH (k, w)); [done|].
    by eapply visited_field.
Qed.

(** A field that is visited; the others stay as they are. *)
Lemma runs_field k g o o0 :
  (forall v, visited v -> keeps I (g v)) -> visited (JObject o0) -> obj_get k o = obj_get k o0 ->
  runs I (on_field k g o) (fun o' s => I s /\ forall k', k <> k' -> obj_get k' o' = obj_get k' o).
Proof.
  intros Hg Ho E. unfold on_field. destruct (obj_get k o) as [v|] eqn:Ek.
  - eapply runs_bind; [apply Hg; eapply visited_field; [exact Ho|]; by apply obj_get_elem|].
    intros v' s Hs. eexists _, s. split; [reflexivity|]. split; [done|]. intros. by apply obj_get_update_ne.
  - intros s Hs. by exists o, s.
Qed.

Lemma keeps_field k g o o0 :
  (forall v, visited v -> keeps I (g v)) -> visited (JObject o0) -> obj_get k o = obj_get k o0 ->
  keeps I (on_field k g o).
Proof.
  intros Hg Ho Ek s Hs. destruct (runs_field k g o o0 Hg Ho Ek s Hs) as (o' & s' & E & H & _). eauto.
Qed.

Lemma keeps_text v : visited v -> keeps I (on_text f v).
Proof.
  intros Hv. destruct v; cbn; try apply keeps_ret. apply keeps_then, Hv. by left.
Qed.

Lemma keeps_item v : visited v -> keeps I (on_item f v).
Proof.
  intros Hv. destruct v as [| | | | |o]; cbn; try apply keeps_ret. apply keeps_then.
  destruct (obj_get "content" o); eapply keeps_field; try done; try exact keeps_text.
  intros c Hc. destruct c; try (by apply keeps_text). apply keeps_then. by eapply keeps_field; [exact keeps_text| |].
Qed.

Lemma keeps_items v : visited v -> keeps I (on_items f v).
Proof.
  intros Hv. destruct v as [| | | |l|]; cbn; try apply keeps_ret.
  apply keeps_then, keeps_mapM, Forall_forall. intros x Hx. apply keeps_item. by eapply visited_elem.
Qed.
Lemma keeps_result v : visited v -> keeps I (for_each_result_text f v).
Proof.
  intros Hv. destruct v as [| | | | |o0]; cbn; try apply keeps_ret.
  eapply runs_bind; [by apply (runs_field "structuredContent" _ o0 o0); [apply keeps_walk| |]|]. intros o1 s [Hs E1].
  revert s Hs. eapply runs_bind; [apply (runs_field "content" _ o1 o0); [apply keeps_items|done|by apply E1]|].
  intros o2 s [Hs E2]. revert s Hs.
  eapply runs_bind; [apply (runs_field "contents" _ o2 o0); [apply keeps_items|done|]|].
  { rewrite E2 by done. by apply E1. }
  intros o3 s [Hs E3]. revert s Hs. apply keeps_then, (keeps_field "messages" _ o3 o0); [apply keeps_items|done|].
  rewrite E3, E2 by done. by apply E1.
Qed.
End visits.

(** ** What a rewrite leaves *)

Section yields.
Context {S : Type} (I : S -> Prop).

(** [c] runs without a panic, keeps [I] and returns a value of [Q]. *)
Definition yields {A} (c : St S A) (Q : A -> Prop) : Prop := runs I c (fun x s => I s /\ Q x).

Lemma yields_ret {A} (x : A) (Q : A -> Prop) : Q x -> yields (mret x) Q.
Proof. intros Hx s Hs. by exists x, s. Qed.

Lemma yields_bind {A B} (c : St S A) (f : A -> St S B) P Q :
  yields c P -> (forall x, P x -> yields (f x) Q) -> yields (c ≫= f) Q.
Proof.
  intros Hc Hf s Hs. destruct (Hc s Hs) as (x & s1 & E & H1 & Hx).
  destruct (Hf x Hx s1 H1) as (y & s2 & E2 & H2). exists y, s2. split; [|done].
  unfold mbind, St_bind. rewrite E. exact E2.
Qed.

Lemma yields_then {A B} (c : St S A) (g : A -> B) P (Q : B -> Prop) :
  yields c P -> (forall x, P x -> Q (g x)) -> yields (x ← c; mret (g x)) Q.
Proof. intros H Hg. eapply yields_bind; [exact H|]. intros x Hx. by apply yields_ret, Hg. Qed.

Lemma yields_mapM {A B} (f : A -> St S B) Q l :
  Forall (fun x => yields (f x) Q) l -> yields (mapM f l) (Forall Q).
Proof.
  induction 1 as [|x l Hx _ IH]; [by apply yields_ret|]. eapply yields_bind; [exact Hx|].
  intros y Hy. eapply yields_then; [exact IH|]. by constructor.
Qed.
End yields.

Lemma strings_of_object (P : string -> Prop) o :
  Forall P (strings_of (JObject o)) <-> Forall (fun kv => P kv.1 /\ Forall P (strings_of kv.2)) o.
Proof.
  cbn. rewrite Forall_app. induction o as [|[k v] o IH]; [by split; [constructor|split; constructor]|].
  cbn. change (mjoin (?x :: ?l)) with (x ++ mjoin l). rewrite !Forall_cons, Forall_app, <- IH. cbn. tauto.
Qed.

Lemma strings_of_array (P : string -> Prop) l :
  Forall P (strings_of (JArray l)) <-> Forall (fun v => Forall P (strings_of v)) l.
Proof.
  cbn. induction l as [|v l IH]; [by split; constructor|]. cbn.
  change (mjoin (?x :: ?l)) with (x ++ mjoin l). by rewrite Forall_app, Forall_cons, IH.
Qed.

Lemma insert_Forall {V} (P : string * V -> Prop) k v o : Forall P o -> P (k, v) -> Forall P (obj_insert k v o).
Proof.
  intros H Hk. induction H as [|[k' v'] o Hx H IH]; cbn; [by repeat constructor|].
  destruct (String.compare k k'); repeat constructor; auto.
Qed.

Lemma remove_Forall {V} (P : string * V -> Prop) k o : Forall P o -> Forall P (obj_remove k o).
Proof.
  intros H. unfold obj_remove. induction H as [|kv o Hx H IH]; cbn; [constructor|].
  case_match; [by constructor|done].
Qed.

Lemma update_Forall (P : string * json -> Prop) k v o :
  Forall P o -> P (k, v) -> Forall P (obj_update k (fun _ => v) o).
Proof.
  intros H Hk. induction H as [|[k' v'] o Hx H IH]; cbn; [constructor|].
  destruct (String.eqb_spec k k') as [->|]; constructor; auto.
Qed.

Lemma rename_Forall {V} (P : string -> Prop) (Q : V -> Prop) rs o :
  Forall (fun r => P r.2) rs -> Forall (fun kv => P kv.1 /\ Q kv.2) o ->
  Forall (fun kv => P kv.1 /\ Q kv.2) (rename_keys rs o).
Proof.
  intros Hr. revert o. induction Hr as [|[old new] rs Hn _ IH]; intros o Ho; cbn [rename_keys]; [done|].
  case_match; [by apply IH|]. destruct (obj_get old o) as [v|] eqn:E; [|by apply IH].
  apply IH, insert_Forall; [by apply remove_Forall|]. split; [exact Hn|].
  apply obj_get_elem in E. rewrite Forall_forall in Ho. apply (Ho _ E).
Qed.

Section rewrites.
Context {S : Type} (f : string -> St S string) (I : S -> Prop) (P : string -> Prop).
Hypothesis f_yields : forall t, P t -> yields I (f t) P.

Definition all (v : json) : Prop := Forall P (strings_of v).

Lemma yields_renames keys : Forall P keys -> yields I (renames f keys) (Forall (fun r => P r.2)).
Proof.
  intros H. eapply yields_then.
  - apply (yields_mapM I f P). eapply Forall_impl; [exact H|]. exact f_yields.
  - intros ks Hks. apply Forall_forall. intros kc [Hin _]%list_elem_of_In%filter_In.
    destruct kc as [k c]. apply in_combine_r, list_elem_of_In in Hin.
    rewrite Forall_forall in Hks. by apply Hks.
Qed.

Lemma yields_walk v : all v -> yields I (walk_strings f v) all.
Proof.
  induction v as [|b|n|s|l IH|o IH] using json_rec_strong; intros Hv; try (by apply yields_ret).
  - apply Forall_cons in Hv as [Hv _]. eapply yields_then; [by apply f_yields|]. by repeat constructor.
  - eapply yields_then; [|intros l' Hl; by apply strings_of_array].
    apply yields_mapM. apply strings_of_array in Hv. rewrite Forall_forall in IH, Hv |- *. intros x Hx. by apply IH, Hv.
  - apply strings_of_object in Hv. cbn [walk_strings]. eapply yields_bind.
    { apply yields_renames, Forall_map. eapply Forall_impl; [exact Hv|]. by intros ? []. }
    intros rs Hrs. eapply yields_then; [|intros o' Ho; by apply strings_of_object]. apply yields_mapM.
    apply (Forall_impl (fun kw : string * St S json => P kw.1 /\ yields I kw.2 all)).
    + apply (rename_Forall P (fun w => yields I w all)); [done|]. apply Forall_map.
      rewrite Forall_forall in IH, Hv |- *. intros kv Hkv. cbn.
      destruct (Hv kv Hkv) as [H1 H2]. split; [done|]. by apply IH.
    + intros [k w] [H1 H2]. eapply yields_then; [exact H2|]. done.
Qed.

Lemma yields_field k g o :
  (forall v, all v -> yields I (g v) all) -> all (JObject o) ->
  yields I (on_field k g o) (fun o' => all (JObject o')).
Proof.
  intros Hg Ho. unfold on_field. destruct (obj_get k o) as [v|] eqn:Ek; [|by apply yields_ret].
  assert (Hkv : P k /\ all v).
  { apply obj_get_elem in Ek. apply strings_of_object in Ho. rewrite Forall_forall in Ho. apply (Ho _ Ek). }
  eapply yields_then; [apply Hg, Hkv|]. intros v' Hv'. apply strings_of_object, update_Forall.
  - exact (proj1 (strings_of_object P o) Ho).
  - split; [apply Hkv|exact Hv'].
Qed.

Lemma yields_text v : all v -> yields I (on_text f v) all.
Proof.
  intros Hv. destruct v; cbn; try (by apply yields_ret). apply Forall_cons in Hv as [Hv _].
  eapply yields_then; [by apply f_yields|]. by repeat constructor.
Qed.

Lemma yields_item v : all v -> yields I (on_item f v) all.
Proof.
  intros Hv. destruct v as [| | | | |o]; cbn; try (by apply yields_ret).
  eapply yields_then; [|intros o' Ho; exact Ho].
  destruct (obj_get "content" o); apply yields_field; try done; try exact yields_text.
  intros c Hc. destruct c; try (by apply yields_text).
  eapply yields_then; [by apply yields_field; [exact yields_text|]|]. done.
Qed.

Lemma yields_items v : all v -> yields I (on_items f v) all.
Proof.
  intros Hv. destruct v as [| | | |l|]; cbn; try (by apply yields_ret).
  eapply yields_then; [|intros l' Hl; by apply strings_of_array].
  apply yields_mapM. apply strings_of_array in Hv. eapply Forall_impl; [exact Hv|]. exact yields_item.
Qed.

(** When [f] keeps [P], so does the walk over a result: of every text and every key. *)
Lemma yields_result v : all v -> yields I (for_each_result_text f v) all.
Proof.
  intros Hv. destruct v as [| | | | |o]; cbn; try (by apply yields_ret).
  eapply yields_bind; [by apply yields_field; [exact yields_walk|]|]. intros o1 H1.
  eapply yields_bind; [by apply yields_field; [exact yields_items|]|]. intros o2 H2.
  eapply yields_bind; [by apply yields_field; [exact yields_items|]|]. intros o3 H3.
  eapply yields_then; [by apply yields_field; [exact yields_items|]|]. done.
Qed.
End rewrites.

(** ** Results and arguments *)

Lemma pseudonymize_result_spec find_iter o result m :
  (forall c t, Forall (placed t) (find_iter c t)) -> wf m ->
  exists r n c m', pseudonymize_result find_iter o result m = Some (r, (n, c), m') /\
    wf m' /\ extends m m' /\
    (forall T, vouched T m ->
       (forall t v, t ∈ strings_of result -> v ∈ values_of find_iter t -> T o v) -> vouched T m').
Proof.
  intros Hf Hwf. unfold pseudonymize_result. set (f := fun (t : string) s => _).
  set (I := fun s : Z * bool * SessionMap => wf s.2 /\ extends m s.2 /\
    forall T, vouched T m ->
      (forall t v, t ∈ strings_of result -> v ∈ values_of find_iter t -> T o v) -> vouched T s.2).
  destruct (keeps_result f I result) with (s := (0, true, m)) as (r & [[n c] m'] & E & H1 & H2 & H3).
  - intros t Ht [[n c] m1] (H1 & H2 & H3). unfold f. cbn in H1.
    destruct (pseudonymize_spec find_iter Hf o t m1 H1) as (p & m2 & -> & Hp). cbn.
    eexists _, _. split; [reflexivity|]. split; [apply Hp|]. cbn. split.
    + etrans; [exact H2|apply Hp].
    + intros T HT Hv. apply (ps_vouched _ _ _ _ _ _ Hp); [by apply H3|]. intros v. by apply Hv.
  - split; [done|]. by split.
  - rewrite E. cbn. by exists r, n, c, m'.
Qed.

(** A token starts a character, so masking a valid text leaves a valid one. *)
Lemma masks_start m o t t' :
  wf m -> masks (owned m o) t t' -> starts_cont t = false -> starts_cont t' = false.
Proof.
  intros Hwf. destruct 1 as [s|gap v token s s' Ho _]; [done|].
  destruct gap as [|b gap]; [|done]. intros _. unfold owned in Ho.
  destruct (by_token m !! token) as [e|] eqn:E; [|done].
  destruct (wf_token _ Hwf _ _ E) as (c & n & -> & _). reflexivity.
Qed.

Lemma result_object {S} (f : string -> St S string) v s v' s' :
  for_each_result_text f v s = Some (v', s') -> is_object v' = is_object v.
Proof.
  destruct v as [| | | | |o]; cbn; try (by intros [= <- _]).
  unfold mbind at 1, St_bind at 1. unfold mbind at 1, option_bind.
  destruct (on_field _ _ o s) as [[o1 s1]|]; [|done].
  unfold mbind at 1, St_bind at 1. unfold mbind at 1, option_bind.
  destruct (on_field _ _ o1 s1) as [[o2 s2]|]; [|done].
  unfold mbind at 1, St_bind at 1. unfold mbind at 1, option_bind.
  destruct (on_field _ _ o2 s2) as [[o3 s3]|]; [|done].
  unfold mbind at 1, St_bind at 1. unfold mbind at 1, option_bind.
  destruct (on_field _ _ o3 s3) as [[o4 s4]|]; [|done]. by intros [= <- _].
Qed.

(** What the pass returns is text whenever what it was given is. *)
Lemma pseudonymize_result_valid find_iter o result m r n c m' :
  (forall c t, Forall (placed t) (find_iter c t)) -> wf m ->
  pseudonymize_result find_iter o result m = Some (r, (n, c), m') ->
  is_object r = is_object result /\
  (Forall (fun s => starts_cont s = false) (strings_of result) -> Forall (fun s => starts_cont s = false) (strings_of r)).
Proof.
  intros Hf Hwf. unfold pseudonymize_result. set (f := fun (t : string) s => _). intros E0. split.
  { destruct (for_each_result_text f result (0, true, m)) as [[r' [[n' c'] m2]]|] eqn:E; [|done].
    cbn in E0. injection E0 as <- _ _ _. by eapply result_object. }
  intros Hv. revert E0. destruct (yields_result f (fun s => wf s.2) (fun s => starts_cont s = false)) with (v := result) (s := (0, true, m))
    as (r' & [[n' c'] m2] & E & _ & H); [|done|done|].
  - intros t Ht [[n1 c1] m1] H1. unfold f. cbn in H1.
    destruct (pseudonymize_spec find_iter Hf o t m1 H1) as (p & m2 & -> & Hp). cbn.
    eexists _, _. split; [reflexivity|]. split; [apply Hp|].
    exact (masks_start _ _ _ _ (ps_wf _ _ _ _ _ _ Hp) (ps_masks _ _ _ _ _ _ Hp) Ht).
  - rewrite E. cbn. intros [= <- _ _ _]. exact H.
Qed.

Lemma rehydrate_args_total target args m :
  exists r, rehydrate_args target args m = Some r.
Proof.
  unfold rehydrate_args. destruct (is_empty m); [by eexists|].
  destruct (keeps_walk (rehydrate_string target m) (fun _ => True) args) with (s := ∅ : gset string)
    as (r & refs & E & _); [|done|by eexists].
  intros s _ refs _. unfold rehydrate_string. case_match; by eexists _, _.
Qed.

(** The map without the values [target] does not have. *)
Definition censor (target : string) (m : SessionMap) : SessionMap :=
  with_tokens ((fun e => if decide (target ∈ origins e) then e
                         else {| value := ""; origins := origins e |}) <$> by_token m) m.

Lemma censor_is_empty target m : is_empty (censor target m) = is_empty m.
Proof. unfold is_empty, len, censor, with_tokens. cbn. by rewrite map_size_fmap. Qed.

Lemma resolve_censor target t m : resolve (censor target m) target t = resolve m target t.
Proof.
  unfold resolve, censor, with_tokens. cbn. rewrite lookup_fmap.
  destruct (by_token m !! t) as [e|]; [|done]. cbn.
  destruct (decide (target ∈ origins e)) as [H|H]; [by rewrite decide_True|by rewrite decide_False].
Qed.

Lemma rehydrate_censor target t m : rehydrate target t (censor target m) = rehydrate target t m.
Proof.
  rewrite !(rehydrate_unfold _ _ _ (S (String.length t))) by lia.
  apply rehydrate_loop_ext. intros. apply resolve_censor.
Qed.

(** What is sent depends on the values [target] has, and on no other. *)
Lemma rehydrate_args_censor target args m :
  rehydrate_args target args (censor target m) = rehydrate_args target args m.
Proof.
  unfold rehydrate_args. rewrite censor_is_empty. case_match; [done|].
  assert (E : rehydrate_string target (censor target m) = rehydrate_string target m).
  { apply functional_extensionality. intros s. apply functional_extensionality. intros refs.
    unfold rehydrate_string. by rewrite rehydrate_censor. }
  by rewrite E.
Qed.

(** The values [target] has, for every use of the map on its behalf. *)
Lemma censor_vouched T target m t e :
  vouched T m -> by_token (censor target m) !! t = Some e -> value e = "" \/ T target (value e).
Proof.
  intros HT. unfold censor, with_tokens. cbn. rewrite lookup_fmap.
  intros (e0 & H & ->)%fmap_Some. case_decide as Hd; [right; exact (HT t e0 target H Hd)|by left].
Qed.

Lemma approve_origin_spec token target m b m' :
  wf m -> approve_origin token target m = (b, m') ->
  wf m' /\ extends m m' /\
  (forall T, vouched T m -> (forall e, by_token m !! token = Some e -> T target (value e)) -> vouched T m').
Proof.
  intros Hwf. unfold approve_origin. destruct (by_token m !! token) as [e|] eqn:E; intros [= <- <-].
  - split; [by apply credit_wf|]. split; [apply credit_extends|]. intros T HT Ht. apply credit_vouched; [done|]. intros e' He'. apply Ht. congruence.
  - done.
Qed.

(** ** Properties *)

(** Overlapping matches are resolved as the quadratic reference would: the detections
    that are kept lie apart and in order, each is a match of a detector, they are those
    of the reference, and whatever is left out overlaps one that is no shorter. *)
Theorem scan_resolves_overlaps find_iter t :
  (forall c t, Forall (placed t) (find_iter c t)) ->
  exists cands kept, found find_iter t = Some cands /\ scan find_iter t = Some kept /\
    spaced kept /\ kept ≡ₚ greedy [] (merge_sort detection_le cands) /\
    (forall d, d ∈ kept -> detected find_iter t d) /\
    (forall d, detected find_iter t d ->
       exists k, k ∈ kept /\ (k = d \/ overlap d k = true) /\ detection_le k d).
Proof. intros H. by apply scan_spec. Qed.


(** ** Concrete detectors *)

Fixpoint occurrences (lit : string) (i : Z) (s : string) : list (Z * Z) :=
  match s with
  | EmptyString => []
  | String _ s' =>
      if starts_with lit s then (i, i + slen lit) :: occurrences lit (i + 1) s'
      else occurrences lit (i + 1) s'
  end.

(** Detectors of fixed words, for the witnesses. *)
Definition words_found (c : Category) (t : string) : list (Z * Z) :=
  filter (placed t)
    match c with
    | Email => occurrences "ada@ex.org" 0 t ++ occurrences "bob@ex.org" 0 t
    | Phone => occurrences "ex.org" 0 t
    | _ => []
    end.

Lemma words_found_ok c t : Forall (placed t) (words_found c t).
Proof. apply Forall_forall. intros m H. by apply list_elem_of_filter in H as [H _]. Qed.

Lemma with_capacity_wf n : 0 <= n <= u64_max -> wf (with_capacity n).
Proof.
  intros Hn. split; cbn; try done.
  - unfold len. cbn. rewrite map_size_empty. lia.
Qed.

Lemma new_map_wf : wf new.
Proof. by apply with_capacity_wf. Qed.

Lemma scan_resolves_overlaps_witness :
  scan words_found "to ada@ex.org, ex.org" =
    Some [mk_detection Email 3 13; mk_detection Phone 15 21] /\
  exists cands kept, found words_found "to ada@ex.org, ex.org" = Some cands /\
    scan words_found "to ada@ex.org, ex.org" = Some kept /\
    spaced kept /\ kept ≡ₚ greedy [] (merge_sort detection_le cands) /\
    (forall d, d ∈ kept -> detected words_found "to ada@ex.org, ex.org" d) /\
    (forall d, detected words_found "to ada@ex.org, ex.org" d ->
       exists k, k ∈ kept /\ (k = d \/ overlap d k = true) /\ detection_le k d).
Proof.
  split; [vm_compute; reflexivity|].
  exact (scan_resolves_overlaps words_found "to ada@ex.org, ex.org" words_found_ok).
Defined.


(** ** Where the code and its intent differ *)

(** A result that holds a value as one key and the text of that value's token as
    another keeps the value in the clear - the rename would overwrite - yet the pass
    counts it as replaced and calls itself complete. *)
Theorem masked_key_collision :
  exists r n m', pseudonymize_result words_found "crm"
      (obj [("structuredContent", obj [("ada@ex.org", JNull); (token_text Email 1, JNull)])]) new
    = Some (r, (n, true), m') /\ "ada@ex.org" ∈ strings_of r.
Proof. eexists _, _, _. split; [vm_compute; reflexivity|]. cbn. set_solver. Qed.

(** An opening bracket before a token hides the token: nothing is resolved and nothing is
    refused, and the literal token would be sent. *)
Theorem stray_bracket_hides_token :
  exists p m', pseudonymize words_found "crm" (opening +:+ " ada@ex.org") new = Some (p, m') /\
    rehydrate "crm" (text p) m' = mk_rehydrated (text p) ∅ /\
    text p = opening +:+ " " +:+ token_text Email 1.
Proof. eexists _, _. split; [vm_compute; reflexivity|]. split; vm_compute; reflexivity. Qed.

End Masking.
