(* ===== verification/Release.v ===== *)
(** The gateway's side of masking (src/bin/toolport-gateway.rs): the token map of each
    conversation, the pass over a server's results, the tokens of a call's arguments
    turned back for its server, and the release of a value to another server by a
    person.

    One critical section on the maps is one step; between two of them [env] changes
    the maps as other threads may.  Clock readings, the person's decisions and
    serde_json's printer are parameters. *)

From S2P Require Import Prelude Text Json SessionStore Approval ToolNames Masking.

Module Release.
Import SessionStore.Store.
Abbreviation SessionMap := Masking.SessionMap.

Definition nul : string := String "000" "".

Definition PII_LOCAL_SESSION : string := nul +:+ "local".

Definition conversation_scope (mcp_session client : option string) : string :=
  match mcp_session with
  | Some session => nul +:+ "mcp:" +:+ session
  | None => nul +:+ "client:" +:+ default PII_LOCAL_SESSION client
  end.

Definition pii_origin_id (server : string) : string := ToolNames.sanitize_segment server.

(** The fields of an MRTR retry ([MrtrRequest] of downstream.rs). *)
Record MrtrRequest := mk_mrtr { input_responses : option json; request_state : option json }.

Definition mrtr_is_empty (r : MrtrRequest) : bool :=
  match input_responses r, request_state r with None, None => true | _, _ => false end.

Record PiiPass := mk_pii { replaced : Z; complete : bool }.

(** What is shown to the person about [refused]. *)
Definition shown_values (refused : gset string) (m : SessionMap) : list Approval.PiiReleaseValue :=
  omap (fun token =>
    (fun d => Approval.mk_value token (Masking.value d)
                (sort_strings (elements (Masking.origins d)))) <$> Masking.disclose token m)
    (sort_strings (elements refused)).

(** [values.iter().all(|shown| map.approve_origin(..))]: stops at the first failure. *)
Fixpoint approve_all (origin : string) (values : list Approval.PiiReleaseValue) (m : SessionMap)
    : bool * SessionMap :=
  match values with
  | [] => (true, m)
  | shown :: values =>
      let (ok, m) := Masking.approve_origin (Approval.rtoken shown) origin m in
      if ok then approve_all origin values m else (false, m)
  end.

(** The last critical section of [approve_pii_release]. *)
Definition grant (origin : string) (values : list Approval.PiiReleaseValue) (m : SessionMap)
    : bool * SessionMap :=
  let unchanged := forallb (fun shown =>
    match Masking.disclose (Approval.rtoken shown) m with
    | Some now => String.eqb (Masking.value now) (Approval.value shown)
    | None => false
    end) values in
  if negb unchanged then (false, m) else approve_all origin values m.

Section gateway.
Variable env : nat -> SessionStore SessionMap -> SessionStore SessionMap.
Variable clock : nat -> Z.
(** [request_human_decision]: the answer to a request, whoever gives it. *)
Variable decision : nat -> Approval.ApprovalRequest -> Approval.ApprovalDecision.
Variable new_correlation_id : nat -> string.
Variable client_name client_label : option string.
Variable to_string : json -> string.
(** The MCP session of the request in flight. *)
Variable mcp_session : option string.
Variable find_iter : Masking.Category -> string -> list (Z * Z).

(** The maps of all conversations, the moments passed, and what was asked, latest
    first (with the answer, as the audit records it). *)
Record World := mk_world {
  pii : SessionStore SessionMap;
  tick : nat;
  asked : list (Approval.ApprovalRequest * Approval.ApprovalDecision)
}.

(** [None] is a panic. *)
Definition M (A : Type) : Type := World -> option (A * World).

#[global] Instance M_ret : MRet M := fun A x w => Some (x, w).
#[global] Instance M_bind : MBind M := fun A B f c w => '(x, w) ← c w; f x w.

(** [with_pii_session]: one critical section on the map of a conversation. *)
Definition with_pii_session {A} (client : option string)
    (f : SessionMap -> option (A * SessionMap)) : M A := fun w =>
  '(r, st) ← get_or_insert_with (clock (tick w)) (conversation_scope mcp_session client)
               Masking.new
               (fun m => match f m with Some (x, m) => (m, Some x) | None => (m, None) end)
               (env (tick w) (pii w));
  x ← r;
  Some (x, {| pii := st; tick := S (tick w); asked := asked w |}).

(** A section that only reads the map. *)
Definition look {A} (client : option string) (f : SessionMap -> option A) : M A :=
  with_pii_session client (fun m => x ← f m; Some (x, m)).

Definition request_human_decision (req : string -> Approval.ApprovalRequest)
    : M Approval.ApprovalDecision := fun w =>
  let req := req (new_correlation_id (tick w)) in
  let d := decision (tick w) req in
  Some (d, {| pii := pii w; tick := S (tick w); asked := (req, d) :: asked w |}).

Definition release_request (client : option string) (server tool : string)
    (values : list Approval.PiiReleaseValue) (arguments : json) (id : string)
    : Approval.ApprovalRequest :=
  {| Approval.token := ""; Approval.id := id; Approval.client := client;
     Approval.client_name := client_name; Approval.client_label := client_label;
     Approval.server := server; Approval.tool := tool;
     Approval.reason := Approval.PiiCrossServer; Approval.arguments := arguments;
     Approval.tool_fingerprint := None; Approval.url_elicitation := None;
     Approval.pii_release := Some (Approval.mk_release server values) |}.

Definition approve_pii_release (client : option string) (server tool : string)
    (refused : gset string) (arguments : json) : M bool :=
  values ← look client (fun m => Some (shown_values refused m));
  if negb (bool_decide (length values = size refused)) then mret false
  else
    d ← request_human_decision (release_request client server tool values arguments);
    if negb (Approval.is_approved d) then mret false
    else with_pii_session client (fun m => Some (grant (pii_origin_id server) values m)).

Definition all_tokens_substituted (v : json) (tokens : gset string) : bool :=
  let rendered := to_string v in
  forallb (fun token => negb (contains token rendered)) (elements tokens).

Definition refusal (server : string) (refused : gset string) : string :=
  "refusing to send redacted values to '" +:+ server +:+ "': " +:+
  String.concat ", " (sort_strings (elements refused)) +:+ " came from a different server. " +:+
  "Toolport only returns a value to the server that provided it, so one server's data " +:+
  "cannot be routed to another. Approve the release in the Toolport app to allow it.".

Definition rehydrate_for_downstream (client : option string) (server tool : string)
    (arguments : json) : M (result json string) :=
  let origin := pii_origin_id server in
  '(arguments, pristine, refused) ← look client (fun m =>
     if Masking.is_empty m then Some (arguments, None, ∅)
     else '(out, refused) ← Masking.rehydrate_args origin arguments m;
          Some (out, Some arguments, refused));
  if bool_decide (refused = ∅) then mret (Ok arguments)
  else
    let denied := Err (refusal server refused) in
    match pristine with
    | None => mret denied
    | Some pristine =>
        approved ← approve_pii_release client server tool refused pristine;
        if negb approved then mret denied
        else
          '(retry, still) ← look client (Masking.rehydrate_args origin pristine);
          if bool_decide (still = ∅) && all_tokens_substituted retry refused
          then mret (Ok retry) else mret denied
    end.

(** One optional field of a retry. *)
Definition rehydrate_field (origin : string) (m : SessionMap) (v : option json)
    : option (option json * gset string) :=
  match v with
  | Some v => '(v, refused) ← Masking.rehydrate_args origin v m; Some (Some v, refused)
  | None => Some (None, ∅)
  end.

(** The closure [pass]: both fields under one lock. *)
Definition mrtr_pass (client : option string) (origin : string) (out : MrtrRequest)
    : M (MrtrRequest * gset string) :=
  look client (fun m =>
    '(r, refused1) ← rehydrate_field origin m (input_responses out);
    '(s, refused2) ← rehydrate_field origin m (request_state out);
    Some ({| input_responses := r; request_state := s |}, refused1 ∪ refused2)).

Definition mrtr_refusal (server : string) (refused : gset string) : string :=
  "refusing to send redacted values to '" +:+ server +:+ "' in a retry response: " +:+
  String.concat ", " (sort_strings (elements refused)) +:+ " came from " +:+
  "a different server. Toolport only returns a value to the server that provided it. " +:+
  "Approve the release in the Toolport app to allow it.".

Definition field_substituted (tokens : gset string) (v : option json) : bool :=
  match v with Some v => all_tokens_substituted v tokens | None => true end.

Definition rehydrate_mrtr_for_downstream (client : option string) (server tool : string)
    (mrtr : option MrtrRequest) : M (result (option MrtrRequest) string) :=
  match mrtr with
  | None => mret (Ok None)
  | Some mrtr =>
      if mrtr_is_empty mrtr then mret (Ok None)
      else
        let origin := pii_origin_id server in
        '(out, refused) ← mrtr_pass client origin mrtr;
        if bool_decide (refused = ∅) then mret (Ok (Some out))
        else
          let shown := obj [("inputResponses", default JNull (input_responses mrtr));
                            ("requestState", default JNull (request_state mrtr))] in
          approved ← approve_pii_release client server tool refused shown;
          if negb approved then mret (Err (mrtr_refusal server refused))
          else
            '(retry, still) ← mrtr_pass client origin mrtr;
            let substituted := field_substituted refused (input_responses retry) &&
                               field_substituted refused (request_state retry) in
            if bool_decide (still = ∅) && substituted then mret (Ok (Some retry))
            else mret (Err (mrtr_refusal server
                              (if bool_decide (still = ∅) then refused else still)))
  end.

(** [redaction] is [Registry::pii_redaction_effective]. *)
Definition rehydrated_for_local_approver (redaction : bool) (client : option string)
    (server : string) (arguments : json) : M json :=
  if negb redaction then mret arguments
  else
    out ← look client (Masking.rehydrate_args (pii_origin_id server) arguments);
    mret out.1.

Definition pseudonymize_if_enabled (redaction : bool) (client : option string)
    (server : string) (result : json) : M (json * option PiiPass) :=
  if negb redaction then mret (result, None)
  else
    '(result, (n, c)) ← with_pii_session client
      (fun m => Masking.pseudonymize_result find_iter (pii_origin_id server) result m);
    mret (result, Some {| replaced := n; complete := c |}).
End gateway.

(** ** What the stored maps satisfy *)

Definition stored {V} (P : string -> V -> Prop) (st : SessionStore V) : Prop :=
  forall k e, entries st !! k = Some e -> P k (value e).

Lemma insert_stored {V} (P : string -> V -> Prop) now key v st :
  0 <= cap st -> stored P st -> P key v -> stored P (insert now key v st).
Proof.
  intros Hc Hst Hv k e Hk. pose proof (ev_sub _ _ (insert_evicted now key v st Hc)) as Hsub.
  apply (lookup_weaken _ _ _ _ Hk), inserted_lookup in Hsub as [[-> ->]|(_ & H & _)]; [done|].
  by apply (Hst k).
Qed.

(** The callback sees a stored value or the new one, and what it leaves is stored. *)
Lemma get_or_insert_stored {V R} (P : string -> V -> Prop) now key make (f : V -> V * R) st r st' :
  0 <= cap st -> stored P st -> P key make -> (forall v, P key v -> P key (f v).1) ->
  get_or_insert_with now key make f st = Some (r, st') ->
  stored P st' /\ exists v, P key v /\ r = (f v).2.
Proof.
  intros Hc Hst Hm Hf. unfold get_or_insert_with.
  set (st1 := if is_expired now st key then _ else st).
  assert (H1 : stored P st1 /\ cap st1 = cap st).
  { subst st1. destruct (is_expired now st key); [|done]. split; [|done].
    intros k e. cbn. intros [_ Hk]%lookup_delete_Some. by apply (Hst k). }
  destruct H1 as [H1 Hc1]. set (st2 := match entries st1 !! key with Some _ => st1 | None => _ end).
  assert (H2 : stored P st2).
  { subst st2. destruct (entries st1 !! key); [done|]. apply insert_stored; [by rewrite Hc1|done..]. }
  destruct (entries st2 !! key) as [e|] eqn:E; [|done].
  pose proof (H2 key e E) as He. specialize (Hf _ He).
  destruct (f (value e)) as [v x] eqn:Ef. intros [= <- <-]. split.
  - intros k e'. cbn. intros [[<- <-]|[_ Hk]]%lookup_insert_Some; [done|by apply (H2 k)].
  - exists (value e). by rewrite Ef.
Qed.

Section invariant.
(** Who is entitled to a value in a conversation. *)
Variable T : string -> string -> string -> Prop.

Definition good_map (scope : string) (m : SessionMap) : Prop :=
  Masking.wf m /\ Masking.vouched (T scope) m.

Record inv (st : SessionStore SessionMap) : Prop := {
  inv_wf : wf st;
  inv_len : len st <= cap st;
  inv_maps : stored good_map st
}.

Lemma new_good scope : good_map scope Masking.new.
Proof. split; [exact Masking.new_map_wf|]. intros t e o H. by destruct (lookup_empty_Some t e H). Qed.

(** ** The grant *)

Lemma approve_all_spec scope origin values m :
  good_map scope m ->
  Forall (fun shown => T scope origin (Approval.value shown) /\
    exists e, Masking.by_token m !! Approval.rtoken shown = Some e /\
      Masking.value e = Approval.value shown) values ->
  exists m', approve_all origin values m = (true, m') /\ good_map scope m' /\ Masking.extends m m' /\
    Forall (fun shown => Masking.owned m' origin (Approval.rtoken shown) = Some (Approval.value shown)) values.
Proof.
  intros Hm Hv. revert m Hm Hv. induction values as [|shown values IH]; intros m [Hwf HT] Hv.
  { exists m. split; [done|]. split; [done|]. split; [reflexivity|constructor]. }
  apply Forall_cons in Hv as [[Ht (e & He & Hval)] Hv]. cbn [approve_all].
  destruct (Masking.approve_origin (Approval.rtoken shown) origin m) as [ok m1] eqn:E.
  destruct (Masking.approve_origin_spec _ _ _ _ _ Hwf E) as (Hwf1 & Hext & HT1).
  revert E. unfold Masking.approve_origin. rewrite He. intros [= <- <-].
  destruct (IH (Masking.credit (Approval.rtoken shown) origin m)) as (m' & -> & Hgood & Hext' & Hall).
  - split; [done|]. apply HT1; [done|]. intros e' He'. congruence.
  - eapply Forall_impl; [exact Hv|]. intros s (Hs & es & Hes & Hvs). split; [done|].
    destruct (proj2 (proj2 Hext) _ _ Hes) as (es' & Hes' & Hvs' & _). exists es'. split; [done|congruence].
  - exists m'. split; [done|]. split; [done|]. split; [by etrans|]. constructor; [|done].
    apply (Masking.extends_owned _ _ _ _ _ Hext'). unfold Masking.owned.
    rewrite Masking.lookup_credit, decide_True, He by done. cbn.
    rewrite decide_True by set_solver. congruence.
Qed.

Lemma grant_spec scope origin values m :
  good_map scope m -> Forall (fun shown => T scope origin (Approval.value shown)) values ->
  exists b m', grant origin values m = (b, m') /\ good_map scope m' /\ Masking.extends m m' /\
    (b = false -> m' = m) /\
    (b = true -> Forall (fun shown =>
       Masking.owned m' origin (Approval.rtoken shown) = Some (Approval.value shown)) values).
Proof.
  intros Hm Hv. unfold grant. destruct (forallb _ values) eqn:E; cbn [negb].
  - destruct (approve_all_spec scope origin values m Hm) as (m' & -> & Hm' & Hext & Hall).
    { rewrite forallb_forall in E. rewrite Forall_forall in Hv |- *. intros s Hs. split; [by apply Hv|].
      specialize (E s (proj1 (list_elem_of_In _ _) Hs)). cbn in E. unfold Masking.disclose in E.
      destruct (Masking.by_token m !! _) as [e|]; [|done]. exists e. split; [done|].
      by apply String.eqb_eq in E. }
    by exists true, m'.
  - by exists false, m.
Qed.
End invariant.

(** ** The computations *)
Section contract.
Variable env : nat -> SessionStore SessionMap -> SessionStore SessionMap.
Variable clock : nat -> Z.
Variable decision : nat -> Approval.ApprovalRequest -> Approval.ApprovalDecision.
Variable new_correlation_id : nat -> string.
Variable client_name client_label : option string.
Variable to_string : json -> string.
Variable mcp_session : option string.
Variable find_iter : Masking.Category -> string -> list (Z * Z).
Variable T : string -> string -> string -> Prop.

(** Other threads keep the maps good too. *)
Hypothesis env_inv : forall n st, inv T st -> inv T (env n st).
(** No process inserts 2^64 maps. *)
Hypothesis env_room : forall n st, next_seq (env n st) < u64_max.
(** Whoever approves a release entitles its server to the values shown. *)
Hypothesis consent : forall n req release shown,
  decision n req = Approval.Approved -> Approval.pii_release req = Some release ->
  shown ∈ Approval.values release ->
  T (conversation_scope mcp_session (Approval.client req))
    (pii_origin_id (Approval.rserver release)) (Approval.value shown).

Definition ends {A} (c : M A) (Q : A -> Prop) : Prop :=
  forall w, inv T (pii w) -> exists x w', c w = Some (x, w') /\ inv T (pii w') /\ Q x.

Lemma ends_ret {A} (x : A) (Q : A -> Prop) : Q x -> ends (mret x) Q.
Proof. intros Hx w Hw. by exists x, w. Qed.

Lemma ends_bind {A B} (c : M A) (f : A -> M B) P Q :
  ends c P -> (forall x, P x -> ends (f x) Q) -> ends (c ≫= f) Q.
Proof.
  intros Hc Hf w Hw. destruct (Hc w Hw) as (x & w1 & E & H1 & Hx).
  destruct (Hf x Hx w1 H1) as (y & w2 & E2 & H2 & Hy). exists y, w2.
  split; [|done]. unfold mbind, M_bind, mbind, option_bind. rewrite E. exact E2.
Qed.

Lemma ends_session {A} client (f : SessionMap -> option (A * SessionMap)) (Q : A -> Prop) :
  let scope := conversation_scope mcp_session client in
  (forall m, good_map T scope m -> exists x m', f m = Some (x, m') /\ good_map T scope m' /\ Q x) ->
  ends (with_pii_session env clock mcp_session client f) Q.
Proof.
  intros scope Hf w Hw. unfold with_pii_session. fold scope.
  set (g := fun m => match f m with Some (x, m) => (m, Some x) | None => (m, None) end).
  pose proof (env_inv (tick w) _ Hw) as [H1 H2 H3].
  destruct (get_or_insert_with_spec (clock (tick w)) scope Masking.new g _ H1 (env_room _ _) H2)
    as (st & E & _ & _). revert E. set (r := (g _).2). clearbody r. intros E.
  rewrite E. cbn [mbind option_bind].
  pose proof (step_get_or_insert _ _ _ _ _ _ _ _ (env_room _ _) E) as Hstep.
  destruct (step_inv _ _ (conj H1 H2) Hstep) as [[Hwf Hlen] _].
  assert (Hg : forall m, good_map T scope m -> good_map T scope (g m).1).
  { intros m Hm. destruct (Hf m Hm) as (x & m' & Ex & Hm' & _). unfold g. by rewrite Ex. }
  assert (Hc : 0 <= cap (env (tick w) (pii w))) by (pose proof (wf_cap _ H1); lia).
  destruct (get_or_insert_stored (good_map T) _ _ _ _ _ _ _ Hc H3 (new_good T scope) Hg E)
    as (Hst & m & Hm & Er).
  destruct (Hf m Hm) as (x & m' & Ex & _ & Hx). unfold g in Er. rewrite Ex in Er. cbn in Er.
  rewrite Er. cbn. eexists _, _. split; [reflexivity|]. by split.
Qed.

Lemma ends_look {A} client (f : SessionMap -> option A) (Q : A -> Prop) :
  (forall m, good_map T (conversation_scope mcp_session client) m -> exists x, f m = Some x /\ Q x) ->
  ends (look env clock mcp_session client f) Q.
Proof.
  intros Hf. apply ends_session. intros m Hm. destruct (Hf m Hm) as (x & -> & Hx).
  by exists x, m.
Qed.

Lemma ends_any {A} (c : M A) (Q : A -> Prop) : ends c Q -> ends c (fun _ => True).
Proof. intros H w Hw. destruct (H w Hw) as (x & w' & E & Hi & _). by exists x, w'. Qed.

(** A release is granted only after the person approved what was shown. *)
Lemma approve_pii_release_ends client server tool refused arguments :
  ends (approve_pii_release env clock decision new_correlation_id client_name client_label
          mcp_session client server tool refused arguments) (fun _ => True).
Proof.
  unfold approve_pii_release. eapply ends_bind.
  { apply (ends_look _ _ (fun _ => True)). intros m _. by eexists. }
  intros values _. case_match; [by apply ends_ret|].
  set (req := release_request _ _ _ _ _ _ _).
  eapply (ends_bind _ _ (fun d => d = Approval.Approved ->
    Forall (fun shown => T (conversation_scope mcp_session client) (pii_origin_id server)
      (Approval.value shown)) values)).
  { intros w Hw. unfold request_human_decision. eexists _, _. split; [reflexivity|].
    split; [done|]. intros Hd. apply Forall_forall. intros shown Hs.
    by apply (consent _ _ (Approval.mk_release server values) shown Hd). }
  intros d Hd. destruct (Approval.is_approved d) eqn:Ed; cbn [negb]; [|by apply ends_ret].
  apply ends_session. intros m Hm.
  destruct (grant_spec T (conversation_scope mcp_session client) (pii_origin_id server) values m Hm)
    as (b & m' & -> & Hm' & _); [apply Hd; by destruct d|]. by exists b, m'.
Qed.

(** What may be sent to [origin]: the arguments with tokens resolved in a map whose
    values for [origin] are those it is entitled to, and with nothing refused. *)
Definition entitled_copy (scope origin : string) (args args' : json) : Prop :=
  exists m, Masking.rehydrate_args origin args (Masking.censor origin m) = Some (args', ∅) /\
    forall t e, Masking.by_token (Masking.censor origin m) !! t = Some e ->
      Masking.value e = "" \/ T scope origin (Masking.value e).

Lemma good_copy scope origin args args' m :
  good_map T scope m -> Masking.rehydrate_args origin args m = Some (args', ∅) ->
  entitled_copy scope origin args args'.
Proof.
  intros [_ HT] E. exists m. rewrite Masking.rehydrate_args_censor. split; [done|].
  intros t e He. by eapply Masking.censor_vouched.
Qed.

Lemma rehydrate_look client origin args :
  ends (look env clock mcp_session client (Masking.rehydrate_args origin args))
    (fun r => r.2 = ∅ -> entitled_copy (conversation_scope mcp_session client) origin args r.1).
Proof.
  apply ends_look. intros m Hm. destruct (Masking.rehydrate_args_total origin args m) as [[out refs] E].
  exists (out, refs). split; [done|]. cbn. intros ->. by eapply good_copy.
Qed.

Lemma rehydrate_for_downstream_spec client server tool arguments :
  ends (rehydrate_for_downstream env clock decision new_correlation_id client_name client_label
          to_string mcp_session client server tool arguments)
    (fun r => match r with
     | Ok out => entitled_copy (conversation_scope mcp_session client) (pii_origin_id server) arguments out
     | Err e => exists refused, refused <> ∅ /\ e = refusal server refused
     end).
Proof.
  unfold rehydrate_for_downstream. set (origin := pii_origin_id server).
  eapply (ends_bind _ _ (fun r => (r.2 = ∅ ->
    entitled_copy (conversation_scope mcp_session client) origin arguments r.1.1) /\
    forall p, r.1.2 = Some p -> p = arguments)).
  { apply ends_look. intros m Hm. destruct (Masking.is_empty m) eqn:Em.
    - eexists. split; [reflexivity|]. split; [intros _|done]. apply (good_copy _ _ _ _ m Hm).
      unfold Masking.rehydrate_args. by rewrite Em.
    - destruct (Masking.rehydrate_args_total origin arguments m) as [[out refs] E]. rewrite E. cbn.
      eexists. split; [reflexivity|]. cbn. split; [intros ->; by eapply good_copy|congruence]. }
  intros [[out pristine] refused] [Hfirst Hp]. cbn in Hfirst, Hp. case_bool_decide as Hr; [apply ends_ret; auto|].
  destruct pristine as [pristine'|]; [rewrite (Hp pristine' eq_refl)|apply ends_ret; by exists refused].
  eapply ends_bind; [apply approve_pii_release_ends|]. intros approved _.
  destruct approved; cbn [negb]; [|apply ends_ret; by exists refused].
  eapply ends_bind; [apply rehydrate_look|]. intros [retry still] Hretry.
  destruct (_ && _) eqn:E; apply ends_ret; [|by exists refused].
  apply andb_prop in E as [E _]. apply bool_decide_eq_true in E. by apply Hretry.
Qed.

(** An optional field of a retry, and its copy. *)
Definition field_copy (scope origin : string) (v v' : option json) : Prop :=
  match v, v' with
  | Some v, Some v' => entitled_copy scope origin v v'
  | None, None => True
  | _, _ => False
  end.

Lemma rehydrate_field_spec scope origin m v :
  good_map T scope m -> exists v' refs, rehydrate_field origin m v = Some (v', refs) /\
    (refs = ∅ -> field_copy scope origin v v').
Proof.
  intros Hm. destruct v as [v|]; cbn; [|by eexists _, _].
  destruct (Masking.rehydrate_args_total origin v m) as [[out refs] E]. rewrite E. cbn.
  eexists _, _. split; [reflexivity|]. cbn. intros ->. by eapply good_copy.
Qed.

Definition mrtr_copy (scope origin : string) (r r' : MrtrRequest) : Prop :=
  field_copy scope origin (input_responses r) (input_responses r') /\
  field_copy scope origin (request_state r) (request_state r').

Lemma mrtr_pass_ends client origin r :
  ends (mrtr_pass env clock mcp_session client origin r)
    (fun x => x.2 = ∅ -> mrtr_copy (conversation_scope mcp_session client) origin r x.1).
Proof.
  unfold mrtr_pass. apply ends_look. intros m Hm.
  destruct (rehydrate_field_spec _ origin m (input_responses r) Hm) as (a & ra & -> & Ha).
  destruct (rehydrate_field_spec _ origin m (request_state r) Hm) as (b & rb & -> & Hb).
  eexists. split; [reflexivity|]. cbn. intros Hu. split; [apply Ha|apply Hb]; set_solver.
Qed.

Lemma rehydrate_mrtr_spec client server tool mrtr :
  ends (rehydrate_mrtr_for_downstream env clock decision new_correlation_id client_name client_label
          to_string mcp_session client server tool mrtr)
    (fun r => match r with
     | Ok (Some out) => exists r0, mrtr = Some r0 /\
         mrtr_copy (conversation_scope mcp_session client) (pii_origin_id server) r0 out
     | Ok None => forall r0, mrtr = Some r0 -> mrtr_is_empty r0 = true
     | Err e => exists refused, refused <> ∅ /\ e = mrtr_refusal server refused
     end).
Proof.
  unfold rehydrate_mrtr_for_downstream. destruct mrtr as [r0|]; [|by apply ends_ret].
  destruct (mrtr_is_empty r0) eqn:Em; [apply ends_ret; congruence|].
  eapply ends_bind; [apply mrtr_pass_ends|]. intros [out refused] Hfirst. cbn in Hfirst.
  case_bool_decide as Hr; [apply ends_ret; exists r0; auto|].
  eapply ends_bind; [apply approve_pii_release_ends|]. intros approved _.
  destruct approved; cbn [negb]; [|apply ends_ret; by exists refused].
  eapply ends_bind; [apply mrtr_pass_ends|]. intros [retry still] Hretry. cbn in Hretry.
  destruct (_ && _) eqn:E; apply ends_ret.
  - apply andb_prop in E as [E _]. apply bool_decide_eq_true in E. exists r0. auto.
  - eexists. split; [|reflexivity]. by case_bool_decide.
Qed.

Definition texts_valid (v : json) : Prop := Forall (fun s => starts_cont s = false) (Masking.strings_of v).

Lemma pseudonymize_if_enabled_valid redaction client server result :
  (forall c t, Forall (Masking.placed t) (find_iter c t)) ->
  (forall t v, t ∈ Masking.strings_of result -> v ∈ Masking.values_of find_iter t ->
     T (conversation_scope mcp_session client) (pii_origin_id server) v) ->
  ends (pseudonymize_if_enabled env clock mcp_session find_iter redaction client server result)
    (fun r => is_object r.1 = is_object result /\ (texts_valid result -> texts_valid r.1) /\ (redaction = false -> r = (result, None))).
Proof.
  intros Hf Hv. unfold pseudonymize_if_enabled. destruct redaction; cbn [negb]; [|by apply ends_ret].
  eapply (ends_bind _ _ (fun r => is_object r.1 = is_object result /\ (texts_valid result -> texts_valid r.1))).
  - apply ends_session. intros m [Hwf HT].
    destruct (Masking.pseudonymize_result_spec find_iter (pii_origin_id server) result m Hf Hwf)
      as (r & n & c & m' & E & Hwf' & _ & HT'). rewrite E.
    eexists _, _. split; [reflexivity|]. split.
    + split; [done|]. by apply HT'.
    + exact (Masking.pseudonymize_result_valid _ _ _ _ _ _ _ _ Hf Hwf E).
  - intros [r [n c]] [Ho Hr]. by apply ends_ret.
Qed.

Lemma pseudonymize_if_enabled_ends redaction client server result :
  (forall c t, Forall (Masking.placed t) (find_iter c t)) ->
  (forall t v, t ∈ Masking.strings_of result -> v ∈ Masking.values_of find_iter t ->
     T (conversation_scope mcp_session client) (pii_origin_id server) v) ->
  ends (pseudonymize_if_enabled env clock mcp_session find_iter redaction client server result)
    (fun _ => True).
Proof. intros Hf Hv. eapply ends_any, pseudonymize_if_enabled_valid; done. Qed.

(** C8. Personal data reaches only a server entitled to it.  Whatever other threads do to the
    maps, whatever the arguments and the fields of a retry hold, both are dispatched only
    as copies in which nothing was refused and every value comes from a map where the
    server is entitled to it - it returned the value itself or a person who was shown the
    value released it to this server - and otherwise the call fails naming tokens.  The
    pass over a server's result keeps this, and none of them panics. *)
Theorem dispatch_only_entitled client server tool arguments mrtr redaction result :
  (forall c t, Forall (Masking.placed t) (find_iter c t)) ->
  (forall t v, t ∈ Masking.strings_of result -> v ∈ Masking.values_of find_iter t ->
     T (conversation_scope mcp_session client) (pii_origin_id server) v) ->
  ends (rehydrate_for_downstream env clock decision new_correlation_id client_name client_label
          to_string mcp_session client server tool arguments)
    (fun r => match r with
     | Ok out => entitled_copy (conversation_scope mcp_session client) (pii_origin_id server) arguments out
     | Err e => exists refused, refused <> ∅ /\ e = refusal server refused
     end) /\
  ends (rehydrate_mrtr_for_downstream env clock decision new_correlation_id client_name client_label
          to_string mcp_session client server tool mrtr)
    (fun r => match r with
     | Ok (Some out) => exists r0, mrtr = Some r0 /\
         mrtr_copy (conversation_scope mcp_session client) (pii_origin_id server) r0 out
     | Ok None => forall r0, mrtr = Some r0 -> mrtr_is_empty r0 = true
     | Err e => exists refused, refused <> ∅ /\ e = mrtr_refusal server refused
     end) /\
  ends (pseudonymize_if_enabled env clock mcp_session find_iter redaction client server result)
    (fun _ => True).
Proof.
  intros Hf Hv. split; [apply rehydrate_for_downstream_spec|]. split; [apply rehydrate_mrtr_spec|].
  by apply pseudonymize_if_enabled_ends.
Qed.
End contract.

(** ** The grant, exactly *)

Lemma approve_all_lookup origin values m b m' :
  approve_all origin values m = (b, m') ->
  Forall (fun shown => is_Some (Masking.by_token m !! Approval.rtoken shown)) values ->
  b = true /\ Masking.by_value m' = Masking.by_value m /\
  forall t, Masking.by_token m' !! t =
    (if decide (t ∈ map Approval.rtoken values) then Masking.add_origin origin <$> Masking.by_token m !! t
     else Masking.by_token m !! t).
Proof.
  revert m. induction values as [|shown values IH]; intros m E Hv.
  { injection E as <- <-. split; [done|]. split; [done|]. intros t. by rewrite decide_False by set_solver. }
  apply Forall_cons in Hv as [[e He] Hv]. cbn [approve_all] in E. unfold Masking.approve_origin in E.
  rewrite He in E. destruct (IH _ E) as (-> & Hbv & Hl).
  { eapply Forall_impl; [exact Hv|]. intros s [x Hx]. rewrite Masking.lookup_credit, Hx.
    case_decide; by eexists. }
  split; [done|]. split; [exact Hbv|]. intros t. rewrite Hl, Masking.lookup_credit. cbn [map].
  destruct (decide (t = Approval.rtoken shown)) as [->|Hne].
  - rewrite (decide_True (P := _ ∈ _ :: _)) by set_solver. case_decide; [|done]. rewrite He. cbn.
    f_equal. unfold Masking.add_origin. cbn. f_equal. set_solver.
  - destruct (decide (t ∈ map Approval.rtoken values)).
    + by rewrite decide_True by set_solver.
    + by rewrite decide_False by set_solver.
Qed.

(** A release is granted for exactly what the person was shown: the answer widens the
    shown tokens to the server, and changes nothing else, when each of them still stands
    for the value on the screen; when one does not, nothing is granted at all. *)
Theorem grant_exact origin values m b m' :
  grant origin values m = (b, m') ->
  (b = true <-> forall shown, shown ∈ values ->
     Masking.value <$> Masking.by_token m !! Approval.rtoken shown = Some (Approval.value shown)) /\
  (b = false -> m' = m) /\
  (b = true -> Masking.by_value m' = Masking.by_value m /\
     forall t, Masking.by_token m' !! t =
       (if decide (t ∈ map Approval.rtoken values) then Masking.add_origin origin <$> Masking.by_token m !! t
        else Masking.by_token m !! t)).
Proof.
  unfold grant. set (same := forallb _ values).
  assert (Hs : same = true <-> forall shown, shown ∈ values ->
     Masking.value <$> Masking.by_token m !! Approval.rtoken shown = Some (Approval.value shown)).
  { unfold same. rewrite forallb_forall. unfold Masking.disclose. split; intros H s Hin.
    - specialize (H s (proj1 (list_elem_of_In _ _) Hin)). destruct (_ !! _); [|done].
      apply String.eqb_eq in H. cbn. by rewrite H.
    - apply list_elem_of_In in Hin. specialize (H s Hin). destruct (_ !! _); [|done].
      injection H as ->. apply String.eqb_refl. }
  destruct same; cbn [negb].
  - intros E. assert (Hall := proj1 Hs eq_refl). destruct (approve_all_lookup _ _ _ _ _ E) as (-> & Hbv & Hl).
    { apply Forall_forall. intros s Hin. specialize (Hall s Hin). destruct (_ !! _); [by eexists|done]. }
    split; [exact Hs|]. by split.
  - intros [= <- <-]. split; [exact Hs|]. by split.
Qed.

(** ** Concrete runs *)

Definition address : string := "ada@ex.org".

(** The first result of [crm] names an address, and a person lets [mailer] have it. *)
Definition demo_T (_ origin v : string) : Prop := v = address /\ (origin = "crm" \/ origin = "mailer").

Definition demo_env (_ : nat) (st : SessionStore SessionMap) : SessionStore SessionMap :=
  if next_seq st <? u64_max then st else new 100 4.

Definition demo_decision (_ : nat) (req : Approval.ApprovalRequest) : Approval.ApprovalDecision :=
  match Approval.pii_release req with
  | Some release =>
      if String.eqb (Approval.rserver release) "mailer" &&
         forallb (fun shown => String.eqb (Approval.value shown) address) (Approval.values release)
      then Approval.Approved else Approval.Denied
  | None => Approval.Denied
  end.

Definition demo_start : World := mk_world (new 100 4) 0 [].

Definition demo_result : json :=
  obj [("content", JArray [obj [("type", JString "text"); ("text", JString address)]])].

Definition demo_mask : M (json * option PiiPass) :=
  pseudonymize_if_enabled demo_env (fun _ => 0) (Some "s1") Masking.words_found true None "crm" demo_result.

Definition demo_world : World := match demo_mask demo_start with Some (_, w) => w | None => demo_start end.

Definition demo_arguments (recipient : string) : json := obj [("to", JString recipient)].

Definition demo_call (server recipient : string) : M (result json string) :=
  rehydrate_for_downstream demo_env (fun _ => 0) demo_decision pretty None None (fun _ => "")
    (Some "s1") None server "send" (demo_arguments recipient).

Definition outcome {A} (r : option (A * World)) : option A := fst <$> r.

Example demo_runs :
  outcome (demo_mask demo_start) =
    Some (obj [("content", JArray [obj [("type", JString "text");
                 ("text", JString (Masking.token_text Masking.Email 1))]])],
          Some {| replaced := 1; complete := true |}) /\
  outcome (demo_call "crm" (Masking.token_text Masking.Email 1) demo_world) =
    Some (Ok (demo_arguments address)) /\
  outcome (demo_call "mailer" (Masking.token_text Masking.Email 1) demo_world) =
    Some (Ok (demo_arguments address)) /\
  outcome (demo_call "evil" (Masking.token_text Masking.Email 1) demo_world) =
    Some (Err (refusal "evil" {[Masking.token_text Masking.Email 1]})).
Proof. vm_compute. done. Qed.

Lemma new_inv T t c : inv T (new t c).
Proof.
  split; [split; cbn; try (intros *; by rewrite lookup_empty); unfold u64_max; lia| |].
  - unfold len. cbn. rewrite map_size_empty. lia.
  - intros k e H. cbn in H. by rewrite lookup_empty in H.
Qed.

Lemma demo_env_inv T n st : inv T st -> inv T (demo_env n st).
Proof. intros H. unfold demo_env. destruct (_ <? _); [done|apply new_inv]. Qed.

Lemma demo_env_room n st : next_seq (demo_env n st) < u64_max.
Proof. unfold demo_env. destruct (Z.ltb_spec (next_seq st) u64_max); done. Qed.

Lemma demo_consent n req release shown :
  demo_decision n req = Approval.Approved -> Approval.pii_release req = Some release ->
  shown ∈ Approval.values release ->
  demo_T (conversation_scope (Some "s1") (Approval.client req))
    (pii_origin_id (Approval.rserver release)) (Approval.value shown).
Proof.
  unfold demo_decision. intros H E. rewrite E in H. destruct (_ && _) eqn:Ea; [|done].
  apply andb_prop in Ea as [Es Ev]. apply String.eqb_eq in Es. rewrite forallb_forall in Ev.
  intros Hin%list_elem_of_In. specialize (Ev _ Hin). apply String.eqb_eq in Ev.
  rewrite Es. split; [done|by right].
Qed.

Lemma demo_values t v :
  t ∈ Masking.strings_of demo_result -> v ∈ Masking.values_of Masking.words_found t ->
  demo_T (conversation_scope (Some "s1") None) (pii_origin_id "crm") v.
Proof.
  assert (H : forallb (fun t => forallb (String.eqb address) (Masking.values_of Masking.words_found t))
    (Masking.strings_of demo_result) = true) by (vm_compute; reflexivity).
  rewrite forallb_forall in H. intros Ht%list_elem_of_In Hv%list_elem_of_In. specialize (H t Ht).
  rewrite forallb_forall in H. specialize (H v Hv). apply String.eqb_eq in H as <-.
  split; [reflexivity|]. left. vm_compute. reflexivity.
Qed.

Lemma demo_world_inv : inv demo_T (pii demo_world).
Proof.
  unfold demo_world.
  destruct (pseudonymize_if_enabled_ends demo_env (fun _ => 0) (Some "s1") Masking.words_found demo_T
    (demo_env_inv demo_T) demo_env_room true None "crm" demo_result Masking.words_found_ok demo_values
    demo_start (new_inv demo_T 100 4)) as (x & w & E & Hw & _).
  unfold demo_mask. by rewrite E.
Qed.

Lemma dispatch_only_entitled_witness :
  outcome (demo_call "mailer" (Masking.token_text Masking.Email 1) demo_world) =
    Some (Ok (demo_arguments address)) /\
  entitled_copy demo_T (conversation_scope (Some "s1") None) (pii_origin_id "mailer")
    (demo_arguments (Masking.token_text Masking.Email 1)) (demo_arguments address).
Proof.
  split; [exact (proj1 (proj2 (proj2 demo_runs)))|].
  destruct (dispatch_only_entitled demo_env (fun _ => 0) demo_decision pretty None None (fun _ => "")
    (Some "s1") Masking.words_found demo_T (demo_env_inv demo_T) demo_env_room demo_consent
    None "mailer" "send" (demo_arguments (Masking.token_text Masking.Email 1)) None true (JObject [])
    Masking.words_found_ok) as [H _].
  { intros t v Ht. cbn in Ht. set_solver. }
  destruct (H demo_world demo_world_inv) as (r & w & E & _ & Hr).
  pose proof (proj1 (proj2 (proj2 demo_runs))) as Hd. unfold demo_call in Hd. rewrite E in Hd.
  injection Hd as ->. exact Hr.
Defined.

Definition demo_map : SessionMap :=
  match Masking.pseudonymize Masking.words_found "crm" address Masking.new with
  | Some (_, m) => m
  | None => Masking.new
  end.

Definition demo_shown : list Approval.PiiReleaseValue :=
  [Approval.mk_value (Masking.token_text Masking.Email 1) address ["crm"]].

Lemma grant_exact_witness :
  (grant "mailer" demo_shown demo_map).1 = true /\
  forall t, Masking.by_token (grant "mailer" demo_shown demo_map).2 !! t =
    (if decide (t ∈ map Approval.rtoken demo_shown)
     then Masking.add_origin "mailer" <$> Masking.by_token demo_map !! t
     else Masking.by_token demo_map !! t).
Proof.
  assert (H1 : (grant "mailer" demo_shown demo_map).1 = true) by (vm_compute; reflexivity).
  split; [exact H1|].
  destruct (grant_exact "mailer" demo_shown demo_map _ _ (surjective_pairing _)) as (_ & _ & H).
  exact (proj2 (H H1)).
Defined.

(** ** What the origin rests on *)

(** What the first server returned, and what the second is then sent. *)
Definition collision : M (result json string) :=
  _ ← pseudonymize_if_enabled demo_env (fun _ => 0) (Some "s1") Masking.words_found true None
        "team-slack" demo_result;
  demo_call "team_slack" (Masking.token_text Masking.Email 1).

(** The origin is the id after the sanitizer, so it separates two servers only as far as their
    ids stay apart under it: of two that differ in a dash and an underscore, a value the first
    returned would be sent to the second and nobody asked.  The ids of a registry are kept
    apart under the sanitizer by the factory of ids (Access.v). *)
Theorem origins_collide :
  pii_origin_id "team-slack" = pii_origin_id "team_slack" /\
  exists w, collision demo_start = Some (Ok (demo_arguments address), w) /\ asked w = [].
Proof. split; [reflexivity|]. eexists. split; vm_compute; reflexivity. Qed.
End Release.
