(* ===== verification/ModernHitl.v ===== *)
(** Approvals that a modern client gives itself (src/bin/toolport-gateway.rs:
    [ModernHitlApproval] and the functions on the table of pending prompts): a gated
    call is parked under a token, the client shows the prompt and sends the call again
    with the answer.

    The table is a [SessionStore] and a mutex guards it, so each function is one or two
    steps on the state [Table].  [Instant]s are nanoseconds, one argument per reading.
    The rows that [Drop] writes to the audit log are part of the state; a row is the
    arguments of [PendingApprovalAudit::new] with the decision and the time held, not the
    JSON line made of them.  [HashMap]s drop their values in the order [iter], any
    permutation. *)

From S2P Require Import Prelude Text Json SessionStore Approval Release.

Module ModernHitl.
Import SessionStore.Store.

Inductive ModernHitlStatus := AwaitingClient | ClientApproved.

Record PendingApprovalAudit := mk_audit {
  audit_server : string;
  audit_tool : string;
  audit_client : option string;
  audit_client_label : option string;
  audit_reason : Approval.ApprovalReason;
  audit_args_hash : string
}.

Record ModernHitlApproval := mk_approval {
  token : string;
  name : string;
  args_hash : string;
  scope : string;
  approved_fingerprint : option string;
  reason : Approval.ApprovalReason;
  started : Z;
  downstream : Release.MrtrRequest;
  input_request : json;
  status : ModernHitlStatus;
  abandoned_audit : option PendingApprovalAudit
}.

(** One row that [Drop] wrote. *)
Record Row := mk_row {
  row_token : string;
  row_audit : PendingApprovalAudit;
  row_decision : string;
  row_held_ms : Z
}.

Record Table := mk_table {
  approvals : SessionStore ModernHitlApproval;
  terminal : list string;
  rows : list Row
}.

Definition with_approvals (st : SessionStore ModernHitlApproval) (t : Table) : Table :=
  {| approvals := st; terminal := terminal t; rows := rows t |}.

Inductive ModernHitlPoll :=
| Missing
| Pending
| Stale (held_ms : Z) (reason : Approval.ApprovalReason)
| Decided (d : Approval.ApprovalDecision) (held_ms : Z) (reason : Approval.ApprovalReason)
| Approved (approved_fingerprint : option string) (reason : Approval.ApprovalReason)
    (held_ms : Z) (downstream : Release.MrtrRequest) (newly_approved : bool).

Definition MODERN_HITL_MAX_PENDING : Z := 64.

Definition second : Z := 1000000000.

Definition timeout : Z := Approval.DEFAULT_TIMEOUT_SECS * second.

Definition MODERN_HITL_RETENTION : Z := (Approval.DEFAULT_TIMEOUT_SECS + 30) * second.

(** [SessionTables::new], the table of prompts. *)
Definition new_table : Table :=
  {| approvals := new MODERN_HITL_RETENTION MODERN_HITL_MAX_PENDING; terminal := []; rows := [] |}.

(** [started.elapsed()], and its [as_millis() as u64]. *)
Definition since (start now : Z) : Z := Z.max 0 (now - start).
Definition millis (d : Z) : Z := wrap64 (d / 1000000).

Definition remember_terminal_modern_hitl (tok : string) (tokens : list string) : list string :=
  if listed tok tokens then tokens
  else
    let tokens := tokens ++ [tok] in
    if MODERN_HITL_MAX_PENDING * 2 <? Z.of_nat (length tokens) then tail tokens else tokens.

Definition modern_hitl_is_terminal (tok : string) (t : Table) : bool := listed tok (terminal t).

(** [Drop for ModernHitlApproval]. *)
Definition drop (now : Z) (p : ModernHitlApproval) (t : Table) : Table :=
  {| approvals := approvals t;
     terminal := remember_terminal_modern_hitl (token p) (terminal t);
     rows := match abandoned_audit p with
             | None => rows t
             | Some audit =>
                 let elapsed := since (started p) now in
                 let decision := if timeout <=? elapsed then "no_response" else "withdrawn" in
                 {| row_token := token p; row_audit := audit; row_decision := decision;
                    row_held_ms := millis elapsed |} :: rows t
             end |}.

Definition token_prefix : string := "toolport-hitl-".

Definition modern_token (id : string) : string := token_prefix +:+ id.

Definition downstream_input_responses (input_responses : option json) : option json :=
  match input_responses with
  | Some (JObject responses) =>
      let responses := obj_remove "toolport_approval" responses in
      if bool_decide (responses = []) then None else Some (JObject responses)
  | other => other
  end.

(** [accepted], of an answer to the prompt. *)
Definition answer_accepts (response : json) : bool :=
  bool_decide ((Json.get "action" response ≫= as_str) = Some "accept") &&
  bool_decide (((Json.get "content" response ≫= Json.get "approved") ≫= as_bool) = Some true).

Definition with_status (s : ModernHitlStatus) (p : ModernHitlApproval) : ModernHitlApproval :=
  {| token := token p; name := name p; args_hash := args_hash p; scope := scope p;
     approved_fingerprint := approved_fingerprint p; reason := reason p; started := started p;
     downstream := downstream p; input_request := input_request p; status := s;
     abandoned_audit := abandoned_audit p |}.

Definition with_downstream (d : Release.MrtrRequest) (p : ModernHitlApproval) : ModernHitlApproval :=
  {| token := token p; name := name p; args_hash := args_hash p; scope := scope p;
     approved_fingerprint := approved_fingerprint p; reason := reason p; started := started p;
     downstream := d; input_request := input_request p; status := status p;
     abandoned_audit := abandoned_audit p |}.

(** [pending.abandoned_audit = None]. *)
Definition forget_audit (p : ModernHitlApproval) : ModernHitlApproval :=
  {| token := token p; name := name p; args_hash := args_hash p; scope := scope p;
     approved_fingerprint := approved_fingerprint p; reason := reason p; started := started p;
     downstream := downstream p; input_request := input_request p; status := status p;
     abandoned_audit := None |}.

(** [poll_modern_hitl]'s answer on a prompt that is approved, and what it leaves. *)
Definition resume (held : Z) (input_responses : option json) (newly : bool) (p : ModernHitlApproval)
    : ModernHitlApproval * (ModernHitlPoll * bool) :=
  let p := with_downstream
    {| Release.input_responses := downstream_input_responses input_responses;
       Release.request_state := Release.request_state (downstream p) |} p in
  (p, (Approved (approved_fingerprint p) (reason p) (millis held) (downstream p) newly, false)).

(** The closure of [poll_modern_hitl], at [at_] for the timeout and [later] for the time
    held; the flag says whether the prompt is removed. *)
Definition poll_prompt (at_ later : Z) (name' args_hash' scope' : string)
    (input_responses : option json) (p : ModernHitlApproval)
    : ModernHitlApproval * (ModernHitlPoll * bool) :=
  let held := since (started p) later in
  if negb (String.eqb (name p) name') || negb (String.eqb (args_hash p) args_hash') ||
     negb (String.eqb (scope p) scope')
  then (forget_audit p, (Stale (millis held) (reason p), true))
  else match status p with
  | AwaitingClient =>
      if timeout <=? since (started p) at_
      then (forget_audit p, (Decided Approval.Timeout (millis held) (reason p), true))
      else match input_responses ≫= Json.get "toolport_approval" with
      | None => (p, (Pending, false))
      | Some response =>
          let p := forget_audit p in
          if answer_accepts response
          then resume held input_responses true (with_status ClientApproved p)
          else (p, (Decided Approval.Denied (millis held) (reason p), true))
      end
  | ClientApproved => resume held input_responses false p
  end.

(** Whether the answers accept the prompt. *)
Definition accepts (input_responses : option json) : bool :=
  match input_responses ≫= Json.get "toolport_approval" with
  | Some response => answer_accepts response
  | None => false
  end.

(** The entries of [st] whose values are gone from, or replaced in, [st']. *)
Definition gone (st st' : SessionStore ModernHitlApproval) : gmap string (Entry ModernHitlApproval) :=
  filter (fun kv => (seq <$> entries st' !! kv.1) <> Some (seq kv.2)) (entries st).

Section table.
Variable iter : gmap string (Entry ModernHitlApproval) -> list (string * Entry ModernHitlApproval).
(** [serde_json::to_string]. *)
Variable to_string : json -> option string.

(** The store becomes [st']; what it no longer holds is dropped. *)
Definition commit (now : Z) (st' : SessionStore ModernHitlApproval) (t : Table) : Table :=
  fold_left (fun t kv => drop now (value kv.2) t) (iter (gone (approvals t) st'))
    (with_approvals st' t).

Definition prompt_message (server tool : string) (arguments : json) : string :=
  "Toolport requires approval to run " +:+ server +:+ "/" +:+ tool +:+
  ". Review the exact arguments before approving: " +:+ default "{}" (to_string arguments).

Definition approval_prompt (server tool : string) (arguments : json) : json :=
  obj [("method", JString "elicitation/create");
       ("params", obj
         [("mode", JString "form");
          ("message", JString (prompt_message server tool arguments));
          ("requestedSchema", obj
            [("type", JString "object");
             ("properties", obj
               [("approved", obj [("type", JString "boolean");
                                  ("title", JString "Approve this tool call")])]);
             ("required", JArray [JString "approved"])])])].

Definition modern_hitl_input_required (now : Z) (tok : string) (t : Table) : json :=
  obj [("resultType", JString "input_required");
       ("inputRequests",
          match peek now tok input_request (approvals t) with
          | Some request => obj [("toolport_approval", request)]
          | None => JNull
          end);
       ("requestState", JString tok)].

Definition modern_hitl_reason (now : Z) (tok : string) (t : Table) : option Approval.ApprovalReason :=
  peek now tok reason (approvals t).

(** [start_modern_hitl] of the call [c], whose correlation id is [id]. *)
Record Call := mk_call {
  c_name : string;
  c_args_hash : string;
  c_fingerprint : option string;
  c_reason : Approval.ApprovalReason;
  c_client : option string;
  c_client_label : option string;
  c_mcp_session : option string;
  c_server : string;
  c_tool : string;
  c_arguments : json;
  c_downstream : Release.MrtrRequest
}.

Definition c_scope (c : Call) : string := Release.conversation_scope (c_mcp_session c) (c_client c).

Definition prompt_for (start : Z) (tok : string) (c : Call) : ModernHitlApproval :=
  {| token := tok; name := c_name c; args_hash := c_args_hash c; scope := c_scope c;
     approved_fingerprint := c_fingerprint c; reason := c_reason c; started := start;
     downstream := c_downstream c;
     input_request := approval_prompt (c_server c) (c_tool c) (c_arguments c);
     status := AwaitingClient;
     abandoned_audit := Some {| audit_server := c_server c; audit_tool := c_tool c;
       audit_client := c_client c; audit_client_label := c_client_label c;
       audit_reason := c_reason c; audit_args_hash := c_args_hash c |} |}.

Definition start_modern_hitl (now start : Z) (id : string) (cancelled : bool) (c : Call) (t : Table)
    : result string Approval.ApprovalDecision * Table :=
  let tok := modern_token id in
  let t := commit now (reap_expired now (approvals t)).2 t in
  if cancelled then (Err Approval.Withdrawn, t)
  else if MODERN_HITL_MAX_PENDING <=? len (approvals t) then (Err Approval.Unreachable, t)
  else (Ok tok, commit now (insert now tok (prompt_for start tok c) (approvals t)) t).

Definition remove_prompt (now : Z) (tok : string) (t : Table) : Table :=
  commit now (remove tok (approvals t)).2 t.

Definition poll_modern_hitl (now at_ later : Z) (tok name' args_hash' scope' : string)
    (input_responses : option json) (t : Table) : ModernHitlPoll * Table :=
  let (r, st) := with_value now tok (poll_prompt at_ later name' args_hash' scope' input_responses)
                   (approvals t) in
  let t := commit now st t in
  let (poll, removed) := default (Missing, false) r in
  (poll, if removed then remove_prompt now tok t else t).

(** The result is given the prompt's token only while the prompt is there. *)
Definition update_modern_hitl_downstream (now : Z) (tok : string) (result : json) (t : Table)
    : json * Table :=
  let (r, st) := with_value now tok
    (fun p => (with_downstream {| Release.input_responses := None;
                                  Release.request_state := Json.get "requestState" result |} p, ()))
    (approvals t) in
  (match r with
   | Some _ => put "requestState" (JString tok) result
   | None => result
   end, commit now st t).

Definition finish_modern_hitl (now : Z) (tok : option string) (t : Table) : Table :=
  match tok with Some tok => remove_prompt now tok t | None => t end.

(** The section of [execute_call] that takes over the audit row of a prompt whose call is
    no longer gated. *)
Definition take_over (now later : Z) (tok : string) (t : Table) : option Z * Table :=
  let (r, st) := with_value now tok
    (fun p => (forget_audit p, millis (since (started p) later))) (approvals t) in
  (r, commit now st t).

(** The prompts' part of [SessionTables::clear_pii] and [clear_mcp_session]. *)
Definition clear_scope (now : Z) (scope' : string) (t : Table) : Table :=
  commit now (remove_where (fun _ p => String.eqb (scope p) scope') (approvals t)).2 t.

(** ** What can happen to the table *)

Inductive op :=
| Start (now start : Z) (id : string) (cancelled : bool) (c : Call)
| Poll (now at_ later : Z) (tok name args_hash scope : string) (input_responses : option json)
| Update (now : Z) (tok : string) (result : json)
| Finish (now : Z) (tok : option string)
| TakeOver (now later : Z) (tok : string)
| ClearScope (now : Z) (scope : string)
| Cancelled (now : Z) (id : string).

Inductive outcome :=
| OStarted (r : result string Approval.ApprovalDecision)
| OPolled (r : ModernHitlPoll)
| OUpdated (r : json)
| OTakenOver (r : option Z)
| ODone.

Definition exec (o : op) (t : Table) : outcome * Table :=
  match o with
  | Start now start id cancelled c =>
      let (r, t) := start_modern_hitl now start id cancelled c t in (OStarted r, t)
  | Poll now at_ later tok name' args_hash' scope' responses =>
      let (r, t) := poll_modern_hitl now at_ later tok name' args_hash' scope' responses t in
      (OPolled r, t)
  | Update now tok result =>
      let (r, t) := update_modern_hitl_downstream now tok result t in (OUpdated r, t)
  | Finish now tok => (ODone, finish_modern_hitl now tok t)
  | TakeOver now later tok => let (r, t) := take_over now later tok t in (OTakenOver r, t)
  | ClearScope now scope' => (ODone, clear_scope now scope' t)
  | Cancelled now id => (ODone, remove_prompt now (modern_token id) t)
  end.

(** What happened, in order, and the table it left. *)
Inductive reached : list (op * outcome) -> Table -> Prop :=
| reached_new : reached [] new_table
| reached_step log t o r t' : reached log t -> exec o t = (r, t') -> reached (log ++ [(o, r)]) t'.

End table.

Section theory.
Variable iter : gmap string (Entry ModernHitlApproval) -> list (string * Entry ModernHitlApproval).
Variable to_string : json -> option string.
Hypothesis iter_perm : forall m, iter m ≡ₚ map_to_list m.
Implicit Types st : SessionStore ModernHitlApproval.
Implicit Types t : Table.
Implicit Types p : ModernHitlApproval.

Abbreviation commit := (commit iter).
Abbreviation remove_prompt := (remove_prompt iter).
Abbreviation reached := (reached iter to_string).
Abbreviation exec := (exec iter to_string).

(** ** What a step drops *)

Definition keyed st : Prop := map_Forall (fun k e => token (value e) = k) (entries st).

(** The rows written for [tok], and whether one is still to come. *)
Definition row_count (tok : string) t : nat :=
  length (List.filter (fun r => String.eqb (row_token r) tok) (rows t)).

Definition owes p : nat := if abandoned_audit p is Some _ then 1%nat else 0%nat.

Definition waits p : nat := match status p with AwaitingClient => 1%nat | ClientApproved => 0%nat end.

Definition held (f : ModernHitlApproval -> nat) (tok : string) st : nat :=
  match entries st !! tok with Some e => f (value e) | None => 0%nat end.

Lemma gone_lookup st st' k e :
  gone st st' !! k = Some e <->
  entries st !! k = Some e /\ (seq <$> entries st' !! k) <> Some (seq e).
Proof. unfold gone. by rewrite map_lookup_filter_Some. Qed.

Lemma drop_rows now p t tok :
  row_count tok (drop now p t) =
  ((if String.eqb (token p) tok then owes p else 0) + row_count tok t)%nat.
Proof.
  unfold row_count, drop, owes. simpl. destruct (abandoned_audit p); simpl;
    destruct (String.eqb_spec (token p) tok); simpl; lia.
Qed.

Lemma commit_approvals now st' t : approvals (commit now st' t) = st'.
Proof.
  unfold ModernHitl.commit. assert (forall l t, approvals (fold_left
    (fun t (kv : string * Entry ModernHitlApproval) => drop now (value kv.2) t) l t) = approvals t) as ->.
  { intros l. induction l as [|kv l IH]; intros t'; simpl; [done|]. by rewrite IH. }
  done.
Qed.

Lemma fold_drop_rows now tok (l : list (string * Entry ModernHitlApproval)) t :
  NoDup l.*1 -> (forall kv, kv ∈ l -> token (value kv.2) = kv.1) ->
  row_count tok (fold_left (fun t kv => drop now (value kv.2) t) l t) =
  ((match list_find (fun kv => kv.1 = tok) l with
    | Some (_, kv) => owes (value kv.2) | None => 0 end) + row_count tok t)%nat.
Proof.
  revert t. induction l as [|[k e] l IH]; intros t Hnd Hk; [done|]. simpl in Hnd.
  apply NoDup_cons in Hnd as [Hnotin Hnd]. cbn [fold_left list_find].
  rewrite IH by (try done; intros kv Hin; apply Hk; by right).
  rewrite drop_rows. simpl. pose proof (Hk (k, e) ltac:(by left)) as Hke. simpl in Hke. rewrite Hke.
  destruct (decide (k = tok)) as [->|Hne].
  - rewrite String.eqb_refl. destruct (list_find _ l) as [[i kv]|] eqn:E; simpl; [|lia].
    apply list_find_Some in E as (Hi & Heq & _). exfalso. apply Hnotin.
    rewrite <- Heq. apply list_elem_of_fmap. exists kv. split; [done|]. by eapply list_elem_of_lookup_2.
  - destruct (String.eqb_spec k tok); [done|].
    destruct (list_find _ l) as [[i kv]|]; simpl; lia.
Qed.

Lemma list_find_map (m : gmap string (Entry ModernHitlApproval)) l tok :
  l ≡ₚ map_to_list m ->
  snd <$> (snd <$> list_find (fun kv => kv.1 = tok) l) = m !! tok.
Proof.
  intros Hp. destruct (list_find _ l) as [[i [k e]]|] eqn:E; simpl.
  - apply list_find_Some in E as (Hi & Heq & _). simpl in Heq. subst. symmetry.
    apply elem_of_map_to_list. rewrite <- Hp. by eapply list_elem_of_lookup_2.
  - apply list_find_None in E. destruct (m !! tok) as [e|] eqn:He; [|done]. exfalso.
    rewrite Forall_forall in E. apply (E (tok, e)); [|done]. rewrite Hp. by apply elem_of_map_to_list.
Qed.

(** A step writes one row for each prompt it drops whose outcome nobody has taken. *)
Lemma commit_rows now st' t tok :
  keyed (approvals t) ->
  row_count tok (commit now st' t) =
  ((match gone (approvals t) st' !! tok with Some e => owes (value e) | None => 0 end) +
   row_count tok t)%nat.
Proof.
  intros Hk. unfold ModernHitl.commit. rewrite fold_drop_rows.
  - rewrite <- (list_find_map _ _ tok (iter_perm _)).
    destruct (list_find _ _) as [[i [k e]]|]; done.
  - rewrite iter_perm. apply NoDup_fst_map_to_list.
  - intros [k e] Hin. rewrite iter_perm in Hin. apply elem_of_map_to_list in Hin.
    apply gone_lookup in Hin as [Hin _]. by apply (Hk k e).
Qed.

(** Dropping entries moves what was owed to the rows. *)
Lemma commit_sub now st' t tok :
  keyed (approvals t) -> entries st' ⊆ entries (approvals t) ->
  (row_count tok (commit now st' t) + held owes tok st' =
   row_count tok t + held owes tok (approvals t))%nat.
Proof.
  intros Hk Hsub. rewrite commit_rows by done. unfold held.
  destruct (gone (approvals t) st' !! tok) as [e|] eqn:G.
  - apply gone_lookup in G as [He Hs]. rewrite He.
    destruct (entries st' !! tok) as [e'|] eqn:E'; [|lia].
    rewrite (lookup_weaken _ _ _ _ E' Hsub) in He. simpl in Hs. congruence.
  - destruct (entries st' !! tok) as [e'|] eqn:E'.
    + rewrite (lookup_weaken _ _ _ _ E' Hsub). lia.
    + destruct (entries (approvals t) !! tok) as [e|] eqn:E; [|lia].
      assert (gone (approvals t) st' !! tok = Some e); [|congruence].
      apply gone_lookup. by rewrite E'.
Qed.

Lemma held_sub f tok st st' :
  entries st' ⊆ entries st -> (held f tok st' <= held f tok st)%nat.
Proof.
  intros Hsub. unfold held. destruct (entries st' !! tok) as [e|] eqn:E; [|lia].
  by rewrite (lookup_weaken _ _ _ _ E Hsub).
Qed.

Lemma keyed_sub st st' : keyed st -> entries st' ⊆ entries st -> keyed st'.
Proof. intros Hk Hsub k e He. apply Hk. by eapply lookup_weaken. Qed.

Lemma with_value_cases {R} now tok (f : ModernHitlApproval -> ModernHitlApproval * R) st :
  (exists st', with_value now tok f st = (None, st') /\ entries st' ⊆ entries st /\
     st' = with_entries st (entries st')) \/
  (exists e, entries st !! tok = Some e /\ is_expired now st tok = false /\
     with_value now tok f st = (Some (f (value e)).2, touch now tok e (f (value e)).1 st)).
Proof.
  unfold with_value. destruct (is_expired now st tok) eqn:Hx.
  { left. eexists. split_and!; [done|apply delete_subseteq|done]. }
  destruct (entries st !! tok) as [e|] eqn:He.
  - right. exists e. destruct (f (value e)). done.
  - left. exists st. split_and!; [done|done|by destruct st].
Qed.

(** Changing a prompt in place drops nothing. *)
Lemma commit_touch now e v t tok tok' :
  keyed (approvals t) -> entries (approvals t) !! tok = Some e ->
  row_count tok' (commit now (touch now tok e v (approvals t)) t) = row_count tok' t.
Proof.
  intros Hk He. rewrite commit_rows by done. destruct (gone _ _ !! tok') as [e'|] eqn:G; [|done].
  apply gone_lookup in G as [He' Hs]. exfalso. apply Hs. simpl.
  destruct (decide (tok' = tok)) as [->|Hne].
  - rewrite lookup_insert_eq. simpl. congruence.
  - by rewrite lookup_insert_ne, He'.
Qed.

Lemma held_touch f now e v tok tok' st :
  held f tok' (touch now tok e v st) = if String.eqb tok tok' then f v else held f tok' st.
Proof.
  unfold held. simpl. destruct (String.eqb_spec tok tok') as [->|Hne].
  - by rewrite lookup_insert_eq.
  - by rewrite lookup_insert_ne.
Qed.

Lemma insert_lookup now tok v st k e :
  wf st -> entries (insert now tok v st) !! k = Some e ->
  k = tok /\ value e = v \/ k <> tok /\ entries st !! k = Some e.
Proof.
  intros Hwf Hk. pose proof (wf_cap _ Hwf).
  pose proof (insert_evicted now tok v st ltac:(lia)) as [Hsub _ _ _].
  apply (lookup_weaken _ _ _ _ Hk) in Hsub.
  apply inserted_lookup in Hsub as [[-> ->]|(Hne & Hin & _)]; [by left|by right].
Qed.

(** Parking a prompt: it will owe a row, and what it displaces gets one. *)
Lemma commit_insert now tok v t tok' :
  wf (approvals t) -> keyed (approvals t) ->
  (row_count tok' (commit now (insert now tok v (approvals t)) t) +
     held owes tok' (insert now tok v (approvals t)) =
   row_count tok' t + held owes tok' (approvals t) + if String.eqb tok tok' then owes v else 0)%nat.
Proof.
  intros Hwf Hk. rewrite commit_rows by done. set (st' := insert now tok v (approvals t)).
  pose proof (insert_keeps_new now tok v (approvals t) Hwf) as Hnew. fold st' in Hnew. unfold held.
  destruct (String.eqb_spec tok tok') as [<-|Hne].
  - rewrite Hnew. simpl. destruct (gone (approvals t) st' !! tok) as [e|] eqn:G.
    + apply gone_lookup in G as [-> _]. lia.
    + destruct (entries (approvals t) !! tok) as [e|] eqn:E; [|lia]. exfalso.
      assert (gone (approvals t) st' !! tok = Some e); [|congruence].
      apply gone_lookup. split; [done|]. rewrite Hnew. simpl.
      pose proof (wf_seq _ Hwf _ _ E). intros [=]. lia.
  - destruct (gone (approvals t) st' !! tok') as [e|] eqn:G.
    + apply gone_lookup in G as [He Hs]. rewrite He.
      destruct (entries st' !! tok') as [e'|] eqn:E'; [|lia].
      apply insert_lookup in E' as [[-> _]|[_ E']]; [done| |done].
      simpl in Hs. congruence.
    + destruct (entries st' !! tok') as [e'|] eqn:E'.
      * pose proof E' as E2. apply insert_lookup in E2 as [[-> _]|[_ E2]]; [done| |done]. rewrite E2. lia.
      * destruct (entries (approvals t) !! tok') as [e|] eqn:E; [|lia]. exfalso.
        assert (gone (approvals t) st' !! tok' = Some e); [|congruence].
        apply gone_lookup. by rewrite E'.
Qed.

Lemma held_insert f now tok v tok' st :
  wf st ->
  (held f tok' (insert now tok v st) <=
   if String.eqb tok tok' then f v else held f tok' st)%nat.
Proof.
  intros Hwf. unfold held. destruct (entries (insert now tok v st) !! tok') as [e|] eqn:E.
  - apply insert_lookup in E as [[-> <-]|[Hne E]]; [| |done].
    + by rewrite String.eqb_refl.
    + rewrite E. by destruct (String.eqb_spec tok tok').
  - lia.
Qed.

(** ** What the log says of a prompt *)

Definition count (f : op * outcome -> bool) (log : list (op * outcome)) : nat :=
  length (List.filter f log).

(** [tok] was given to a client as a prompt. *)
Definition is_start (tok : string) (x : op * outcome) : bool :=
  match x with (Start _ _ _ _ _, OStarted (Ok tok')) => String.eqb tok' tok | _ => false end.

(** The prompt was answered, or found unanswered too late, by a call sent again. *)
Definition is_answer (tok : string) (x : op * outcome) : bool :=
  match x with
  | (Poll _ _ _ tok' _ _ _ _, OPolled (Decided _ _ _ | Approved _ _ _ _ true)) => String.eqb tok' tok
  | _ => false
  end.

(** A call was told the outcome of the prompt, and records it. *)
Definition is_taken (tok : string) (x : op * outcome) : bool :=
  match x with
  | (Poll _ _ _ tok' _ _ _ _, OPolled (Stale _ _ | Decided _ _ _ | Approved _ _ _ _ true))
  | (TakeOver _ _ tok', OTakenOver (Some _)) => String.eqb tok' tok
  | _ => false
  end.

Definition sealed (start : Z) (c : Call) p : Prop :=
  name p = c_name c /\ args_hash p = c_args_hash c /\ scope p = c_scope c /\
  approved_fingerprint p = c_fingerprint c /\ reason p = c_reason c /\ started p = start.

(** The client accepted [p] before the timeout, for the call that [p] was raised for. *)
Definition accepted (log : list (op * outcome)) p : Prop :=
  exists l1 l2 now at_ later responses r,
    log = l1 ++ (Poll now at_ later (token p) (name p) (args_hash p) (scope p) responses, OPolled r) :: l2 /\
    accepts responses = true /\ since (started p) at_ < timeout.

Definition provenance (log : list (op * outcome)) p : Prop :=
  exists l1 l2 now start id c,
    log = l1 ++ (Start now start id false c, OStarted (Ok (token p))) :: l2 /\
    sealed start c p /\ (status p = ClientApproved -> accepted l2 p).

Record entry_ok (log : list (op * outcome)) (k : string) p : Prop := {
  ok_token : token p = k;
  ok_owes : (owes p <= waits p)%nat;
  ok_provenance : provenance log p
}.

Definition ledger (s a k : nat) (tok : string) t : Prop :=
  (row_count tok t + a + held waits tok (approvals t) <= s)%nat /\
  (s <= row_count tok t + k + held owes tok (approvals t))%nat.

(** The invariant, with [s], [a] and [k] the counts of starts, answers and outcomes taken. *)
Record inv' (log : list (op * outcome)) (s a k : string -> nat) t : Prop := {
  inv_wf : wf (approvals t);
  inv_params : cap (approvals t) = MODERN_HITL_MAX_PENDING /\ ttl (approvals t) = MODERN_HITL_RETENTION;
  inv_entry : forall tok e, entries (approvals t) !! tok = Some e -> entry_ok log tok (value e);
  inv_ledger : forall tok, ledger (s tok) (a tok) (k tok) tok t
}.

Definition inv log t : Prop :=
  inv' log (fun tok => count (is_start tok) log) (fun tok => count (is_answer tok) log)
    (fun tok => count (is_taken tok) log) t.

Lemma inv_keyed log s a k t : inv' log s a k t -> keyed (approvals t).
Proof. intros H tok e He. exact (ok_token _ _ _ (inv_entry _ _ _ _ _ H tok e He)). Qed.

Lemma accepted_snoc log x p : accepted log p -> accepted (log ++ [x]) p.
Proof.
  intros (l1 & l2 & now & at_ & later & rs & r & -> & H). exists l1, (l2 ++ [x]). exists now, at_, later, rs, r. split; [|done]. by rewrite <- app_assoc.
Qed.

Lemma provenance_snoc log x p : provenance log p -> provenance (log ++ [x]) p.
Proof.
  intros (l1 & l2 & now & start & id & c & -> & Hs & Ha). exists l1, (l2 ++ [x]), now, start, id, c.
  split_and!; [by rewrite <- app_assoc|done|]. intros Hst. apply accepted_snoc. auto.
Qed.

Lemma inv_log log x s a k t : inv' log s a k t -> inv' (log ++ [x]) s a k t.
Proof.
  intros [Hwf Hp He Hl]. split; try done. intros tok e Hin.
  destruct (He tok e Hin) as [Ht Ho Hpr]. split; [done..|]. by apply provenance_snoc.
Qed.

Lemma inv_eq log s a k s' a' k' t :
  inv' log s a k t -> (forall tok, s tok = s' tok /\ a tok = a' tok /\ k tok = k' tok) ->
  inv' log s' a' k' t.
Proof.
  intros [Hwf Hp He Hl] Heq. split; try done. intros tok. destruct (Heq tok) as (<- & <- & <-). apply Hl.
Qed.

Lemma inv_dropped now st' log s a k t :
  inv' log s a k t -> entries st' ⊆ entries (approvals t) ->
  st' = with_entries (approvals t) (entries st') -> inv' log s a k (commit now st' t).
Proof.
  intros Hinv Hsub Hst. pose proof (inv_keyed _ _ _ _ _ Hinv) as Hk.
  destruct Hinv as [Hwf Hp He Hl]. split; rewrite ?commit_approvals.
  - rewrite Hst. by apply wf_sub.
  - rewrite Hst. done.
  - intros tok e Hin. apply He. by eapply lookup_weaken.
  - intros tok. destruct (Hl tok) as [H1 H2].
    pose proof (commit_sub now st' t tok Hk Hsub) as Hc. unfold ledger. rewrite commit_approvals.
    pose proof (lookup_weaken (entries st') (entries (approvals t)) tok) as Hw.
    unfold held in *. destruct (entries st' !! tok) as [e'|].
    + rewrite (Hw e' eq_refl Hsub) in *. lia.
    + destruct (entries (approvals t) !! tok) as [e|] eqn:E; [|lia].
      pose proof (ok_owes _ _ _ (He _ _ E)). lia.
Qed.

Lemma inv_change now e v da dk tok log s a k t :
  inv' log s a k t -> entries (approvals t) !! tok = Some e -> entry_ok log tok v ->
  (waits v + da <= waits (value e))%nat -> (owes (value e) <= owes v + dk)%nat ->
  inv' log s (fun tok' => a tok' + if String.eqb tok tok' then da else 0)%nat
    (fun tok' => k tok' + if String.eqb tok tok' then dk else 0)%nat
    (commit now (touch now tok e v (approvals t)) t).
Proof.
  intros Hinv Hin Hv Ha Hk'. pose proof (inv_keyed _ _ _ _ _ Hinv) as Hk.
  destruct Hinv as [Hwf Hp He Hl]. split; rewrite ?commit_approvals.
  - by apply wf_touch.
  - done.
  - intros tok' e' Hin'. simpl in Hin'. apply lookup_insert_Some in Hin' as [[<- <-]|[_ Hin']]; [done|]. by apply He.
  - intros tok'. destruct (Hl tok') as [H1 H2]. unfold ledger.
    rewrite commit_approvals, (commit_touch _ _ _ _ _ _ Hk Hin), !held_touch.
    destruct (String.eqb_spec tok tok') as [<-|Hne]; [|lia].
    unfold held in *. rewrite Hin in *. lia.
Qed.

(** A prompt whose outcome was taken is removed: no row is written for it. *)
Lemma inv_close now e v da dk tok log s a k t :
  inv' log s a k t -> entries (approvals t) !! tok = Some e -> token v = tok -> owes v = 0%nat ->
  (da <= waits (value e))%nat -> (owes (value e) <= dk)%nat ->
  inv' log s (fun tok' => a tok' + if String.eqb tok tok' then da else 0)%nat
    (fun tok' => k tok' + if String.eqb tok tok' then dk else 0)%nat
    (remove_prompt now tok (commit now (touch now tok e v (approvals t)) t)).
Proof.
  intros Hinv Hin Hv Hov Ha Hk'. pose proof (inv_keyed _ _ _ _ _ Hinv) as Hk.
  destruct Hinv as [Hwf Hp He Hl]. set (t1 := commit now (touch now tok e v (approvals t)) t).
  assert (Ht1 : approvals t1 = touch now tok e v (approvals t)) by apply commit_approvals.
  assert (Hk1 : keyed (approvals t1)).
  { rewrite Ht1. intros k' e' Hk'0. simpl in Hk'0.
    apply lookup_insert_Some in Hk'0 as [[<- <-]|[_ Hin']]; [done|]. by apply (Hk k' e'). }
  assert (Hsub : entries (remove tok (approvals t1)).2 ⊆ entries (approvals t1)) by apply delete_subseteq.
  unfold ModernHitl.remove_prompt. split; rewrite ?commit_approvals.
  - apply wf_sub; [|apply delete_subseteq]. rewrite Ht1. by apply wf_touch.
  - rewrite Ht1. done.
  - intros tok' e'. rewrite Ht1. simpl. intros [Hne Hin']%lookup_delete_Some.
    rewrite lookup_insert_ne in Hin' by done. by apply He.
  - intros tok'. destruct (Hl tok') as [H1 H2]. unfold ledger. rewrite commit_approvals.
    pose proof (commit_sub now _ t1 tok' Hk1 Hsub) as Hc.
    assert (Hr : row_count tok' t1 = row_count tok' t) by by apply commit_touch.
    rewrite Hr, Ht1, held_touch in Hc.
    rewrite Ht1. unfold held in *. simpl in *.
    destruct (String.eqb_spec tok tok') as [<-|Hne].
    + rewrite lookup_delete_eq in *. rewrite Hin in *. lia.
    + rewrite lookup_delete_ne, lookup_insert_ne in * by done. lia.
Qed.

Lemma inv_parked now tok v log s a k t :
  inv' log s a k t -> next_seq (approvals t) < u64_max -> entry_ok log tok v ->
  owes v = 1%nat -> waits v = 1%nat ->
  inv' log (fun tok' => s tok' + if String.eqb tok tok' then 1 else 0)%nat a k
    (commit now (insert now tok v (approvals t)) t).
Proof.
  intros Hinv Hmax Hv Ho Hw. pose proof (inv_keyed _ _ _ _ _ Hinv) as Hk.
  destruct Hinv as [Hwf Hp He Hl]. pose proof (wf_cap _ Hwf).
  pose proof (insert_evicted now tok v (approvals t) ltac:(lia)) as [_ (Ht & Hc & _) _ _].
  split; rewrite ?commit_approvals.
  - by apply wf_insert.
  - rewrite Ht, Hc. done.
  - intros tok' e [[-> <-]|[_ Hin]]%insert_lookup; [done| |done]. by apply He.
  - intros tok'. destruct (Hl tok') as [H1 H2]. unfold ledger. rewrite commit_approvals.
    pose proof (commit_insert now tok v t tok' Hwf Hk) as Hci.
    pose proof (held_insert waits now tok v tok' (approvals t) Hwf) as Hhi.
    assert (held owes tok' (approvals t) <= held waits tok' (approvals t))%nat.
    { unfold held. destruct (entries (approvals t) !! tok') eqn:E; [|lia]. exact (ok_owes _ _ _ (He _ _ E)). }
    pose proof (held_insert owes now tok v tok' (approvals t) Hwf).
    destruct (String.eqb_spec tok tok') as [<-|Hne]; [|].
    + unfold held in *. rewrite (insert_keeps_new now tok v (approvals t) Hwf) in *. simpl in *. lia.
    + set (st' := insert now tok v (approvals t)) in *.
      assert (held owes tok' st' = held owes tok' (approvals t) /\ held waits tok' st' = held waits tok' (approvals t)
        \/ held owes tok' st' = 0 /\ held waits tok' st' = 0)%nat; [|lia].
      unfold held. destruct (entries st' !! tok') as [e|] eqn:E; [|by right].
      left. apply insert_lookup in E as [[-> _]|[_ ->]]; done.
Qed.

(** ** Every step keeps the invariant *)

Definition answers (r : ModernHitlPoll) : nat :=
  match r with Decided _ _ _ | Approved _ _ _ _ true => 1%nat | _ => 0%nat end.

Definition takes (r : ModernHitlPoll) : nat :=
  match r with Stale _ _ | Decided _ _ _ | Approved _ _ _ _ true => 1%nat | _ => 0%nat end.

Lemma count_snoc f log x : count f (log ++ [x]) = (count f log + if f x then 1 else 0)%nat.
Proof. unfold count. rewrite List.filter_app, length_app. simpl. destruct (f x); simpl; lia. Qed.

Lemma entry_ok_change log tok p p' :
  entry_ok log tok p -> token p' = token p -> name p' = name p -> args_hash p' = args_hash p ->
  scope p' = scope p -> approved_fingerprint p' = approved_fingerprint p -> reason p' = reason p ->
  started p' = started p -> status p' = status p -> (owes p' <= owes p)%nat -> entry_ok log tok p'.
Proof.
  intros [Ht Ho (l1 & l2 & now & start & id & c & -> & Hs & Ha)] E1 E2 E3 E4 E5 E6 E7 E8 E9. split.
  - congruence.
  - unfold waits in *. rewrite E8. lia.
  - exists l1, l2, now, start, id, c. split_and!; [by rewrite E1| |].
    + unfold sealed in *. by rewrite E2, E3, E4, E5, E6, E7.
    + unfold accepted in *. rewrite E8, E1, E2, E3, E4, E7. done.
Qed.

Lemma entry_ok_approve log tok p now at_ later responses r :
  entry_ok log tok p -> status p = AwaitingClient -> accepts responses = true ->
  since (started p) at_ < timeout ->
  entry_ok (log ++ [(Poll now at_ later (token p) (name p) (args_hash p) (scope p) responses, OPolled r)])
    tok (with_status ClientApproved (forget_audit p)).
Proof.
  intros [Ht Ho (l1 & l2 & now0 & start & id & c & -> & Hs & Ha)] Hst Hacc Hin. split; [done|done|].
  eexists l1, (l2 ++ [_]), now0, start, id, c. split_and!; [by rewrite <- app_assoc|done|].
  intros _. exists l2, [], now, at_, later, responses, r. done.
Qed.

Lemma poll_prompt_ok log now at_ later tok name' args_hash' scope' responses p p' r b :
  entry_ok log tok p ->
  poll_prompt at_ later name' args_hash' scope' responses p = (p', (r, b)) ->
  let x := (Poll now at_ later tok name' args_hash' scope' responses, OPolled r) in
  entry_ok (log ++ [x]) tok p' /\ 
  ((if b then 0 else waits p') + answers r <= waits p)%nat /\
  (owes p <= owes p' + takes r)%nat /\ (b = true -> owes p' = 0%nat).
Proof.
  intros Hok Heq x. pose proof (ok_owes _ _ _ Hok) as Ho.
  assert (Hok' : entry_ok (log ++ [x]) tok p).
  { destruct Hok as [? ? Hp]. split; [done..|]. by apply provenance_snoc. }
  assert (Ho1 : (owes p <= 1)%nat) by (unfold owes; destruct (abandoned_audit p); lia).
  assert (Hoff : entry_ok (log ++ [x]) tok (forget_audit p)).
  { eapply entry_ok_change; [exact Hok'|done..|]. unfold owes. simpl. lia. }
  unfold poll_prompt in Heq.
  destruct (negb (String.eqb (name p) name') || _ || _) eqn:Em.
  { injection Heq as <- <- <-. split_and!; [done|simpl; lia|simpl; lia|done]. }
  apply orb_false_iff in Em as [[E1 E2]%orb_false_iff E3].
  apply negb_false_iff, String.eqb_eq in E1, E2, E3. subst name' args_hash' scope'.
  destruct (status p) eqn:Hst.
  - assert (Hw : waits p = 1%nat) by (unfold waits; by rewrite Hst).
    destruct (Z.leb_spec timeout (since (started p) at_)).
    { injection Heq as <- <- <-. split_and!; [done|simpl; lia|simpl; lia|done]. }
    destruct (responses ≫= Json.get "toolport_approval") as [response|] eqn:Hr.
    + destruct (answer_accepts response) eqn:Hacc.
      * injection Heq as <- <- <-. split_and!; [|rewrite Hw; simpl; done|simpl; lia|done].
        eapply entry_ok_change with (p := with_status ClientApproved (forget_audit p)); [|done..].
        subst x. destruct Hok as [<- ? ?]. apply entry_ok_approve; try done.
        unfold accepts. by rewrite Hr.
      * injection Heq as <- <- <-. split_and!; [done|simpl; lia|simpl; lia|done].
    + injection Heq as <- <- <-. split_and!; [done|simpl; lia|simpl; lia|done].
  - injection Heq as <- <- <-. split_and!; [|unfold waits; simpl; rewrite Hst; lia|simpl; unfold owes; simpl; lia|done].
    eapply entry_ok_change; [exact Hok'|done..].
Qed.

Lemma inv_snoc log x s a k t :
  inv' (log ++ [x]) s a k t ->
  (forall tok, s tok = (count (is_start tok) log + if is_start tok x then 1 else 0)%nat /\
     a tok = (count (is_answer tok) log + if is_answer tok x then 1 else 0)%nat /\
     k tok = (count (is_taken tok) log + if is_taken tok x then 1 else 0)%nat) ->
  inv (log ++ [x]) t.
Proof. intros Hinv Heq. eapply inv_eq; [exact Hinv|]. intros tok. rewrite !count_snoc. apply Heq. Qed.

(** A step that only drops prompts. *)
Lemma inv_quiet log x now st' t :
  inv log t -> entries st' ⊆ entries (approvals t) ->
  st' = with_entries (approvals t) (entries st') ->
  (forall tok, is_start tok x = false /\ is_answer tok x = false /\ is_taken tok x = false) ->
  inv (log ++ [x]) (commit now st' t).
Proof.
  intros Hinv Hsub Hst Hq. eapply inv_snoc; [apply inv_log; by apply inv_dropped|].
  intros tok. destruct (Hq tok) as (-> & -> & ->). rewrite !Nat.add_0_r. done.
Qed.

Lemma inv_idle log x t :
  inv log t ->
  (forall tok, is_start tok x = false /\ is_answer tok x = false /\ is_taken tok x = false) ->
  inv (log ++ [x]) t.
Proof.
  intros Hinv Hq. eapply inv_snoc; [by apply inv_log|].
  intros tok. destruct (Hq tok) as (-> & -> & ->). rewrite !Nat.add_0_r. done.
Qed.

Lemma inv_start log now start id cancelled c t r t' :
  inv log t -> next_seq (approvals t) < u64_max ->
  start_modern_hitl iter to_string now start id cancelled c t = (r, t') ->
  inv (log ++ [(Start now start id cancelled c, OStarted r)]) t'.
Proof.
  intros Hinv Hmax. unfold start_modern_hitl. set (t0 := ModernHitl.commit _ _ _ t).
  assert (Hd : inv log t0) by (apply inv_dropped; [done|apply map_filter_subseteq|done]).
  destruct cancelled; [intros [= <- <-]; by apply inv_idle|].
  destruct (_ <=? _); [intros [= <- <-]; by apply inv_idle|]. intros [= <- <-].
  eapply inv_snoc; [apply inv_parked; [by apply inv_log| | |done|done]|].
  - subst t0. by rewrite commit_approvals.
  - split; [done|done|]. eexists log, [], now, start, id, c. done.
  - intros tok. cbn [is_start is_answer is_taken]. by rewrite !Nat.add_0_r.
Qed.

Lemma inv_poll log now at_ later tok name' args_hash' scope' responses t r t' :
  inv log t ->
  poll_modern_hitl iter now at_ later tok name' args_hash' scope' responses t = (r, t') ->
  inv (log ++ [(Poll now at_ later tok name' args_hash' scope' responses, OPolled r)]) t'.
Proof.
  intros Hinv. unfold poll_modern_hitl.
  set (f := poll_prompt at_ later name' args_hash' scope' responses).
  destruct (with_value_cases now tok f (approvals t)) as [(st' & -> & Hsub & Hst)|(e & He & _ & ->)].
  { intros [= <- <-]. by apply inv_quiet. }
  destruct (f (value e)) as [p' [poll b]] eqn:Hf. cbn [fst snd default]. intros Heq.
  pose proof (inv_entry _ _ _ _ _ Hinv _ _ He) as Hok.
  pose proof (poll_prompt_ok log now _ _ tok _ _ _ _ _ _ _ _ Hok Hf) as (Hok' & Hw & Ho & Hb).
  apply (inv_log _ (Poll now at_ later tok name' args_hash' scope' responses, OPolled poll)) in Hinv.
  destruct b; cbn [id] in Heq; injection Heq as <- <-; eapply inv_snoc.
  - eapply (inv_close now e p' (answers poll) (takes poll)); [exact Hinv|done| |auto|lia|].
    + exact (ok_token _ _ _ Hok').
    + rewrite (Hb eq_refl) in Ho. done.
  - intros tok'. destruct poll as [| | | |? ? ? ? []]; simpl; by destruct (String.eqb tok tok').
  - eapply (inv_change now e p' (answers poll) (takes poll)); done.
  - intros tok'. destruct poll as [| | | |? ? ? ? []]; simpl; by destruct (String.eqb tok tok').
Qed.

Lemma inv_exec log o t r t' :
  inv log t -> next_seq (approvals t) < u64_max -> exec o t = (r, t') -> inv (log ++ [(o, r)]) t'.
Proof.
  intros Hinv Hmax. unfold ModernHitl.exec. destruct o as [now start id cancelled c|now at_ later tok n h sc rs|
    now tok result|now tok|now later tok|now sc|now id].
  - destruct (start_modern_hitl _ _ _ _ _ _ _ _) eqn:E. intros [= <- <-]. by eapply inv_start.
  - destruct (poll_modern_hitl _ _ _ _ _ _ _ _ _ _) eqn:E. intros [= <- <-]. by eapply inv_poll.
  - unfold update_modern_hitl_downstream. set (f := fun _ => _).
    destruct (with_value_cases now tok f (approvals t)) as [(st' & -> & Hsub & Hst)|(e & He & _ & ->)];
      intros [= <- <-]; [by apply inv_quiet|].
    pose proof (inv_entry _ _ _ _ _ Hinv _ _ He) as Hok.
    eapply inv_snoc; [eapply (inv_change now e _ 0 0); [by apply inv_log|done| |simpl; unfold waits; simpl; lia|]|].
    + apply (entry_ok_change _ _ (value e)); [|done..]. destruct Hok as [? ? ?].
      split; [done..|]. by apply provenance_snoc.
    + unfold owes. simpl. lia.
    + intros tok'. simpl. destruct (String.eqb tok tok'); lia.
  - unfold finish_modern_hitl. destruct tok as [tok|]; intros [= <- <-]; [|by apply inv_idle].
    apply inv_quiet; [done|apply delete_subseteq|done|done].
  - unfold take_over. set (f := fun _ => _).
    destruct (with_value_cases now tok f (approvals t)) as [(st' & -> & Hsub & Hst)|(e & He & _ & ->)];
      intros [= <- <-]; [by apply inv_quiet|].
    pose proof (inv_entry _ _ _ _ _ Hinv _ _ He) as Hok.
    eapply inv_snoc; [eapply (inv_change now e _ 0 1); [by apply inv_log|done| |simpl; unfold waits; simpl; lia|]|].
    + apply (entry_ok_change _ _ (value e)); [|done..|unfold owes; simpl; lia]. destruct Hok as [? ? ?].
      split; [done..|]. by apply provenance_snoc.
    + unfold owes. simpl. destruct (abandoned_audit (value e)); lia.
    + intros tok'. simpl. destruct (String.eqb tok tok'); lia.
  - unfold clear_scope. intros [= <- <-]. apply inv_quiet; [done|apply map_filter_subseteq|done|done].
  - intros [= <- <-]. apply inv_quiet; [done|apply delete_subseteq|done|done].
Qed.

Lemma with_value_next {R} now tok (f : ModernHitlApproval -> ModernHitlApproval * R) st :
  next_seq (with_value now tok f st).2 = next_seq st.
Proof.
  unfold with_value. destruct (is_expired now st tok); [done|]. destruct (entries st !! tok) as [e|]; [|done].
  by destruct (f (value e)).
Qed.

Lemma exec_next o t :
  wf (approvals t) -> next_seq (approvals (exec o t).2) <= next_seq (approvals t) + 1.
Proof.
  intros Hwf. pose proof (wf_next _ Hwf) as Hn. pose proof (wf_cap _ Hwf). unfold ModernHitl.exec.
  destruct o as [now start id cancelled c|now at_ later tok n h sc rs|now tok result|now tok|now later tok|now sc|now id];
    cbn [snd].
  - unfold start_modern_hitl. destruct cancelled; [|destruct (_ <=? _)]; cbn [fst snd];
      rewrite ?commit_approvals; [cbn; lia..|].
    match goal with |- context [insert ?n ?k ?v ?s] =>
      pose proof (insert_evicted n k v s ltac:(cbn; lia)) as [_ (_ & _ & Hs) _ _] end.
    rewrite Hs. cbn. unfold wrap64. etrans; [apply Z.mod_le|]; unfold u64_max in *; lia.
  - unfold poll_modern_hitl. pose proof (with_value_next now tok (poll_prompt at_ later n h sc rs) (approvals t)) as Hw.
    destruct (with_value _ _ _ _) as [x st']. cbn [snd] in Hw.
    destruct (default _ x) as [poll []]; cbn; unfold ModernHitl.remove_prompt; rewrite ?commit_approvals; cbn; lia.
  - unfold update_modern_hitl_downstream. match goal with |- context [with_value ?a ?b ?f ?s] =>
      pose proof (with_value_next a b f s) as Hw; destruct (with_value a b f s) as [x st'] end.
    cbn in *. rewrite commit_approvals. lia.
  - destruct tok; cbn; unfold ModernHitl.remove_prompt; rewrite ?commit_approvals; cbn; lia.
  - unfold take_over. match goal with |- context [with_value ?a ?b ?f ?s] =>
      pose proof (with_value_next a b f s) as Hw; destruct (with_value a b f s) as [x st'] end.
    cbn in *. rewrite commit_approvals. lia.
  - unfold clear_scope. rewrite commit_approvals. cbn. lia.
  - unfold ModernHitl.remove_prompt. rewrite commit_approvals. cbn. lia.
Qed.

(** The insertion counter does not wrap in fewer than 2^64 steps. *)
Lemma reached_counted log t :
  reached log t -> Z.of_nat (length log) < u64_max ->
  inv log t /\ next_seq (approvals t) <= Z.of_nat (length log).
Proof.
  induction 1 as [|log t o r t' _ IH He]; intros Hlen.
  { split; [|done]. split; [|done|by intros ? ? ?|by intros tok].
    split; simpl; [done|by intros ? ? ?|by intros ? ? ? ? ?|]. unfold u64_max. lia. }
  rewrite length_app in *. cbn [length] in *. destruct IH as [Hinv Hn]; [lia|]. split.
  - eapply inv_exec; [done|lia|done].
  - pose proof (exec_next o t (inv_wf _ _ _ _ _ Hinv)) as Hx. rewrite He in Hx. simpl in Hx. lia.
Qed.

Lemma reached_inv log t : reached log t -> Z.of_nat (length log) < u64_max -> inv log t.
Proof. intros Hr Hl. by destruct (reached_counted log t Hr Hl). Qed.

(** ** What an approval rests on *)

(** A prompt was raised for the call [name'] in the conversation [scope'], with the arguments
    of [args_hash'], and the client accepted it for that call within the timeout: in the
    poll made at [at_] with [responses] when [newly], else in one since. *)
Definition prompt_accepted (log : list (op * outcome)) (tok name' args_hash' scope' : string) (fp : option string)
    (why : Approval.ApprovalReason) (at_ : Z) (responses : option json) (newly : bool) : Prop :=
  exists l1 l2 raised start id c,
    log = l1 ++ (Start raised start id false c, OStarted (Ok tok)) :: l2 /\
    c_name c = name' /\ c_args_hash c = args_hash' /\ c_scope c = scope' /\
    c_fingerprint c = fp /\ c_reason c = why /\
    exists answered responses', accepts responses' = true /\ since start answered < timeout /\
      (newly = true /\ answered = at_ /\ responses' = responses \/
       newly = false /\ exists l3 l4 now' later' r,
         l2 = l3 ++ (Poll now' answered later' tok name' args_hash' scope' responses', OPolled r) :: l4).

Lemma poll_approved log t now at_ later tok name' args_hash' scope' responses fp why ms down newly t' :
  reached log t -> Z.of_nat (length log) < u64_max ->
  poll_modern_hitl iter now at_ later tok name' args_hash' scope' responses t =
    (Approved fp why ms down newly, t') ->
  prompt_accepted log tok name' args_hash' scope' fp why at_ responses newly.
Proof.
  intros Hr Hlen Heq. apply reached_inv in Hr; [|done]. unfold poll_modern_hitl in Heq.
  set (f := poll_prompt at_ later name' args_hash' scope' responses) in Heq.
  destruct (with_value_cases now tok f (approvals t)) as [(st' & E & _)|(e & He & _ & E)];
    rewrite E in Heq; [done|].
  destruct (f (value e)) as [p' [poll b]] eqn:Hf. cbn [fst snd default id] in Heq.
  destruct (inv_entry _ _ _ _ _ Hr _ _ He) as [<- _ (l1 & l2 & raised & start & id & c & -> & Hs & Ha)].
  assert (poll = Approved fp why ms down newly) as -> by (destruct b; congruence).
  set (p := value e) in *. destruct Hs as (Hn & Hh & Hsc & Hfp & Hre & Hst). subst f. unfold poll_prompt in Hf.
  destruct (negb (String.eqb (name p) name') || _ || _) eqn:Em; [done|].
  apply orb_false_iff in Em as [[E1 E2]%orb_false_iff E3].
  apply negb_false_iff, String.eqb_eq in E1, E2, E3.
  exists l1, l2, raised, start, id, c. unfold resume in Hf. rewrite Hst in *.
  destruct (status p).
  - destruct (Z.leb_spec timeout (since start at_)); [done|].
    destruct (responses ≫= Json.get "toolport_approval") as [response|] eqn:Hrs; [|done].
    destruct (answer_accepts response) eqn:Hacc; [|done]. injection Hf as _ <- <- _ _ <- _. simpl.
    split_and!; try congruence. exists at_, responses. split_and!; [|lia|by left].
    unfold accepts. by rewrite Hrs.
  - injection Hf as _ <- <- _ _ <- _. simpl. split_and!; try congruence.
    destruct (Ha eq_refl) as (l3 & l4 & now' & at' & later' & rs' & r & -> & Hacc & Hin).
    rewrite E1, E2, E3 in *. exists at', rs'. split_and!; [done|by rewrite Hst in Hin|]. right. split; [done|].
    exists l3, l4, now', later', r. done.
Qed.

Lemma poll_decided t now at_ later tok name' args_hash' scope' responses d ms why t' :
  poll_modern_hitl iter now at_ later tok name' args_hash' scope' responses t = (Decided d ms why, t') ->
  d <> Approval.Approved.
Proof.
  unfold poll_modern_hitl. set (f := poll_prompt at_ later name' args_hash' scope' responses).
  destruct (with_value_cases now tok f (approvals t)) as [(st' & -> & _)|(e & _ & _ & ->)]; [done|].
  destruct (f (value e)) as [p' [poll b]] eqn:Hf. cbn [fst snd default id]. intros H.
  assert (poll = Decided d ms why) as -> by (destruct b; congruence).
  subst f. unfold poll_prompt in Hf. destruct (negb _ || _ || _); [done|].
  destruct (status _); [|by unfold resume in Hf].
  destruct (_ <=? _); [by injection Hf as _ <- _ _ _|].
  destruct (responses ≫= _) as [response|]; [|done].
  destruct (answer_accepts response); [by unfold resume in Hf|]. by injection Hf as _ <- _ _ _.
Qed.

(** C2. A call that comes with a token is told it is approved only when a prompt was raised
    for the same call in the same conversation, with the same arguments' hash, and the
    client accepted it for that call within the timeout: in this poll, or in one since
    the prompt was raised. *)
Theorem approved_by_client log t now at_ later tok name' args_hash' scope' responses fp why ms down newly t' :
  reached log t -> Z.of_nat (length log) < u64_max ->
  poll_modern_hitl iter now at_ later tok name' args_hash' scope' responses t =
    (Approved fp why ms down newly, t') ->
  prompt_accepted log tok name' args_hash' scope' fp why at_ responses newly.
Proof. apply poll_approved. Qed.

(** C35. Every prompt has an outcome and no prompt has two: of the times a token was given out,
    each is still waiting, or its outcome was taken by a call, or [Drop] wrote a row; and
    [Drop] never writes one for a prompt that was answered. *)
Theorem one_outcome_per_prompt log t tok :
  reached log t -> Z.of_nat (length log) < u64_max ->
  (row_count tok t + count (is_answer tok) log <= count (is_start tok) log)%nat /\
  (count (is_start tok) log <=
     row_count tok t + count (is_taken tok) log + held owes tok (approvals t))%nat.
Proof. intros Hr Hl. destruct (inv_ledger _ _ _ _ _ (reached_inv _ _ Hr Hl) tok). lia. Qed.

(** ** What a start does to the other prompts *)

Lemma commit_live now now' st' t : live now (approvals (commit now' st' t)) = live now st'.
Proof. by rewrite commit_approvals. Qed.

(** A prompt is never parked at the cost of another that is waiting: a start adds its own
    and leaves every other that has not expired, or it changes none and says why. *)
Theorem start_displaces_nothing log t now start id cancelled c r t' :
  reached log t -> Z.of_nat (length log) < u64_max ->
  start_modern_hitl iter to_string now start id cancelled c t = (r, t') ->
  let before := live now (approvals t) in
  let after := live now (approvals t') in
  match r with
  | Ok tok => cancelled = false /\ tok = modern_token id /\ Z.of_nat (size before) < MODERN_HITL_MAX_PENDING /\
      after = <[tok := prompt_for to_string start tok c]> before
  | Err d => after = before /\
      (d = Approval.Withdrawn /\ cancelled = true \/
       d = Approval.Unreachable /\ cancelled = false /\ MODERN_HITL_MAX_PENDING <= Z.of_nat (size before))
  end.
Proof.
  intros Hr Hlen. pose proof (reached_inv _ _ Hr Hlen) as Hinv. destruct (inv_params _ _ _ _ _ Hinv) as [Hcap Httl].
  unfold start_modern_hitl. set (st0 := (reap_expired now (approvals t)).2).
  assert (Hlive : live now st0 = live now (approvals t)) by apply reap_expired_live.
  assert (Hlen0 : len st0 = Z.of_nat (size (live now (approvals t)))).
  { rewrite <- Hlive. unfold len. f_equal. rewrite <- (map_size_fmap value (entries st0)). f_equal.
    apply map_eq. intros k. rewrite live_lookup, lookup_fmap.
    destruct (entries st0 !! k) as [e|] eqn:E; [|done]. simpl.
    apply reap_expired_lookup in E as [_ E]. change (ttl st0) with (ttl (approvals t)).
    by destruct (Z.ltb_spec (elapsed now e) (ttl (approvals t))); [|lia]. }
  rewrite !commit_approvals. destruct cancelled.
  { intros [= <- <-]. rewrite commit_live. auto. }
  destruct (Z.leb_spec MODERN_HITL_MAX_PENDING (len st0)).
  { intros [= <- <-]. rewrite commit_live. split; [done|]. right. rewrite <- Hlen0. auto. }
  intros [= <- <-]. split_and!; [done|done|lia|]. rewrite commit_live, insert_below_cap.
  - rewrite <- Hlive. apply inserted_live. change (ttl st0) with (ttl (approvals t)). by rewrite Httl.
  - change (cap st0) with (cap (approvals t)). lia.
Qed.

(** The table never holds more than the cap. *)
Lemma prompts_bounded log t : reached log t -> Z.of_nat (length log) < u64_max -> len (approvals t) <= MODERN_HITL_MAX_PENDING.
Proof.
  intros Hr. induction Hr as [|log t o r t' Hr IH He]; intros Hlen; [done|].
  rewrite length_app in Hlen. cbn [length] in Hlen. specialize (IH ltac:(lia)).
  pose proof (reached_inv _ _ Hr ltac:(lia)) as Hinv. destruct (inv_params _ _ _ _ _ Hinv) as [Hcap Httl].
  assert (Hsub : forall now st', entries st' ⊆ entries (approvals t) -> len st' <= len (approvals t) ->
    len (approvals (commit now st' t)) <= MODERN_HITL_MAX_PENDING) by (intros; rewrite commit_approvals; lia).
  pose proof (fun R now tok f => proj2 (wf_with_value (R := R) now tok f (approvals t) (inv_wf _ _ _ _ _ Hinv))) as Hwv.
  unfold ModernHitl.exec in He. destruct o as [now start id cancelled c|now at_ later tok n h sc rs|
    now tok result|now tok|now later tok|now sc|now id].
  - unfold start_modern_hitl in He.
    assert (len (reap_expired now (approvals t)).2 <= len (approvals t)) by apply len_sub, map_filter_subseteq.
    destruct cancelled; [|destruct (_ <=? _) eqn:E]; injection He as <- <-; rewrite !commit_approvals; [etrans; eassumption|etrans; eassumption|].
    etrans; [apply len_insert|]; simpl; rewrite Hcap; done.
  - destruct (poll_modern_hitl _ _ _ _ _ _ _ _ _ _) eqn:E. injection He as <- <-.
    unfold poll_modern_hitl in E. specialize (Hwv _ now tok (poll_prompt at_ later n h sc rs)).
    destruct (with_value _ _ _ _) as [x st']. destruct (default _ x) as [poll []]; injection E as <- <-;
      unfold ModernHitl.remove_prompt; rewrite !commit_approvals; [|simpl in Hwv; lia].
    pose proof (len_sub st' (delete tok (entries st')) (delete_subseteq _ _)). simpl in *. lia.
  - unfold update_modern_hitl_downstream in He. specialize (Hwv _ now tok (fun p =>
      (with_downstream {| Release.input_responses := None;
                          Release.request_state := Json.get "requestState" result |} p, ()))).
    destruct (with_value _ _ _ _) as [x st']. injection He as <- <-. rewrite commit_approvals. simpl in Hwv. lia.
  - destruct tok as [tok|]; injection He as <- <-; [|done].
    apply Hsub; [apply delete_subseteq|apply len_sub, delete_subseteq].
  - unfold take_over in He. specialize (Hwv _ now tok (fun p => (forget_audit p, millis (since (started p) later)))).
    destruct (with_value _ _ _ _) as [x st']. injection He as <- <-. rewrite commit_approvals. simpl in Hwv. lia.
  - injection He as <- <-. apply Hsub; [apply map_filter_subseteq|apply len_sub, map_filter_subseteq].
  - injection He as <- <-. apply Hsub; [apply delete_subseteq|apply len_sub, delete_subseteq].
Qed.

(** ** What goes on to the server *)

(** The answer to Toolport's own prompt stays with Toolport, and the other answers go on. *)
Lemma downstream_responses_spec responses k :
  (downstream_input_responses (Some (JObject responses)) ≫= Json.get k) =
  if String.eqb k "toolport_approval" then None else obj_get k responses.
Proof.
  cbn [downstream_input_responses]. set (l := obj_remove "toolport_approval" responses).
  assert (Hl : obj_get k l = if String.eqb k "toolport_approval" then None else obj_get k responses).
  { subst l. unfold obj_remove. induction responses as [|[k' v] l IH]; cbn [List.filter obj_get].
    - by destruct (String.eqb k _).
    - cbn [fst]. destruct (String.eqb_spec "toolport_approval" k') as [<-|Hne]; cbn [negb obj_get].
      + rewrite IH. by destruct (String.eqb k "toolport_approval") eqn:E.
      + rewrite IH. destruct (String.eqb_spec k k') as [->|]; [|done].
        by destruct (String.eqb_spec k' "toolport_approval") as [->|]. }
  case_bool_decide as E; simpl; [|exact Hl]. rewrite E in Hl. exact Hl.
Qed.

(** An approval outlives the call that brought the answer: until the call is finished, the
    same call with the token is approved again, whatever it answers, as long as it comes
    within the retention; once finished, the token is unknown. *)
Theorem approval_lasts_until_finished log t now at_ later tok name' args_hash' scope' responses
    fp why ms down newly t' :
  reached log t -> Z.of_nat (length log) < u64_max ->
  poll_modern_hitl iter now at_ later tok name' args_hash' scope' responses t =
    (Approved fp why ms down newly, t') ->
  (forall now' at' later' responses', now' - now < MODERN_HITL_RETENTION -> exists ms' down',
     (poll_modern_hitl iter now' at' later' tok name' args_hash' scope' responses' t').1 =
     Approved fp why ms' down' false) /\
  (forall now1 now2 at' later' responses',
     (poll_modern_hitl iter now2 at' later' tok name' args_hash' scope' responses'
        (finish_modern_hitl iter now1 (Some tok) t')).1 = Missing).
Proof.
  intros Hr Hlen Heq. apply reached_inv in Hr; [|done]. destruct (inv_params _ _ _ _ _ Hr) as [_ Httl].
  split; [|intros now1 now2 at' later' responses'; unfold poll_modern_hitl, finish_modern_hitl, ModernHitl.remove_prompt;
    rewrite commit_approvals; unfold with_value, is_expired; simpl; by rewrite lookup_delete_eq].
  intros now' at' later' responses' Hin. unfold poll_modern_hitl in Heq.
  set (f := poll_prompt at_ later name' args_hash' scope' responses) in Heq.
  destruct (with_value_cases now tok f (approvals t)) as [(st' & E & _)|(e & He & _ & E)];
    rewrite E in Heq; [done|].
  destruct (f (value e)) as [p' [poll b]] eqn:Hf. cbn [fst snd default id] in Heq.
  assert (poll = Approved fp why ms down newly) as -> by (destruct b; congruence).
  assert (b = false /\ name p' = name' /\ args_hash p' = args_hash' /\ scope p' = scope' /\
    status p' = ClientApproved /\ approved_fingerprint p' = fp /\ reason p' = why) as
    (-> & Hn & Hh & Hs & Hst & Hfp & Hwhy).
  { subst f. unfold poll_prompt in Hf.
    destruct (negb (String.eqb (name _) name') || _ || _) eqn:Em; [done|].
    apply orb_false_iff in Em as [[E1 E2]%orb_false_iff E3].
    apply negb_false_iff, String.eqb_eq in E1, E2, E3. unfold resume in Hf.
    destruct (status (value e)) eqn:Hst.
    - destruct (timeout <=? _); [done|]. destruct (responses ≫= _) as [response|]; [|done].
      destruct (answer_accepts response); [|done]. by injection Hf as <- <- <- _ _ _ <-.
    - by injection Hf as <- <- <- _ _ _ <-. }
  injection Heq as <-. unfold poll_modern_hitl, with_value, is_expired. rewrite commit_approvals. simpl.
  rewrite lookup_insert_eq. unfold elapsed. simpl. rewrite Httl.
  destruct (Z.leb_spec MODERN_HITL_RETENTION (Z.max 0 (now' - now))) as [Hle|_].
  { unfold MODERN_HITL_RETENTION, Approval.DEFAULT_TIMEOUT_SECS, second in *. lia. }
  unfold poll_prompt. rewrite Hn, Hh, Hs, Hst, !String.eqb_refl. simpl.
  rewrite Hfp, Hwhy. eauto.
Qed.
End theory.

(** ** Concrete inputs *)

Definition demo_args : json := obj [("id", JString "7")].

Definition demo_call : Call :=
  {| c_name := "crm__delete"; c_args_hash := "a1"; c_fingerprint := Some "f1";
     c_reason := Approval.Destructive; c_client := None; c_client_label := None;
     c_mcp_session := Some "s1"; c_server := "crm"; c_tool := "delete"; c_arguments := demo_args;
     c_downstream := {| Release.input_responses := None; Release.request_state := None |} |}.

Definition demo_accept : json :=
  obj [("toolport_approval", obj [("action", JString "accept");
                                  ("content", obj [("approved", JBool true)])]);
       ("region", JString "eu")].

Definition demo_exec := exec map_to_list (fun _ => None).

Definition demo_token : string := modern_token "1".

(** Raised at 0 s, and looked at without an answer at 5 s. *)
Definition demo_start : op := Start 0 0 "1" false demo_call.

Definition demo_look : op :=
  Poll (5 * second) (5 * second) (5 * second) demo_token "crm__delete" "a1" (c_scope demo_call) None.

Definition demo_table : Table := (demo_exec demo_look (demo_exec demo_start new_table).2).2.

Definition demo_log : list (op * outcome) :=
  [(demo_start, (demo_exec demo_start new_table).1);
   (demo_look, (demo_exec demo_look (demo_exec demo_start new_table).2).1)].

Lemma demo_reached : reached map_to_list (fun _ => None) demo_log demo_table.
Proof.
  apply (reached_step _ _ [(demo_start, (demo_exec demo_start new_table).1)]
    (demo_exec demo_start new_table).2); [|apply surjective_pairing].
  apply (reached_step _ _ [] new_table); [constructor|apply surjective_pairing].
Qed.

(** At 100 s the client accepts. *)
Definition demo_poll (answers : option json) (t : Table) : ModernHitlPoll * Table :=
  poll_modern_hitl map_to_list (100 * second) (100 * second) (100 * second) demo_token "crm__delete" "a1"
    (c_scope demo_call) answers t.

Definition demo_downstream : Release.MrtrRequest :=
  {| Release.input_responses := Some (obj [("region", JString "eu")]); Release.request_state := None |}.

Lemma demo_approved :
  demo_poll (Some demo_accept) demo_table =
  (Approved (Some "f1") Approval.Destructive 100000 demo_downstream true, (demo_poll (Some demo_accept) demo_table).2).
Proof. by vm_compute. Qed.

Lemma approved_by_client_witness :
  exists l1 l2 raised start id c,
    demo_log = l1 ++ (Start raised start id false c, OStarted (Ok demo_token)) :: l2 /\
    c_name c = "crm__delete" /\ c_args_hash c = "a1" /\ c_scope c = c_scope demo_call /\
    c_fingerprint c = Some "f1" /\ c_reason c = Approval.Destructive /\
    exists answered responses', accepts responses' = true /\ since start answered < timeout /\
      (true = true /\ answered = 100 * second /\ responses' = Some demo_accept \/
       true = false /\ exists l3 l4 now' later' r,
         l2 = l3 ++ (Poll now' answered later' demo_token "crm__delete" "a1" (c_scope demo_call) responses', OPolled r) :: l4).
Proof.
  exact (approved_by_client map_to_list (fun _ => None) (fun m => reflexivity _) _ _ _ _ _ _ _ _ _ _ _ _ _ _ _ _
    demo_reached ltac:(by vm_compute) demo_approved).
Defined.

Lemma one_outcome_per_prompt_witness :
  (row_count demo_token demo_table + count (is_answer demo_token) demo_log <= count (is_start demo_token) demo_log)%nat /\
  (count (is_start demo_token) demo_log <=
     row_count demo_token demo_table + count (is_taken demo_token) demo_log + held owes demo_token (approvals demo_table))%nat.
Proof. exact (one_outcome_per_prompt map_to_list (fun _ => None) (fun m => reflexivity _) _ _ demo_token demo_reached ltac:(by vm_compute)). Defined.

Lemma approval_lasts_until_finished_witness :
  (forall now' at' later' responses', now' - 100 * second < MODERN_HITL_RETENTION -> exists ms' down',
     (poll_modern_hitl map_to_list now' at' later' demo_token "crm__delete" "a1" (c_scope demo_call) responses'
        (demo_poll (Some demo_accept) demo_table).2).1 =
     Approved (Some "f1") Approval.Destructive ms' down' false) /\
  (forall now1 now2 at' later' responses',
     (poll_modern_hitl map_to_list now2 at' later' demo_token "crm__delete" "a1" (c_scope demo_call) responses'
        (finish_modern_hitl map_to_list now1 (Some demo_token) (demo_poll (Some demo_accept) demo_table).2)).1 = Missing).
Proof.
  exact (approval_lasts_until_finished map_to_list (fun _ => None) (fun m => reflexivity _) _ _ _ _ _ _ _ _ _ _ _ _ _ _ _ _
    demo_reached ltac:(by vm_compute) demo_approved).
Defined.

(** A second prompt at 10 s leaves the first. *)
Definition demo_second : result string Approval.ApprovalDecision * Table :=
  start_modern_hitl map_to_list (fun _ => None) (10 * second) (10 * second) "2" false demo_call demo_table.

Lemma start_displaces_nothing_witness :
  demo_second.1 = Ok (modern_token "2") /\
  let before := live (10 * second) (approvals demo_table) in
  let after := live (10 * second) (approvals demo_second.2) in
  match demo_second.1 with
  | Ok tok => false = false /\ tok = modern_token "2" /\ Z.of_nat (size before) < MODERN_HITL_MAX_PENDING /\
      after = <[tok := prompt_for (fun _ => None) (10 * second) tok demo_call]> before
  | Err d => after = before /\
      (d = Approval.Withdrawn /\ false = true \/
       d = Approval.Unreachable /\ false = false /\ MODERN_HITL_MAX_PENDING <= Z.of_nat (size before))
  end.
Proof.
  split; [by vm_compute|].
  exact (start_displaces_nothing map_to_list (fun _ => None) (fun m => reflexivity _) _ _ _ _ _ _ _ _ _
    demo_reached ltac:(by vm_compute) (surjective_pairing demo_second)).
Defined.
End ModernHitl.
