(* ===== verification/Scope.v ===== *)
(** Whose tool a name is (src/bin/toolport-gateway.rs): the scope of a registered caller,
    the owner of an exposed name, by the router's map or, on a cold cache, by its prefix,
    and the tools a scoped caller is shown.

    [str::to_lowercase] is a parameter; the router is its answer for a name. *)

From S2P Require Import Prelude Text Json ToolNames Aliases Catalog.

Module Scope.

Definition server_in_allowed_scope (server_id : string) (allowed : gset string) : bool :=
  bool_decide (server_id ∈ allowed).

(** [str::match_indices]: the offsets of the occurrences, left to right, without overlaps. *)
Fixpoint match_indices (pat : string) (offset skip : nat) (s : string) : list nat :=
  match s with
  | EmptyString => []
  | String _ s' =>
      match skip with
      | S skip => match_indices pat (S offset) skip s'
      | O => if starts_with pat s
             then offset :: match_indices pat (S offset) (String.length pat - 1) s'
             else match_indices pat (S offset) 0 s'
      end
  end.

Definition grouped_help_target (name : string) : option string :=
  p ← strip_prefix "help_" name; if String.eqb p "" then None else Some p.

Definition fixed_meta_tools : list string :=
  ["toolport_status"; "toolport_search_tools"; "toolport_call_tool"; "toolport_fetch_result";
   "toolport_run_script"].

Definition is_fixed_meta_tool (name : string) : bool := listed name fixed_meta_tools.

Section case.
Variable to_lowercase : string -> string.

Definition prefix_of (server_id : string) : string := to_lowercase (ToolNames.sanitize_segment server_id).

(** [entry(prefix).and_modify(|slot| *slot = None).or_insert_with(..)] *)
Definition claim_prefix (owners : gmap string (option string)) (server_id : string) : gmap string (option string) :=
  let prefix := prefix_of server_id in
  match owners !! prefix with
  | Some _ => <[prefix := None]> owners
  | None => <[prefix := Some server_id]> owners
  end.

(** [server_ids] are the ids of the registry's servers, in order. *)
Definition unique_prefix_owners (server_ids : list string) : gmap string string :=
  omap id (fold_left claim_prefix server_ids ∅).

Fixpoint owner_loop (owners : gmap string string) (name : string) (owner : option string) (ats : list nat)
    : option string :=
  match ats with
  | [] => owner
  | at_ :: ats =>
      match owners !! replace "-" "__" (take_bytes at_ name) with
      | None => owner_loop owners name owner ats
      | Some server =>
          if match owner with Some o => negb (String.eqb o server) | None => false end then None
          else owner_loop owners name (Some server) ats
      end
  end.

Definition separator (name : string) : string := if contains "__" name then "__" else "-".

(** [router_owner] is the router's [tool_owner], for the router there is. *)
Definition owner_of_exposed_tool (router_owner : string -> option string) (owners : gmap string string)
    (name : string) : option string :=
  match router_owner name with
  | Some server => Some server
  | None =>
      match grouped_help_target name with
      | Some target => owners !! to_lowercase target
      | None =>
          let name := to_lowercase name in
          owner_loop owners name None (match_indices (separator name) 0 0 name)
      end
  end.
End case.

Definition tool_in_scope (name : string) (allowed : gset string) (route_of : string -> option string) : bool :=
  match route_of name with
  | Some server_id => server_in_allowed_scope server_id allowed
  | None => is_fixed_meta_tool name
  end.

Definition tool_name (tool : json) : option string := get "name" tool ≫= as_str.

Definition scope_tools (tools : list json) (allowed : option (gset string))
    (route_of : string -> option string) : list json :=
  match allowed with
  | None => tools
  | Some set =>
      List.filter (fun t => match tool_name t with
                            | Some n => tool_in_scope n set route_of
                            | None => false
                            end) tools
  end.

(** A profile's [tool_scope], in the order its map is walked. *)
Definition ToolScope : Type := list (string * list string).

Definition merge_entry (state : gmap string (gset string) * gset string) (kv : string * list string)
    : gmap string (gset string) * gset string :=
  let '(by_server, seen) := state in
  let set := list_to_set kv.2 in
  if bool_decide (kv.1 ∈ seen)
  then (match by_server !! kv.1 with
        | Some cur => <[kv.1 := cur ∩ set]> by_server
        | None => by_server
        end, seen)
  else (<[kv.1 := set]> by_server, {[kv.1]} ∪ seen).

Definition merge_tool_scopes_for_http (profiles : list ToolScope) : gmap string (gset string) :=
  (fold_left (fun state p => fold_left merge_entry p state) profiles (∅, ∅)).1.

(** ** Owners *)

Section theory.
Variable to_lowercase : string -> string.
Abbreviation prefix_of := (prefix_of to_lowercase).
Abbreviation owners_of := (unique_prefix_owners to_lowercase).
Abbreviation owner_of := (owner_of_exposed_tool to_lowercase).

(** The servers of the registry whose tools are spelled with the prefix [p]. *)
Definition bearers (p : string) (ids : list string) : list string :=
  List.filter (fun id => String.eqb (prefix_of id) p) ids.

Lemma claims_spec ids owners p :
  fold_left (claim_prefix to_lowercase) ids owners !! p =
  match owners !! p, bearers p ids with
  | None, [] => None
  | None, [id] => Some (Some id)
  | None, _ :: _ :: _ => Some None
  | Some o, [] => Some o
  | Some _, _ :: _ => Some None
  end.
Proof.
  revert owners. induction ids as [|id ids IH]; intros owners; simpl; [by destruct (owners !! p)|].
  rewrite IH. clear IH. unfold claim_prefix.
  destruct (String.eqb_spec (prefix_of id) p) as [<-|Hne].
  - destruct (owners !! prefix_of id) eqn:E; rewrite lookup_insert_eq;
      by destruct (bearers (prefix_of id) ids) as [|? []].
  - destruct (owners !! prefix_of id); rewrite lookup_insert_ne by done; done.
Qed.

(** A prefix is attributed to a server exactly when no other entry of the registry has it. *)
Lemma unique_prefix_owners_spec ids p id :
  owners_of ids !! p = Some id <-> bearers p ids = [id].
Proof.
  unfold unique_prefix_owners. rewrite lookup_omap, claims_spec, lookup_empty.
  destruct (bearers p ids) as [|x [|y l]]; simpl; naive_solver.
Qed.

(** The prefixes the separators of [name] mark off, as the owners are keyed. *)
Definition marked (name : string) : list string :=
  map (fun at_ => replace "-" "__" (take_bytes at_ (to_lowercase name)))
    (match_indices (separator (to_lowercase name)) 0 0 (to_lowercase name)).

Lemma owner_loop_spec owners name owner ats id :
  owner_loop owners name owner ats = Some id ->
  (forall o, owner = Some o -> o = id) /\
  (owner = None -> exists at_, at_ ∈ ats /\ owners !! replace "-" "__" (take_bytes at_ name) = Some id) /\
  forall at_ id', at_ ∈ ats -> owners !! replace "-" "__" (take_bytes at_ name) = Some id' -> id' = id.
Proof.
  revert owner. induction ats as [|a ats IH]; intros owner H; simpl in H.
  - subst owner. split_and!; [congruence|done|]. intros ? ? Hin. by apply not_elem_of_nil in Hin.
  - destruct (owners !! replace "-" "__" (take_bytes a name)) as [s|] eqn:E.
    + destruct owner as [o|]; simpl in H.
      * destruct (String.eqb_spec o s) as [->|]; [|done]. simpl in H.
        apply IH in H as (H1 & _ & H3). pose proof (H1 _ eq_refl) as ->. split_and!; [congruence|done|].
        intros at_ id' [->|Hin]%elem_of_cons; [congruence|by apply H3].
      * apply IH in H as (H1 & _ & H3). pose proof (H1 _ eq_refl) as ->. split_and!; [done| |].
        { intros _. exists a. split; [left|done]. }
        intros at_ id' [->|Hin]%elem_of_cons; [congruence|by apply H3].
    + apply IH in H as (H1 & H2 & H3). split_and!; [done| |].
      * intros Hn. destruct (H2 Hn) as (at_ & Hin & Ho). exists at_. split; [by right|done].
      * intros at_ id' [->|Hin]%elem_of_cons; [congruence|by apply H3].
Qed.

(** What an attribution by prefix rests on: the prefix is the server's alone, and no other
    server of the registry has a prefix of its own that the name carries. *)
Definition attributed (ids : list string) (name id : string) : Prop :=
  match grouped_help_target name with
  | Some target => bearers (to_lowercase target) ids = [id]
  | None => (exists p, p ∈ marked name /\ bearers p ids = [id]) /\
            forall p id', p ∈ marked name -> bearers p ids = [id'] -> id' = id
  end.

Lemma owner_of_spec router_owner ids name id :
  owner_of router_owner (owners_of ids) name = Some id ->
  router_owner name = Some id \/ router_owner name = None /\ attributed ids name id.
Proof.
  unfold owner_of_exposed_tool, attributed. destruct (router_owner name) as [s|]; [by left|].
  intros H. right. split; [done|]. destruct (grouped_help_target name) as [target|].
  - by apply unique_prefix_owners_spec.
  - apply owner_loop_spec in H as (_ & H2 & H3). split.
    + destruct (H2 eq_refl) as (at_ & Hin & Ho). eexists. split; [|by apply unique_prefix_owners_spec].
      apply list_elem_of_fmap. eauto.
    + intros p id' Hp Hb. apply list_elem_of_fmap in Hp as (at_ & -> & Hin).
      eapply H3; [exact Hin|]. by apply unique_prefix_owners_spec.
Qed.

(** A scoped caller is shown a tool only when it is a meta-tool nobody owns, or its server
    is in scope: the server that the router routes it to or, when the router does not know
    it, the one server of the whole registry with a prefix of its own that the name
    carries; two servers that share a prefix are never told apart by it. *)
Theorem scoped_tools_are_in_scope router_owner ids tools allowed t :
  t ∈ scope_tools tools (Some allowed) (owner_of router_owner (owners_of ids)) ->
  t ∈ tools /\ exists n, tool_name t = Some n /\
    (is_fixed_meta_tool n = true /\ router_owner n = None \/
     exists id, id ∈ allowed /\
       (router_owner n = Some id \/ router_owner n = None /\ attributed ids n id)).
Proof.
  unfold scope_tools. intros Ht. apply list_elem_of_In, filter_In in Ht as [Ht Hs]. apply list_elem_of_In in Ht.
  split; [done|]. destruct (tool_name t) as [n|]; [|done]. exists n. split; [done|].
  unfold tool_in_scope in Hs. destruct (owner_of _ _ n) as [id|] eqn:E.
  - right. exists id. apply bool_decide_eq_true in Hs. split; [done|]. by apply owner_of_spec.
  - left. split; [done|]. unfold owner_of_exposed_tool in E. by destruct (router_owner n).
Qed.

End theory.

(** ** Tool scopes of the bridge *)

(** The lists the profiles give for [server]. *)
Definition given (server : string) (profiles : list ToolScope) : list (list string) :=
  map snd (List.filter (fun kv => String.eqb kv.1 server) (mjoin profiles)).

Fixpoint meet (ls : list (list string)) : option (gset string) :=
  match ls with
  | [] => None
  | l :: ls => Some (match meet ls with Some s => list_to_set l ∩ s | None => list_to_set l end)
  end.

Lemma fold_join {A B} (f : A -> B -> A) (ls : list (list B)) a :
  fold_left (fun a l => fold_left f l a) ls a = fold_left f (mjoin ls) a.
Proof. revert a. induction ls as [|l ls IH]; intros a; simpl; [done|]. by rewrite fold_left_app, IH. Qed.

Definition joined (o : option (gset string)) (ls : list (list string)) : option (gset string) :=
  match o, meet ls with
  | Some s, Some s' => Some (s ∩ s')
  | Some s, None => Some s
  | None, m => m
  end.

Lemma joined_step o l ls : joined o (l :: ls) = joined (joined o [l]) ls.
Proof. unfold joined. simpl. destruct o, (meet ls); simpl; f_equal; set_solver. Qed.

Lemma merge_spec l by_server seen server :
  (forall s, s ∈ seen <-> is_Some (by_server !! s)) ->
  (fold_left merge_entry l (by_server, seen)).1 !! server =
  joined (by_server !! server) (map snd (List.filter (fun kv => String.eqb kv.1 server) l)).
Proof.
  revert by_server seen. induction l as [|[s ts] l IH]; intros by_server seen Hs.
  { simpl. unfold joined. by destruct (by_server !! server). }
  cbn [fold_left]. set (st := merge_entry (by_server, seen) (s, ts)).
  assert (Hst : (forall x, x ∈ st.2 <-> is_Some (st.1 !! x)) /\
    st.1 !! server = if String.eqb s server then joined (by_server !! server) [ts] else by_server !! server).
  { subst st. unfold merge_entry. cbn [fst snd]. case_bool_decide as Hin.
    - apply Hs in Hin as [cur Hc]. rewrite Hc. cbn [fst snd]. split.
      + intros x. rewrite Hs. destruct (decide (x = s)) as [->|].
        * rewrite lookup_insert_eq, Hc. split; eauto.
        * by rewrite lookup_insert_ne.
      + destruct (String.eqb_spec s server) as [->|].
        * by rewrite lookup_insert_eq, Hc.
        * by rewrite lookup_insert_ne.
    - cbn [fst snd]. split.
      + intros x. rewrite elem_of_union, elem_of_singleton, Hs. destruct (decide (x = s)) as [->|].
        * rewrite lookup_insert_eq. split; eauto.
        * rewrite lookup_insert_ne by done. naive_solver.
      + destruct (String.eqb_spec s server) as [->|].
        * rewrite lookup_insert_eq. destruct (by_server !! server) eqn:E; [|done].
          exfalso. apply Hin, Hs. by rewrite E.
        * by rewrite lookup_insert_ne. }
  destruct Hst as [H1 H2]. rewrite (surjective_pairing st), IH by done. rewrite H2.
  cbn [List.filter fst]. destruct (String.eqb s server); [|done]. cbn [map snd]. symmetry. apply joined_step.
Qed.

Lemma meet_elem ls s x : meet ls = Some s -> x ∈ s <-> forall l, l ∈ ls -> x ∈ l.
Proof.
  revert s. induction ls as [|l ls IH]; intros s H; [done|]. simpl in H. injection H as <-.
  destruct (meet ls) as [s'|] eqn:E.
  - rewrite elem_of_intersection, elem_of_list_to_set, (IH s' eq_refl). set_solver.
  - destruct ls; [|done]. set_solver.
Qed.

(** The bridge's scope of a server is the tools every profile that scopes it allows; a
    server no profile scopes is not scoped. *)
Theorem http_scope_is_intersection profiles server :
  (merge_tool_scopes_for_http profiles !! server = None <-> given server profiles = []) /\
  forall s, merge_tool_scopes_for_http profiles !! server = Some s ->
    forall tool, tool ∈ s <-> forall l, l ∈ given server profiles -> tool ∈ l.
Proof.
  unfold merge_tool_scopes_for_http. rewrite fold_join, merge_spec.
  2:{ intros s. rewrite lookup_empty, elem_of_empty. split; [done|by intros [? ?]]. }
  fold (given server profiles). rewrite lookup_empty. unfold joined. split.
  - by destruct (given server profiles).
  - intros s Hs tool. by apply meet_elem.
Qed.

(** ** Concrete inputs *)

(** A prefix that two servers share is skipped, not refused: when the part of it before its
    own separator is another server's prefix, the tool is given to that server, although no
    caller may guess the owner of a tool that carries a shared prefix. *)
Theorem shared_prefix_falls_through :
  let ids := ["acme"; "acme__prod"; "acme--prod"] in
  let owners := unique_prefix_owners to_ascii_lowercase ids in
  owners !! "acme__prod" = None /\
  owner_of_exposed_tool to_ascii_lowercase (fun _ => None) owners "acme__prod__wipe" = Some "acme" /\
  scope_tools [obj [("name", JString "acme__prod__wipe")]] (Some {["acme"]})
    (owner_of_exposed_tool to_ascii_lowercase (fun _ => None) owners) =
  [obj [("name", JString "acme__prod__wipe")]].
Proof. split_and!; by vm_compute. Qed.

Definition demo_ids : list string := ["crm"; "team-slack"; "team_slack"].

Definition demo_tools : list json :=
  map (fun n => obj [("name", JString n)])
    ["crm__list"; "team_slack__post"; "deploy"; "toolport_status"; "crm-list"].

Definition demo_owner : string -> option string :=
  owner_of_exposed_tool to_ascii_lowercase (fun n => if String.eqb n "deploy" then Some "team_slack" else None)
    (unique_prefix_owners to_ascii_lowercase demo_ids).

(** The twins' tool and the renamed one are dropped. *)
Example demo_scoped :
  omap tool_name (scope_tools demo_tools (Some {["crm"; "team-slack"]}) demo_owner) =
  ["crm__list"; "toolport_status"; "crm-list"].
Proof. by vm_compute. Qed.

Lemma scoped_tools_are_in_scope_witness :
  let t := obj [("name", JString "crm__list")] in
  t ∈ demo_tools /\ exists n, tool_name t = Some n /\
    (is_fixed_meta_tool n = true /\ (if String.eqb n "deploy" then Some "team_slack" else None) = None \/
     exists id, id ∈ ({["crm"; "team-slack"]} : gset string) /\
       ((if String.eqb n "deploy" then Some "team_slack" else None) = Some id \/
        (if String.eqb n "deploy" then Some "team_slack" else None) = None /\
        attributed to_ascii_lowercase demo_ids n id)).
Proof.
  apply (scoped_tools_are_in_scope to_ascii_lowercase
    (fun n => if String.eqb n "deploy" then Some "team_slack" else None) demo_ids demo_tools {["crm"; "team-slack"]}).
  replace (scope_tools _ _ _) with
    [obj [("name", JString "crm__list")]; obj [("name", JString "toolport_status")]; obj [("name", JString "crm-list")]]
    by by vm_compute.
  by left.
Defined.

Definition demo_profiles : list ToolScope := [[("crm", ["list"; "read"])]; [("mail", ["send"])]; [("crm", ["read"; "wipe"])]].

Lemma http_scope_is_intersection_witness :
  merge_tool_scopes_for_http demo_profiles !! "crm" = Some {["read"]} /\
  ((merge_tool_scopes_for_http demo_profiles !! "crm" = None <-> given "crm" demo_profiles = []) /\
   forall s, merge_tool_scopes_for_http demo_profiles !! "crm" = Some s ->
     forall tool, tool ∈ s <-> forall l, l ∈ given "crm" demo_profiles -> tool ∈ l).
Proof. split; [by vm_compute|]. exact (http_scope_is_intersection demo_profiles "crm"). Defined.
End Scope.
(** ** The sentence for a name that does not route *)

Module NoRoute.
Import ToolNames Catalog.

(** The pending server a name kicks, as [kick_pending] reports it. *)
Record Kicked := mk_kicked { kicked_id : string; kicked_needs_auth : bool; kicked_line : string }.

Definition newline : string := String "010" "".

Definition model_visible (tool : json) : bool := negb (hidden_from_model tool).

Section router.
Variable regex : Type.
Local Abbreviation Router := (Router regex).
Variable r : Router.
Variable visible : string -> bool.
(** [kick_pending] of the name, for the servers [visible] admits. *)
Variable kicked : option Kicked.

Definition tool_values : list json := map (value regex) (tools regex (tool_index regex (index regex r))).

Definition owner_visible (e : string) : bool :=
  match tool_owner regex r e with Some server => visible server | None => false end.

Definition route_visible (e : string) : bool :=
  match route_of regex r e with Some (server, _) => visible server | None => false end.

(** The reason an owned, visible name is blocked for, unless it is the caller's own tool
    scope or the tool is hidden from the model. *)
Definition told_reason (e : string) : option string :=
  if owner_visible e
  then reason ← blocked regex (tool_index regex (index regex r)) !! e;
       if String.eqb reason out_of_scope || bool_decide (e ∈ hidden regex (tool_index regex (index regex r)))
       then None else Some reason
  else None.

(** The name inside Toolport of a client's [mcp__alias__tool]. *)
Definition client_prefixed (e : string) : option string :=
  rest ← strip_prefix "mcp__" e;
  '(_, candidate) ← split_on_str "__" rest;
  if route_visible candidate &&
     match List.find (fun tool => bool_decide (name_in tool = Some candidate)) tool_values with
     | Some tool => model_visible tool
     | None => true
     end
  then Some candidate else None.

Definition close_match (e : string) (tool : json) : option (Z * string) :=
  name ← name_in tool;
  if negb (route_visible name) || negb (model_visible tool) then None
  else
    let unprefixed := match strip_suffix e name with Some prefix => ends_with "__" prefix | None => false end in
    let distance := if unprefixed then 0 else alias_distance e name in
    if distance <=? 3 then Some (distance, name) else None.

Definition pair_le (x y : Z * string) : Prop := x.1 < y.1 \/ x.1 = y.1 /\ str_le x.2 y.2.

#[global] Instance pair_le_dec : RelDecision pair_le.
Proof. intros x y. unfold pair_le. apply _. Defined.

Definition close_matches (e : string) : list string :=
  map snd (take 3 (merge_sort pair_le (omap (close_match e) tool_values))).

Definition no_route_message_within (e : string) : string :=
  match told_reason e with
  | Some reason => blocked_tool_message e reason
  | None =>
      match client_prefixed e with
      | Some real =>
          "Unknown tool: " +:+ e +:+ newline +:+ "This client-side alias is named '" +:+ real +:+
          "' inside Toolport." +:+ newline +:+ "Use toolport_search_tools to find tools."
      | None =>
          match kicked with
          | Some status =>
              if kicked_needs_auth status
              then "no route for tool '" +:+ e +:+ "': server '" +:+ kicked_id status +:+ "' " +:+
                   kicked_line status +:+ ". Sign in, then try again."
              else "no route for tool '" +:+ e +:+ "': server '" +:+ kicked_id status +:+
                   "' has not connected yet and is " +:+ kicked_line status +:+ ". Try again shortly."
          | None =>
              let hint := match close_matches e with
                          | [] => ""
                          | names => newline +:+ "Close matches: " +:+ String.concat ", " names
                          end in
              "Unknown tool: " +:+ e +:+ hint +:+ newline +:+ "Use toolport_search_tools to find tools."
          end
      end
  end.

(** What a caller that sees the servers [visible] may know of a router. *)
Definition visible_tools : list json :=
  List.filter (fun tool => match name_in tool with Some n => route_visible n | None => false end) tool_values.
End router.

Section noninterference.
Variable regex : Type.
Variable visible : string -> bool.
Local Abbreviation Router := (Router regex).
Implicit Types r : Router.

(** Two routers a caller cannot tell apart: the same tools of visible servers, routed
    alike, with the same word on the names those servers own. *)
Record alike r1 r2 : Prop := {
  alike_routes : forall e, route_visible regex r1 visible e = route_visible regex r2 visible e;
  alike_tools : visible_tools regex r1 visible = visible_tools regex r2 visible;
  alike_reasons : forall e, told_reason regex r1 visible e = told_reason regex r2 visible e
}.

Lemma find_visible r e :
  route_visible regex r visible e = true ->
  List.find (fun tool => bool_decide (name_in tool = Some e)) (tool_values regex r) =
  List.find (fun tool => bool_decide (name_in tool = Some e)) (visible_tools regex r visible).
Proof.
  intros Hv. unfold visible_tools. induction (tool_values regex r) as [|tool l IH]; [done|].
  cbn [List.find List.filter]. case_bool_decide as E.
  - rewrite E, Hv. cbn [List.find]. by rewrite bool_decide_eq_true_2.
  - destruct (match name_in tool with Some n => _ | None => _ end); [|done].
    cbn [List.find]. by rewrite bool_decide_eq_false_2.
Qed.

Lemma omap_filter {A B} (f : A -> option B) (p : A -> bool) l :
  (forall x, p x = false -> f x = None) -> omap f l = omap f (List.filter p l).
Proof.
  intros Hp. induction l as [|x l IH]; [done|]. cbn [List.filter]. destruct (p x) eqn:E; simpl.
  - destruct (f x); [f_equal|]; exact IH.
  - by rewrite (Hp x E).
Qed.

Lemma close_match_visible r e :
  omap (close_match regex r visible e) (tool_values regex r) =
  omap (close_match regex r visible e) (visible_tools regex r visible).
Proof.
  apply omap_filter. intros tool H. unfold close_match.
  destruct (name_in tool) as [n|]; [|done]. simpl. by rewrite H.
Qed.

End noninterference.

(** ** Concrete inputs *)

(** A router of tools given as (exposed name, server, original name). *)
Definition demo_router (ts : list (string * string * string)) : Router unit :=
  {| servers := []; by_id := ∅; restored_candidates := [];
     settings :=
       {| alias_rule := ToolNames.default_rule;
          policy := {| servers_allowed := None; disabled := ∅; allow := ∅; deny_destructive := false;
                       quarantined := ∅; fail_closed := false |};
          overrides := ∅; canonical_policy := ∅ |};
     index :=
       {| tool_index :=
            {| names := Aliases.no_names;
               tools := map (fun t => {| value := obj [("name", JString t.1.1)]; arguments := None;
                                         source_input_schema := None; gate_name := None |}) ts;
               routes := list_to_map (map (fun t => (t.1.1, (t.1.2, t.2))) ts);
               schema_arguments := ∅;
               tool_owners := list_to_map (map (fun t => (t.1.1, t.1.2)) ts);
               hidden := ∅; policy_names := ∅; policy_by_original := ∅; blocked := ∅ |};
          resource_index := {| resources := []; resource_routes := ∅; resource_templates := []; template_routes := ∅ |};
          prompts := []; prompt_routes := ∅; catalog_servers := ∅ |} |}.

Definition demo_alone : Router unit := demo_router [("crm__list", "crm", "list")].

Definition demo_shared : Router unit := demo_router [("vault__open", "vault", "open"); ("crm__list", "crm", "list")].

Definition demo_sees (server : string) : bool := String.eqb server "crm".

Lemma demo_alike : alike unit demo_sees demo_alone demo_shared.
Proof.
  assert (Hr : forall e, route_visible unit demo_alone demo_sees e = route_visible unit demo_shared demo_sees e).
  { intros e. unfold route_visible, route_of, demo_alone, demo_shared, demo_router. cbn [index tool_index routes map list_to_map foldr].
    cbn. destruct (decide (e = "crm__list")) as [->|H1]; [by vm_compute|].
    destruct (decide (e = "vault__open")) as [->|H2]; [by vm_compute|].
    rewrite !lookup_insert_ne by done. done. }
  split; [exact Hr|by vm_compute|].
  intros e. unfold told_reason, demo_alone, demo_shared, demo_router. cbn.
  rewrite lookup_empty. simpl. by destruct (owner_visible _ _ _ e), (owner_visible _ _ _ e).
Qed.

(** The caller that sees [crm] alone learns nothing of [vault__open]; the owner does. *)
Example demo_sentences :
  (no_route_message_within unit demo_shared demo_sees None "vault__opn" =
   no_route_message_within unit demo_alone demo_sees None "vault__opn") /\
  contains "vault__open" (no_route_message_within unit demo_shared (fun _ => true) None "vault__opn") = true /\
  contains "crm__list" (no_route_message_within unit demo_shared demo_sees None "list") = true.
Proof. split_and!; by vm_compute. Qed.

End NoRoute.
