(* ===== verification/Redact.v ===== *)
(** Credential redaction (src/registry.rs): the arguments that may carry a secret, the
    userinfo of a URL, and the credential shapes of a free text before it is stored.

    A text is the list of its characters; the loop over its words and the loop over the
    runs of a word are the maximal groups of characters of one class. *)

From S2P Require Import Prelude Text.

Module Redact.

Definition SECRET_HEADERS : list string :=
  ["authorization:"; "proxy-authorization:"; "x-api-key:"; "x-auth-token:"; "x-goog-api-key:";
   "api-key:"; "cookie:"; "private-token:"].

Definition SECRET_FLAGS : list string :=
  ["header"; "headers"; "api-key"; "apikey"; "api_key"; "token"; "auth"; "auth-token"; "auth_token";
   "access-token"; "access_token"; "password"; "secret"; "bearer"].

Definition ASSIGNED_NEEDLES : list string :=
  ["password="; "pwd="; "token="; "apikey="; "api_key="; "api-key="; "secret="; "accountkey=";
   "session="; "credential="].

Definition BARE_NEEDLES : list string := ["access_key"; "access-key"].

Definition SECRET_SCHEME_WORDS : list string := ["bearer"; "basic"; "digest"].

Inductive BareNeedles := Match | Ignore.

Definition nonblank (s : string) : bool := negb (String.eqb (trim s) "").

Definition is_dash (b : ascii) : bool := Stdlib.Strings.Ascii.eqb b "-".

Definition arg_is_secret_flag (arg : string) : bool :=
  let raw := trim arg in
  if String.eqb raw "-H" then true
  else
    let name := to_ascii_lowercase (trim_start_by is_dash raw) in
    negb (String.eqb name "") && listed name SECRET_FLAGS.

(** The first occurrence of [header], with something after it. *)
Definition header_with_value (trimmed header : string) : bool :=
  match split_on_str header trimmed with Some (_, after) => nonblank after | None => false end.

Definition scheme_with_value (trimmed scheme : string) : bool :=
  match strip_prefix scheme trimmed with
  | Some value => match chars value with c :: _ => is_whitespace c | [] => false end && nonblank value
  | None => false
  end.

(** [b] ends the authority of a URL. *)
Definition ends_authority (b : ascii) : bool :=
  Stdlib.Strings.Ascii.eqb b "/" || Stdlib.Strings.Ascii.eqb b "?" || Stdlib.Strings.Ascii.eqb b "#".

Definition uri_with_userinfo (arg : string) : bool :=
  match split_on_str "://" arg with
  | Some (_, rest) => contains "@" (before_by ends_authority rest)
  | None => false
  end.

Definition looks_secret (arg : string) (bare : BareNeedles) : bool :=
  let lower := to_ascii_lowercase arg in
  let trimmed := trim lower in
  if existsb (fun n => contains n lower) ASSIGNED_NEEDLES then true
  else if match bare with Match => existsb (fun n => contains n lower) BARE_NEEDLES | Ignore => false end then true
  else if match split_on_str "=" trimmed with
          | Some (flag, value) => arg_is_secret_flag flag && nonblank value
          | None => false
          end then true
  else if existsb (header_with_value trimmed) SECRET_HEADERS then true
  else if existsb (scheme_with_value trimmed) SECRET_SCHEME_WORDS then true
  else uri_with_userinfo arg.

Definition arg_looks_secret (arg : string) : bool := looks_secret arg Match.

(** Whether [arg] is a flag whose value is the next argument. *)
Definition marks_next (arg : string) : bool :=
  let (name, joined_value) := match split_on_str "=" arg with
                              | Some (name, value) => (name, Some value)
                              | None => (arg, None)
                              end in
  match joined_value with None => true | Some value => negb (nonblank value) end && arg_is_secret_flag name.

(** The loop of [secret_arg_mask] over [args] from index [i]; an index past the end is not
    there to be marked. *)
Fixpoint mask_loop (i : nat) (args : list string) (mask : list bool) : list bool :=
  match args with
  | [] => mask
  | arg :: args =>
      let mask := if arg_looks_secret arg then <[i := true]> mask else mask in
      let mask := if marks_next arg then <[S i := true]> mask else mask in
      mask_loop (S i) args mask
  end.

Definition secret_arg_mask (args : list string) : list bool :=
  mask_loop 0 args (replicate (length args) false).

(** ** Free text *)

Definition SECRET_TOKEN_PREFIXES : list string :=
  ["sk-"; "sk_"; "pk_live_"; "rk_"; "ghp_"; "gho_"; "ghu_"; "ghs_"; "ghr_"; "github_pat_"; "glpat-";
   "xoxb-"; "xoxa-"; "xoxp-"; "xoxs-"].

Definition SECRET_CLOUD_KEY_PREFIXES : list string := ["akia"; "asia"; "aiza"].

Definition SECRET_TOKEN_MIN_LEN : Z := 12.
Definition CLOUD_KEY_MIN_LEN : Z := 20.

Definition SECRET_HINT_NAMES : list string :=
  ["token"; "key"; "apikey"; "password"; "passwd"; "pwd"; "secret"; "credential"; "authorization"; "cookie"].

Definition OPAQUE_SECRET_MIN_LEN : Z := 16.
Definition MIXED_CASE_SECRET_MIN_LEN : Z := 10.

Definition REDACTED : string := "<redacted>".

Definition any_byte (p : ascii -> bool) (s : string) : bool := negb (all_bytes (fun b => negb (p b)) s).

Definition token_looks_secret (run : string) : bool :=
  let lower := to_ascii_lowercase run in
  if (SECRET_TOKEN_MIN_LEN <=? slen run) && existsb (fun p => starts_with p lower) SECRET_TOKEN_PREFIXES then true
  else (CLOUD_KEY_MIN_LEN <=? slen run) && all_bytes is_alnum run &&
       existsb (fun p => starts_with p lower) SECRET_CLOUD_KEY_PREFIXES.

(** [lower] is [hint], or ends with it after a separator or at a hump of [run]. *)
Definition names_hint (run lower hint : string) : bool :=
  if String.eqb lower hint then true
  else match strip_suffix hint lower with
  | None => false
  | Some head =>
      if String.eqb head "" then false
      else ends_with "-" head || ends_with "_" head || ends_with "." head ||
           match drop_bytes (String.length head) run with
           | String b _ => is_upper b
           | EmptyString => false
           end
  end.

Definition names_a_credential (run : string) : bool :=
  let lower := to_ascii_lowercase run in
  if listed lower SECRET_SCHEME_WORDS then true else existsb (names_hint run lower) SECRET_HINT_NAMES.

Definition is_alpha (b : ascii) : bool := is_upper b || is_lower b.

Definition looks_like_a_credential (run : string) : bool :=
  if listed (to_ascii_lowercase run) SECRET_SCHEME_WORDS then false
  else
    let long_and_opaque := (OPAQUE_SECRET_MIN_LEN <=? slen run) && any_byte is_digit run && any_byte is_alpha run in
    let mixed_case := (MIXED_CASE_SECRET_MIN_LEN <=? slen run) && any_byte is_upper run && any_byte is_lower run in
    long_and_opaque || mixed_case.

Definition is_run_char (c : string) : bool := char_is_alnum c || listed c ["-"; "_"; "."; "+"; "/"; "="].

(** The maximal groups of characters [p] agrees on, with its answer. *)
Fixpoint groups (p : string -> bool) (cs : list string) : list (bool * list string) :=
  match cs with
  | [] => []
  | c :: cs =>
      match groups p cs with
      | (b, g) :: gs => if Bool.eqb b (p c) then (b, c :: g) :: gs else (p c, [c]) :: (b, g) :: gs
      | [] => [(p c, [c])]
      end
  end.

Definition redacted : list string := chars REDACTED.

(** The runs of a word; [named] says that the run before named a credential. *)
Fixpoint redact_runs (named : bool) (gs : list (bool * list string)) : list string * bool :=
  match gs with
  | [] => ([], named)
  | (false, between) :: gs => let (out, named) := redact_runs named gs in (between ++ out, named)
  | (true, run) :: gs =>
      let text := concat_str run in
      if token_looks_secret text || (named && looks_like_a_credential text)
      then let (out, named) := redact_runs false gs in (redacted ++ out, named)
      else let (out, named) := redact_runs (names_a_credential text) gs in (run ++ out, named)
  end.

(** The words of a text, which white space separates. *)
Fixpoint redact_words (named : bool) (gs : list (bool * list string)) : list string :=
  match gs with
  | [] => []
  | (true, space) :: gs => space ++ redact_words named gs
  | (false, word) :: gs =>
      if looks_secret (concat_str word) Ignore then redacted ++ redact_words false gs
      else let (out, named) := redact_runs named (groups is_run_char word) in out ++ redact_words named gs
  end.

Definition redact_secret_text (text : string) : string :=
  concat_str (redact_words false (groups is_whitespace (chars text))).

(** ** URLs *)

(** [rsplit_once('@')], and [authority] cut at the first of [/?#]. *)
Definition is_at (b : ascii) : bool := Stdlib.Strings.Ascii.eqb b "@".

Definition redact_url_userinfo (url : string) : string :=
  match split_on_str "://" url with
  | None => url
  | Some (scheme, rest) =>
      let authority := before_by ends_authority rest in
      let tail := drop_bytes (String.length authority) rest in
      match rsplit_once_by is_at authority with
      | Some (_, host) => scheme +:+ "://<redacted>@" +:+ host +:+ tail
      | None => url
      end
  end.

Example redact_error :
  redact_secret_text "invalid api key sk-live-0123456789 for {apiKey:AbCdEfGhIj} on https://u:p@host/x"
  = "invalid api key <redacted> for {apiKey:<redacted>} on <redacted>".
Proof. by vm_compute. Qed.

Example keep_prose :
  redact_secret_text "missing key in request to asia-southeast1, basic authentication failed"
  = "missing key in request to asia-southeast1, basic authentication failed".
Proof. by vm_compute. Qed.

Example mask_split_flags :
  secret_arg_mask ["run"; "--token"; "abc"; "-H"; "x"; "--api-key="; "y"; "--secret"]
  = [false; false; true; false; true; true; true; false].
Proof. by vm_compute. Qed.

Example redact_userinfo : redact_url_userinfo "https://u:p@h@host/x?y@z" = "https://<redacted>@host/x?y@z".
Proof. by vm_compute. Qed.

(** ** Groups and runs *)

Lemma groups_concat p cs : mjoin (map snd (groups p cs)) = cs.
Proof.
  induction cs as [|c cs IH]; [done|]. cbn [groups]. destruct (groups p cs) as [|[b g] gs].
  - cbn in IH. by subst cs.
  - rewrite <- IH. by destruct (Bool.eqb b (p c)).
Qed.

(** The groups are not empty, of one class each, and neighbours differ. *)
Fixpoint proper (p : string -> bool) (gs : list (bool * list string)) : Prop :=
  match gs with
  | [] => True
  | (b, g) :: rest =>
      g <> [] /\ Forall (fun c => p c = b) g /\
      match rest with (b', _) :: _ => b' = negb b | [] => True end /\ proper p rest
  end.

Lemma groups_proper p cs : proper p (groups p cs).
Proof.
  induction cs as [|c cs IH]; [done|]. cbn [groups]. destruct (groups p cs) as [|[b g] gs].
  - cbn. auto.
  - destruct (Bool.eqb b (p c)) eqn:E.
    + apply Bool.eqb_prop in E. destruct IH as (_ & Hg & Hrest). cbn. auto.
    + cbn [proper] in *. apply Bool.eqb_false_iff in E. split_and!; [done|by constructor| |tauto..].
      by destruct b, (p c).
Qed.

(** The runs of a text, maximal sequences of run characters. *)
Definition runs_of (gs : list (bool * list string)) : list string :=
  omap (fun g : bool * list string => if g.1 then Some (concat_str g.2) else None) gs.

Definition runs (cs : list string) : list string := runs_of (groups is_run_char cs).

Definition plain (c : string) : Prop := is_run_char c = false.

Definition starts_plain (cs : list string) : Prop :=
  match cs with [] => True | c :: _ => plain c end.

Lemma runs_plain l cs : Forall plain l -> runs (l ++ cs) = runs cs.
Proof.
  induction 1 as [|c l Hc _ IH]; [done|]. rewrite <- IH. unfold runs. cbn [groups app].
  destruct (groups is_run_char (l ++ cs)) as [|[[] g] gs]; unfold plain in Hc; rewrite Hc; done.
Qed.

Lemma runs_run g cs :
  g <> [] -> Forall (fun c => is_run_char c = true) g -> starts_plain cs ->
  runs (g ++ cs) = concat_str g :: runs cs.
Proof.
  intros Hne Hg Hcs. unfold runs.
  assert (H : groups is_run_char (g ++ cs) = (true, g) :: groups is_run_char cs); [|by rewrite H].
  induction Hg as [|c g Hc Hg IH]; [done|]. cbn [app groups]. rewrite Hc. destruct g as [|c' g].
  - cbn [app]. destruct cs as [|d cs]; [done|]. cbn [groups]. unfold starts_plain, plain in Hcs. rewrite Hcs.
    destruct (groups is_run_char cs) as [|[[] h] hs]; done.
  - rewrite IH by done. done.
Qed.

Lemma redacted_runs cs : runs (redacted ++ cs) = "redacted" :: runs cs.
Proof.
  change (redacted ++ cs) with (["<"] ++ ((chars "redacted" : list string) ++ ([">"] ++ cs))).
  rewrite runs_plain by by repeat constructor.
  rewrite runs_run; [|done|by repeat constructor|by cbn].
  by rewrite runs_plain by by repeat constructor.
Qed.

Lemma space_not_run c : is_whitespace c = true -> plain c.
Proof.
  unfold is_whitespace, plain. intros H. apply existsb_exists in H as (x & Hx & ->%String.eqb_eq).
  assert (Hall : forallb (fun x => negb (is_run_char x)) white_space = true) by by vm_compute.
  rewrite forallb_forall in Hall. by apply negb_true_iff, Hall.
Qed.

(** ** What happens to the runs *)

(** The runs that are kept or replaced, one after the other. *)
Fixpoint judged (named : bool) (rs : list string) : list string * bool :=
  match rs with
  | [] => ([], named)
  | run :: rs =>
      if token_looks_secret run || (named && looks_like_a_credential run)
      then let (out, named) := judged false rs in ("redacted" :: out, named)
      else let (out, named) := judged (names_a_credential run) rs in (run :: out, named)
  end.

Fixpoint judged_words (named : bool) (ws : list (list string)) : list string :=
  match ws with
  | [] => []
  | word :: ws =>
      if looks_secret (concat_str word) Ignore then "redacted" :: judged_words false ws
      else let (out, named) := judged named (runs word) in out ++ judged_words named ws
  end.

(** The words of a text. *)
Definition words (cs : list string) : list (list string) :=
  omap (fun g : bool * list string => if g.1 then None else Some g.2) (groups is_whitespace cs).

Lemma redact_runs_spec named gs rest :
  proper is_run_char gs -> starts_plain rest ->
  runs ((redact_runs named gs).1 ++ rest) = (judged named (runs_of gs)).1 ++ runs rest /\
  (redact_runs named gs).2 = (judged named (runs_of gs)).2 /\
  match gs with (false, _) :: _ => starts_plain ((redact_runs named gs).1 ++ rest) | _ => True end.
Proof.
  revert named. induction gs as [|[b g] gs IH]; intros named Hp Hrest; [done|].
  destruct Hp as (Hne & Hg & Halt & Hp). destruct b; cbn [redact_runs runs_of omap list_omap fst snd judged].
  - change (omap (fun g0 : bool * list string => if g0.1 then Some (concat_str g0.2) else None) gs) with (runs_of gs).
    destruct (token_looks_secret (concat_str g) || _).
    + destruct (IH false Hp Hrest) as (H1 & H2 & _).
      destruct (redact_runs false gs) as [out n], (judged false (runs_of gs)) as [out' n'].
      cbn [fst snd] in *. split; [|by split].
      rewrite <- app_assoc, redacted_runs, H1. done.
    + destruct (IH (names_a_credential (concat_str g)) Hp Hrest) as (H1 & H2 & H3).
      destruct (redact_runs (names_a_credential (concat_str g)) gs) as [out n] eqn:E,
        (judged (names_a_credential (concat_str g)) (runs_of gs)) as [out' n'].
      cbn [fst snd] in *. split; [|by split].
      rewrite <- app_assoc, runs_run; [by rewrite H1|done|done|].
      destruct gs as [|[[] g'] gs]; [by injection E as <- <-|done|done].
  - destruct (IH named Hp Hrest) as (H1 & H2 & _). 
    change (omap (fun g0 : bool * list string => if g0.1 then Some (concat_str g0.2) else None) gs) with (runs_of gs).
    destruct (redact_runs named gs) as [out n], (judged named (runs_of gs)) as [out' n'].
    cbn [fst snd] in *. split_and!; [|done|].
    + rewrite <- app_assoc, runs_plain; done.
    + destruct g as [|c g]; [done|]. cbn. by inversion Hg.
Qed.

Definition words_of_groups (gs : list (bool * list string)) : list (list string) :=
  omap (fun g : bool * list string => if g.1 then None else Some g.2) gs.

Lemma redact_words_spec named gs :
  proper is_whitespace gs ->
  runs (redact_words named gs) = judged_words named (words_of_groups gs) /\
  match gs with (true, _) :: _ => starts_plain (redact_words named gs) | [] => redact_words named gs = [] | _ => True end.
Proof.
  revert named. induction gs as [|[b g] gs IH]; intros named Hp; [done|].
  destruct Hp as (Hne & Hg & Halt & Hp). destruct b.
  - assert (Hpl : Forall plain g) by (eapply Forall_impl; [exact Hg|]; intros c; apply space_not_run).
    destruct (IH named Hp) as [H1 _]. cbn [redact_words]. split.
    + by rewrite runs_plain.
    + destruct g as [|c g]; [done|]. by inversion Hpl.
  - split; [|done]. cbn [redact_words].
    change (words_of_groups ((false, g) :: gs)) with (g :: words_of_groups gs). cbn [judged_words].
    assert (Hsp : forall n, starts_plain (redact_words n gs)).
    { intros n. destruct (IH n Hp) as [_ H]. destruct gs as [|[[] g'] gs]; [by rewrite H|done|done]. }
    destruct (looks_secret (concat_str g) Ignore).
    + destruct (IH false Hp) as [H1 _]. by rewrite redacted_runs, H1.
    + pose proof (redact_runs_spec named (groups is_run_char g)) as Hr.
      destruct (redact_runs named (groups is_run_char g)) as [out n] eqn:E.
      destruct (Hr (redact_words n gs) (groups_proper _ _) (Hsp n)) as (H1 & H2 & _). cbn [fst snd] in H1, H2.
      unfold runs at 2. destruct (judged named (runs_of (groups is_run_char g))) as [out' n'].
      cbn [fst snd] in *. subst n'. destruct (IH n Hp) as [H3 _]. by rewrite H1, H3.
Qed.

Lemma judged_safe named rs : Forall (fun run => token_looks_secret run = false) (judged named rs).1.
Proof.
  revert named. induction rs as [|run rs IH]; intros named; cbn [judged]; [constructor|].
  destruct (token_looks_secret run) eqn:E; [|destruct (named && _)]; cbn [orb].
  - specialize (IH false). destruct (judged false rs). by constructor.
  - specialize (IH false). destruct (judged false rs). by constructor.
  - specialize (IH (names_a_credential run)). destruct (judged (names_a_credential run) rs). by constructor.
Qed.

Lemma judged_words_safe named ws : Forall (fun run => token_looks_secret run = false) (judged_words named ws).
Proof.
  revert named. induction ws as [|w ws IH]; intros named; cbn [judged_words]; [constructor|].
  destruct (looks_secret _ _); [by constructor|]. pose proof (judged_safe named (runs w)) as H.
  destruct (judged named (runs w)) as [out n]. by apply Forall_app.
Qed.

(** ** What is left alone *)

Lemma redact_runs_same named gs :
  (judged named (runs_of gs)).1 = runs_of gs -> (redact_runs named gs).1 = mjoin (map snd gs).
Proof.
  revert named. induction gs as [|[[] g] gs IH]; intros named; cbn [redact_runs map snd mjoin]; [done| |].
  - change (runs_of ((true, g) :: gs)) with (concat_str g :: runs_of gs). cbn [judged].
    destruct (token_looks_secret (concat_str g) || _) eqn:E.
    + destruct (judged false (runs_of gs)) as [out n]. cbn [fst]. intros [= Hr _]. exfalso. rewrite <- Hr in E.
      revert E. by destruct named; vm_compute.
    + specialize (IH (names_a_credential (concat_str g))).
      destruct (judged _ (runs_of gs)) as [out n], (redact_runs _ gs) as [out' n']. cbn [fst] in *.
      intros [= Hr]. by rewrite IH.
  - change (runs_of ((false, g) :: gs)) with (runs_of gs). specialize (IH named).
    destruct (redact_runs named gs) as [out' n']. cbn [fst] in *. intros H. by rewrite IH.
Qed.

(** Nothing in the words is a credential. *)
Fixpoint innocent (named : bool) (ws : list (list string)) : Prop :=
  match ws with
  | [] => True
  | word :: ws =>
      looks_secret (concat_str word) Ignore = false /\
      (judged named (runs word)).1 = runs word /\ innocent (judged named (runs word)).2 ws
  end.

Lemma redact_words_same named gs :
  proper is_whitespace gs -> innocent named (words_of_groups gs) -> redact_words named gs = mjoin (map snd gs).
Proof.
  revert named. induction gs as [|[[] g] gs IH]; intros named Hp Hi; cbn [redact_words map snd mjoin]; [done| |].
  - destruct Hp as (_ & _ & _ & Hp). by rewrite (IH named).
  - destruct Hp as (_ & _ & _ & Hp). change (words_of_groups ((false, g) :: gs)) with (g :: words_of_groups gs) in Hi.
    destruct Hi as (Hs & Hr & Hi). rewrite Hs. unfold runs in Hr.
    pose proof (redact_runs_same named _ Hr) as Hsame. rewrite groups_concat in Hsame.
    destruct (redact_runs_spec named (groups is_run_char g) [] (groups_proper _ _) I) as (_ & H2 & _).
    unfold runs in Hi. rewrite <- H2 in Hi.
    destruct (redact_runs named (groups is_run_char g)) as [out n]. cbn [fst snd] in *. by rewrite Hsame, (IH n).
Qed.

Lemma redact_chars (P : string -> Prop) named gs :
  Forall P redacted -> Forall (fun g : bool * list string => Forall P g.2) gs -> Forall P (redact_words named gs).
Proof.
  intros Hr. revert named. induction gs as [|[[] g] gs IH]; intros named Hg; cbn [redact_words]; [constructor| |].
  - apply Forall_cons in Hg as [Hg Hgs]. apply Forall_app. auto.
  - apply Forall_cons in Hg as [Hg Hgs]. cbn [snd] in Hg.
    destruct (looks_secret _ _); [apply Forall_app; auto|].
    assert (H : forall n hs, Forall (fun h : bool * list string => Forall P h.2) hs -> Forall P (redact_runs n hs).1).
    { intros n hs. revert n. induction hs as [|[[] h] hs IHh]; intros n Hh; cbn [redact_runs]; [constructor| |].
      - apply Forall_cons in Hh as [Hh Hhs]. destruct (token_looks_secret _ || _).
        + specialize (IHh false Hhs). destruct (redact_runs false hs). apply Forall_app. auto.
        + specialize (IHh (names_a_credential (concat_str h)) Hhs). destruct (redact_runs _ hs). apply Forall_app. auto.
      - apply Forall_cons in Hh as [Hh Hhs]. specialize (IHh n Hhs). destruct (redact_runs n hs). apply Forall_app. auto. }
    assert (Hruns : Forall (fun h : bool * list string => Forall P h.2) (groups is_run_char g)).
    { rewrite <- (groups_concat is_run_char g) in Hg. revert Hg. generalize (groups is_run_char g). clear.
      induction l as [|h l IHl]; cbn [map mjoin]; [constructor|].
      intros [H1 H2]%Forall_app. constructor; auto. }
    specialize (H named _ Hruns). destruct (redact_runs named (groups is_run_char g)) as [out n].
    apply Forall_app. auto.
Qed.

Lemma redact_text_chars text :
  starts_cont text = false ->
  chars (redact_secret_text text) = redact_words false (groups is_whitespace (chars text)).
Proof.
  intros Hv. apply chars_concat, redact_chars.
  - apply chars_are_chars. done.
  - pose proof (chars_are_chars text Hv) as H. rewrite <- (groups_concat is_whitespace (chars text)) in H.
    revert H. generalize (groups is_whitespace (chars text)).
    induction l as [|h l IHl]; cbn [map mjoin]; [constructor|].
    intros [H1 H2]%Forall_app. constructor; auto.
Qed.

(** No run of a redacted text has the shape of a token. *)
Lemma redacted_text_safe text :
  starts_cont text = false -> Forall (fun run => token_looks_secret run = false) (runs (chars (redact_secret_text text))).
Proof.
  intros Hv. destruct (redact_words_spec false _ (groups_proper is_whitespace (chars text))) as [H _].
  rewrite <- redact_text_chars in H by done. rewrite H. apply judged_words_safe.
Qed.

(** The redaction of a text, run by run: a word that looks secret as a whole becomes one
    placeholder, and in the other words a run is replaced when it has the shape of a
    token, or follows a run that names a credential and looks like one.  No run of a token's
    shape is left, and a text in which nothing is replaced is returned as it is. *)
Theorem redaction_run_by_run text :
  starts_cont text = false ->
  let out := redact_secret_text text in
  runs (chars out) = judged_words false (words (chars text)) /\
  Forall (fun run => token_looks_secret run = false) (runs (chars out)) /\
  (innocent false (words (chars text)) -> out = text).
Proof.
  intros Hv out. destruct (redact_words_spec false _ (groups_proper is_whitespace (chars text))) as [H _].
  rewrite <- redact_text_chars in H by done.
  change (words_of_groups (groups is_whitespace (chars text))) with (words (chars text)) in H. split_and!.
  - exact H.
  - unfold out. rewrite H. apply judged_words_safe.
  - intros Hi. unfold out, redact_secret_text. rewrite redact_words_same by (done || apply groups_proper).
    rewrite groups_concat. apply concat_chars.
Qed.

(** ** Arguments *)

(** The mask, argument by argument: an argument is masked when it looks secret or follows a
    flag without a value of its own. *)
Fixpoint mask_from (marked : bool) (args : list string) : list bool :=
  match args with
  | [] => []
  | arg :: args => (marked || arg_looks_secret arg) :: mask_from (marks_next arg) args
  end.

Lemma insert_here (pre : list bool) b rest : <[length pre := true]> (pre ++ b :: rest) = pre ++ true :: rest.
Proof. rewrite <- (Nat.add_0_r (length pre)), insert_app_r. done. Qed.

Lemma insert_next (pre : list bool) b rest :
  <[S (length pre) := true]> (pre ++ b :: rest) = pre ++ b :: <[0%nat := true]> rest.
Proof. rewrite <- Nat.add_1_r, insert_app_r. done. Qed.

Lemma mask_loop_from args pre b :
  mask_loop (length pre) args (pre ++ match args with [] => [] | _ :: rest => b :: replicate (length rest) false end) =
  pre ++ mask_from b args.
Proof.
  revert pre b. induction args as [|arg args IH]; intros pre b; [done|]. cbn [mask_loop mask_from].
  assert (H1 : (if arg_looks_secret arg then <[length pre := true]> (pre ++ b :: replicate (length args) false)
    else pre ++ b :: replicate (length args) false) = pre ++ (b || arg_looks_secret arg) :: replicate (length args) false).
  { destruct (arg_looks_secret arg); [by rewrite insert_here, orb_true_r|by rewrite orb_false_r]. }
  rewrite H1. set (b' := b || arg_looks_secret arg).
  specialize (IH (pre ++ [b']) (marks_next arg)). rewrite length_app, Nat.add_1_r, <- !app_assoc in IH.
  cbn [app] in IH. rewrite <- IH. f_equal.
  destruct (marks_next arg); [rewrite insert_next|]; destruct args; reflexivity.
Qed.

(** Every argument that looks secret is masked, so is every argument after a flag that
    names a credential and has no value of its own, and no other is. *)
Theorem secret_arg_mask_exact args : secret_arg_mask args = mask_from false args.
Proof.
  unfold secret_arg_mask. pose proof (mask_loop_from args [] false) as H. cbn [app length] in H.
  rewrite <- H. f_equal. by destruct args.
Qed.

(** ** Userinfo *)

Lemma prefix_long p u t : (String.length p <= String.length u)%nat -> String.prefix p (u +:+ t) = String.prefix p u.
Proof.
  revert u. induction p as [|c p IH]; intros u Hl; [by destruct u, t|].
  destruct u as [|d u]; [cbn in Hl; lia|]. cbn in *. case_match; [apply IH; lia|done].
Qed.

Lemma append_length u v : String.length (u +:+ v) = (String.length u + String.length v)%nat.
Proof. induction u as [|d u IH]; cbn; [done|]. by rewrite IH. Qed.

Lemma prefix_within sep x a t :
  String.prefix sep (String x (a +:+ sep +:+ t)) = String.prefix sep (String x a +:+ sep).
Proof.
  change (String x (a +:+ sep +:+ t)) with (String x a +:+ (sep +:+ t)). rewrite <- app_str_assoc.
  apply prefix_long. rewrite append_length. lia.
Qed.

(** The first separator stays the first whatever comes after it. *)
Lemma split_on_str_first sep a b b' :
  split_on_str sep (a +:+ sep +:+ b) = Some (a, b) -> split_on_str sep (a +:+ sep +:+ b') = Some (a, b').
Proof.
  induction a as [|x a IH]; intros H.
  - change ("" +:+ sep +:+ b') with (sep +:+ b').
    assert (E : strip_prefix sep (sep +:+ b') = Some b') by by apply strip_prefix_spec.
    destruct (sep +:+ b') as [|y s]; cbn [split_on_str]; by rewrite E.
  - change (String x a +:+ sep +:+ b) with (String x (a +:+ sep +:+ b)) in H.
    change (String x a +:+ sep +:+ b') with (String x (a +:+ sep +:+ b')).
    rewrite split_on_str_cons in *.
    destruct (strip_prefix sep (String x (a +:+ sep +:+ b))) as [r|] eqn:E; [done|].
    assert (E' : strip_prefix sep (String x (a +:+ sep +:+ b')) = None).
    { apply strip_prefix_None. apply strip_prefix_None in E. by rewrite prefix_within in *. }
    rewrite E'. destruct (split_on_str sep (a +:+ sep +:+ b)) as [[p q]|] eqn:S; [|done].
    cbn [mbind option_bind] in H. injection H as Ha Hb. subst p q. by rewrite IH.
Qed.

Lemma before_by_all p s : all_bytes (fun b => negb (p b)) (before_by p s) = true.
Proof. induction s as [|b s IH]; [done|]. cbn. destruct (p b) eqn:E; [done|]. cbn. by rewrite E. Qed.

Lemma drop_bytes_app u t : drop_bytes (String.length u) (u +:+ t) = t.
Proof.
  induction u as [|c u IH]; [|exact IH].
  pose proof (take_drop_bytes 0 t) as H. by destruct t.
Qed.

(** What comes after the authority. *)
Lemma before_by_split p s :
  exists t, s = before_by p s +:+ t /\ match t with String b _ => p b = true | EmptyString => True end.
Proof.
  induction s as [|b s IH]; [by exists ""|]. cbn [before_by]. destruct (p b) eqn:E.
  - exists (String b s). split; [done|exact E].
  - destruct IH as (t & H1 & H2). exists t. split; [cbn; by f_equal|exact H2].
Qed.

Lemma before_by_rest p s :
  let t := drop_bytes (String.length (before_by p s)) s in
  s = before_by p s +:+ t /\ match t with String b _ => p b = true | EmptyString => True end.
Proof.
  destruct (before_by_split p s) as (t & H1 & H2).
  assert (E : drop_bytes (String.length (before_by p s)) s = t) by (rewrite H1 at 2; apply drop_bytes_app).
  cbv zeta. by rewrite E.
Qed.

Lemma before_by_app p u t :
  all_bytes (fun b => negb (p b)) u = true -> match t with String b _ => p b = true | EmptyString => True end ->
  before_by p (u +:+ t) = u.
Proof.
  induction u as [|b u IH]; intros Hu Ht; cbn in *.
  - destruct t as [|c t]; [done|]. cbn. by rewrite Ht.
  - apply andb_prop in Hu as [Hb Hu]. apply negb_true_iff in Hb. rewrite Hb, IH; done.
Qed.

Lemma rsplit_once_by_spec p s l r :
  rsplit_once_by p s = Some (l, r) ->
  (exists b, p b = true /\ s = l +:+ String b r) /\ all_bytes (fun b => negb (p b)) r = true.
Proof.
  revert l. induction s as [|b s IH]; intros l H; [done|]. cbn in H.
  destruct (rsplit_once_by p s) as [[l' r']|] eqn:E.
  - injection H as <- <-. destruct (IH l' eq_refl) as [(c & Hc & ->) Hr]. eauto.
  - destruct (p b) eqn:Eb; [|done]. injection H as <- <-. split; [by exists b|]. clear IH.
    induction s as [|c s IHs]; [done|]. cbn in E |- *.
    destruct (rsplit_once_by p s) as [[]|]; [done|]. destruct (p c); [done|]. by rewrite IHs.
Qed.

Lemma rsplit_once_by_none p s : all_bytes (fun b => negb (p b)) s = true -> rsplit_once_by p s = None.
Proof.
  induction s as [|c s IH]; [done|]. cbn. intros [Hc Hs]%andb_prop. apply negb_true_iff in Hc. by rewrite IH, Hc.
Qed.

Lemma rsplit_once_by_here p u b r :
  p b = true -> all_bytes (fun b => negb (p b)) r = true -> rsplit_once_by p (u +:+ String b r) = Some (u, r).
Proof.
  intros Hb Hr. induction u as [|c u IH]; cbn.
  - by rewrite rsplit_once_by_none, Hb.
  - by rewrite IH.
Qed.

(** Whatever stands before the last [@] of a URL's authority is replaced, the scheme, the
    host and the rest stay, and nothing is left to replace. *)
Theorem userinfo_redacted url :
  (redact_url_userinfo url = url \/
   exists scheme userinfo host rest,
     url = scheme +:+ "://" +:+ userinfo +:+ "@" +:+ host +:+ rest /\
     all_bytes (fun b => negb (is_at b || ends_authority b)) host = true /\
     redact_url_userinfo url = scheme +:+ "://<redacted>@" +:+ host +:+ rest) /\
  (forall scheme rest, split_on_str "://" url = Some (scheme, rest) ->
     contains "@" (before_by ends_authority rest) = false -> redact_url_userinfo url = url) /\
  redact_url_userinfo (redact_url_userinfo url) = redact_url_userinfo url.
Proof.
  remember (redact_url_userinfo url) as out eqn:Ho. unfold redact_url_userinfo in Ho.
  destruct (split_on_str "://" url) as [[scheme rest]|] eqn:Es.
  2:{ subst out. split; [by left|]. split; [done|]. unfold redact_url_userinfo. by rewrite Es. }
  pose proof (split_on_str_Some _ _ _ _ Es) as Hurl.
  destruct (before_by_rest ends_authority rest) as [Hrest Htail].
  pose proof (before_by_all ends_authority rest) as Hauth.
  set (authority := before_by ends_authority rest) in *. set (tail := drop_bytes _ rest) in *.
  destruct (rsplit_once_by is_at authority) as [[userinfo host]|] eqn:Ea.
  2:{ subst out. split; [by left|]. split; [done|]. unfold redact_url_userinfo. rewrite Es.
      fold authority tail. by rewrite Ea. }
  apply rsplit_once_by_spec in Ea as [(b & Hb & Heq) Hhost].
  assert (b = "@"%char) as -> by by apply Ascii.eqb_eq.
  rewrite Heq, all_bytes_app in Hauth. apply andb_prop in Hauth as [_ Hauth]. cbn in Hauth.
  split; [right|split].
  - exists scheme, userinfo, host, tail. split_and!; [|..|done].
    + rewrite Hurl. f_equal. f_equal. rewrite Hrest, Heq. by rewrite app_str_assoc.
    + clear -Hauth Hhost. induction host as [|c host IH]; [done|]. cbn in *.
      apply andb_prop in Hauth as [H1 H2]. apply andb_prop in Hhost as [H3 H4].
      rewrite IH by done. rewrite negb_orb, H1, H3. done.
  - intros ? ? [= <- <-] Hc. exfalso. fold authority in Hc. rewrite Heq in Hc. revert Hc. clear.
    induction userinfo as [|c u IH]; cbn [String.append]; rewrite contains_cons; intros [H1 H2]%orb_false_iff; [|auto].
    by destruct host.
  - assert (Hout : out = scheme +:+ "://" +:+ ("<redacted>" +:+ String "@" host) +:+ tail)
      by (rewrite Ho; by rewrite !app_str_assoc).
    unfold redact_url_userinfo. rewrite Hurl in Es. rewrite Hout, (split_on_str_first _ _ _ _ Es).
    rewrite before_by_app; [|cbn; exact Hauth|exact Htail].
    rewrite rsplit_once_by_here by done. rewrite drop_bytes_app. by rewrite !app_str_assoc.
Qed.

(** ** Concrete inputs *)

Definition demo_error : string := "invalid api key sk-live-0123456789 for request 42".

Lemma redaction_run_by_run_witness :
  let out := redact_secret_text demo_error in
  out = "invalid api key <redacted> for request 42" /\
  (runs (chars out) = judged_words false (words (chars demo_error)) /\
   Forall (fun run => token_looks_secret run = false) (runs (chars out)) /\
   (innocent false (words (chars demo_error)) -> out = demo_error)).
Proof. split; [by vm_compute|]. exact (redaction_run_by_run demo_error eq_refl). Defined.

Definition demo_url : string := "https://ada:pw@host/x".

Lemma userinfo_redacted_witness :
  redact_url_userinfo demo_url = "https://<redacted>@host/x" /\
  ((redact_url_userinfo demo_url = demo_url \/
    exists scheme userinfo host rest,
      demo_url = scheme +:+ "://" +:+ userinfo +:+ "@" +:+ host +:+ rest /\
      all_bytes (fun b => negb (is_at b || ends_authority b)) host = true /\
      redact_url_userinfo demo_url = scheme +:+ "://<redacted>@" +:+ host +:+ rest) /\
   (forall scheme rest, split_on_str "://" demo_url = Some (scheme, rest) ->
      contains "@" (before_by ends_authority rest) = false -> redact_url_userinfo demo_url = demo_url) /\
   redact_url_userinfo (redact_url_userinfo demo_url) = redact_url_userinfo demo_url).
Proof. split; [by vm_compute|]. exact (userinfo_redacted demo_url). Defined.

(** Only the userinfo of the first URL of a word is looked for: the credentials of a second
    one pass, in an argument and in a text. *)
Theorem second_url_kept :
  let arg := "https://a.example,https://ada:pw@b.example" in
  secret_arg_mask [arg] = [false] /\ redact_url_userinfo arg = arg /\ redact_secret_text arg = arg.
Proof. split_and!; by vm_compute. Qed.
End Redact.
