(* ===== verification/Guards.v ===== *)
(** What the gateway tells a model about a call (src/bin/toolport-gateway.rs): the guard
    against invented arguments, the tools that can supply a value, the hint after a failure
    and the result of a call that was refused. *)

From S2P Require Import Prelude Text Json CallFailure Approval Scope.

Module Guards.

(** ** Placeholders *)

Definition param_is_identifier (param : string) : bool :=
  let low := to_ascii_lowercase param in
  String.eqb low "id" || ends_with "_id" low || ends_with "Id" param ||
  String.eqb low "key" || ends_with "_key" low || ends_with "Key" param ||
  String.eqb low "token" || ends_with "_token" low || ends_with "Token" param ||
  String.eqb low "secret" || ends_with "_secret" low || ends_with "Secret" param.

Definition token_char (c : string) : bool := char_is_alnum c || listed c ["_"; "-"; "."].

(** [strip_prefix(open).and_then(|rest| rest.strip_suffix(close))] *)
Definition unwrapped (open close s : string) : option string :=
  rest ← strip_prefix open s; strip_suffix close rest.

Definition is_template_token (s : string) : bool :=
  match (match unwrapped "{{" "}}" s with Some inner => Some inner | None => unwrapped "<" ">" s end) with
  | Some inner =>
      let inner := trim inner in
      negb (String.eqb inner "") && (slen inner <=? 64) && forallb token_char (chars inner)
  | None => false
  end.

Definition invented : list string :=
  ["placeholder"; "replace_me"; "replaceme"; "changeme"; "change_me"; "your_api_key"].

Definition echoes : list string :=
  ["string"; "example"; "todo"; "tbd"; "xxx"; "xxxx"; "id"; "key"; "token"; "team_id"; "teamid";
   "account_id"; "accountid"; "project_id"; "projectid"; "api_key"; "apikey"].

Definition looks_like_placeholder (param v : string) : bool :=
  let s := trim v in
  if String.eqb s "" then false
  else if is_template_token s &&
          (negb (starts_with "{{" s) || negb (contains "." s) || param_is_identifier param) then true
  else
    let low := to_ascii_lowercase s in
    if starts_with "your_" low || starts_with "your-" low || ends_with "_here" low || ends_with "-here" low ||
       listed low invented then true
    else if param_is_identifier param then
      if starts_with "your " low then true else listed low echoes
    else false.

Fixpoint find_placeholder (fields : list (string * json)) : option (string * string) :=
  match fields with
  | [] => None
  | (k, v) :: fields =>
      match as_str v with
      | Some s => if looks_like_placeholder k s then Some (k, s) else find_placeholder fields
      | None => find_placeholder fields
      end
  end.

Definition find_placeholder_arg (arguments : json) : option (string * string) :=
  fields ← as_object arguments; find_placeholder fields.

Definition is_underscore (b : ascii) : bool := Stdlib.Strings.Ascii.eqb b "_".

Definition resource_stem (param : string) : string :=
  let low := to_ascii_lowercase param in
  let stem := match strip_suffix "_id" low with
              | Some stem => stem
              | None => default low (strip_suffix "id" low)
              end in
  trim_end_by is_underscore stem.

(** ** Tools that supply a value *)

Definition server_namespaced (name server : string) : option string :=
  match strip_prefix (server +:+ "__") name with
  | Some rest => Some rest
  | None => strip_prefix (replace "__" "-" server +:+ "-") name
  end.

Definition is_source (bare : string) : bool :=
  starts_with "list" bare || starts_with "get" bare || starts_with "retrieve" bare ||
  contains "_list" bare || contains "search" bare.

(** A source tool of [server], and whether its name mentions [resource]. *)
Definition source_hit (server : string) (resource : option string) (tool : json) : option (bool * string) :=
  n ← Scope.tool_name tool;
  bare ← server_namespaced n server;
  let bare := to_ascii_lowercase bare in
  if negb (is_source bare) then None
  else
    let on_resource := match resource with Some r => negb (String.eqb r "") && contains r bare | None => false end in
    Some (on_resource, n).

(** Tools on the resource first, then by name. *)
Definition hit_le (a b : bool * string) : Prop :=
  a.1 = true /\ b.1 = false \/ a.1 = b.1 /\ str_le a.2 b.2.

#[global] Instance hit_le_dec : RelDecision hit_le.
Proof. intros a b. unfold hit_le. apply _. Defined.

Definition source_tool_hints (catalog : list json) (server : string) (resource : option string) (max : nat)
    : list string :=
  take max (map snd (merge_sort hit_le (omap (source_hit server resource) catalog))).

(** ** The hint after a failure *)

Definition find_tool (catalog : list json) (name : string) : option json :=
  List.find (fun tool => bool_decide (Scope.tool_name tool = Some name)) catalog.

(** An opaque failure is an input failure when the schema already shows one. *)
Definition refined_kind (schema : option json) (arguments : json) (kind : CallFailure.CallFailureKind)
    : CallFailure.CallFailureKind :=
  match kind with
  | CallFailure.Internal =>
      match (schema ← schema; Some (CallFailure.with_schema (CallFailure.InvalidInput [] []) schema arguments)) with
      | Some (CallFailure.InvalidInput missing invalid) =>
          if negb (bool_decide (missing = [])) || negb (bool_decide (invalid = []))
          then CallFailure.InvalidInput missing invalid else kind
      | _ => kind
      end
  | _ => kind
  end.

Definition recovery_hint (catalog : list json) (server name : string) (arguments : json)
    (kind : CallFailure.CallFailureKind) : string :=
  let tool := find_tool catalog name in
  let schema := tool ≫= get "inputSchema" in
  let kind := refined_kind schema arguments kind in
  let kind := CallFailure.with_schema kind (default JNull schema) arguments in
  let read_only := bool_decide ((tool ≫= json_pointer "/annotations/readOnlyHint") ≫= as_bool = Some true) in
  let guidance := CallFailure.guidance kind read_only in
  let text := if String.eqb guidance "" then "" else " " +:+ guidance in
  if CallFailure.identifier_failure kind then
    match List.filter (fun hint => slen hint <=? 64) (source_tool_hints catalog server None 2) with
    | [] => text
    | hints => text +:+ " Find IDs: " +:+ String.concat ", " hints +:+ "."
    end
  else text.

(** ** Refused calls *)

Definition decision_token (d : Approval.ApprovalDecision) : string :=
  match d with
  | Approval.Approved => "approved"
  | Approval.Denied => "denied"
  | Approval.Withdrawn => "withdrawn"
  | Approval.Unreachable => "unreachable"
  | Approval.StaleState => "stale_state"
  | Approval.Timeout => "no_response"
  end.

Definition approval_reason_token (r : Approval.ApprovalReason) : string :=
  match r with
  | Approval.Destructive => "destructive"
  | Approval.UntrustedSource => "untrusted_source"
  | Approval.DestructiveAndUntrusted => "destructive_and_untrusted"
  | Approval.PiiCrossServer => "pii_cross_server"
  end.

(** A result of one text block that is an error. *)
Definition error_result (text : string) : json :=
  obj [("content", JArray [obj [("type", JString "text"); ("text", JString text)]]); ("isError", JBool true)].

Definition refusal_why (name : string) (d : Approval.ApprovalDecision) : bool * string :=
  match d with
  | Approval.Withdrawn => (false, "the call to " +:+ name +:+ " was withdrawn before a human answered")
  | Approval.Denied => (false, "the call to " +:+ name +:+ " was denied by a human reviewer")
  | Approval.Unreachable =>
      (true, "the call to " +:+ name +:+ " could not be approved because the Toolport approval service " +:+
             "was unreachable (is the Toolport app running?)")
  | Approval.StaleState =>
      (true, "the approval for " +:+ name +:+ " is stale (arguments, tool definition, or policy " +:+
             "changed after it was approved), so it was rejected")
  | _ => (true, "the call to " +:+ name +:+ " was not approved in time (the Toolport app may be closed)")
  end.

Definition refusal_guidance (d : Approval.ApprovalDecision) : string :=
  match d with
  | Approval.StaleState =>
      " Re-check the tool in Toolport, re-form the exact call, get it approved again, then retry."
  | Approval.Denied => ""
  | _ => " Ask the user to approve it in the Toolport app, then retry."
  end.

Definition refused_call_result (name : string) (d : Approval.ApprovalDecision) (reason_str : string) : json :=
  let '(retriable, why) := refusal_why name d in
  obj [("content", JArray [obj [("type", JString "text");
                                ("text", JString ("Toolport: " +:+ why +:+ ", so it did not run." +:+ refusal_guidance d))]]);
       ("isError", JBool true);
       ("structuredContent", obj [("toolportDecision", JString (decision_token d));
                                  ("reason", JString reason_str); ("retriable", JBool retriable)])].

(** ** What the guard refuses *)

Lemma find_placeholder_spec fields :
  match find_placeholder fields with
  | Some (k, s) => (k, JString s) ∈ fields /\ looks_like_placeholder k s = true
  | None => forall k s, (k, JString s) ∈ fields -> looks_like_placeholder k s = false
  end.
Proof.
  induction fields as [|[k v] fields IH]; cbn [find_placeholder].
  { intros k s H. by apply not_elem_of_nil in H. }
  assert (Hrest : match find_placeholder fields with
    | Some (k', s) => (k', JString s) ∈ (k, v) :: fields /\ looks_like_placeholder k' s = true
    | None => (forall s, v = JString s -> looks_like_placeholder k s = false) ->
        forall k' s, (k', JString s) ∈ (k, v) :: fields -> looks_like_placeholder k' s = false
    end).
  { destruct (find_placeholder fields) as [[k' s]|].
    - destruct IH. split; [by right|done].
    - intros Hv k' s [[= -> <-]|H]%elem_of_cons; [by apply Hv|by apply IH]. }
  destruct v as [| | |s| |]; cbn [as_str]; try (destruct (find_placeholder fields) as [[]|]; [done|by apply Hrest]).
  destruct (looks_like_placeholder k s) eqn:E; [split; [left|done]|].
  destruct (find_placeholder fields) as [[]|]; [done|]. apply Hrest. by intros ? [= <-].
Qed.

(** A content field that merely ends with the words of a placeholder is refused: the
    suffixes are looked for in every parameter, not only in identifiers. *)
Theorem prose_refused :
  param_is_identifier "message" = false /\
  looks_like_placeholder "message" "Meet me at noon, I am over-here" = true.
Proof. split; by vm_compute. Qed.

(** ** What the hints name *)

#[global] Instance hit_le_trans : Transitive hit_le.
Proof.
  intros x y z. unfold hit_le. intros [[H1 H2]|[H1 H2]] [[H3 H4]|[H3 H4]]; try (left; split; congruence).
  right. split; [congruence|]. by etrans.
Qed.

#[global] Instance hit_le_total : Total hit_le.
Proof.
  intros [a x] [b y]. unfold hit_le. cbn. destruct a, b; auto;
    destruct (total str_le x y); auto.
Qed.

Lemma source_hit_Some server resource tool b n :
  source_hit server resource tool = Some (b, n) ->
  Scope.tool_name tool = Some n /\ exists bare, server_namespaced n server = Some bare /\
    is_source (to_ascii_lowercase bare) = true /\
    b = match resource with
        | Some r => negb (String.eqb r "") && contains r (to_ascii_lowercase bare)
        | None => false
        end.
Proof.
  unfold source_hit. destruct (Scope.tool_name tool) as [n'|]; [|done]. cbn [mbind option_bind].
  destruct (server_namespaced n' server) as [bare|] eqn:E; [|done]. cbn [mbind option_bind].
  destruct (is_source (to_ascii_lowercase bare)) eqn:Es; [|done]. intros [= <- <-]. eauto.
Qed.

(** The hints are at most [max] tools of the catalog, on the server, that list, get or
    search; those that mention the resource come first, and no such tool is left out for
    one that does not. *)
Theorem source_hints_spec catalog server resource max :
  let hints := source_tool_hints catalog server resource max in
  (length hints <= max)%nat /\
  Forall (fun n => exists tool, tool ∈ catalog /\ Scope.tool_name tool = Some n /\
    exists bare, server_namespaced n server = Some bare /\ is_source (to_ascii_lowercase bare) = true) hints /\
  exists hits, hits ≡ₚ omap (source_hit server resource) catalog /\ StronglySorted hit_le hits /\
    hints = take max (map snd hits).
Proof.
  intros hints. set (hits := merge_sort hit_le (omap (source_hit server resource) catalog)).
  assert (Hp : hits ≡ₚ omap (source_hit server resource) catalog) by apply merge_sort_Permutation.
  split_and!.
  - subst hints. unfold source_tool_hints. rewrite length_take. lia.
  - apply Forall_take, Forall_forall. intros n Hn.
    apply list_elem_of_fmap in Hn as ([b n'] & -> & Hin). fold hits in Hin.
    rewrite Hp in Hin. apply list_elem_of_omap in Hin as (tool & Ht & Hs).
    apply source_hit_Some in Hs as (Hn & bare & Hb & His & _). exists tool. eauto.
  - exists hits. split; [done|]. split; [apply StronglySorted_merge_sort; apply _|done].
Qed.

Lemma source_hints_length catalog server resource max :
  (length (source_tool_hints catalog server resource max) <= max)%nat.
Proof. unfold source_tool_hints. rewrite length_take. lia. Qed.

Lemma concat_two_bounded (l : list string) (k : Z) :
  Forall (fun s => slen s <= k) l -> (length l <= 2)%nat -> 0 <= k -> slen (String.concat ", " l) <= 2 * k + 2.
Proof.
  intros Hl Hn Hk. destruct l as [|a [|b [|c l]]]; cbn [length] in Hn; [|..|lia].
  - change (slen (String.concat ", " [])) with 0. lia.
  - apply Forall_cons in Hl as [Ha _]. change (String.concat ", " [a]) with a. lia.
  - apply Forall_cons in Hl as [Ha Hl]. apply Forall_cons in Hl as [Hb _].
    change (String.concat ", " [a; b]) with (a +:+ ", " +:+ b). rewrite !slen_app. change (slen ", ") with 2. lia.
Qed.

(** The hint after a failure never grows with what failed: at most 306 bytes whatever the
    catalog, the arguments and the failure are. *)
Theorem recovery_hint_bounded catalog server name arguments kind :
  slen (recovery_hint catalog server name arguments kind) <= 306.
Proof.
  unfold recovery_hint. set (schema := find_tool catalog name ≫= get "inputSchema").
  set (k := refined_kind schema arguments kind). set (ro := bool_decide _).
  destruct (CallFailure.guidance_bounded k (default JNull schema) arguments ro) as (_ & Hg & _).
  set (g := CallFailure.guidance _ ro) in *. set (text := if String.eqb g "" then "" else " " +:+ g).
  assert (Ht : slen text <= 164).
  { subst text. destruct (String.eqb g ""); [change (slen "") with 0; lia|].
    rewrite slen_app. change (slen " ") with 1. lia. }
  destruct (CallFailure.identifier_failure _); [|lia].
  destruct (List.filter _ (source_tool_hints catalog server None 2)) as [|h hs] eqn:E; [lia|].
  assert (Hf : Forall (fun s => slen s <= 64) (h :: hs)).
  { rewrite <- E. apply Forall_forall. intros s Hs. apply list_elem_of_In, filter_In in Hs as [_ Hs].
    apply Z.leb_le in Hs. lia. }
  assert (Hn : (length (h :: hs) <= 2)%nat).
  { rewrite <- E. etrans; [apply List.filter_length_le|].
    pose proof (source_hints_length catalog server None 2). lia. }
  pose proof (concat_two_bounded (h :: hs) 64 Hf Hn ltac:(lia)) as Hc.
  rewrite !slen_app. change (slen " Find IDs: ") with 11. change (slen ".") with 1. lia.
Qed.

(** ** Concrete inputs *)

Definition demo_catalog : list json :=
  map (fun n => obj [("name", JString n);
                     ("inputSchema", obj [("type", JString "object"); ("required", JArray [JString "team_id"]);
                                          ("properties", obj [("team_id", obj [("type", JString "string")])])])])
    ["crm__list_teams"; "crm__get_user"; "crm__search_team"; "crm__add"; "mail__list"].

Example demo_hints :
  source_tool_hints demo_catalog "crm" (Some "team") 3 = ["crm__list_teams"; "crm__search_team"; "crm__get_user"].
Proof. by vm_compute. Qed.

Example demo_hint :
  recovery_hint demo_catalog "crm" "crm__add" (obj []) CallFailure.Internal =
  " Check tool input. Missing: team_id. Find IDs: crm__get_user, crm__list_teams.".
Proof. by vm_compute. Qed.

Example demo_placeholder :
  find_placeholder_arg (obj [("team_id", JString "<team_id>"); ("body", JString "<p>todo</p>")]) =
  Some ("team_id", "<team_id>").
Proof. by vm_compute. Qed.
End Guards.
