(* ===== verification/Hosts.v ===== *)
(** Which addresses Toolport talks to (src/oauth.rs, src/downstream.rs, src/remote.rs,
    src/teams.rs): the guard against requests into the user's network.  The resolver, the
    parser of addresses and the URL crate are parameters. *)

From S2P Require Import Prelude Text Json Redact.

Module Hosts.

(** ** Addresses *)

(** An address as its number: 32 bits, or 128. *)
Inductive IpAddr := V4 (n : Z) | V6 (n : Z).

#[global] Instance IpAddr_eq : EqDecision IpAddr.
Proof. solve_decision. Defined.

(** [octets()\[i\]] and [segments()\[0\]]. *)
Definition octet (i n : Z) : Z := Z.land (Z.shiftr n (24 - 8 * i)) 255.
Definition segment0 (n : Z) : Z := Z.land (Z.shiftr n 112) 65535.

Definition v4_is_loopback (n : Z) : bool := octet 0 n =? 127.
Definition v4_is_private (n : Z) : bool :=
  (octet 0 n =? 10) ||
  ((octet 0 n =? 172) && (16 <=? octet 1 n) && (octet 1 n <=? 31)) ||
  ((octet 0 n =? 192) && (octet 1 n =? 168)).
Definition v4_is_link_local (n : Z) : bool := (octet 0 n =? 169) && (octet 1 n =? 254).
Definition v4_is_unspecified (n : Z) : bool := n =? 0.
Definition v4_is_broadcast (n : Z) : bool := n =? 4294967295.

Definition v6_is_loopback (n : Z) : bool := n =? 1.
Definition v6_is_unspecified (n : Z) : bool := n =? 0.

(** [to_ipv4_mapped]: ::ffff:a.b.c.d. *)
Definition to_ipv4_mapped (n : Z) : option Z :=
  if Z.shiftr n 32 =? 65535 then Some (Z.land n 4294967295) else None.

(** fd00:ec2::254 *)
Definition AWS_V6_METADATA : Z := Z.shiftl 64768 112 + Z.shiftl 3778 96 + 596.

Definition ip_is_link_local (ip : IpAddr) : bool :=
  match ip with
  | V4 n => v4_is_link_local n
  | V6 n =>
      (n =? AWS_V6_METADATA) ||
      (Z.land (segment0 n) 65472 =? 65152) ||
      match to_ipv4_mapped n with Some m => v4_is_link_local m | None => false end
  end.

(** Carrier-grade NAT, 100.64.0.0/10. *)
Definition is_cgnat (n : Z) : bool := (octet 0 n =? 100) && (Z.land (octet 1 n) 192 =? 64).

Definition ip_reaches_metadata (ip : IpAddr) : bool :=
  if ip_is_link_local ip then true
  else
    let reached v4 := is_cgnat v4 || (octet 0 v4 =? 0) || v4_is_broadcast v4 in
    match ip with
    | V4 n => reached n
    | V6 n =>
        if v6_is_unspecified n then true
        else match to_ipv4_mapped n with Some m => reached m | None => false end
    end.

Definition v4_private (n : Z) : bool :=
  v4_is_loopback n || v4_is_private n || v4_is_link_local n || v4_is_unspecified n || v4_is_broadcast n ||
  is_cgnat n.

Definition ip_is_private (ip : IpAddr) : bool :=
  match ip with
  | V4 n => v4_private n
  | V6 n =>
      v6_is_loopback n || v6_is_unspecified n ||
      (Z.land (segment0 n) 65472 =? 65152) ||
      (Z.land (segment0 n) 65024 =? 64512) ||
      match to_ipv4_mapped n with Some m => v4_private m | None => false end
  end.

Definition ip_is_loopback (ip : IpAddr) : bool :=
  match ip with V4 n => v4_is_loopback n | V6 n => v6_is_loopback n end.

(** ** Hosts of URLs *)

Definition is_at : ascii -> bool := Redact.is_at.
Definition is_colon (b : ascii) : bool := Stdlib.Strings.Ascii.eqb b ":".
Definition is_close_bracket (b : ascii) : bool := Stdlib.Strings.Ascii.eqb b "]".

(** Past any userinfo; the brackets of an IPv6 address, or the port, are cut. *)
Definition host_of_authority (authority : string) : string :=
  let authority := match rsplit_once_by is_at authority with Some (_, a) => a | None => authority end in
  match strip_prefix "[" authority with
  | Some rest => before_by is_close_bracket rest
  | None => before_by is_colon authority
  end.

Definition host_of_url (url : string) : option string :=
  '(_, rest) ← split_on_str "://" url;
  let after := match split_on_str "://" rest with Some (a, _) => a | None => rest end in
  Some (host_of_authority (before_by Redact.ends_authority after)).

Definition quote : string := bytes_str [34%N].

Definition is_local_name (h : string) : bool := String.eqb h "localhost" || ends_with ".localhost" h.

Section hosts.
(** [str::parse::<IpAddr>], and the names of an address. *)
Variable parse_ip : string -> option IpAddr.
Variable show_ip : IpAddr -> string.
(** [to_socket_addrs]: [None] when the name does not resolve. *)
Variable resolve : string -> option (list IpAddr).
(** [url::Url::parse]: the scheme and the host. *)
Variable url_parse : string -> option (string * option string).

Definition strip_brackets (h : string) : string :=
  trim_matches (fun c => String.eqb c "[" || String.eqb c "]") h.

Definition host_reaches_metadata (host : string) : bool :=
  let host := strip_brackets host in
  let host := default host (strip_suffix "." host) in
  let low := to_ascii_lowercase host in
  if String.eqb low "metadata.google.internal" || String.eqb low "metadata" then true
  else match parse_ip host with Some ip => ip_reaches_metadata ip | None => false end.

Definition validate_web_url (url : string) : result string string :=
  match url_parse url with
  | None => Err "not a URL"
  | Some (scheme, host) =>
      if negb (String.eqb scheme "http" || String.eqb scheme "https")
      then Err "only http and https URLs can be opened"
      else match host with
           | None => Err "URL has no host"
           | Some host =>
               if host_reaches_metadata host then Err "refusing to open a link-local/metadata address"
               else Ok url
           end
  end.

Definition host_is_private (host : string) : bool :=
  let h := to_ascii_lowercase (trim host) in
  if String.eqb h "" || String.eqb h "localhost" || ends_with ".localhost" h then true
  else match resolve h with
       | Some ips => bool_decide (ips = []) || existsb ip_is_private ips
       | None => true
       end.

Definition host_is_definitely_private (host : string) : bool :=
  let h := to_ascii_lowercase (trim host) in
  if String.eqb h "" then false
  else if is_local_name h then true
  else match resolve h with
       | Some ips => negb (bool_decide (ips = [])) && forallb ip_is_private ips
       | None => false
       end.

Definition host_is_link_local (host : string) : bool :=
  let h := to_ascii_lowercase (trim host) in
  if String.eqb h "" || String.eqb h "localhost" || ends_with ".localhost" h then false
  else match resolve h with Some ips => existsb ip_is_link_local ips | None => false end.

(** The one of remote.rs. *)
Definition connect_is_link_local (host : string) : bool :=
  let h := trim host in
  match parse_ip h with
  | Some ip => ip_is_link_local ip
  | None => match resolve h with Some ips => existsb ip_is_link_local ips | None => false end
  end.

(** ** Guards *)

Definition guard_endpoint (url : string) (server_local : bool) (what : string) : result () string :=
  if server_local then Ok tt
  else match host_of_url url with
       | Some host =>
           if host_is_private host
           then Err (what +:+ " points at a private or loopback address (" +:+ host +:+
                     "); refusing (a hostile metadata document could use this to reach your internal network).")
           else Ok tt
       | None => Ok tt
       end.

(** The addresses a name resolved to, right before one is dialled. *)
Fixpoint screen_addrs (addrs : list IpAddr) (block_private : bool) : result () string :=
  match addrs with
  | [] => Ok tt
  | ip :: addrs =>
      if ip_is_link_local ip
      then Err ("SSRF guard: refusing link-local / cloud-metadata address " +:+ show_ip ip)
      else if block_private && ip_is_private ip
      then Err ("SSRF guard: refusing private/loopback address " +:+ show_ip ip +:+ " for a public server")
      else screen_addrs addrs block_private
  end.

Fixpoint screen_resolved_addrs (addrs : list IpAddr) (block_private : bool) : result () string :=
  match addrs with
  | [] => Ok tt
  | ip :: addrs =>
      if ip_is_link_local ip
      then Err ("blocked: private or local address (link-local / cloud-metadata " +:+ show_ip ip +:+ ")")
      else if block_private && ip_is_private ip
      then Err ("blocked: private or local address (" +:+ show_ip ip +:+ ")")
      else screen_resolved_addrs addrs block_private
  end.

Definition loopback_host (host : string) : bool :=
  is_local_name host || match parse_ip host with Some ip => ip_is_loopback ip | None => false end.

Definition require_https (url what : string) : result () string :=
  let lower := to_ascii_lowercase (trim url) in
  let refused := Err (what +:+ " must use https (got " +:+ url +:+ ")") in
  if starts_with "https://" lower then Ok tt
  else if starts_with "http://" lower then
    match host_of_url lower with
    | Some host => if loopback_host host then Ok tt else refused
    | None => refused
    end
  else refused.

Definition require_secure_for_auth (url : string) : result () string :=
  if starts_with "https://" (to_ascii_lowercase (trim url)) then Ok tt
  else if host_is_definitely_private (default "" (host_of_url url)) then Ok tt
  else Err ("refusing to send the saved auth token to a non-HTTPS URL (" +:+ Redact.redact_url_userinfo url +:+
            "); use https for an authenticated remote server").

Definition mapped_loopback (ip : IpAddr) : bool :=
  match ip with
  | V4 n => v4_is_loopback n
  | V6 n => v6_is_loopback n || match to_ipv4_mapped n with Some m => v4_is_loopback m | None => false end
  end.

Definition require_secure_team_url (server_url : string) : result () string :=
  let lower := to_ascii_lowercase (trim server_url) in
  if starts_with "https://" lower then Ok tt
  else if negb (starts_with "http://" lower) then Err "team server URL must start with https://"
  else
    let host := default "" (host_of_url server_url) in
    let low := to_ascii_lowercase host in
    if String.eqb low "localhost" || ends_with ".localhost" low ||
       match parse_ip host with Some ip => mapped_loopback ip | None => false end
    then Ok tt
    else Err "team server URL must use https:// unless it is loopback HTTP for local development".

(** Whether the addresses of a team server's URL are screened. *)
Definition block_private_for_team_url (server_url : string) : bool :=
  negb (host_is_definitely_private (default "" (host_of_url server_url))).

Definition is_untrusted_source (source : option string) : bool :=
  match source with Some s => String.eqb s "shared" || String.eqb s "registry" | None => false end.

(** [guard_connect_target]: of a server's name, URL and source. *)
Definition guard_connect_target (name : string) (url source : option string) : result () string :=
  let host := default "" (host_of_url (default "" url)) in
  if connect_is_link_local host
  then Err ("Toolport refused to connect to " +:+ host +:+ ": link-local / cloud-metadata addresses " +:+
            "(169.254.x) are never a valid MCP server and are a common SSRF target.")
  else if is_untrusted_source source && host_is_private host
  then Err ("Toolport refused to connect to " +:+ quote +:+ name +:+ quote +:+ " to the private address " +:+ host +:+
            ": it came from an untrusted source (" +:+ default "unknown" source +:+
            "). If you trust it, add the server yourself.")
  else Ok tt.
End hosts.



(** ** What the guards see *)

Lemma split_here scheme rest :
  all_bytes (fun b => negb (is_colon b)) scheme = true ->
  split_on_str "://" (scheme +:+ "://" +:+ rest) = Some (scheme, rest).
Proof.
  induction scheme as [|b s IH]; intros H.
  - change ("" +:+ "://" +:+ rest) with (String ":" ("//" +:+ rest)). rewrite split_on_str_cons.
    assert (E : strip_prefix "://" ("://" +:+ rest) = Some rest) by by apply strip_prefix_spec.
    change (String ":" ("//" +:+ rest)) with ("://" +:+ rest). by rewrite E.
  - cbn [all_bytes] in H. apply andb_prop in H as [Hb Hs]. change (String b s +:+ "://" +:+ rest) with (String b (s +:+ "://" +:+ rest)).
    rewrite split_on_str_cons.
    assert (E : strip_prefix "://" (String b (s +:+ "://" +:+ rest)) = None).
    { apply strip_prefix_None. apply not_true_iff_false. intros (r & Er)%prefix_spec.
      cbn in Er. injection Er as -> _. discriminate Hb. }
    rewrite E, IH by done. done.
Qed.

Lemma string_snoc d : d = "" \/ exists d' c, d = d' +:+ String c "".
Proof.
  induction d as [|b d [->|(d' & c & ->)]]; [by left|right..].
  - by exists "", b.
  - by exists (String b d'), c.
Qed.

Lemma snoc_inj a b c d : a +:+ String c "" = b +:+ String d "" -> a = b /\ c = d.
Proof.
  revert b. induction a as [|x a IH]; intros [|y b] H; cbn in H.
  - by injection H.
  - injection H as _ H. by destruct b.
  - injection H as _ H. by destruct a.
  - injection H as -> H. apply IH in H as [-> ->]. done.
Qed.

Definition no_ends (s : string) : Prop := all_bytes (fun b => negb (Redact.ends_authority b)) s = true.

(** The authority is read whole, or without its last colon when the URL goes on with [//]. *)
Lemma cut_authority rest :
  let after := match split_on_str "://" rest with Some (a, _) => a | None => rest end in
  before_by Redact.ends_authority after = before_by Redact.ends_authority rest \/
  before_by Redact.ends_authority rest = before_by Redact.ends_authority after +:+ ":".
Proof.
  cbv zeta. destruct (split_on_str "://" rest) as [[a b]|] eqn:E; [|by left].
  apply split_on_str_Some in E as ->.
  destruct (Redact.before_by_split Redact.ends_authority a) as (t & Ea & Ht). destruct t as [|c t].
  - right. rewrite app_str_nil_r in Ea. rewrite <- Ea.
    change (a +:+ "://" +:+ b) with (a +:+ ":" +:+ "//" +:+ b). rewrite <- app_str_assoc.
    apply Redact.before_by_app; [|done]. rewrite all_bytes_app. rewrite Ea at 1. by rewrite Redact.before_by_all.
  - left. symmetry. rewrite Ea at 1. rewrite app_str_assoc. apply Redact.before_by_app; [|exact Ht].
    apply Redact.before_by_all.
Qed.

Definition plain_host_byte (b : ascii) : bool :=
  negb (Redact.ends_authority b || is_at b || is_colon b || Stdlib.Strings.Ascii.eqb b "[").

Lemma plain_not_bracket host x :
  all_bytes plain_host_byte host = true -> match x with EmptyString => True | String b _ => b = ":"%char end ->
  strip_prefix "[" (host +:+ x) = None.
Proof.
  intros H Hx. apply strip_prefix_None. destruct host as [|b host].
  - destruct x as [|c x]; [done|]. by subst.
  - cbn [all_bytes] in H. apply andb_prop in H as [H _]. apply not_true_iff_false. intros (r & Er)%prefix_spec.
    cbn in Er. injection Er as -> _. discriminate H.
Qed.

(** [user] is empty or ends in [@]; [port] is empty or starts with a colon. *)
Lemma authority_host user host port :
  (user = "" \/ exists u, user = u +:+ "@") -> all_bytes plain_host_byte host = true ->
  all_bytes (fun b => negb (is_at b)) port = true ->
  match port with EmptyString => True | String b _ => b = ":"%char end ->
  host_of_authority (user +:+ host +:+ port) = host.
Proof.
  intros Hu Hh Hp Hc. unfold host_of_authority.
  assert (Hat : all_bytes (fun b => negb (is_at b)) (host +:+ port) = true).
  { rewrite all_bytes_app, Hp, andb_true_r. revert Hh. clear. induction host as [|b h IH]; [done|]. cbn.
    intros [H1 H2]%andb_prop. rewrite IH by done. unfold plain_host_byte in H1.
    destruct (is_at b); [|done]. by rewrite orb_true_r in H1. }
  assert (E : match rsplit_once_by is_at (user +:+ host +:+ port) with Some (_, a) => a
              | None => user +:+ host +:+ port end = host +:+ port).
  { destruct Hu as [->|[u ->]].
    - cbn [String.append]. by rewrite Redact.rsplit_once_by_none.
    - rewrite app_str_assoc. change ("@" +:+ host +:+ port) with (String "@" (host +:+ port)).
      by rewrite Redact.rsplit_once_by_here. }
  rewrite E, plain_not_bracket by done. apply Redact.before_by_app.
  - revert Hh. clear. induction host as [|b h IH]; [done|]. cbn. intros [H1 H2]%andb_prop. rewrite IH by done.
    unfold plain_host_byte in H1. destruct (is_colon b); [|done]. by rewrite orb_true_r in H1.
  - destruct port as [|c port]; [done|]. by subst.
Qed.

(** The host the guards judge is the one between the userinfo and the port of the authority,
    whatever the userinfo, the port and the rest of the URL hold. *)
Theorem guarded_host_is_authority scheme user host port tail :
  all_bytes (fun b => negb (is_colon b)) scheme = true ->
  (user = "" \/ exists u, user = u +:+ "@") -> no_ends user ->
  all_bytes plain_host_byte host = true ->
  (port = "" \/ exists d, port = ":" +:+ d /\ all_bytes is_digit d = true) ->
  match tail with EmptyString => True | String b _ => Redact.ends_authority b = true end ->
  host_of_url (scheme +:+ "://" +:+ user +:+ host +:+ port +:+ tail) = Some host.
Proof.
  intros Hs Hu He Hh Hp Ht. unfold host_of_url. rewrite split_here by done. cbn [mbind option_bind]. f_equal.
  set (rest := user +:+ host +:+ port +:+ tail).
  assert (Hdig : forall p d, (forall b, is_digit b = true -> p b = true) -> all_bytes is_digit d = true -> all_bytes p d = true).
  { intros p d Hi. induction d as [|b d IH]; [done|]. cbn. intros [H1 H2]%andb_prop. by rewrite Hi, IH. }
  assert (Hauth : before_by Redact.ends_authority rest = user +:+ host +:+ port).
  { unfold rest. rewrite <- !app_str_assoc. apply Redact.before_by_app; [|exact Ht]. rewrite !all_bytes_app.
    unfold no_ends in He. rewrite He. cbn [andb]. apply andb_true_intro. split.
    - revert Hh. clear. induction host as [|b h IH]; [done|]. cbn. intros [H1 H2]%andb_prop. rewrite IH by done.
      unfold plain_host_byte in H1. by destruct (Redact.ends_authority b).
    - destruct Hp as [->|(d & -> & Hd)]; [done|]. cbn. apply Hdig; [|done].
      intros b. by destruct b as [[] [] [] [] [] [] [] []]. }
  destruct (cut_authority rest) as [E|E]; fold rest in E; cbv zeta in E; rewrite Hauth in E.
  - rewrite E. destruct Hp as [->|(d & -> & Hd)]; apply authority_host; try done.
    cbn. apply Hdig; [|done]. intros b. by destruct b as [[] [] [] [] [] [] [] []].
  - match type of E with _ = ?a +:+ ":" => generalize dependent a end. intros A E. destruct Hp as [->|(d & -> & Hd)].
    + exfalso. rewrite app_str_nil_r in E. destruct (string_snoc host) as [->|(h & c & ->)].
      * rewrite app_str_nil_r in E. destruct Hu as [->|[u ->]]; [destruct A; discriminate E|]. apply snoc_inj in E as [_ E]. done.
      * rewrite <- app_str_assoc in E. apply snoc_inj in E as [_ ->]. rewrite all_bytes_app in Hh.
        apply andb_prop in Hh as [_ Hh]. done.
    + destruct (string_snoc d) as [->|(d' & c & ->)].
      * rewrite app_str_nil_r in E. rewrite <- app_str_assoc in E. apply snoc_inj in E as [<- _].
        rewrite <- (app_str_nil_r host) at 1. by apply authority_host.
      * exfalso. rewrite <- !app_str_assoc in E. apply snoc_inj in E as [_ ->]. rewrite all_bytes_app in Hd.
        apply andb_prop in Hd as [_ Hd]. done.
Qed.

(** ** Ranges *)

Definition is_v4 (n : Z) : Prop := 0 <= n < 2 ^ 32.

(** The address ::ffff:a.b.c.d. *)
Definition mapped (n : Z) : Z := Z.shiftl 65535 32 + n.

Lemma mapped_back n : is_v4 n -> to_ipv4_mapped (mapped n) = Some n.
Proof.
  intros H. unfold is_v4 in H. unfold to_ipv4_mapped, mapped. rewrite Z.shiftl_mul_pow2, Z.shiftr_div_pow2 by lia.
  rewrite Z.div_add_l, Z.div_small by lia. cbn [Z.eqb].
  change 4294967295 with (Z.ones 32). rewrite Z.land_ones by lia. f_equal.
  rewrite Z.add_comm, Z.mod_add, Z.mod_small by lia. done.
Qed.

Lemma mapped_segment n : is_v4 n -> segment0 (mapped n) = 0.
Proof.
  intros H. unfold is_v4 in H. unfold segment0, mapped. rewrite Z.shiftr_div_pow2, Z.shiftl_mul_pow2 by lia.
  rewrite Z.div_small by lia. done.
Qed.

Lemma mapped_ne n m : is_v4 n -> (m < 2 ^ 47 \/ 2 ^ 48 <= m) -> (mapped n =? m) = false.
Proof. intros H Hm. unfold is_v4 in H. unfold mapped. rewrite Z.shiftl_mul_pow2 by lia. lia. Qed.

(** The guards see through an IPv4 address written as IPv6. *)
Lemma mapped_same n :
  is_v4 n ->
  ip_is_link_local (V6 (mapped n)) = ip_is_link_local (V4 n) /\
  ip_is_private (V6 (mapped n)) = ip_is_private (V4 n) /\
  ip_reaches_metadata (V6 (mapped n)) = ip_reaches_metadata (V4 n).
Proof.
  intros H. assert (Hl : ip_is_link_local (V6 (mapped n)) = ip_is_link_local (V4 n)).
  { cbn. rewrite mapped_segment, mapped_back by done. rewrite mapped_ne; [done|done|right; vm_compute; discriminate]. }
  split; [exact Hl|]. split.
  - cbn. unfold v6_is_loopback, v6_is_unspecified.
    rewrite mapped_segment, mapped_back, !mapped_ne by (done || (left; vm_compute; reflexivity)). done.
  - unfold ip_reaches_metadata. rewrite Hl. destruct (ip_is_link_local (V4 n)); [done|].
    unfold v6_is_unspecified. rewrite mapped_back, mapped_ne by (done || (left; vm_compute; reflexivity)). done.
Qed.

(** Link-local and metadata addresses are private, so a guard against private ones refuses them. *)
Lemma link_local_private ip : ip_is_link_local ip = true -> ip_is_private ip = true.
Proof.
  destruct ip as [n|n]; cbn.
  - unfold v4_private. intros ->. by rewrite !orb_true_r.
  - rewrite !orb_true_iff. intros [[E|E]|E].
    + apply Z.eqb_eq in E as ->. left. right. by vm_compute.
    + left. left. by right.
    + right. destruct (to_ipv4_mapped n) as [m|]; [|done]. unfold v4_private. rewrite E. by rewrite !orb_true_r.
Qed.

Lemma link_local_metadata ip : ip_is_link_local ip = true -> ip_reaches_metadata ip = true.
Proof. intros H. unfold ip_reaches_metadata. by rewrite H. Qed.

(** The browser guard is said to be narrower than the private one; 0.1.2.3 is refused by it and
    not private. *)
Theorem metadata_not_narrower :
  ip_reaches_metadata (V4 66051) = true /\ ip_is_private (V4 66051) = false.
Proof. by vm_compute. Qed.

Section guards.
Variable parse_ip : string -> option IpAddr.
Variable show_ip : IpAddr -> string.
Variable resolve : string -> option (list IpAddr).

(** Whether a connection to an address is allowed. *)
Definition allowed (block_private : bool) (ip : IpAddr) : Prop :=
  ip_is_link_local ip = false /\ (block_private = true -> ip_is_private ip = false).

Lemma screen_spec addrs block :
  (screen_addrs show_ip addrs block = Ok tt <-> Forall (allowed block) addrs) /\
  (screen_resolved_addrs show_ip addrs block = Ok tt <-> Forall (allowed block) addrs).
Proof.
  unfold allowed. induction addrs as [|ip addrs [IH1 IH2]]; [by split; split|]. cbn. rewrite !Forall_cons.
  destruct (ip_is_link_local ip); [by split; (split; [done|intros [[? _] _]])|].
  destruct block; cbn [andb].
  - destruct (ip_is_private ip); [by split; (split; [done|intros [[_ H] _]; by specialize (H eq_refl)])|].
    rewrite IH1, IH2. tauto.
  - rewrite IH1, IH2. intuition discriminate.
Qed.

(** The name a host is looked up by. *)
Definition lookup_name (host : string) : string := to_ascii_lowercase (trim host).

Lemma definitely_spec host :
  host_is_definitely_private resolve host = true <->
  lookup_name host <> "" /\ (is_local_name (lookup_name host) = true \/
  exists ips, resolve (lookup_name host) = Some ips /\ ips <> [] /\ Forall (fun ip => ip_is_private ip = true) ips).
Proof.
  unfold host_is_definitely_private. fold (lookup_name host).
  destruct (String.eqb_spec (lookup_name host) "") as [E|Hne]; [by split; [|intros [H _]]|].
  destruct (is_local_name (lookup_name host)); [by split; [intros _; split; [|left]|]|].
  destruct (resolve (lookup_name host)) as [ips|]; [|split; [done|by intros (_ & [|(? & ? & _)])]].
  rewrite andb_true_iff, negb_true_iff, bool_decide_eq_false.
  assert (Hall : forallb ip_is_private ips = true <-> Forall (fun ip => ip_is_private ip = true) ips).
  { rewrite forallb_forall, Forall_forall. by setoid_rewrite list_elem_of_In. }
  rewrite Hall. split.
  - intros [H1 H2]. split; [done|]. right. by exists ips.
  - intros (_ & [|(? & [= <-] & H1 & H2)]); [done|]. by split.
Qed.

Lemma private_spec host :
  host_is_private resolve host = false <->
  lookup_name host <> "" /\ is_local_name (lookup_name host) = false /\
  exists ips, resolve (lookup_name host) = Some ips /\ ips <> [] /\ Forall (fun ip => ip_is_private ip = false) ips.
Proof.
  unfold host_is_private. fold (lookup_name host). rewrite <- orb_assoc. fold (is_local_name (lookup_name host)).
  destruct (String.eqb_spec (lookup_name host) "") as [E|Hne]; [by split; [|intros [H _]]|]. cbn [orb].
  destruct (is_local_name (lookup_name host)); [by split; [|intros (_ & H & _)]|].
  destruct (resolve (lookup_name host)) as [ips|]; [|split; [done|by intros (_ & _ & ? & ? & _)]].
  rewrite orb_false_iff, bool_decide_eq_false. split.
  - intros [H1 H2]. split; [done|]. split; [done|]. exists ips. split; [done|]. split; [done|].
    apply Forall_forall. intros ip Hin. apply not_true_iff_false. intros Ht. apply not_true_iff_false in H2.
    apply H2, existsb_exists. exists ip. by rewrite <- list_elem_of_In.
  - intros (_ & _ & ? & [= <-] & H1 & H2). split; [done|]. apply not_true_iff_false.
    intros (ip & Hin%list_elem_of_In & Ht)%existsb_exists. rewrite Forall_forall in H2. by rewrite H2 in Ht.
Qed.


End guards.

(** ** Concrete hosts *)

Definition octets (a b c d : Z) : IpAddr := V4 (a * 2 ^ 24 + b * 2 ^ 16 + c * 2 ^ 8 + d).

(** A name with a public address, one with a public and a private one, one with a private one. *)
Definition demo_resolve (h : string) : option (list IpAddr) :=
  if String.eqb h "mcp.example.com" then Some [octets 93 184 216 34]
  else if String.eqb h "mixed.example.com" then Some [octets 93 184 216 34; octets 10 0 0 1]
  else if String.eqb h "nas.lan" then Some [octets 192 168 1 20]
  else None.

Example demo_guards :
  map (host_is_private demo_resolve) ["mcp.example.com"; "mixed.example.com"; "nas.lan"; "gone.example.com"; ""] =
    [false; true; true; true; true] /\
  map (host_is_definitely_private demo_resolve)
    ["mcp.example.com"; "mixed.example.com"; "nas.lan"; "gone.example.com"; " LOCALHOST "] =
    [false; false; true; false; true] /\
  map host_of_url ["https://localhost@evil.com:8443/a?b"; "http://[::1]:80/"; "https://a.b://c"; "mailto:x"] =
    [Some "evil.com"; Some "::1"; Some "a.b"; None] /\
  map (fun ip => (ip_is_link_local ip, ip_is_private ip))
    [octets 169 254 169 254; V6 AWS_V6_METADATA; V6 1; octets 100 64 0 1; octets 8 8 8 8] =
    [(true, true); (true, true); (false, true); (false, true); (false, false)].
Proof. by vm_compute. Qed.


Lemma guarded_host_is_authority_witness :
  host_of_url ("https" +:+ "://" +:+ "localhost:80@" +:+ "evil.com" +:+ ":8443" +:+ "/x://y@z") = Some "evil.com".
Proof.
  apply guarded_host_is_authority; try reflexivity.
  - right. by exists "localhost:80".
  - right. by exists "8443".
Defined.

End Hosts.
