(* ===== verification/Access.v ===== *)
(** Who may reach which server (src/registry.rs): the ids of servers and profiles, the access
    sets, the switches, and how a reference to a profile resolves.  The deserializers that
    serde derives, SHA-256 and the resolver of names are parameters. *)

From S2P Require Import Prelude Text Json Registry SecretGate Launch ToolNames Release Hosts.

Module Access.
Import Registry.

Definition ALL_ENABLED_ACCESS : string := "@all-enabled".
Definition DEFAULT_PROFILE_ID : string := "default".
Definition INVALID_PROFILE_REF_PREFIX : string := "__toolport_invalid_profile_ref__:".
Definition TEAM_REVIEW_REQUIRED : string :=
  "this team server needs consent for its command, address or authentication; enable it from Teams after review".
Definition HELD_CHANGE_FIELD : string := "teamHeldChange".
Definition MEMBER_REVIEW_FIELD : string := "memberReview".
Definition TEAM_ORIGINAL_ID_FIELD : string := "teamOriginalId".

Record Profile := mk_profile {
  profile_id : string;
  profile_name : string;
  enabled_server_ids : list string;
  tool_scope : gmap string (list string);
  instructions : option string;
  profile_unknown : fields
}.

Record FolderProfile := mk_folder { path : string; folder_profile : string; folder_unknown : fields }.

Record HttpClient := mk_client {
  client_id : string;
  client_label : string;
  token_sha256 : string;
  client_profile : string;
  client_unknown : fields
}.

Record ToolOverride := mk_override {
  override_name : option string;
  override_description : option string;
  override_unknown : fields
}.

(** The fields of [Registry] that access reads or writes; [team] is the unknown fields of
    the team section. *)
Record Registry := mk_registry {
  version : Z;
  servers : list ServerEntry;
  profiles : list Profile;
  active_profile : option string;
  default_access_profile_id : option string;
  default_access_context_id : option string;
  default_access_legacy_policy : bool;
  human_approval_allow : list string;
  tool_overrides : gmap string (gmap string ToolOverride);
  pinned_tools : gmap string (list string);
  injection_block_exempt : gmap string bool;
  result_budgets : gmap string Z;
  gateway_instructions : option string;
  folder_profiles : list FolderProfile;
  client_scopes : gmap string string;
  client_discovery : gmap string string;
  http_clients : list HttpClient;
  lazy_discovery : bool;
  discovery_mode : option string;
  legacy_lazy_discovery : bool;
  live_inspect : bool;
  team : option fields;
  registry_unknown : fields
}.

Definition with_servers (l : list ServerEntry) (r : Registry) : Registry :=
  mk_registry (version r) l (profiles r) (active_profile r) (default_access_profile_id r)
    (default_access_context_id r) (default_access_legacy_policy r) (human_approval_allow r) (tool_overrides r)
    (pinned_tools r) (injection_block_exempt r) (result_budgets r) (gateway_instructions r) (folder_profiles r)
    (client_scopes r) (client_discovery r) (http_clients r) (lazy_discovery r) (discovery_mode r)
    (legacy_lazy_discovery r) (live_inspect r) (team r) (registry_unknown r).

Definition with_profiles (l : list Profile) (active : option string) (r : Registry) : Registry :=
  mk_registry (version r) (servers r) l active (default_access_profile_id r)
    (default_access_context_id r) (default_access_legacy_policy r) (human_approval_allow r) (tool_overrides r)
    (pinned_tools r) (injection_block_exempt r) (result_budgets r) (gateway_instructions r) (folder_profiles r)
    (client_scopes r) (client_discovery r) (http_clients r) (lazy_discovery r) (discovery_mode r)
    (legacy_lazy_discovery r) (live_inspect r) (team r) (registry_unknown r).

Definition with_default_access (p : option string) (legacy : bool) (r : Registry) : Registry :=
  mk_registry (version r) (servers r) (profiles r) (active_profile r) p (default_access_context_id r) legacy
    (human_approval_allow r) (tool_overrides r) (pinned_tools r) (injection_block_exempt r) (result_budgets r)
    (gateway_instructions r) (folder_profiles r) (client_scopes r) (client_discovery r) (http_clients r)
    (lazy_discovery r) (discovery_mode r) (legacy_lazy_discovery r) (live_inspect r) (team r) (registry_unknown r).

(** The maps keyed by a server: standing approvals, overrides, pins, exemptions, budgets. *)
Definition with_tools (allow : list string) (ov : gmap string (gmap string ToolOverride))
    (pins : gmap string (list string)) (exempt : gmap string bool) (budgets : gmap string Z) (r : Registry) : Registry :=
  mk_registry (version r) (servers r) (profiles r) (active_profile r) (default_access_profile_id r)
    (default_access_context_id r) (default_access_legacy_policy r) allow ov pins exempt budgets
    (gateway_instructions r) (folder_profiles r) (client_scopes r) (client_discovery r) (http_clients r)
    (lazy_discovery r) (discovery_mode r) (legacy_lazy_discovery r) (live_inspect r) (team r) (registry_unknown r).

(** The references to profiles that clients and folders hold. *)
Definition with_references (folders : list FolderProfile) (scopes : gmap string string)
    (clients : list HttpClient) (r : Registry) : Registry :=
  mk_registry (version r) (servers r) (profiles r) (active_profile r) (default_access_profile_id r)
    (default_access_context_id r) (default_access_legacy_policy r) (human_approval_allow r) (tool_overrides r)
    (pinned_tools r) (injection_block_exempt r) (result_budgets r) (gateway_instructions r) folders scopes
    (client_discovery r) clients (lazy_discovery r) (discovery_mode r) (legacy_lazy_discovery r) (live_inspect r)
    (team r) (registry_unknown r).

Definition with_discovery (per_client : gmap string string) (lazy : bool) (mode : option string) (inspect : bool)
    (r : Registry) : Registry :=
  mk_registry (version r) (servers r) (profiles r) (active_profile r) (default_access_profile_id r)
    (default_access_context_id r) (default_access_legacy_policy r) (human_approval_allow r) (tool_overrides r)
    (pinned_tools r) (injection_block_exempt r) (result_budgets r) (gateway_instructions r) (folder_profiles r)
    (client_scopes r) per_client (http_clients r) lazy mode (legacy_lazy_discovery r) inspect (team r)
    (registry_unknown r).

Definition with_unknown (t : option fields) (u : fields) (r : Registry) : Registry :=
  mk_registry (version r) (servers r) (profiles r) (active_profile r) (default_access_profile_id r)
    (default_access_context_id r) (default_access_legacy_policy r) (human_approval_allow r) (tool_overrides r)
    (pinned_tools r) (injection_block_exempt r) (result_budgets r) (gateway_instructions r) (folder_profiles r)
    (client_scopes r) (client_discovery r) (http_clients r) (lazy_discovery r) (discovery_mode r)
    (legacy_lazy_discovery r) (live_inspect r) t u.

Definition with_enabled (b : bool) (s : ServerEntry) : ServerEntry :=
  mk_server b (server_id s) (server_name s) (transport s) (command s) (args s) (launch s) (env s) (url s) (cwd s)
    (inherit_env s) (source s) (disabled_tools s) (client_credentials s) (request_timeout_ms s)
    (initialize_timeout_ms s) (unknown_fields s).

Definition with_id (id : string) (s : ServerEntry) : ServerEntry :=
  mk_server (enabled s) id (server_name s) (transport s) (command s) (args s) (launch s) (env s) (url s) (cwd s)
    (inherit_env s) (source s) (disabled_tools s) (client_credentials s) (request_timeout_ms s)
    (initialize_timeout_ms s) (unknown_fields s).

Definition with_disabled_tools (l : list string) (s : ServerEntry) : ServerEntry :=
  mk_server (enabled s) (server_id s) (server_name s) (transport s) (command s) (args s) (launch s) (env s) (url s)
    (cwd s) (inherit_env s) (source s) l (client_credentials s) (request_timeout_ms s) (initialize_timeout_ms s)
    (unknown_fields s).

Definition with_enabled_ids (l : list string) (p : Profile) : Profile :=
  mk_profile (profile_id p) (profile_name p) l (tool_scope p) (instructions p) (profile_unknown p).

Definition with_tool_scope (m : gmap string (list string)) (p : Profile) : Profile :=
  mk_profile (profile_id p) (profile_name p) (enabled_server_ids p) m (instructions p) (profile_unknown p).

(** [iter_mut().find(p)] then a write: the first that matches. *)
Fixpoint update_first {A} (p : A -> bool) (f : A -> A) (l : list A) : option (list A) :=
  match l with
  | [] => None
  | x :: l => if p x then Some (f x :: l) else cons x <$> update_first p f l
  end.

Definition mem (x : string) (l : list string) : bool := existsb (String.eqb x) l.

(** ** Ids *)

(** The loop of [slugify]. *)
Fixpoint slug_loop (out : string) (prev_dash : bool) (cs : list string) : string :=
  match cs with
  | [] => out
  | c :: cs =>
      if char_is_alnum c then slug_loop (out +:+ to_ascii_lowercase c) false cs
      else if negb (String.eqb out "") && negb prev_dash then slug_loop (out +:+ "-") true cs
      else slug_loop out prev_dash cs
  end.

Definition is_dash (b : ascii) : bool := Stdlib.Strings.Ascii.eqb b "-".

Definition slugify (s : string) : string :=
  trim_end_by is_dash (trim_start_by is_dash (slug_loop "" false (chars s))).

Definition ids_collide (a b : string) : bool :=
  eq_ignore_ascii_case (ToolNames.sanitize_segment a) (ToolNames.sanitize_segment b).

Definition taken (existing : list string) (candidate : string) : bool :=
  existsb (fun e => ids_collide e candidate) existing.

(** The loop of [unique_id]; [None] is out of fuel. *)
Fixpoint next_id (fuel : nat) (base : string) (n : Z) (existing : list string) : option string :=
  match fuel with
  | O => None
  | S fuel =>
      let candidate := base +:+ "-" +:+ pretty n in
      if negb (taken existing candidate) then Some candidate else next_id fuel base (n + 1) existing
  end.

Definition unique_id (base : string) (existing : list string) : option string :=
  let base := if String.eqb base "" then "item" else base in
  if negb (taken existing base) then Some base else next_id (S (length existing)) base 2 existing.

Definition server_ids (r : Registry) : list string := map server_id (servers r).
Definition profile_ids (r : Registry) : list string := map profile_id (profiles r).

Definition add_server (entry : ServerEntry) (r : Registry) : option (string * Registry) :=
  id ← unique_id (slugify (server_name entry)) (server_ids r);
  Some (id, with_servers (servers r ++ [with_id id entry]) r).

Definition no_server (id : string) : string := "No server with id '" +:+ id +:+ "'".
Definition no_profile (id : string) : string := "No profile with id '" +:+ id +:+ "'".

Definition has_id (id : string) (s : ServerEntry) : bool := String.eqb (server_id s) id.
Definition is_profile (id : string) (p : Profile) : bool := String.eqb (profile_id p) id.

Definition update_server (entry : ServerEntry) (r : Registry) : result Registry string :=
  match update_first (has_id (server_id entry)) (fun slot => with_enabled (enabled slot) entry) (servers r) with
  | Some l => Ok (with_servers l r)
  | None => Err (no_server (server_id entry))
  end.

Definition add_profile (name : string) (r : Registry) : option (string * Registry) :=
  id ← unique_id (slugify name) (profile_ids r);
  Some (id, with_profiles (profiles r ++ [mk_profile id name [] ∅ None []]) (active_profile r) r).

Definition remove_profile (id : string) (r : Registry) : result Registry string :=
  if (3 <=? version r) &&
     (bool_decide (default_access_profile_id r = Some id) || bool_decide (default_access_context_id r = Some id))
  then Err "Cannot remove the default access set or its policy context"
  else if (length (profiles r) <=? 1)%nat then Err "Cannot remove the last profile"
  else
    let rest := List.filter (fun p => negb (is_profile id p)) (profiles r) in
    if (length rest =? length (profiles r))%nat then Err (no_profile id)
    else Ok (with_profiles rest
               (if bool_decide (active_profile r = Some id) then profile_id <$> head rest else active_profile r) r).

(** ** References to profiles *)

Definition profile_id_for_ref (reference : string) (r : Registry) : option string :=
  let reference := trim reference in
  if String.eqb reference "" then None
  else match List.find (is_profile reference) (profiles r) with
       | Some p => Some (profile_id p)
       | None =>
           match List.filter (fun p => eq_ignore_ascii_case (profile_name p) reference) (profiles r) with
           | [p] => Some (profile_id p)
           | _ => None
           end
       end.

Definition canonical_profile_id (reference : string) (r : Registry) : result string string :=
  if String.eqb reference ALL_ENABLED_ACCESS then Ok ALL_ENABLED_ACCESS
  else match profile_id_for_ref reference r with
       | Some id => Ok id
       | None => Err ("No unique profile matches '" +:+ reference +:+ "'")
       end.

Definition active_profile_id (r : Registry) : string :=
  match active_profile r with
  | Some id => id
  | None => match profiles r with p :: _ => profile_id p | [] => DEFAULT_PROFILE_ID end
  end.

Definition default_access_id (r : Registry) : string :=
  if version r <? 3 then active_profile_id r
  else match default_access_profile_id r with
       | Some id => id
       | None => "@default-access:" +:+ default "" (default_access_context_id r)
       end.

Definition all_access_id (r : Registry) : string :=
  "@all-enabled:" +:+ default "" (default_access_context_id r).

Definition access_profile (id : string) (r : Registry) : option Profile :=
  let id := if String.eqb id (default_access_id r) && bool_decide (default_access_profile_id r = None) &&
               default_access_legacy_policy r
            then default "" (default_access_context_id r) else id in
  List.find (is_profile id) (profiles r).

Definition resolve_profile_id (reference : string) (r : Registry) : string :=
  if String.eqb (trim reference) "" then default_access_id r
  else if String.eqb reference ALL_ENABLED_ACCESS then all_access_id r
  else if String.eqb reference (default_access_id r) || String.eqb reference (all_access_id r) then reference
  else default reference (profile_id_for_ref reference r).

Definition access_integrity_id (id : string) : string :=
  match strip_prefix "@default-access:" id with
  | Some rest => rest
  | None => default id (strip_prefix "@all-enabled:" id)
  end.

Definition access_label (reference : string) (r : Registry) : string :=
  if String.eqb (trim reference) "" || starts_with "@default-access:" reference then "Default access"
  else if String.eqb reference ALL_ENABLED_ACCESS || starts_with "@all-enabled:" reference then "All enabled servers"
  else match List.find (is_profile (resolve_profile_id reference r)) (profiles r) with
       | Some p => profile_name p
       | None => reference
       end.

Definition default_access_label (r : Registry) : string :=
  let id := match default_access_profile_id r with
            | Some id => Some id
            | None => if default_access_legacy_policy r then default_access_context_id r else None
            end in
  match (id ← id; p ← List.find (is_profile id) (profiles r); Some (profile_name p)) with
  | Some name =>
      if eq_ignore_ascii_case (trim name) "default" then "Default access" else "Default access (" +:+ name +:+ ")"
  | None => "Default access"
  end.

(** ** Switches *)

Definition server_enabled (id : string) (r : Registry) : bool :=
  if version r <? 3 then existsb (fun p => mem id (enabled_server_ids p)) (profiles r)
  else existsb (fun s => has_id id s && enabled s) (servers r).

Definition is_enabled (profile server : string) (r : Registry) : bool :=
  let listed := match List.find (is_profile profile) (profiles r) with
                | Some p => mem server (enabled_server_ids p)
                | None => false
                end in
  if 3 <=? version r then
    if negb (server_enabled server r) then false
    else if (String.eqb profile (default_access_id r) && bool_decide (default_access_profile_id r = None)) ||
            String.eqb profile (all_access_id r) || String.eqb profile ALL_ENABLED_ACCESS
    then true else listed
  else listed.

Definition enabled_here (server : string) (r : Registry) : bool :=
  if 3 <=? version r then server_enabled server r else is_enabled (active_profile_id r) server r.

Definition enabled_servers (r : Registry) : list ServerEntry :=
  List.filter (fun s => is_enabled (default_access_id r) (server_id s) r) (servers r).

Definition enabled_servers_for (reference : string) (r : Registry) : list ServerEntry :=
  List.filter (fun s => is_enabled (resolve_profile_id reference r) (server_id s) r) (servers r).

(** The profiles the bridge connects for: the base and those of the scoped clients. *)
Definition bridge_profiles (base : option string) (r : Registry) : list string :=
  let base := match base with Some p => resolve_profile_id p r | None => default_access_id r end in
  foldl (fun ids c =>
    if String.eqb (trim (client_profile c)) "" then ids
    else let pid := resolve_profile_id (client_profile c) r in
         if mem pid ids then ids else ids ++ [pid]) [base] (http_clients r).

Definition bridge_enabled_servers (base : option string) (r : Registry) : list ServerEntry :=
  List.filter (fun s => existsb (fun pid => existsb (fun s' => is_enabled pid (server_id s') r && has_id (server_id s) s')
                                    (servers r)) (bridge_profiles base r)) (servers r).

Definition configured_instructions (reference : option string) (r : Registry) : option string :=
  match (p ← access_profile (resolve_profile_id (default "" reference) r) r; instructions p) with
  | Some i => Some i
  | None => gateway_instructions r
  end.

Definition profile_allows_tool (reference server tool : string) (r : Registry) : bool :=
  match access_profile (resolve_profile_id reference r) r with
  | Some p => match tool_scope p !! server with Some allowed => mem tool allowed | None => true end
  | None => true
  end.

Definition is_tool_enabled (server tool : string) (r : Registry) : bool :=
  match List.find (has_id server) (servers r) with
  | Some s => negb (mem tool (disabled_tools s))
  | None => true
  end.

(** ** Folders *)

(** [s.pop()] while there is more than one byte and the last is a slash. *)
Fixpoint pop_slashes (s : string) : string :=
  match s with
  | EmptyString => EmptyString
  | String b s' =>
      match s' with
      | EmptyString => s
      | _ => match pop_slashes s' with
             | String c EmptyString => if Stdlib.Strings.Ascii.eqb c "/" then String b EmptyString else String b (String c "")
             | t => String b t
             end
      end
  end.

Definition backslash_to_slash (b : ascii) : ascii := if Stdlib.Strings.Ascii.eqb b "\" then "/"%char else b.

(** [windows] is [cfg!(windows)]. *)
Definition normalize_path (windows : bool) (p : string) : string :=
  let s := pop_slashes (map_bytes backslash_to_slash (trim p)) in
  if windows then to_ascii_lowercase s else s.

Definition path_is_within (base root : string) : bool :=
  if String.eqb base "" then false
  else if String.eqb root base then true
  else match strip_prefix base root with Some rest => starts_with "/" rest | None => false end.

(** [max_by_key]: the last of the greatest. *)
Fixpoint longest (best : option (Z * string)) (l : list (Z * string)) : option (Z * string) :=
  match l with
  | [] => best
  | (n, p) :: l =>
      longest (match best with
               | Some (m, q) => if n <? m then Some (m, q) else Some (n, p)
               | None => Some (n, p)
               end) l
  end.

Definition folder_matches (windows : bool) (root : string) (r : Registry) : list (Z * string) :=
  omap (fun fp => let base := normalize_path windows (path fp) in
                  if path_is_within base root then Some (slen base, folder_profile fp) else None)
    (folder_profiles r).

Definition profile_for_root (windows : bool) (root : string) (r : Registry) : option string :=
  let root := normalize_path windows root in
  if String.eqb root "" then None
  else '(_, p) ← longest None (folder_matches windows root r); Some (resolve_profile_id p r).

Definition set_folder_profiles (l : list FolderProfile) (r : Registry) : Registry :=
  with_references
    (map (fun m => mk_folder (path m) (resolve_profile_id (folder_profile m) r) (folder_unknown m))
       (List.filter (fun m => negb (String.eqb (trim (path m)) "") && negb (String.eqb (trim (folder_profile m)) "")) l))
    (client_scopes r) (http_clients r) r.

(** ** Clients *)

Definition set_client_scope (client : string) (profile : option string) (r : Registry) : Registry :=
  let scopes := match (p ← profile; if String.eqb (trim p) "" then None else Some (trim p)) with
                | Some p => <[client := resolve_profile_id p r]> (client_scopes r)
                | None => delete client (client_scopes r)
                end in
  with_references (folder_profiles r) scopes (http_clients r) r.

Definition set_client_unscoped (client : string) (r : Registry) : Registry :=
  with_references (folder_profiles r) (<[client := ""]> (client_scopes r)) (http_clients r) r.

Definition discovery_modes : list string := ["full"; "lazy"; "grouped"].

Definition set_client_discovery (client : string) (mode : option string) (r : Registry) : Registry :=
  let valid := m ← mode; let m := to_ascii_lowercase (trim m) in if mem m discovery_modes then Some m else None in
  with_discovery (match valid with
                  | Some m => <[client := m]> (client_discovery r)
                  | None => delete client (client_discovery r)
                  end) (lazy_discovery r) (discovery_mode r) (live_inspect r) r.

Definition chosen_global_discovery_mode (r : Registry) : option string :=
  match discovery_mode r with
  | Some m => Some m
  | None => if negb (lazy_discovery r) then Some "full" else if legacy_lazy_discovery r then Some "lazy" else None
  end.

Definition client_discovery_mode (client : string) (r : Registry) : option string := client_discovery r !! client.

Definition set_lazy_discovery (lazy : bool) (r : Registry) : Registry :=
  with_discovery (client_discovery r) lazy (discovery_mode r) (live_inspect r) r.

Definition set_discovery_mode (mode : string) (r : Registry) : Registry :=
  let m := to_ascii_lowercase (trim mode) in
  let '(lazy, chosen) :=
    if String.eqb m "lazy" then (true, Some "lazy")
    else if String.eqb m "full" then (false, Some "full")
    else if String.eqb m "grouped" then (lazy_discovery r, Some "grouped")
    else (lazy_discovery r, None) in
  with_discovery (client_discovery r) lazy chosen (live_inspect r) r.

Definition set_live_inspect (on : bool) (r : Registry) : Registry :=
  with_discovery (client_discovery r) (lazy_discovery r) (discovery_mode r) on r.

(** [ct_eq]: the length first, then every byte. *)
Fixpoint diff_bytes (a b : string) (diff : N) : N :=
  match a, b with
  | String x a, String y b => diff_bytes a b (N.lor diff (N.lxor (N_of_ascii x) (N_of_ascii y)))
  | _, _ => diff
  end.

Definition ct_eq (a b : string) : bool :=
  if negb (slen a =? slen b) then false else (diff_bytes a b 0 =? 0)%N.

(** ** Tools *)

Definition set_tool_enabled (server tool : string) (on : bool) (r : Registry) : result Registry string :=
  let toggle s :=
    let present := mem tool (disabled_tools s) in
    if on && present then with_disabled_tools (List.filter (fun t => negb (String.eqb t tool)) (disabled_tools s)) s
    else if negb on && negb present then with_disabled_tools (disabled_tools s ++ [tool]) s else s in
  match update_first (has_id server) toggle (servers r) with
  | Some l => Ok (with_servers l r)
  | None => Err (no_server server)
  end.

Definition set_profile_server_tools (profile server : string) (tools : option (list string)) (r : Registry)
    : result Registry string :=
  let write p := with_tool_scope (match tools with
                                  | Some l => <[server := l]> (tool_scope p)
                                  | None => delete server (tool_scope p)
                                  end) p in
  match update_first (is_profile profile) write (profiles r) with
  | Some l => Ok (with_profiles l (active_profile r) r)
  | None => Err (no_profile profile)
  end.

Definition set_tool_pinned (server tool : string) (on : bool) (r : Registry) : Registry :=
  let list := default [] (pinned_tools r !! server) in
  let present := mem tool list in
  let list := if on && negb present then list ++ [tool]
              else if negb on && present then List.filter (fun t => negb (String.eqb t tool)) list else list in
  with_tools (human_approval_allow r) (tool_overrides r)
    (if bool_decide (list = []) then delete server (pinned_tools r) else <[server := list]> (pinned_tools r))
    (injection_block_exempt r) (result_budgets r) r.

Definition is_tool_pinned (server tool : string) (r : Registry) : bool :=
  match pinned_tools r !! server with Some l => mem tool l | None => false end.

Definition with_allow (l : list string) (r : Registry) : Registry :=
  with_tools l (tool_overrides r) (pinned_tools r) (injection_block_exempt r) (result_budgets r) r.

Definition allow_tool (key : string) (r : Registry) : Registry :=
  if mem key (human_approval_allow r) then r else with_allow (human_approval_allow r ++ [key]) r.

Definition revoke_tool (key : string) (r : Registry) : Registry :=
  with_allow (List.filter (fun k => negb (String.eqb k key)) (human_approval_allow r)) r.

Definition is_tool_allowed (key : string) (r : Registry) : bool := mem key (human_approval_allow r).

Definition with_overrides (m : gmap string (gmap string ToolOverride)) (r : Registry) : Registry :=
  with_tools (human_approval_allow r) m (pinned_tools r) (injection_block_exempt r) (result_budgets r) r.

Definition clear_tool_override (server tool : string) (r : Registry) : Registry :=
  match tool_overrides r !! server with
  | Some m => let m := delete tool m in
      with_overrides (if bool_decide (m = ∅) then delete server (tool_overrides r)
                      else <[server := m]> (tool_overrides r)) r
  | None => r
  end.

Definition set_tool_override (server tool : string) (ov : ToolOverride) (r : Registry) : Registry :=
  match override_name ov, override_description ov with
  | None, None => clear_tool_override server tool r
  | _, _ => with_overrides (<[server := <[tool := ov]> (default ∅ (tool_overrides r !! server))]> (tool_overrides r)) r
  end.

(** ** Notices *)

Definition access_upgrade_notice_pending (r : Registry) : bool :=
  (3 <=? version r) &&
  is_true (default JNull (obj_get "accessUpgradeNoticePending" (registry_unknown r))) &&
  negb (is_true (default JNull (obj_get "accessUpgradeNoticeDismissed" (registry_unknown r)))).

Definition dismiss_access_upgrade_notice (r : Registry) : Registry :=
  with_unknown (team r) (obj_insert "accessUpgradeNoticeDismissed" (JBool true) (registry_unknown r)) r.

Definition removed_features_notice (r : Registry) : list string :=
  match obj_get "removedFeaturesNotice" (registry_unknown r) with
  | None => []
  | Some notice =>
      if bool_decide ((d ← get "dismissed" notice; as_bool d) = Some true) then []
      else omap as_str (default [] (f ← get "features" notice; as_array f))
  end.

Definition dismiss_removed_features_notice (r : Registry) : Registry :=
  match obj_get "removedFeaturesNotice" (registry_unknown r) with
  | Some (JObject notice) =>
      with_unknown (team r) (obj_insert "removedFeaturesNotice" (JObject (obj_insert "dismissed" (JBool true) notice))
                               (registry_unknown r)) r
  | _ => r
  end.

Record Binding := mk_binding {
  personal_id : string;
  team_id : string;
  binding_origin : string;
  device_id : string;
  fingerprint : string
}.

Record HeldAccess := mk_held { existed : bool; held_enabled : bool; held_profiles : list string }.

(** A team member's review: the part that is read here, and the rest. *)
Record MemberReview := mk_review { held_access : gmap string HeldAccess; review_rest : json }.

Section registry.
(** The deserializers and the serializer that serde derives. *)
Variable bindings_from_value : json -> option (list (string * Binding)).
Variable review_from_value : json -> option MemberReview.
Variable review_to_value : MemberReview -> json.
(** The rest of a review that was never saved. *)
Variable review_default_rest : json.
(** The decoder of a server's referenced headers, the vault and the alphabet. *)
Variable headers_from_value : json -> option (list SecretGate.HeaderKey).
Variable is_alphanumeric : string -> bool.
Variable get_secret : string -> string -> result (option string) string.
(** SHA-256 in hex, and the names' addresses. *)
Variable sha256_hex : string -> string.
Variable resolve : string -> option (list Hosts.IpAddr).

(** ** Consent *)

Definition needs_team_enable_review (s : ServerEntry) : bool :=
  if SecretGate.is_shared s && SecretGate.has_references headers_from_value s then true
  else
    let review := is_true (default JNull (obj_get "teamEnableReview" (unknown_fields s))) in
    if is_true (default JNull (obj_get "personalSyncEntry" (unknown_fields s))) then review
    else match source s with
         | None => false
         | Some src =>
             if negb (starts_with "team:" src) then false
             else if review then true
             else if String.eqb (transport s) "stdio" || bool_decide (is_Some (command s)) then true
             else match (u ← url s; Hosts.host_of_url u) with
                  | Some host => Hosts.host_is_private resolve host
                  | None => false
                  end
         end.

Definition check_enable_allowed (reviewed : bool) (s : ServerEntry) : result () string :=
  if negb reviewed && needs_team_enable_review s then Err TEAM_REVIEW_REQUIRED else Ok tt.

Definition check_ready (on : bool) (s : ServerEntry) : result () string :=
  if on && bool_decide (is_Some (launch s)) then Launch.check_ready_for_enable is_alphanumeric get_secret s
  else Ok tt.

Definition set_global_server_enabled (id : string) (on : bool) (r : Registry) : result Registry string :=
  match List.find (has_id id) (servers r) with
  | None => Err (no_server id)
  | Some s =>
      match check_ready on s with
      | Err e => Err e
      | Ok _ =>
          Ok (with_servers (default (servers r) (update_first (has_id id) (with_enabled on) (servers r))) r)
      end
  end.

(** The list of one access set, with a server in or out. *)
Definition include (server : string) (on : bool) (p : Profile) : Profile :=
  let present := mem server (enabled_server_ids p) in
  if on && negb present then with_enabled_ids (enabled_server_ids p ++ [server]) p
  else if negb on then with_enabled_ids (List.filter (fun id => negb (String.eqb id server)) (enabled_server_ids p)) p
  else p.

Definition set_access_server (profile server : string) (included : bool) (r : Registry) : result Registry string :=
  match List.find (has_id server) (servers r) with
  | None => Err (no_server server)
  | Some entry =>
      match (if included then check_enable_allowed false entry else Ok tt) with
      | Err e => Err e
      | Ok _ =>
          match update_first (is_profile profile) (include server included) (profiles r) with
          | None => Err "Access set not found"
          | Some l => Ok (with_profiles l (active_profile r) r)
          end
      end
  end.

Definition set_default_access (profile : option string) (r : Registry) : result Registry string :=
  match (p ← profile; if String.eqb p "" then None else Some p) with
  | None => Ok (with_default_access None false r)
  | Some p => match canonical_profile_id p r with
              | Ok id => Ok (with_default_access (Some id) false r)
              | Err e => Err e
              end
  end.

Definition set_server_enabled (profile server : string) (on : bool) (r : Registry) : result Registry string :=
  if 3 <=? version r then set_global_server_enabled server on r
  else
    match List.find (has_id server) (servers r) with
    | None => Err (no_server server)
    | Some s =>
        match check_ready on s with
        | Err e => Err e
        | Ok _ =>
            match update_first (is_profile profile) (include server on) (profiles r) with
            | None => Err (no_profile profile)
            | Some l => Ok (with_profiles l (active_profile r) r)
            end
        end
    end.

(** ** Held changes (teams.rs) *)

Definition server_change_held (id : string) (r : Registry) : bool :=
  existsb (fun s => has_id id s && is_true (default JNull (obj_get HELD_CHANGE_FIELD (unknown_fields s)))) (servers r).

Definition saved_team_original_id (s : ServerEntry) : option string :=
  v ← obj_get TEAM_ORIGINAL_ID_FIELD (unknown_fields s); as_str v.

Definition member_review (r : Registry) : result MemberReview string :=
  match (t ← team r; obj_get MEMBER_REVIEW_FIELD t) with
  | Some value =>
      match review_from_value value with
      | Some review => Ok review
      | None => Err "Team review state could not be read. Reconnect before accepting changes."
      end
  | None => Ok (mk_review ∅ review_default_rest)
  end.

Definition save_member_review (review : MemberReview) (r : Registry) : Registry :=
  match team r with
  | Some t => with_unknown (Some (obj_insert MEMBER_REVIEW_FIELD (review_to_value review) t)) (registry_unknown r) r
  | None => r
  end.

Definition disable_held (v3 : bool) (profile : string) (a : HeldAccess) : HeldAccess :=
  if v3 then mk_held (existed a) false (held_profiles a)
  else
    let ps := List.filter (fun id => negb (String.eqb id profile)) (held_profiles a) in
    mk_held (existed a) (negb (bool_decide (ps = []))) ps.

Definition remember_held_disable (profile server : string) (r : Registry) : result Registry string :=
  if negb (server_change_held server r) then Ok r
  else
    match member_review r with
    | Err e => Err e
    | Ok review =>
        let held :=
          match (s ← List.find (has_id server) (servers r); saved_team_original_id s) with
          | Some id => alter (disable_held (3 <=? version r) profile) id (held_access review)
          | None => held_access review
          end in
        Ok (save_member_review (mk_review held (review_rest review)) r)
    end.

Fixpoint remember_all (profile : string) (ids : list string) (r : Registry) : Registry * result () string :=
  match ids with
  | [] => (r, Ok tt)
  | id :: ids => match remember_held_disable profile id r with
                 | Ok r => remember_all profile ids r
                 | Err e => (r, Err e)
                 end
  end.

(** The ids that [Enable all] may turn on. *)
Definition may_enable (s : ServerEntry) : bool :=
  is_ok (check_enable_allowed false s) &&
  (bool_decide (launch s = None) || is_ok (Launch.resolve_args is_alphanumeric get_secret s)).

(** What it leaves of the registry also when it fails. *)
Definition set_all_enabled (profile : string) (on : bool) (r : Registry) : Registry * result () string :=
  let held := map server_id (List.filter (fun s => server_change_held (server_id s) r) (servers r)) in
  match (if on then (r, Ok tt) else remember_all profile held r) with
  | (r, Err e) => (r, Err e)
  | (r, Ok _) =>
      let ids := if on then map server_id (List.filter may_enable (servers r)) else [] in
      if 3 <=? version r then
        (with_servers (map (fun s => if negb on || mem (server_id s) ids then with_enabled on s else s) (servers r)) r,
         Ok tt)
      else
        let write p :=
          if on then with_enabled_ids (foldl (fun l id => if mem id l then l else l ++ [id]) (enabled_server_ids p) ids) p
          else with_enabled_ids [] p in
        match update_first (is_profile profile) write (profiles r) with
        | None => (r, Err (no_profile profile))
        | Some l => (with_profiles l (active_profile r) r, Ok tt)
        end
  end.

(** ** Removal *)

Definition supplies_authentication (personal : string) (r : Registry) : result bool string :=
  match obj_get "localTeamAuthentication" (registry_unknown r) with
  | None => Ok false
  | Some value =>
      match bindings_from_value value with
      | None => Err "Local authentication bindings are unreadable"
      | Some l => Ok (existsb (fun b => String.eqb (personal_id b.2) personal && existsb (has_id b.1) (servers r)) l)
      end
  end.

Definition forget_server (id : string) (p : Profile) : Profile :=
  with_tool_scope (delete id (tool_scope p))
    (with_enabled_ids (List.filter (fun sid => negb (String.eqb sid id)) (enabled_server_ids p)) p).

Definition remove_server (id : string) (r : Registry) : result Registry string :=
  match supplies_authentication id r with
  | Err e => Err e
  | Ok true => Err ("This personal original supplies local credentials to its team version. " +:+
                    "Leave the team before removing the original.")
  | Ok false =>
      let rest := List.filter (fun s => negb (has_id id s)) (servers r) in
      if (length rest =? length (servers r))%nat then Err (no_server id)
      else
        let sanitized := ToolNames.sanitize_segment id in
        let allow := List.filter (fun k => negb (starts_with (sanitized +:+ "/") k)) (human_approval_allow r) in
        Ok (with_tools allow (delete id (tool_overrides r)) (delete id (pinned_tools r))
              (delete sanitized (injection_block_exempt r)) (delete sanitized (result_budgets r))
              (with_profiles (map (forget_server id) (profiles r)) (active_profile r) (with_servers rest r)))
  end.

(** ** Stored references *)

(** The closures [resolve] and [normalize]. *)
Definition resolve_stored (reference : string) (r : Registry) : option string :=
  let reference := trim reference in
  if String.eqb reference "" then None
  else if String.eqb reference ALL_ENABLED_ACCESS then Some ALL_ENABLED_ACCESS
  else match List.find (is_profile reference) (profiles r) with
       | Some p => Some (profile_id p)
       | None =>
           match List.filter (fun p => eq_ignore_ascii_case (profile_name p) reference) (profiles r) with
           | [p] => Some (profile_id p)
           | _ => None
           end
       end.

Definition normalize_stored (reference : string) (r : Registry) : string :=
  if String.eqb (trim reference) "" then ""
  else default (INVALID_PROFILE_REF_PREFIX +:+ sha256_hex (trim reference)) (resolve_stored reference r).

Definition normalize_profile_references (r : Registry) : Registry :=
  let active := a ← active_profile r; resolve_stored a r in
  with_references
    (map (fun m => mk_folder (path m) (normalize_stored (folder_profile m) r) (folder_unknown m)) (folder_profiles r))
    ((fun scope => normalize_stored scope r) <$> client_scopes r)
    (map (fun c => mk_client (client_id c) (client_label c) (token_sha256 c) (normalize_stored (client_profile c) r)
                     (client_unknown c)) (http_clients r))
    (with_profiles (profiles r) active r).

Definition http_client_for_token (token : string) (r : Registry) : option HttpClient :=
  List.find (fun c => ct_eq (token_sha256 c) (sha256_hex token)) (http_clients r).
End registry.

(** ** Fresh ids *)

(** What an id is compared as. *)
Definition norm (id : string) : string := to_ascii_lowercase (ToolNames.sanitize_segment id).

Lemma collide_norm a b : ids_collide a b = true <-> norm a = norm b.
Proof. unfold ids_collide, eq_ignore_ascii_case, norm. apply String.eqb_eq. Qed.

Lemma taken_spec existing id : taken existing id = true <-> norm id ∈ map norm existing.
Proof.
  unfold taken. rewrite existsb_exists, list_elem_of_In, in_map_iff. setoid_rewrite collide_norm. naive_solver.
Qed.

Lemma lower_app a b : to_ascii_lowercase (a +:+ b) = to_ascii_lowercase a +:+ to_ascii_lowercase b.
Proof. unfold to_ascii_lowercase. induction a as [|x a IH]; [done|]. cbn. by rewrite IH. Qed.

Lemma norm_app a b : starts_cont b = false -> norm (a +:+ b) = norm a +:+ norm b.
Proof.
  intros Hb. unfold norm, ToolNames.sanitize_segment. by rewrite chars_app, map_app, concat_str_app, lower_app.
Qed.

Lemma norm_digits d : all_bytes is_digit d = true -> norm d = d.
Proof.
  induction d as [|b d IH]; [done|]. cbn [all_bytes]. intros [Hb Hd]%andb_prop.
  change (String b d) with (String b "" +:+ d). rewrite norm_app, IH by
    (done || (destruct d as [|c d]; [done|]; cbn [all_bytes] in Hd; apply andb_prop in Hd as [Hc _];
              revert Hc; by destruct c as [[] [] [] [] [] [] [] []])).
  f_equal. revert Hb. by destruct b as [[] [] [] [] [] [] [] []].
Qed.

Lemma norm_candidate base n : 0 <= n -> norm (base +:+ "-" +:+ pretty n) = norm base +:+ "_" +:+ pretty n.
Proof.
  intros Hn. pose proof (pretty_digits n Hn) as Hd. rewrite norm_app by done.
  rewrite norm_app by (destruct (pretty n) as [|c d]; [done|]; cbn [all_bytes] in Hd; apply andb_prop in Hd as [Hc _];
                       revert Hc; by destruct c as [[] [] [] [] [] [] [] []]).
  by rewrite (norm_digits (pretty n)).
Qed.

Lemma candidate_inj base n m :
  0 <= n -> 0 <= m -> norm (base +:+ "-" +:+ pretty n) = norm (base +:+ "-" +:+ pretty m) -> n = m.
Proof.
  intros Hn Hm. rewrite !norm_candidate by done. intros H%app_str_inj%app_str_inj. by apply (inj pretty) in H.
Qed.

(** Of as many candidates as there are ids and one more, one is free. *)
Lemma next_id_spec fuel base n existing :
  0 <= n -> match next_id fuel base n existing with
  | Some id => taken existing id = false /\ exists m, n <= m /\ id = base +:+ "-" +:+ pretty m
  | None => forall i, (i < fuel)%nat -> taken existing (base +:+ "-" +:+ pretty (n + Z.of_nat i)) = true
  end.
Proof.
  revert n. induction fuel as [|fuel IH]; intros n Hn; cbn [next_id]; [lia|].
  destruct (taken existing _) eqn:E; cbn [negb]; [|by split; [|exists n; split; [lia|]]].
  specialize (IH (n + 1) ltac:(lia)). destruct (next_id fuel base (n + 1) existing) as [id|].
  - destruct IH as (H1 & m & Hm & H2). split; [done|]. exists m. by split; [lia|].
  - intros [|i] Hi; [by rewrite Z.add_0_r|].
    replace (n + Z.of_nat (S i)) with (n + 1 + Z.of_nat i) by lia. apply IH. lia.
Qed.

Lemma unique_id_spec base existing :
  exists id, unique_id base existing = Some id /\ taken existing id = false /\
    (id = (if String.eqb base "" then "item" else base) \/
     exists n, 2 <= n /\ id = (if String.eqb base "" then "item" else base) +:+ "-" +:+ pretty n).
Proof.
  unfold unique_id. set (b := if String.eqb base "" then _ else _). clearbody b.
  destruct (taken existing b) eqn:E; cbn [negb]; [|exists b; by split_and!; [| |left]].
  pose proof (next_id_spec (S (length existing)) b 2 existing ltac:(lia)) as H.
  destruct (next_id _ b 2 existing) as [id|].
  - destruct H as (H1 & m & Hm & H2). exists id. split_and!; [done|done|]. right. by exists m.
  - exfalso. set (cands := map (fun i => norm (b +:+ "-" +:+ pretty (2 + Z.of_nat i))) (seq 0 (S (length existing)))).
    assert (Hnd : NoDup cands).
    { apply NoDup_fmap_2_strong; [|apply NoDup_seq]. intros i j _ _ Hij. apply candidate_inj in Hij; lia. }
    pose proof (submseteq_length _ _ (NoDup_submseteq cands (map norm existing) Hnd
      ltac:(intros x (i & -> & Hi%elem_of_seq)%list_elem_of_fmap; apply taken_spec, H; lia))) as Hl.
    unfold cands in Hl. rewrite !length_map, length_seq in Hl. lia.
Qed.

(** ** Edits *)

Inductive Edit :=
| AddServer (entry : ServerEntry)
| UpdateServer (entry : ServerEntry)
| RemoveServer (id : string)
| AddProfile (name : string)
| RemoveProfile (id : string)
| SetServerEnabled (profile server : string) (on : bool)
| SetAccessServer (profile server : string) (on : bool)
| SetAllEnabled (profile : string) (on : bool)
| SetDefaultAccess (profile : option string)
| SetToolEnabled (server tool : string) (on : bool)
| SetProfileServerTools (profile server : string) (tools : option (list string))
| SetToolPinned (server tool : string) (on : bool)
| AllowTool (key : string)
| RevokeTool (key : string)
| SetToolOverride (server tool : string) (ov : ToolOverride)
| ClearToolOverride (server tool : string)
| SetFolderProfiles (l : list FolderProfile)
| SetClientScope (client : string) (profile : option string)
| SetClientUnscoped (client : string)
| SetClientDiscovery (client : string) (mode : option string)
| SetLazyDiscovery (lazy : bool)
| SetDiscoveryMode (mode : string)
| SetLiveInspect (on : bool)
| DismissUpgradeNotice
| DismissFeaturesNotice
| NormalizeReferences.

Section edits.
Variable bindings_from_value : json -> option (list (string * Binding)).
Variable review_from_value : json -> option MemberReview.
Variable review_to_value : MemberReview -> json.
Variable review_default_rest : json.
Variable headers_from_value : json -> option (list SecretGate.HeaderKey).
Variable is_alphanumeric : string -> bool.
Variable get_secret : string -> string -> result (option string) string.
Variable sha256_hex : string -> string.
Variable resolve : string -> option (list Hosts.IpAddr).

(** The registry an edit leaves: an edit that fails leaves it, except that [Enable all] may
    have remembered some held changes before it failed. *)
Definition run (r : Registry) (e : Edit) : Registry :=
  match e with
  | AddServer entry => match add_server entry r with Some (_, r) => r | None => r end
  | UpdateServer entry => unwrap_or r (update_server entry r)
  | RemoveServer id => unwrap_or r (remove_server bindings_from_value id r)
  | AddProfile name => match add_profile name r with Some (_, r) => r | None => r end
  | RemoveProfile id => unwrap_or r (remove_profile id r)
  | SetServerEnabled p s on => unwrap_or r (set_server_enabled is_alphanumeric get_secret p s on r)
  | SetAccessServer p s on => unwrap_or r (set_access_server headers_from_value resolve p s on r)
  | SetAllEnabled p on =>
      (set_all_enabled review_from_value review_to_value review_default_rest headers_from_value is_alphanumeric
         get_secret resolve p on r).1
  | SetDefaultAccess p => unwrap_or r (set_default_access p r)
  | SetToolEnabled s t on => unwrap_or r (set_tool_enabled s t on r)
  | SetProfileServerTools p s l => unwrap_or r (set_profile_server_tools p s l r)
  | SetToolPinned s t on => set_tool_pinned s t on r
  | AllowTool key => allow_tool key r
  | RevokeTool key => revoke_tool key r
  | SetToolOverride s t ov => set_tool_override s t ov r
  | ClearToolOverride s t => clear_tool_override s t r
  | SetFolderProfiles l => set_folder_profiles l r
  | SetClientScope c p => set_client_scope c p r
  | SetClientUnscoped c => set_client_unscoped c r
  | SetClientDiscovery c m => set_client_discovery c m r
  | SetLazyDiscovery b => set_lazy_discovery b r
  | SetDiscoveryMode m => set_discovery_mode m r
  | SetLiveInspect b => set_live_inspect b r
  | DismissUpgradeNotice => dismiss_access_upgrade_notice r
  | DismissFeaturesNotice => dismiss_removed_features_notice r
  | NormalizeReferences => normalize_profile_references sha256_hex r
  end.

(** No two servers, and no two profiles, are one principal. *)
Record apart (r : Registry) : Prop := {
  apart_servers : NoDup (map norm (server_ids r));
  apart_profiles : NoDup (map norm (profile_ids r))
}.

(** The edit leaves the ids alone. *)
Definition same_ids (r r' : Registry) : Prop := server_ids r' = server_ids r /\ profile_ids r' = profile_ids r.

Lemma same_apart r r' : same_ids r r' -> apart r -> apart r'.
Proof. intros [E1 E2] [H1 H2]. split; [by rewrite E1|by rewrite E2]. Qed.

Lemma update_first_map {A B} (g : A -> B) p f (l l' : list A) :
  (forall x, p x = true -> g (f x) = g x) -> update_first p f l = Some l' -> map g l' = map g l.
Proof.
  intros Hg. revert l'. induction l as [|x l IH]; intros l' H; cbn [update_first] in H; [done|].
  destruct (p x) eqn:Ep.
  - injection H as <-. cbn. by rewrite Hg.
  - destruct (update_first p f l) as [l1|]; [|done]. cbn in H. injection H as <-. cbn. by rewrite (IH l1).
Qed.

Lemma filter_norm {A} (g : A -> string) p (l : list A) :
  NoDup (map norm (map g l)) -> NoDup (map norm (map g (List.filter p l))).
Proof.
  induction l as [|x l IH]; [done|]. cbn. intros [H1 H2]%NoDup_cons. destruct (p x); [|by apply IH].
  cbn. apply NoDup_cons. split; [|by apply IH]. intros Hin. apply H1. revert Hin.
  rewrite !list_elem_of_In, !in_map_iff. intros (y & Ey & Hy). exists y. split; [done|].
  apply in_map_iff in Hy as (z & <- & [Hz _]%filter_In). by apply in_map.
Qed.

Lemma fresh_norm (ids : list string) id :
  taken ids id = false -> NoDup (map norm ids) -> NoDup (map norm (ids ++ [id])).
Proof.
  intros Ht H. rewrite map_app. apply NoDup_app. split; [done|]. split; [|apply NoDup_singleton].
  intros x Hx ->%list_elem_of_singleton. apply taken_spec in Hx. congruence.
Qed.

Lemma remember_all_ids profile ids r :
  same_ids r (remember_all review_from_value review_to_value review_default_rest profile ids r).1.
Proof.
  revert r. induction ids as [|id ids IH]; intros r; [done|]. cbn [remember_all].
  destruct (remember_held_disable _ _ _ _ _ _) as [r1|e] eqn:E; [|done].
  assert (H1 : same_ids r r1).
  { revert E. unfold remember_held_disable. destruct (negb _); [by intros [= <-]|].
    destruct (member_review _ _ r); [|done]. intros [= <-]. unfold save_member_review. by destruct (team r). }
  destruct H1 as [E1 E2], (IH r1) as [E3 E4]. split; congruence.
Qed.

Lemma include_id server on p : profile_id (include server on p) = profile_id p.
Proof. unfold include. by destruct (on && _), (negb on). Qed.

Lemma set_access_ids p s on r r' : set_access_server headers_from_value resolve p s on r = Ok r' -> same_ids r r'.
Proof.
  unfold set_access_server. destruct (List.find _ _); [|done]. destruct (if on then _ else _); [|done].
  destruct (update_first _ _ (profiles r)) as [l|] eqn:E; [|done]. intros [= <-]. split; [done|].
  eapply update_first_map; [|exact E]. intros x _. apply include_id.
Qed.

Lemma set_global_ids s on r r' : set_global_server_enabled is_alphanumeric get_secret s on r = Ok r' -> same_ids r r'.
Proof.
  unfold set_global_server_enabled. destruct (List.find _ _); [|done]. destruct (check_ready _ _ _ _); [|done].
  intros [= <-]. split; [|done]. unfold server_ids. cbn. destruct (update_first _ _ (servers r)) as [l|] eqn:E; [|done].
  cbn. by eapply update_first_map; [|exact E].
Qed.

Lemma set_enabled_ids p s on r r' : set_server_enabled is_alphanumeric get_secret p s on r = Ok r' -> same_ids r r'.
Proof.
  unfold set_server_enabled. destruct (3 <=? version r); [apply set_global_ids|].
  destruct (List.find _ _); [|done]. destruct (check_ready _ _ _ _); [|done].
  destruct (update_first _ _ (profiles r)) as [l|] eqn:E; [|done]. intros [= <-]. split; [done|].
  eapply update_first_map; [|exact E]. intros x _. apply include_id.
Qed.

Lemma set_all_ids p on r :
  same_ids r (set_all_enabled review_from_value review_to_value review_default_rest headers_from_value is_alphanumeric
    get_secret resolve p on r).1.
Proof.
  unfold set_all_enabled. set (held := map server_id _).
  assert (H : same_ids r (if on then (r, Ok tt)
    else remember_all review_from_value review_to_value review_default_rest p held r).1)
    by (destruct on; [done|apply remember_all_ids]).
  destruct (if on then _ else _) as [r1 [[]|e]]; [|done]. cbn in H. destruct H as [E1 E2].
  set (ids := if on then _ else _). clearbody ids. destruct (3 <=? version r1).
  - split; [|done]. rewrite <- E1. unfold server_ids. cbn. rewrite map_map. apply map_ext.
    intros s. by destruct (negb on || _).
  - destruct (update_first _ _ (profiles r1)) as [l|] eqn:E; [|done]. cbn [fst]. split; [done|].
    rewrite <- E2. eapply update_first_map; [|exact E]. intros x _. by destruct on.
Qed.

(** Every other edit of an existing thing leaves the ids alone too. *)
Lemma run_same r e :
  match e with AddServer _ | RemoveServer _ | AddProfile _ | RemoveProfile _ => True | _ => same_ids r (run r e) end.
Proof.
  assert (Hu : forall (x : result Registry string), (forall r', x = Ok r' -> same_ids r r') -> same_ids r (unwrap_or r x)).
  { intros [r'|] H; [by apply H|done]. }
  destruct e; try done; cbn [run].
  - apply Hu. unfold update_server. intros r'. destruct (update_first _ _ _) as [l|] eqn:E; [|done].
    intros [= <-]. split; [|done]. eapply update_first_map; [|exact E].
    intros x Hx. apply String.eqb_eq in Hx. by rewrite Hx.
  - apply Hu. intros r'. apply set_enabled_ids.
  - apply Hu. intros r'. apply set_access_ids.
  - apply set_all_ids.
  - apply Hu. unfold set_default_access. intros r'. destruct (p ← profile; _) as [p|]; [|by intros [= <-]].
    destruct (canonical_profile_id p r); [|done]. by intros [= <-].
  - apply Hu. unfold set_tool_enabled. intros r'. destruct (update_first _ _ _) as [l|] eqn:E; [|done].
    intros [= <-]. split; [|done]. eapply update_first_map; [|exact E]. intros x _.
    cbv beta zeta. by repeat case_match.
  - apply Hu. unfold set_profile_server_tools. intros r'. destruct (update_first _ _ _) as [l|] eqn:E; [|done].
    intros [= <-]. split; [done|]. by eapply update_first_map; [|exact E].
  - unfold allow_tool. by destruct (mem _ _).
  - unfold set_tool_override, clear_tool_override. by destruct (override_name ov), (override_description ov), (tool_overrides r !! server).
  - unfold clear_tool_override. by destruct (tool_overrides r !! server).
  - unfold set_discovery_mode. by destruct (if String.eqb _ _ then _ else _).
  - unfold dismiss_removed_features_notice. by destruct (obj_get _ _) as [[]|].
Qed.

Lemma run_apart r e : apart r -> apart (run r e).
Proof.
  intros H. pose proof (run_same r e) as Hs. destruct e; try (by apply (same_apart r)); clear Hs; cbn [run].
  - unfold add_server. destruct (unique_id_spec (slugify (server_name entry)) (server_ids r)) as (id & -> & Ht & _).
    destruct H as [H1 H2]. split; [|done]. unfold server_ids. cbn. rewrite map_app. by apply fresh_norm.
  - unfold remove_server. destruct (supplies_authentication _ id r) as [[]|]; [done| |done].
    destruct (_ =? _)%nat; [done|]. destruct H as [H1 H2]. cbn [unwrap_or]. split.
    + exact (filter_norm server_id (fun s => negb (has_id id s)) (servers r) H1).
    + unfold profile_ids in *. cbn. rewrite (map_map _ profile_id). exact H2.
  - unfold add_profile. destruct (unique_id_spec (slugify name) (profile_ids r)) as (id & -> & Ht & _).
    destruct H as [H1 H2]. split; [done|]. unfold profile_ids. cbn. rewrite map_app. by apply fresh_norm.
  - unfold remove_profile. destruct (_ && _); [done|]. destruct (_ <=? _)%nat; [done|].
    destruct (_ =? _)%nat; [done|]. destruct H as [H1 H2]. cbn [unwrap_or]. split; [done|].
    exact (filter_norm profile_id (fun p => negb (is_profile id p)) (profiles r) H2).
Qed.

Lemma norm_origin a b : Release.pii_origin_id a = Release.pii_origin_id b -> norm a = norm b.
Proof. unfold norm, Release.pii_origin_id. by intros ->. Qed.

Lemma apart_same r s s' : apart r -> s ∈ servers r -> s' ∈ servers r -> norm (server_id s) = norm (server_id s') -> s = s'.
Proof.
  intros [H _] Hs Hs' E. unfold server_ids in H. revert Hs Hs' H. induction (servers r) as [|x l IH]; [by intros ?%elem_of_nil|].
  cbn. rewrite !elem_of_cons, NoDup_cons. intros Hs Hs' [Hn Hd].
  rewrite list_elem_of_In in Hn.
  assert (Hin : forall y, y ∈ l -> In (norm (server_id y)) (map norm (map server_id l))).
  { intros y Hy%list_elem_of_In. by apply in_map, in_map. }
  destruct Hs as [->|Hs], Hs' as [->|Hs']; [done| | |by apply IH]; exfalso; apply Hn.
  - rewrite E. by apply Hin.
  - rewrite <- E. by apply Hin.
Qed.

(** C13. Ids stay apart.  Whatever is edited and in whatever order, a registry whose ids are apart
    under the map the gateway keys on keeps them apart, so two servers with one origin of
    personal data are one server; [unique_id] always finds an id, within as many tries as
    there are ids and one more, and takes the base itself when it is free. *)
Theorem ids_stay_apart r edits :
  apart r ->
  apart (foldl run r edits) /\
  (forall s s', s ∈ servers (foldl run r edits) -> s' ∈ servers (foldl run r edits) ->
     Release.pii_origin_id (server_id s) = Release.pii_origin_id (server_id s') -> s = s') /\
  forall base existing, exists id, unique_id base existing = Some id /\ taken existing id = false /\
    (taken existing (if String.eqb base "" then "item" else base) = false ->
     id = if String.eqb base "" then "item" else base).
Proof.
  intros H. assert (Ha : apart (foldl run r edits)).
  { revert r H. induction edits as [|e edits IH]; intros r H; [done|]. cbn. by apply IH, run_apart. }
  split; [done|]. split.
  - intros s s' Hs Hs' E%norm_origin. by eapply apart_same.
  - intros base existing. destruct (unique_id_spec base existing) as (id & E & Ht & _). exists id.
    split; [done|]. split; [done|]. intros Hf. revert E. unfold unique_id. rewrite Hf. cbn. by intros [= <-].
Qed.
End edits.

(** ** References that lead nowhere *)

Lemma find_none_forall {A} (p : A -> bool) l : List.find p l = None <-> Forall (fun x => p x = false) l.
Proof.
  induction l as [|x l IH]; cbn; [by split|]. rewrite Forall_cons. destruct (p x); [by split; [|intros [? _]]|].
  rewrite IH. tauto.
Qed.

(** A reference that is neither blank, nor one of the two special ones, nor the id of a
    profile, nor the name of exactly one. *)
Definition dangling (reference : string) (r : Registry) : Prop :=
  String.eqb (trim reference) "" = false /\ reference <> ALL_ENABLED_ACCESS /\
  reference <> default_access_id r /\ reference <> all_access_id r /\
  profile_id_for_ref reference r = None.

Lemma dangling_resolves reference r : dangling reference r -> resolve_profile_id reference r = reference.
Proof.
  intros (H1 & H2 & H3 & H4 & H5). unfold resolve_profile_id. rewrite H1, H5.
  destruct (String.eqb_spec reference ALL_ENABLED_ACCESS), (String.eqb_spec reference (default_access_id r)),
    (String.eqb_spec reference (all_access_id r)); done.
Qed.

Lemma dangling_unlisted reference r :
  dangling reference r -> Forall (fun p => profile_id p = trim (profile_id p)) (profiles r) ->
  List.find (is_profile reference) (profiles r) = None.
Proof.
  intros (H1 & _ & _ & _ & H5) Ht. unfold profile_id_for_ref in H5. rewrite H1 in H5.
  destruct (List.find (is_profile (trim reference)) (profiles r)) eqn:E; [done|]. apply find_none_forall in E.
  apply find_none_forall. rewrite Forall_forall in E, Ht |- *. intros p Hp. specialize (E p Hp). specialize (Ht p Hp).
  unfold is_profile in *. destruct (String.eqb_spec (profile_id p) reference) as [<-|]; [|done].
  rewrite <- Ht, String.eqb_refl in E. done.
Qed.

(** A dangling reference reaches no server: not the active profile's, not one of another
    profile, whatever the version of the registry. *)
Lemma dangling_disabled reference server r :
  dangling reference r -> Forall (fun p => profile_id p = trim (profile_id p)) (profiles r) ->
  is_enabled reference server r = false.
Proof.
  intros H Ht. unfold is_enabled. rewrite (dangling_unlisted _ _ H Ht). destruct H as (_ & H2 & H3 & H4 & _).
  destruct (3 <=? version r); [|done]. destruct (negb _); [done|].
  destruct (String.eqb_spec reference ALL_ENABLED_ACCESS), (String.eqb_spec reference (default_access_id r)),
    (String.eqb_spec reference (all_access_id r)); done.
Qed.

Lemma filter_false {A} (p : A -> bool) l : (forall x, p x = false) -> List.filter p l = [].
Proof. intros H. induction l as [|x l IH]; [done|]. cbn. by rewrite H. Qed.

Lemma filter_sublist {A} (p : A -> bool) l : sublist (List.filter p l) l.
Proof.
  induction l as [|x l IH]; [constructor|]. cbn. destruct (p x); [by apply sublist_skip|by apply sublist_cons].
Qed.

(** ** What the bridge connects *)

Lemma mem_spec x l : mem x l = true <-> x ∈ l.
Proof. unfold mem. rewrite existsb_exists, list_elem_of_In. setoid_rewrite String.eqb_eq. naive_solver. Qed.

Lemma bridge_profiles_spec base r pid :
  pid ∈ bridge_profiles base r <->
  pid = match base with Some p => resolve_profile_id p r | None => default_access_id r end \/
  exists c, c ∈ http_clients r /\ String.eqb (trim (client_profile c)) "" = false /\
    pid = resolve_profile_id (client_profile c) r.
Proof.
  unfold bridge_profiles. set (b := match base with Some _ => _ | None => _ end). clearbody b.
  set (f := fun ids c => _).
  assert (H : forall l ids, pid ∈ foldl f ids l <->
    pid ∈ ids \/ exists c, c ∈ l /\ String.eqb (trim (client_profile c)) "" = false /\
      pid = resolve_profile_id (client_profile c) r).
  { induction l as [|c l IH]; intros ids; [set_solver|]. cbn [foldl]. rewrite IH.
    assert (Hf : pid ∈ f ids c <-> pid ∈ ids \/ (String.eqb (trim (client_profile c)) "" = false /\
      pid = resolve_profile_id (client_profile c) r)).
    { unfold f. destruct (String.eqb (trim (client_profile c)) ""); [naive_solver|].
      destruct (mem _ ids) eqn:Em; [apply mem_spec in Em; naive_solver|]. set_solver. }
    rewrite Hf. setoid_rewrite elem_of_cons. naive_solver. }
  rewrite H, list_elem_of_singleton. done.
Qed.

(** ** Folders *)

Lemma path_is_within_spec base root :
  path_is_within base root = true <->
  base <> "" /\ (root = base \/ exists rest, root = base +:+ "/" +:+ rest).
Proof.
  unfold path_is_within. destruct (String.eqb_spec base "") as [->|Hb]; [naive_solver|].
  destruct (String.eqb_spec root base) as [->|Hr]; [naive_solver|].
  destruct (strip_prefix base root) as [rest|] eqn:E.
  - apply strip_prefix_spec in E as ->. split.
    + intros H. apply prefix_spec in H as [m ->]. split; [done|]. right. by exists m.
    + intros [_ [H|[m H%app_str_inj]]]; [done|]. rewrite H. apply prefix_spec. by exists m.
  - split; [done|]. intros [_ [->|[m ->]]]; [done|].
    assert (H : strip_prefix base (base +:+ "/" +:+ m) = Some ("/" +:+ m)) by by apply strip_prefix_spec.
    congruence.
Qed.

Lemma longest_spec best l :
  match longest best l with
  | Some (n, p) => (best = Some (n, p) \/ (n, p) ∈ l) /\
      (forall m q, (m, q) ∈ l \/ best = Some (m, q) -> m <= n)
  | None => best = None /\ l = []
  end.
Proof.
  revert best. induction l as [|[n p] l IH]; intros best; cbn [longest].
  { destruct best as [[n p]|]; [|done]. split; [by left|]. intros m q [H%elem_of_nil|[= <- <-]]; [done|lia]. }
  set (best' := match best with Some _ => _ | None => _ end). specialize (IH best').
  destruct (longest best' l) as [[k s]|].
  - destruct IH as [H1 H2]. split.
    + destruct H1 as [H1|H1]; [|right; set_solver]. subst best'. destruct best as [[m q]|]; [|set_solver].
      destruct (Z.ltb_spec n m); set_solver.
    + intros m q [Hin|Hb].
      * apply elem_of_cons in Hin as [[= -> ->]|Hin]; [|eapply H2; by left]. subst best'.
        destruct best as [[m q]|]; [|eapply H2; by right]. destruct (Z.ltb_spec n m).
        -- transitivity m; [lia|]. eapply H2. by right.
        -- eapply H2. by right.
      * subst best' best. destruct (Z.ltb_spec n m); [eapply H2; by right|].
        transitivity n; [done|]. eapply H2. by right.
  - destruct IH as [H _]. subst best'. destruct best as [[]|]; [|done]. by destruct (_ <? _).
Qed.

(** ** The token of an HTTP client *)

Lemma diff_zero a b d :
  String.length a = String.length b -> (diff_bytes a b d = 0)%N <-> d = 0%N /\ a = b.
Proof.
  revert b d. induction a as [|x a IH]; intros [|y b] d Hl; try done; cbn [diff_bytes].
  { split; [done|by intros []]. }
  rewrite IH by (cbn in Hl; lia). rewrite N.lor_eq_0_iff, N.lxor_eq_0_iff. split.
  - intros [[-> H] ->]. apply (f_equal ascii_of_N) in H. rewrite !Stdlib.Strings.Ascii.ascii_N_embedding in H. by subst.
  - intros [-> [= -> ->]]. done.
Qed.

(** The constant-time comparison is equality. *)
Lemma ct_eq_spec a b : ct_eq a b = String.eqb a b.
Proof.
  unfold ct_eq. destruct (Z.eqb_spec (slen a) (slen b)) as [Hl|Hl]; cbn [negb].
  - assert (H := diff_zero a b 0 ltac:(unfold slen in Hl; lia)).
    destruct (String.eqb_spec a b) as [->|Hne].
    + apply N.eqb_eq, H. done.
    + apply N.eqb_neq. intros E%H. by destruct E.
  - destruct (String.eqb_spec a b) as [->|]; [done|done].
Qed.

(** ** Slugs *)

Definition slug_byte (b : ascii) : bool := is_alnum b || is_dash b.
Definition slug (s : string) : Prop :=
  all_bytes slug_byte s = true /\ match s with EmptyString => True | String b _ => is_alnum b = true end.

Lemma alnum_char c : char_is_alnum c = true -> exists b, c = String b "" /\ is_alnum b = true.
Proof. destruct c as [|b [|]]; try done. intros H. by exists b. Qed.

Lemma lower_alnum b : is_alnum b = true -> is_alnum (lower_byte b) = true.
Proof. destruct b as [[] [] [] [] [] [] [] []]; try done; by vm_compute. Qed.

Lemma slug_app a b : slug a -> all_bytes slug_byte b = true ->
  (a = "" -> match b with EmptyString => True | String c _ => is_alnum c = true end) -> slug (a +:+ b).
Proof.
  intros [H1 H2] Hb Hh. split; [by rewrite all_bytes_app, H1, Hb|]. destruct a as [|x a]; [by apply Hh|done].
Qed.

Lemma slug_loop_slug out d cs : slug out -> slug (slug_loop out d cs).
Proof.
  revert out d. induction cs as [|c cs IH]; intros out d H; cbn [slug_loop]; [done|].
  destruct (char_is_alnum c) eqn:Ec.
  - apply alnum_char in Ec as (b & -> & Hb). apply IH. pose proof (lower_alnum b Hb) as Hl.
    apply slug_app; [done| |done]. cbn. unfold slug_byte. by rewrite Hl.
  - destruct (negb (String.eqb out "") && negb d) eqn:E; [|by apply IH]. apply IH. apply slug_app; [done|done|].
    intros ->. done.
Qed.

Lemma trim_start_slug s : slug s -> trim_start_by is_dash s = s.
Proof.
  destruct s as [|b s]; [done|]. intros [_ H]. cbn. destruct (is_dash b) eqn:E; [|done].
  exfalso. revert H E. by destruct b as [[] [] [] [] [] [] [] []].
Qed.

Lemma trim_end_slug s : slug s -> slug (trim_end_by is_dash s).
Proof.
  assert (Hb : forall s, all_bytes slug_byte s = true -> all_bytes slug_byte (trim_end_by is_dash s) = true).
  { intros t. induction t as [|b t IH]; [done|]. cbn. intros [H1 H2]%andb_prop. specialize (IH H2).
    destruct (trim_end_by is_dash t) as [|c u]; [destruct (is_dash b); [done|cbn; by rewrite H1]|].
    cbn in *. by rewrite H1. }
  intros [H1 H2]. split; [by apply Hb|]. destruct s as [|b s]; [done|]. cbn.
  destruct (trim_end_by is_dash s) as [|c t]; [|done]. by destruct (is_dash b).
Qed.

Lemma slugify_slug s : slug (slugify s).
Proof. unfold slugify. assert (H : slug (slug_loop "" false (chars s))) by (by apply slug_loop_slug).
  rewrite trim_start_slug by done. by apply trim_end_slug. Qed.

Lemma slug_not_cont b s : all_bytes slug_byte (String b s) = true -> starts_cont s = false.
Proof.
  destruct s as [|c s]; [done|]. cbn. intros [_ [H _]%andb_prop]%andb_prop. revert H.
  by destruct c as [[] [] [] [] [] [] [] []].
Qed.

(** What a slug is keyed by starts with the slug's first character. *)
Lemma slug_origin b s :
  all_bytes slug_byte (String b s) = true -> is_alnum b = true ->
  exists rest, Release.pii_origin_id (String b s) = String b rest.
Proof.
  intros Hs Hb. unfold Release.pii_origin_id, ToolNames.sanitize_segment.
  change (String b s) with (String b "" +:+ s). rewrite chars_app by (by eapply slug_not_cont).
  assert (E : chars (String b "") = [String b ""]) by (revert Hb; by destruct b as [[] [] [] [] [] [] [] []]).
  rewrite E. cbn [app map]. unfold ToolNames.segment_char at 1.
  assert (Ec : char_is_alnum (String b "") = true) by exact Hb.
  rewrite Ec. cbn [orb]. by eexists.
Qed.

Lemma digits_slug d : all_bytes is_digit d = true -> all_bytes slug_byte d = true.
Proof.
  induction d as [|b d IH]; [done|]. cbn. intros [H1 H2]%andb_prop. rewrite IH by done. unfold slug_byte, is_alnum.
  by rewrite H1.
Qed.

(** The identity a script's output is attributed to is nobody's: the id of no server that was
    added is keyed as the script's is, whatever its name. *)
Theorem script_origin_reserved name existing id :
  unique_id (slugify name) existing = Some id ->
  Release.pii_origin_id id <> Release.pii_origin_id (String "000" "script").
Proof.
  intros E. destruct (unique_id_spec (slugify name) existing) as (id' & E' & _ & Hid). rewrite E in E'.
  injection E' as <-. set (base := if String.eqb (slugify name) "" then "item" else slugify name) in Hid.
  assert (Hb : slug base /\ base <> "").
  { unfold base. destruct (String.eqb_spec (slugify name) ""); [by split; [split|]|]. split; [apply slugify_slug|done]. }
  assert (Hs : exists b s, id = String b s /\ all_bytes slug_byte (String b s) = true /\ is_alnum b = true).
  { destruct Hb as [[H1 H2] Hne]. destruct base as [|b s]; [done|].
    destruct Hid as [->|(n & Hn & ->)]; [by exists b, s|]. exists b, (s +:+ "-" +:+ pretty n). split; [done|].
    split; [|done]. change (all_bytes slug_byte (String b s +:+ "-" +:+ pretty n) = true).
    rewrite !all_bytes_app, H1. cbn [andb]. apply digits_slug, pretty_digits. lia. }
  destruct Hs as (b & s & -> & Hs & Hba). destruct (slug_origin b s Hs Hba) as [rest ->].
  intros H. vm_compute in H. injection H as -> _. discriminate Hba.
Qed.

(** ** What is left of a server *)

Definition no_slash (s : string) : Prop := all_bytes (fun b => negb (Stdlib.Strings.Ascii.eqb b "/")) s = true.

Lemma sanitized_no_slash s : no_slash (ToolNames.sanitize_segment s).
Proof.
  unfold no_slash, ToolNames.sanitize_segment. induction (chars s) as [|c cs IH]; [done|]. cbn [map].
  change (concat_str (?x :: ?l)) with (x +:+ concat_str l). rewrite all_bytes_app, IH, andb_true_r.
  unfold ToolNames.segment_char. destruct (char_is_alnum c) eqn:E; cbn [orb].
  - apply alnum_char in E as (b & -> & Hb). revert Hb. by destruct b as [[] [] [] [] [] [] [] []].
  - destruct (String.eqb_spec c "_") as [->|]; done.
Qed.

Lemma slash_cut a b x y : no_slash a -> no_slash b -> a +:+ "/" +:+ x = b +:+ "/" +:+ y -> a = b.
Proof.
  unfold no_slash. revert b. induction a as [|c a IH]; intros [|d b] Ha Hb H; cbn in H; try done.
  - injection H as <- _. discriminate Hb.
  - injection H as -> _. discriminate Ha.
  - injection H as -> H. cbn in Ha, Hb. apply andb_prop in Ha as [_ Ha], Hb as [_ Hb]. f_equal. by apply (IH b).
Qed.

Lemma mem_filter x p l : mem x (List.filter p l) = mem x l && p x.
Proof.
  unfold mem. induction l as [|y l IH]; [done|]. cbn [List.filter existsb].
  destruct (p y) eqn:Ep; cbn [existsb]; rewrite IH; destruct (String.eqb_spec x y) as [->|]; cbn [orb andb]; try done;
    by rewrite Ep, ?andb_false_r.
Qed.

Lemma find_map {A} (p : A -> bool) f (l : list A) :
  (forall x, p (f x) = p x) -> List.find p (map f l) = f <$> List.find p l.
Proof. intros H. induction l as [|x l IH]; [done|]. cbn. rewrite H. by destruct (p x). Qed.

Lemma existsb_filter {A} (p q : A -> bool) l :
  (forall x, q x = true -> p x = true) -> existsb q (List.filter p l) = existsb q l.
Proof.
  intros H. induction l as [|x l IH]; [done|]. cbn. destruct (p x) eqn:Ep; cbn; rewrite IH; [done|].
  destruct (q x) eqn:Eq; [|done]. rewrite (H x Eq) in Ep. done.
Qed.

Lemma existsb_map {A B} (g : A -> B) (q : B -> bool) l : existsb q (map g l) = existsb (fun x => q (g x)) l.
Proof. induction l as [|x l IH]; [done|]. cbn. by rewrite IH. Qed.

Lemma forget_listed id server p :
  server <> id -> mem server (enabled_server_ids (forget_server id p)) = mem server (enabled_server_ids p).
Proof.
  intros H. change (enabled_server_ids (forget_server id p)) with
    (List.filter (fun sid => negb (String.eqb sid id)) (enabled_server_ids p)).
  rewrite mem_filter. destruct (String.eqb_spec server id); [done|]. by rewrite andb_true_r.
Qed.

(** Forgetting a server changes no switch of another. *)
Lemma forgotten_enabled id server p allow ov pins exempt budgets r :
  server <> id ->
  is_enabled p server
    (with_tools allow ov pins exempt budgets
       (with_profiles (map (forget_server id) (profiles r)) (active_profile r)
          (with_servers (List.filter (fun s => negb (has_id id s)) (servers r)) r))) =
  is_enabled p server r.
Proof.
  intros Hne. set (r' := with_tools _ _ _ _ _ _).
  assert (Hfind : forall q, List.find (is_profile q) (profiles r') = forget_server id <$> List.find (is_profile q) (profiles r))
    by (intros q; by apply find_map).
  assert (Hlisted : match List.find (is_profile p) (profiles r') with
      | Some q => mem server (enabled_server_ids q) | None => false end =
    match List.find (is_profile p) (profiles r) with
      | Some q => mem server (enabled_server_ids q) | None => false end).
  { rewrite Hfind. destruct (List.find _ (profiles r)) as [q|]; [|done]. by apply forget_listed. }
  assert (Hon : server_enabled server r' = server_enabled server r).
  { unfold server_enabled. destruct (version r <? 3) eqn:Ev.
    - change (version r') with (version r). rewrite Ev.
      change (profiles r') with (map (forget_server id) (profiles r)). rewrite existsb_map. clear Hfind Hlisted r'. induction (profiles r) as [|q l IH]; [done|]. cbn [existsb].
      rewrite forget_listed by done. f_equal. exact IH.
    - change (version r') with (version r). rewrite Ev. unfold r'. cbn. apply existsb_filter.
      intros s [Hs _]%andb_prop. unfold has_id in *. apply String.eqb_eq in Hs. rewrite Hs.
      by destruct (String.eqb_spec server id). }
  assert (Hact : active_profile_id r' = active_profile_id r).
  { unfold active_profile_id, r'. cbn. destruct (active_profile r); [done|]. by destruct (profiles r). }
  unfold is_enabled. rewrite Hlisted, Hon. unfold default_access_id. rewrite Hact. reflexivity.
Qed.

(** ** What the edits do *)

(** C27. A reference that no longer resolves fails closed: it stays as it is and reaches no server,
    of the active profile or of another, and narrows to nothing rather than widening; what
    the bridge connects is exactly the servers some client's reference reaches, or the base
    one, in the registry's order. *)
Theorem dangling_reference_reaches_nothing reference base r :
  dangling reference r -> Forall (fun p => profile_id p = trim (profile_id p)) (profiles r) ->
  resolve_profile_id reference r = reference /\ enabled_servers_for reference r = [] /\
  sublist (bridge_enabled_servers base r) (servers r) /\
  (forall s, s ∈ bridge_enabled_servers base r <-> s ∈ servers r /\
     (is_enabled (match base with Some p => resolve_profile_id p r | None => default_access_id r end) (server_id s) r = true \/
      exists c, c ∈ http_clients r /\ String.eqb (trim (client_profile c)) "" = false /\ ~ dangling (client_profile c) r /\
        is_enabled (resolve_profile_id (client_profile c) r) (server_id s) r = true)).
Proof.
  intros H Ht. split; [by apply dangling_resolves|]. split.
  { unfold enabled_servers_for. rewrite dangling_resolves by done. apply filter_false. intros s.
    by apply dangling_disabled. }
  unfold bridge_enabled_servers. set (f := fun s => existsb _ _). split.
  { clearbody f. apply filter_sublist. }
  assert (Hf : forall s, s ∈ servers r -> f s = true <->
    exists pid, pid ∈ bridge_profiles base r /\ is_enabled pid (server_id s) r = true).
  { intros s Hs. unfold f. rewrite existsb_exists. split.
    - intros (pid & Hp%list_elem_of_In & (s' & _ & [He Hi]%andb_prop)%existsb_exists). exists pid. split; [done|].
      unfold has_id in Hi. apply String.eqb_eq in Hi. by rewrite <- Hi.
    - intros (pid & Hp & He). exists pid. split; [by apply list_elem_of_In|]. apply existsb_exists. exists s.
      split; [by apply list_elem_of_In|]. unfold has_id. by rewrite He, String.eqb_refl. }
  intros s. rewrite list_elem_of_In, filter_In, <- list_elem_of_In. split.
  - intros [Hs Hs']. split; [done|]. apply (Hf s Hs) in Hs' as (pid & Hp & He).
    apply bridge_profiles_spec in Hp as [->|(c & Hc & Hn & ->)]; [by left|right]. exists c. split_and!; try done.
    intros Hd. rewrite dangling_resolves in He by done. by rewrite dangling_disabled in He.
  - intros [Hs He]. split; [done|]. apply (Hf s Hs). destruct He as [He|(c & Hc & Hn & _ & He)].
    + eexists. split; [|exact He]. apply bridge_profiles_spec. by left.
    + eexists. split; [|exact He]. apply bridge_profiles_spec. right. by exists c.
Qed.

(** A root is given to the folder with the longest path that is the root or holds it, and to
    none when no folder does. *)
Theorem folder_for_root windows root r :
  let norm_root := normalize_path windows root in
  let within fp := let base := normalize_path windows (path fp) in
    base <> "" /\ (norm_root = base \/ exists rest, norm_root = base +:+ "/" +:+ rest) in
  match profile_for_root windows root r with
  | Some p => exists fp, fp ∈ folder_profiles r /\ within fp /\ p = resolve_profile_id (folder_profile fp) r /\
      forall fp', fp' ∈ folder_profiles r -> within fp' ->
        slen (normalize_path windows (path fp')) <= slen (normalize_path windows (path fp))
  | None => norm_root = "" \/ forall fp, fp ∈ folder_profiles r -> ~ within fp
  end.
Proof.
  intros norm_root within. unfold profile_for_root. fold norm_root.
  assert (Hm : forall n p, (n, p) ∈ folder_matches windows norm_root r <-> exists fp, fp ∈ folder_profiles r /\
    within fp /\ n = slen (normalize_path windows (path fp)) /\ p = folder_profile fp).
  { intros n p. unfold folder_matches. rewrite list_elem_of_omap. split.
    - intros (fp & Hin & E). destruct (path_is_within _ _) eqn:Ep; [|done]. injection E as <- <-.
      exists fp. split; [done|]. by apply path_is_within_spec in Ep.
    - intros (fp & Hin & Hw & -> & ->). exists fp. split; [done|]. apply path_is_within_spec in Hw. by rewrite Hw. }
  destruct (String.eqb_spec norm_root "") as [E|E]; [by left|].
  pose proof (longest_spec None (folder_matches windows norm_root r)) as Hl.
  destruct (longest None _) as [[n p]|]; cbn [mbind option_bind].
  - destruct Hl as [[|H1] H2]; [done|]. apply Hm in H1 as (fp & Hin & Hw & -> & ->). exists fp.
    split_and!; try done. intros fp' Hin' Hw'. apply (H2 _ (folder_profile fp')). left. apply Hm. by exists fp'.
  - right. destruct Hl as [_ Hl]. intros fp Hin Hw.
    assert (H : (slen (normalize_path windows (path fp)), folder_profile fp) ∈ folder_matches windows norm_root r)
      by (apply Hm; by exists fp).
    rewrite Hl in H. by apply elem_of_nil in H.
Qed.


Section consent.
Variable review_from_value : json -> option MemberReview.
Variable review_to_value : MemberReview -> json.
Variable review_default_rest : json.
Variable headers_from_value : json -> option (list SecretGate.HeaderKey).
Variable is_alphanumeric : string -> bool.
Variable get_secret : string -> string -> result (option string) string.
Variable resolve : string -> option (list Hosts.IpAddr).

Abbreviation set_all_enabled := (set_all_enabled review_from_value review_to_value review_default_rest
  headers_from_value is_alphanumeric get_secret resolve).
Abbreviation needs_review := (needs_team_enable_review headers_from_value resolve).
Abbreviation may_enable := (may_enable headers_from_value is_alphanumeric get_secret resolve).

Lemma may_enable_reviewed s : may_enable s = true -> needs_review s = false.
Proof.
  unfold Access.may_enable, check_enable_allowed. intros [H _]%andb_prop. by destruct (needs_review s).
Qed.

Lemma mem_ids r s p :
  apart r -> s ∈ servers r -> mem (server_id s) (map server_id (List.filter p (servers r))) = p s.
Proof.
  intros Ha Hs. apply eq_true_iff_eq. rewrite mem_spec, list_elem_of_In, in_map_iff. split.
  - intros (s' & E & [Hin Hp]%filter_In). apply list_elem_of_In in Hin.
    by rewrite (apart_same r s s' Ha Hs Hin (f_equal norm (eq_sym E))).
  - intros Hp. exists s. split; [done|]. apply filter_In. by rewrite <- list_elem_of_In.
Qed.

Lemma fold_push ids l x :
  mem x (foldl (fun l id => if mem id l then l else l ++ [id]) l ids) = mem x l || mem x ids.
Proof.
  revert l. induction ids as [|id ids IH]; intros l; cbn [foldl]; [by rewrite orb_false_r|]. rewrite IH.
  change (mem x (id :: ids)) with (String.eqb x id || mem x ids). rewrite orb_assoc. f_equal.
  destruct (mem id l) eqn:E.
  - destruct (String.eqb_spec x id) as [->|]; [by rewrite E|by rewrite orb_false_r].
  - unfold mem. rewrite existsb_app. cbn. by rewrite orb_false_r.
Qed.

(** C26. [Enable all] turns on exactly the servers that need no review and whose arguments resolve,
    besides those that were on: in a 3.x registry each entry's switch, before it one access
    set's list.  A team server that waits for its member's consent stays as it was. *)
Theorem enable_all_respects_consent profile r :
  apart r ->
  (3 <= version r -> set_all_enabled profile true r =
     (with_servers (map (fun s => if may_enable s then with_enabled true s else s) (servers r)) r, Ok tt)) /\
  (version r < 3 -> forall r', set_all_enabled profile true r = (r', Ok tt) ->
     servers r' = servers r /\
     forall p s, s ∈ servers r -> is_enabled p (server_id s) r' =
       is_enabled p (server_id s) r || (String.eqb p profile && may_enable s)) /\
  (forall s, needs_review s = true -> may_enable s = false).
Proof.
  intros Ha. split_and!.
  - intros Hv. unfold Access.set_all_enabled. cbn zeta. rewrite (proj2 (Z.leb_le 3 (version r)) Hv). f_equal.
    f_equal. apply map_ext_in. intros s Hs%list_elem_of_In. cbn [negb orb]. by rewrite mem_ids.
  - intros Hv r'. unfold Access.set_all_enabled. cbn zeta. rewrite (proj2 (Z.leb_gt 3 (version r)) Hv).
    set (ids := map server_id _).
    destruct (update_first _ _ (profiles r)) as [l|] eqn:E; [|done]. intros [= <-]. split; [done|].
    intros p s Hs. unfold is_enabled. change (version (with_profiles l (active_profile r) r)) with (version r).
    rewrite (proj2 (Z.leb_gt 3 (version r)) Hv). cbn [profiles with_profiles].
    assert (Hl : forall q, List.find (is_profile q) l =
      (if String.eqb q profile then with_enabled_ids (foldl (fun l id => if mem id l then l else l ++ [id])
          (default [] (enabled_server_ids <$> List.find (is_profile q) (profiles r))) ids) <$> List.find (is_profile q) (profiles r)
       else List.find (is_profile q) (profiles r))).
    { intros q. clear -E. revert l E. induction (profiles r) as [|x ps IH]; intros l; [done|]. cbn [update_first].
      destruct (is_profile profile x) eqn:Ex.
      - intros [= <-]. cbn [List.find]. unfold is_profile in *. cbn [profile_id with_enabled_ids].
        apply String.eqb_eq in Ex. subst profile. destruct (String.eqb_spec (profile_id x) q) as [->|Hne].
        + by rewrite String.eqb_refl.
        + destruct (String.eqb_spec q (profile_id x)); [congruence|done].
      - destruct (update_first _ _ ps) as [l1|]; [|done]. cbn. intros [= <-]. cbn [List.find].
        specialize (IH l1 eq_refl). destruct (is_profile q x) eqn:Eq; [|exact IH].
        unfold is_profile in *. destruct (String.eqb_spec q profile) as [->|]; [congruence|done]. }
    rewrite Hl. destruct (String.eqb_spec p profile) as [->|]; cbn [andb]; [|by rewrite orb_false_r].
    destruct (List.find (is_profile profile) (profiles r)) as [q|] eqn:Eq; cbn -[mem].
    + rewrite fold_push. unfold ids. by rewrite mem_ids.
    + exfalso. apply find_none_forall in Eq. clear -E Eq. revert l E. induction Eq as [|x ps Hx _ IH]; [done|]. cbn.
      rewrite Hx. destruct (update_first _ _ ps) as [l1|]; [|done]. intros. by apply (IH l1).
  - intros s Hn. destruct (may_enable s) eqn:E; [|done]. apply may_enable_reviewed in E. congruence.
Qed.
End consent.

(** The bearer of a token is the client whose stored hash is the token's, nobody else. *)
Theorem bearer_is_hash_match sha256_hex token r :
  http_client_for_token sha256_hex token r =
  List.find (fun c => String.eqb (token_sha256 c) (sha256_hex token)) (http_clients r).
Proof.
  unfold http_client_for_token. induction (http_clients r) as [|c l IH]; [done|]. cbn. rewrite ct_eq_spec.
  by destruct (String.eqb _ _).
Qed.

(** ** Concrete registries *)

Definition empty_registry (v : Z) : Registry :=
  mk_registry v [] [] None None None false [] ∅ ∅ ∅ ∅ None [] ∅ ∅ [] true None false false None [].

Definition demo_entry (name src : string) : ServerEntry :=
  mk_server true "" name "http" None [] None [] (Some "https://mcp.example.com/sse") None false (Some src) [] None None
    None [].

Definition demo_run : Registry -> Edit -> Registry :=
  run (fun _ => None) (fun _ => None) (fun _ => JNull) JNull (fun _ => None) (fun _ => true) (fun _ _ => Ok None)
    (fun s => s) Hosts.demo_resolve.

(** Two servers of one name, an access set each, an approval, a budget, and a client scoped to the first set. *)
Definition demo_edits : list Edit :=
  [AddServer (demo_entry "Git Hub!" "user"); AddServer (demo_entry "git_hub" "user"); AddProfile "Work"; AddProfile "work";
   SetAccessServer "work" "git-hub" true; SetAccessServer "work-2" "git-hub-2" true;
   AllowTool "git_hub/push"; AllowTool "git_hub_2/push"; SetClientScope "cursor" (Some " work ")].

Definition demo_registry : Registry := foldl demo_run (empty_registry 2) demo_edits.

Example demo_ids :
  (server_ids demo_registry, profile_ids demo_registry, client_scopes demo_registry !! "cursor") =
  (["git-hub"; "git-hub-2"], ["work"; "work-2"], Some "work").
Proof. by vm_compute. Qed.

Lemma empty_apart v : apart (empty_registry v).
Proof. split; constructor. Qed.

Lemma demo_apart : apart demo_registry.
Proof.
  unfold demo_registry. generalize (empty_apart 2). generalize (empty_registry 2) as r. induction demo_edits as [|e es IH]; intros r H; [done|].
  by apply IH, run_apart.
Qed.

Lemma ids_stay_apart_witness : apart demo_registry.
Proof.
  apply (ids_stay_apart (fun _ => None) (fun _ => None) (fun _ => JNull) JNull (fun _ => None) (fun _ => true)
    (fun _ _ => Ok None) (fun s => s) Hosts.demo_resolve (empty_registry 2) demo_edits (empty_apart 2)).
Defined.

Lemma dangling_reference_reaches_nothing_witness :
  enabled_servers_for "Wrok" demo_registry = [] /\ length (enabled_servers_for "work" demo_registry) = 1%nat.
Proof.
  split; [|by vm_compute].
  apply (dangling_reference_reaches_nothing "Wrok" None demo_registry).
  - unfold dangling. vm_compute. repeat split; discriminate.
  - vm_compute. repeat constructor.
Defined.


Definition demo_enable_all : Registry * result () string :=
  set_all_enabled (fun _ => None) (fun _ => JNull) JNull (fun _ => None) (fun _ => true) (fun _ _ => Ok None)
    Hosts.demo_resolve "work" true demo_registry.

Lemma enable_all_respects_consent_witness :
  snd demo_enable_all = Ok tt /\ is_enabled "work" "git-hub-2" demo_registry = false /\
  is_enabled "work" "git-hub-2" (fst demo_enable_all) = true.
Proof.
  split; [vm_compute; reflexivity|]. split; [vm_compute; reflexivity|].
  destruct (enable_all_respects_consent (fun _ => None) (fun _ => JNull) JNull (fun _ => None) (fun _ => true)
    (fun _ _ => Ok None) Hosts.demo_resolve "work" demo_registry demo_apart) as (_ & H & _).
  destruct (H ltac:(vm_compute; reflexivity) (fst demo_enable_all) ltac:(vm_compute; reflexivity)) as [_ H2].
  assert (Hin : with_id "git-hub-2" (demo_entry "git_hub" "user") ∈ servers demo_registry)
    by (apply list_elem_of_In; vm_compute; right; left; reflexivity).
  specialize (H2 "work" _ Hin). change (server_id (with_id "git-hub-2" (demo_entry "git_hub" "user"))) with "git-hub-2" in H2.
  rewrite H2. vm_compute. reflexivity.
Defined.

Lemma script_origin_reserved_witness :
  Release.pii_origin_id "script" <> Release.pii_origin_id (String "000" "script").
Proof. apply (script_origin_reserved "-Script" []). vm_compute. reflexivity. Defined.

(** ** Where the code and its comments differ *)

(** A client is scoped to a removed set by id; the id is also the name of another set, so the
    reference, which a comment says fails closed, now reaches the other set's servers. *)
Theorem removed_set_passes_to_its_namesake :
  client_scopes demo_registry !! "cursor" = Some "work" /\
  map server_id (enabled_servers_for "work" demo_registry) = ["git-hub"] /\
  exists r, remove_profile "work" demo_registry = Ok r /\
    client_scopes r !! "cursor" = Some "work" /\ map server_id (enabled_servers_for "work" r) = ["git-hub-2"].
Proof. split; [by vm_compute|]. split; [by vm_compute|]. eexists. split; [by vm_compute|]. split; by vm_compute. Qed.

(** A folder mapping of the root directory holds no folder but the root itself. *)
Theorem root_mapping_holds_nothing :
  normalize_path false "/" = "/" /\ path_is_within "/" "/home/ada" = false /\ path_is_within "/home" "/home/ada" = true.
Proof. by vm_compute. Qed.

End Access.
