(* ===== verification/Execute.v ===== *)
(** One tool call, from the client's request to the answer (src/bin/toolport-gateway.rs,
    [execute_call]): the scope of the caller, the live router and its policy, placeholders,
    caps, the approval of a person, the way back of masked values, the dispatch, and the
    defence of what the server answers.

    The components it composes are those of the other files.  What other threads, the file
    system, the desktop and the server do between its steps are functions of the moment. *)

From S2P Require Import Prelude Text Json SessionStore Registry RateLimits CallFailure Approval ToolNames Catalog Safety Pins.
From S2P Require Import Shaping Voice Scan Masking Release ModernHitl Scope Guards Defense Access.

Module Execute.
Import ToolNames Catalog.

(** The parts of [Registry] a call reads; [caps] are the limits of its team. *)
Record Registry := mk_registry {
  access : Access.Registry;
  safety : Safety.Registry;
  caps : option (list RateLimits.Cap)
}.

Definition defense_of (reg : Registry) : Defense.Registry :=
  Defense.mk_registry (safety reg) (Access.result_budgets (access reg)).

Record CallOpts := mk_opts { direct : bool; shape : bool; allow_app_only : bool }.

(** What a call leaves outside of the stores. *)
Inductive Event (router : Type) : Type :=
| Woken (server : string)
| Charged (server tool : string)
| Raised (server tool reason : string)
| Asked (req : Approval.ApprovalRequest) (d : Approval.ApprovalDecision)
| Polled (tok : string) (r : ModernHitl.ModernHitlPoll)
| Decided (server tool reason decision : string) (held : option Z)
| Sent (exec : router) (live : option router) (args : json) (mrtr : option Release.MrtrRequest)
| Inspected (ok : bool) (response : json)
| Routed (server tool : string) (ok : bool) (err : option string).

Arguments Woken {_}.
Arguments Charged {_}.
Arguments Raised {_}.
Arguments Asked {_}.
Arguments Polled {_}.
Arguments Decided {_}.
Arguments Sent {_}.
Arguments Inspected {_}.
Arguments Routed {_}.

Definition STALE_LIVE_VIEW : string :=
  "this connection's profile changed during the request; send the request again".

(** [mcp_app_tool_is_model_visible]: as the router hides a tool from the model. *)
Definition mcp_app_tool_is_model_visible (tool : json) : bool :=
  match pointer ["_meta"; "ui"; "visibility"] tool with
  | None => true
  | Some (JArray visibility) => existsb audience_is_model visibility
  | Some _ => false
  end.

(** ** The hash of the arguments (src/audit.rs) *)

Section hash.
Variable to_string : json -> string.
Variable sha256 : string -> list N.

Fixpoint write_canonical_json (v : json) : string :=
  match v with
  | JObject map =>
      "{" +:+ String.concat "," (List.map (fun kv => to_string (JString kv.1) +:+ ":" +:+ write_canonical_json kv.2) map) +:+ "}"
  | JArray arr => "[" +:+ String.concat "," (List.map write_canonical_json arr) +:+ "]"
  | scalar => to_string scalar
  end.

Definition args_hash (v : json) : string := to_hex (sha256 (write_canonical_json v)).

Definition content_binding_decision (approved_hash : string) (current : json) : option Approval.ApprovalDecision :=
  if String.eqb (args_hash current) approved_hash then None else Some Approval.StaleState.
End hash.

(** ** The definitions of a tool *)

Section tool.
Variable regex : Type.
Variable fingerprint : json -> string.
Local Abbreviation Router := (Router regex).

Definition shared_tools (r : Router) : list json := map (value regex) (tools regex (tool_index regex (index regex r))).

Definition find_tool (name : string) (tools : list json) : option json := Guards.find_tool tools name.

Definition is_blocked (r : Router) (name : string) : bool :=
  bool_decide (is_Some (blocked regex (tool_index regex (index regex r)) !! name)).

Definition tool_is_model_hidden (r : Router) (name : string) : bool :=
  bool_decide (name ∈ hidden regex (tool_index regex (index regex r))).

Definition named_tool_is_model_visible (name : string) (cached : list json) (r : Router) : bool :=
  match find_tool name cached with
  | Some t => mcp_app_tool_is_model_visible t
  | None => match find_tool name (shared_tools r) with
            | Some t => mcp_app_tool_is_model_visible t
            | None => true
            end
  end.

Definition tool_is_destructive_fail_closed (name : string) (cached : list json) (r : Router) : bool :=
  match find_tool name cached with
  | Some t => is_destructive (safety_definition regex r t)
  | None => match find_tool name (shared_tools r) with
            | Some t => is_destructive (safety_definition regex r t)
            | None => true
            end
  end.

Definition live_fingerprint (name : string) (r : Router) : option string :=
  t ← find_tool name (shared_tools r); Some (fingerprint (policy_definition regex r t)).

Definition tool_fingerprint_for (name : string) (cached : list json) (r : Router) : option string :=
  match live_fingerprint name r with
  | Some f => Some f
  | None => t ← find_tool name cached; Some (fingerprint (policy_definition regex r t))
  end.

Definition post_hitl_revalidation (approved : option string) (name gate_server_id : string) (live : Router)
    : option Approval.ApprovalDecision :=
  let moved := match route_of regex live name with
               | Some (srv, _) => negb (String.eqb srv gate_server_id)
               | None => negb (String.eqb gate_server_id "")
               end in
  if moved then Some Approval.StaleState
  else if negb (bool_decide (approved = live_fingerprint name live)) then Some Approval.StaleState
  else if is_blocked live name then Some Approval.StaleState
  else None.
End tool.

(** ** The call *)

Section gateway.
Variable regex : Type.
Local Abbreviation Router := (Router regex).

(** An [Arc<Router>]: [Arc::ptr_eq] compares [ptr]. *)
Record Arc := mk_arc { ptr : nat; router : Router }.

(** The request; [router] and [cached] of the source are [base] and [cached]. *)
Record Request := mk_request {
  base : Arc;
  cached : list json;
  client : option string;
  client_name : option string;
  allowed : option (gset string);
  name : string;
  arguments : json;
  client_meta : option json;
  mrtr : option Release.MrtrRequest;
  opts : CallOpts
}.

(** The stores of the gateway, the counters of the caps, the moments passed and what the
    call left, latest first. *)
Record World := mk_world {
  defense : Defense.World;
  prompts : ModernHitl.Table;
  history : list (ModernHitl.op * ModernHitl.outcome);
  rates : gmap string string * option RateLimits.CounterState;
  moment : nat;
  log : list (Event Arc)
}.

Definition with_defense (d : Defense.World) (w : World) : World :=
  mk_world d (prompts w) (history w) (rates w) (moment w) (log w).
Definition with_prompts (t : ModernHitl.Table) (h : list (ModernHitl.op * ModernHitl.outcome)) (w : World) : World :=
  mk_world (defense w) t h (rates w) (moment w) (log w).
Definition with_rates (r : gmap string string * option RateLimits.CounterState) (w : World) : World :=
  mk_world (defense w) (prompts w) (history w) r (moment w) (log w).
Definition passed (w : World) : World :=
  mk_world (defense w) (prompts w) (history w) (rates w) (S (moment w)) (log w).
Definition with_event (e : Event Arc) (w : World) : World :=
  mk_world (defense w) (prompts w) (history w) (rates w) (moment w) (e :: log w).

(** A step that may return from the call early; [None] is a panic. *)
Definition M (A : Type) : Type := World -> option ((json + A) * World).
#[global] Instance M_ret : MRet M := fun A x w => Some (inr x, w).
#[global] Instance M_bind : MBind M := fun A B f c w =>
  '(r, w) ← c w;
  match r with inl v => Some (inl v, w) | inr x => f x w end.

Definition answer {A} (v : json) : M A := fun w => Some (inl v, w).
(** An answer in Toolport's own words. *)
Definition say {A} (text : string) : M A := answer (Guards.error_result text).
(** What another thread, the clock or the network gives at this moment. *)
Definition at_moment {A} (f : nat -> A) : M A := fun w => Some (inr (f (moment w)), passed w).
Definition note (e : Event Arc) : M () := fun w => Some (inr (), with_event e w).
Definition on_defense {A} (c : Defense.M A) : M A := fun w =>
  '(x, d) ← c (defense w); Some (inr x, with_defense d w).
Definition on_release {A} (c : Release.M A) : M A := on_defense (Defense.lift_release c).

(** What the gateway is given at each moment: the live router ([clone_live_router]), the one
    in its slot, whether the view of a daemon's adapter went stale; a server's wait, the
    pending server a name kicks and whether it is connecting; whether a visible server is
    discovering or publishing its first catalog, and how many turns are left until the
    deadline of that wait; whether the request is cancelled; the answer of a person. *)
Variable live : nat -> option Arc.
Variable slot : nat -> option Arc.
Variable stale : nat -> Router -> DispatchTarget -> bool.
Variable wait_for_start : nat -> Router -> string -> bool -> result () string.
Variable kick : nat -> Router -> string -> (string -> bool) -> option (NoRoute.Kicked * bool).
Variable discovering publishing : nat -> Router -> (string -> bool) -> bool.
Variable turns : nat -> nat.
Variable cancelled : nat -> bool.
Variable human : nat -> Approval.ApprovalRequest -> Approval.ApprovalDecision.
Variable held : nat -> Z.
(** What other threads do to the prompts and to the counters, and the readings of clocks. *)
Variable prompts_env : nat -> list ModernHitl.op.
Variable hitl_clock : nat -> Z * Z * Z.
Variable rates_env : nat -> gmap string string * option RateLimits.CounterState -> gmap string string * option RateLimits.CounterState.
Variable rates_clock : nat -> RateLimits.Clock.
Variable rates_io : nat -> RateLimits.IO.
Context {codec : Codec RateLimits.CounterFile}.
(** [Router::route_call_typed]: what the server, or the way to it, answers. *)
Variable route_call_typed : nat -> Router -> string -> json -> option json -> option Release.MrtrRequest -> result json CallFailure.CallFailure.
(** [prepare_progress]: the metadata that replaces the client's. *)
Variable prepare_progress : nat -> option json -> string -> option json.
(** The request in flight: its session, the client's labels, its era and whether it can ask. *)
Variable mcp_session client_label observed_name : option string.
Variable serving_modern_client elicits : bool.
Variable new_correlation_id : nat -> string.
(** The stores of masked values and of results, and what reads them. *)
Variable env : nat -> Store.SessionStore Masking.SessionMap -> Store.SessionStore Masking.SessionMap.
Variable cache_env : nat -> Shaping.state -> Shaping.state.
Variable clock now : nat -> Z.
Variable decision : nat -> Approval.ApprovalRequest -> Approval.ApprovalDecision.
Variable scan_clock : nat -> nat -> Z.
Variable scan_random : nat -> nat -> option (list N).
Variable iter : gmap string (Store.Entry ModernHitl.ModernHitlApproval) -> list (string * Store.Entry ModernHitl.ModernHitlApproval).
(** The crates. *)
Variable find_iter : Masking.Category -> string -> list (Z * Z).
Variable nfkc : string -> string.
Variable to_lowercase : string -> list string.
Variable str_lower : string -> string.
Variable regex_is_match : string -> string -> bool.
Variable base64_decode : Scan.engine -> string -> option string.
Variable url_decode : string -> option string.
Variable to_string : json -> string.
Variable from_str : string -> option json.
Variable sha256 : string -> list N.
Variable str_capacity : string -> Z.
Variable vec_capacity : list json -> Z.
Variables size_of_Value size_of_String size_of_usize size_of_Cached : Z.
Variable env_var : option string.

Local Abbreviation fingerprint := (Pins.fingerprint to_string sha256).
Local Abbreviation args_hash := (args_hash to_string sha256).

Definition clone_live_router : M (option Arc) := at_moment live.

(** [fresh.as_deref().unwrap_or(router)] *)
Definition view_of (q : Request) (fresh : option Arc) : Arc := default (base q) fresh.

Definition visible (q : Request) (id : string) : bool :=
  match allowed q with Some set => Scope.server_in_allowed_scope id set | None => true end.

(** ** Routers at a moment *)

Definition no_route_message_within (r : Router) (e : string) (sees : string -> bool) : M string :=
  k ← at_moment (fun n => kick n r e sees);
  mret (NoRoute.no_route_message_within regex r sees (fst <$> k) e).

Definition authorize (r : Router) (t : DispatchTarget) : M (result () string) :=
  at_moment (fun n =>
    Catalog.authorize regex
      (fun e => NoRoute.no_route_message_within regex r (fun _ => true) (fst <$> kick n r e (fun _ => true)) e) r t).

Definition wait_for_server (r : Router) (id : string) (continuation : bool) : M (result () string) :=
  match authorize_server regex r id with
  | Err e => mret (Err e)
  | Ok _ =>
      match slot_of regex r id with
      | None => mret (Err ("no connected server '" +:+ id +:+ "'"))
      | Some _ => at_moment (fun n => wait_for_start n r id continuation)
      end
  end.

(** [prepare_lazy_use] and [kick_pending] of a server: its start is asked for. *)
Definition kick_pending (r : Router) (id : string) : M bool :=
  _ ← note (Woken id);
  at_moment (fun n => match kick n r id (String.eqb id) with Some (_, connecting) => connecting | None => false end).

(** [recheck_live_policy] of the gateway. *)
Definition recheck_live_policy (r : Arc) (t : DispatchTarget) : M (option Arc * result () string) :=
  old ← at_moment (fun n => stale n (router r) t);
  if old : bool then mret (None, Err STALE_LIVE_VIEW)
  else
    l ← at_moment slot;
    match l with
    | Some l =>
        if negb (Nat.eqb (ptr r) (ptr l))
        then v ← at_moment (fun n =>
               Catalog.recheck_live_policy regex
                 (fun e => NoRoute.no_route_message_within regex (router l) (fun _ => true)
                             (fst <$> kick n (router l) e (fun _ => true)) e) (router r) (router l) t);
             mret (Some l, v)
        else mret (Some l, Ok tt)
    | None => mret (None, Ok tt)
    end.

Definition prepare_dispatch (r : Arc) (t : DispatchTarget) (continuation : bool)
    : M (option Arc * result () string) :=
  '(_, first) ← recheck_live_policy r t;
  match first with
  | Err e => mret (None, Err e)
  | Ok _ =>
      a ← authorize (router r) t;
      match a with
      | Err e => mret (None, Err e)
      | Ok _ =>
          let owner := match t with Tool e => fst <$> route_of regex (router r) e | Server owner => Some owner end in
          waited ← match owner with
                   | Some owner => wait_for_server (router r) owner continuation
                   | None => mret (Ok tt)
                   end;
          match waited with
          | Err e => mret (None, Err e)
          | Ok _ => recheck_live_policy r t
          end
      end
  end.

(** ** Who owns the name, and is it there *)

Definition turned_off (reg : Registry) (id : string) : bool :=
  existsb (Access.has_id id) (Access.servers (access reg)) && negb (Access.server_enabled id (access reg)).

(** The servers that share the namespace of a name too long to tell them apart. *)
Definition bounded_namespace (name id : string) : bool :=
  let prefix := sanitize_segment id in
  (24 <? slen prefix) && starts_with (String.substring 0 24 prefix +:+ "__") name.

Definition candidates_of (reg : Registry) (view : Router) (name : string) : list string :=
  let ids := Access.server_ids (access reg) in
  match Scope.owner_of_exposed_tool str_lower (tool_owner regex view) (Scope.unique_prefix_owners str_lower ids) name with
  | Some owner => [owner]
  | None => List.filter (bounded_namespace name) ids
  end.

Definition routed (r : Router) (name : string) : bool := bool_decide (is_Some (route_of regex r name)).

(** The live router, and the visible servers, on by its policy, that may own the name. *)
Definition admission (reg : Registry) (q : Request) : M (option Arc * list string) :=
  fresh ← clone_live_router;
  let view := router (view_of q fresh) in
  let candidates := candidates_of reg view (name q) in
  let some := negb (bool_decide (candidates = [])) in
  if some && forallb (fun id => negb (visible q id)) candidates
  then m ← no_route_message_within view (name q) (visible q); say m
  else
    old ← at_moment (fun n => stale n (router (base q)) (Tool (name q)));
    if old : bool then say STALE_LIVE_VIEW
    else if negb (routed view (name q)) && negb (is_blocked regex view (name q)) && some &&
            forallb (fun id => visible q id && turned_off reg id) candidates
    then say ("Blocked by Toolport: " +:+ name q +:+ " is on a server that is turned off. Change it in Toolport > Servers.")
    else mret (fresh, List.filter (fun id => visible q id && is_ok (authorize_server regex view id)) candidates).

Definition catalog_visible (q : Request) (candidates : list string) (id : string) : bool :=
  visible q id && (bool_decide (candidates = []) || Access.mem id candidates).

Fixpoint wait_all (r : Router) (ids : list string) : M () :=
  match ids with
  | [] => mret ()
  | id :: ids =>
      waited ← wait_for_server r id false;
      match waited with Ok _ => wait_all r ids | Err message => say ("Toolport: " +:+ message) end
  end.

Fixpoint kick_all (r : Router) (ids : list string) : M () :=
  match ids with [] => mret () | id :: ids => _ ← kick_pending r id; kick_all r ids end.

Fixpoint kick_any (r : Router) (ids : list string) : M bool :=
  match ids with
  | [] => mret false
  | id :: ids => c ← kick_pending r id; if c : bool then mret true else kick_any r ids
  end.

Definition loading (r : Router) (q : Request) (candidates : list string) : M bool :=
  d ← at_moment (fun n => discovering n r (catalog_visible q candidates));
  if d : bool then mret true
  else p ← at_moment (fun n => publishing n r (catalog_visible q candidates));
       if p : bool then mret true else kick_any r candidates.

(** The wait for a first catalog; [turns] are those left until its deadline. *)
Fixpoint await_catalog (turns : nat) (q : Request) (candidates : list string) (fresh : option Arc) : M () :=
  let view := router (view_of q fresh) in
  l ← loading view q candidates;
  if routed view (name q) || is_blocked regex view (name q) || negb l then mret ()
  else match turns with
       | O => mret ()
       | S turns =>
           c ← at_moment cancelled;
           if c : bool then mret () else fresh ← clone_live_router; await_catalog turns q candidates fresh
       end.

(** Starts the owners and waits for a route; the router the call goes on with. *)
Definition wake (q : Request) (fresh : option Arc) (candidates : list string) : M (option Arc) :=
  let view := router (view_of q fresh) in
  a ← authorize view (Tool (name q));
  if negb (is_ok a) then mret fresh
  else
    _ ← kick_all view candidates;
    if routed view (name q) then _ ← wait_all view candidates; clone_live_router
    else match fresh with
         | None => mret fresh
         | Some _ =>
             n ← at_moment turns;
             _ ← await_catalog n q candidates fresh;
             clone_live_router
         end.

(** The message of a refusal by the policy. *)
Definition refusal_of (reg : Registry) (name message : string) : string :=
  if contains "Strict safety" message && bool_decide (Safety.safety_level_team_floor (safety reg) = Safety.Strict)
  then "Blocked by Toolport: " +:+ name +:+
       " is destructive and blocked by your team's Strict safety policy. Ask your team admin to change it."
  else message.

(** The server and the tool a name routes to, for this caller. *)
Definition resolve_route (reg : Registry) (q : Request) (r : Router) (cached : list json) (candidates : list string)
    : M (string * string) :=
  if negb (allow_app_only (opts q)) &&
     (tool_is_model_hidden regex r (name q) ||
      (routed r (name q) && negb (named_tool_is_model_visible regex (name q) cached r)))
  then m ← no_route_message_within r (name q) (visible q); say m
  else
    _ ← match tool_owner regex r (name q) with
        | Some owner =>
            if visible q owner
            then a ← authorize r (Tool (name q));
                 match a with Err message => say (refusal_of reg (name q) message) | Ok _ => mret () end
            else mret ()
        | None => mret ()
        end;
    match route_of regex r (name q) with
    | Some target => mret target
    | None =>
        m ← no_route_message_within r (name q) (visible q);
        if starts_with "Unknown tool:" m
        then d ← at_moment (fun n => discovering n r (catalog_visible q candidates));
             p ← (if d : bool then mret true else at_moment (fun n => publishing n r (catalog_visible q candidates)));
             say (if p : bool then "Servers are still connecting. Retry shortly or check toolport_status." else m)
        else say m
    end.

(** ** Guards before a person is asked *)

Definition dquote : string := bytes_str [34%N].

Definition placeholder_message (q : Request) (cached : list json) (srv param value : string) : string :=
  let hints := Guards.source_tool_hints cached srv (Some (Guards.resource_stem param)) 3 in
  let source := match hints with
                | [] => "call a list or get tool on the '" +:+ srv +:+ "' server"
                | _ => "call one of these on the '" +:+ srv +:+ "' server first: " +:+ String.concat ", " hints
                end in
  "Toolport: " +:+ dquote +:+ value +:+ dquote +:+ " for " +:+ dquote +:+ param +:+ dquote +:+
  " looks like a placeholder, not a real value, and was not sent. Don't invent identifiers. To get a real " +:+
  dquote +:+ param +:+ dquote +:+ ", " +:+ source +:+ ", then call " +:+ name q +:+ " again with the value it returns.".

Definition check_and_count (caps : list RateLimits.Cap) (server tool : string) : M (result () string) := fun w =>
  let '(disk, guard) := rates_env (moment w) (rates w) in
  let '(disk, guard, r) := RateLimits.check_and_count (rates_clock (moment w)) (rates_io (moment w)) caps server tool disk guard in
  Some (inr r, passed (with_rates (disk, guard) w)).

Definition modern_direct_call (q : Request) : bool := serving_modern_client && direct (opts q).

(** The state that the retry carries. *)
Definition retry_state (q : Request) : option string :=
  m ← mrtr q; s ← Release.request_state m; as_str s.

Definition resuming_modern_hitl (q : Request) : bool :=
  modern_direct_call q &&
  match retry_state q with Some state => starts_with ModernHitl.token_prefix state | None => false end.

(** The scope, the placeholders and the caps. *)
Definition guard (reg : Registry) (q : Request) (r : Router) (cached : list json) (server tool : string) : M () :=
  let srv := sanitize_segment server in
  if negb (visible q server)
  then m ← no_route_message_within r (name q) (visible q); say m
  else match Guards.find_placeholder_arg (arguments q) with
  | Some (param, value) => say (placeholder_message q cached srv param value)
  | None =>
      match caps reg with
      | Some (c :: rest) =>
          if resuming_modern_hitl q then mret ()
          else
            admitted ← check_and_count (c :: rest) server tool;
            match admitted with
            | Ok _ => note (Charged server tool)
            | Err msg => _ ← note (Routed server tool false (Some "rate_limit")); say msg
            end
      | _ => mret ()
      end
  end.

(** ** The approval of a person *)

(** What other threads do to the prompts, then one operation of this call. *)
Fixpoint run_ops (os : list ModernHitl.op) (t : ModernHitl.Table) (h : list (ModernHitl.op * ModernHitl.outcome))
    : ModernHitl.Table * list (ModernHitl.op * ModernHitl.outcome) :=
  match os with
  | [] => (t, h)
  | o :: os => let (x, t) := ModernHitl.exec iter (fun v => Some (to_string v)) o t in run_ops os t (h ++ [(o, x)])
  end.

Definition on_prompts (f : Z * Z * Z -> ModernHitl.op) : M ModernHitl.outcome := fun w =>
  let (t, h) := run_ops (prompts_env (moment w)) (prompts w) (history w) in
  let o := f (hitl_clock (moment w)) in
  let (x, t) := ModernHitl.exec iter (fun v => Some (to_string v)) o t in
  Some (inr x, passed (with_prompts t (h ++ [(o, x)]) w)).

Definition look_prompts {A} (f : Z -> ModernHitl.Table -> A) : M A := fun w =>
  let (t, h) := run_ops (prompts_env (moment w)) (prompts w) (history w) in
  Some (inr (f (hitl_clock (moment w)).1.1 t), passed (with_prompts t h w)).

Definition poll_modern_hitl (q : Request) (tok args_hash : string) (responses : option json) : M ModernHitl.ModernHitlPoll :=
  x ← on_prompts (fun '(now, at_, later) => ModernHitl.Poll now at_ later tok (name q) args_hash
                    (Release.conversation_scope mcp_session (client q)) responses);
  let r := match x with ModernHitl.OPolled r => r | _ => ModernHitl.Missing end in
  _ ← note (Polled tok r);
  mret r.

Definition start_modern_hitl (q : Request) (c : ModernHitl.Call) : M (result string Approval.ApprovalDecision) :=
  id ← at_moment new_correlation_id;
  gone ← at_moment cancelled;
  x ← on_prompts (fun '(now, start, _) => ModernHitl.Start now start id gone c);
  mret (match x with ModernHitl.OStarted r => r | _ => Err Approval.Unreachable end).

Definition finish_modern_hitl (tok : option string) : M () :=
  _ ← on_prompts (fun '(now, _, _) => ModernHitl.Finish now tok); mret ().

Definition input_required {A} (tok : string) : M A :=
  v ← look_prompts (fun now t => ModernHitl.modern_hitl_input_required now tok t); answer v.

(** What an approval leaves to the dispatch: the router to run on, the prompt in use, the
    retry that goes downstream, the row still to be audited. *)
Record Gate := mk_gate {
  exec_router : option Arc;
  active : option string;
  routed_mrtr : option Release.MrtrRequest;
  pending_audit : option (string * Z)
}.

Definition no_gate : Gate := mk_gate None None None None.

(** A decision, how long it was held for, the fingerprint it was made on, whether it is
    still to be audited, and the prompt it came by. *)
Record Verdict := mk_verdict {
  verdict : Approval.ApprovalDecision;
  held_ms : Z;
  approved_fp : option string;
  audit_approval : bool;
  verdict_reason : Approval.ApprovalReason;
  prompt : option (string * Release.MrtrRequest)
}.

Definition approval_request (q : Request) (server tool : string) (reason : Approval.ApprovalReason) (fp : option string)
    (id : string) (shown : json) : Approval.ApprovalRequest :=
  {| Approval.token := ""; Approval.id := id; Approval.client := client q; Approval.client_name := observed_name;
     Approval.client_label := client_label; Approval.server := server; Approval.tool := tool;
     Approval.reason := reason; Approval.arguments := shown; Approval.tool_fingerprint := fp;
     Approval.url_elicitation := None; Approval.pii_release := None |}.

(** The desktop's broker, for a client that waits on this request. *)
Definition ask_broker (reg : Registry) (q : Request) (server tool : string) (reason : Approval.ApprovalReason)
    (fp : option string) : M Verdict :=
  id ← at_moment new_correlation_id;
  shown ← on_release (Release.rehydrated_for_local_approver env clock mcp_session
            (Safety.pii_redaction_effective (safety reg)) (client q) (sanitize_segment server) (arguments q));
  let req := approval_request q server tool reason fp id shown in
  d ← at_moment (fun n => human n req);
  _ ← note (Asked req d);
  ms ← at_moment held;
  mret (mk_verdict d ms fp true reason None).

(** A prompt of the client's own, raised or raised again. *)
Definition raise_prompt (q : Request) (server tool : string) (reason : Approval.ApprovalReason) (fp : option string)
    : M Verdict :=
  if negb elicits
  then answer (obj [("_toolportProtocolError", obj
         [("code", JNumber (NegInt (-32021)));
          ("message", JString "human approval requires the modern client's elicitation capability");
          ("requiredCapability", JString "elicitation")])])
  else
    r ← start_modern_hitl q {| ModernHitl.c_name := name q; ModernHitl.c_args_hash := args_hash (arguments q);
          ModernHitl.c_fingerprint := fp; ModernHitl.c_reason := reason; ModernHitl.c_client := client q;
          ModernHitl.c_client_label := client_label; ModernHitl.c_mcp_session := mcp_session;
          ModernHitl.c_server := server; ModernHitl.c_tool := tool; ModernHitl.c_arguments := arguments q;
          ModernHitl.c_downstream := default (Release.mk_mrtr None None) (mrtr q) |};
    match r with
    | Ok tok => input_required tok
    | Err d => mret (mk_verdict d 0 fp true reason None)
    end.

Definition ask_client (q : Request) (server tool : string) (reason : Approval.ApprovalReason) (fp : option string)
    : M Verdict :=
  match retry_state q with
  | None => raise_prompt q server tool reason fp
  | Some tok =>
      polled ← poll_modern_hitl q tok (args_hash (arguments q)) (m ← mrtr q; Release.input_responses m);
      match polled with
      | ModernHitl.Pending => input_required tok
      | ModernHitl.Stale ms why => mret (mk_verdict Approval.StaleState ms fp true why None)
      | ModernHitl.Decided d ms why => mret (mk_verdict d ms fp true why None)
      | ModernHitl.Approved approved why ms downstream newly =>
          mret (mk_verdict Approval.Approved ms approved newly why (Some (tok, downstream)))
      | ModernHitl.Missing =>
          if starts_with ModernHitl.token_prefix tok
          then over ← look_prompts (fun _ t => ModernHitl.modern_hitl_is_terminal tok t);
               mret (mk_verdict Approval.StaleState 0 fp (negb over) reason None)
          else raise_prompt q server tool reason fp
      end
  end.

Definition untrusted_source (reg : Registry) (server : string) : bool :=
  match List.find (Access.has_id server) (Access.servers (access reg)) with
  | Some s => match Registry.source s with Some src => String.eqb src "shared" || String.eqb src "registry" | None => false end
  | None => false
  end.

(** A standing approval of the tool as it is defined, for a modern client's first round. *)
Definition always_allowed (reg : Registry) (q : Request) (server tool : string) (fp : option string) : bool :=
  serving_modern_client && negb (resuming_modern_hitl q) &&
  match fp with
  | Some f => Access.is_tool_allowed (Approval.fingerprint_allow_key (sanitize_segment server) tool f) (access reg)
  | None => false
  end.

Definition gate_reason (reg : Registry) (q : Request) (r : Router) (cached : list json) (server tool : string)
    : M (option Approval.ApprovalReason) :=
  let is_dest := tool_is_destructive_fail_closed regex (name q) cached r in
  let untrusted := untrusted_source reg server in
  let fp := tool_fingerprint_for regex fingerprint (name q) cached r in
  match (if always_allowed reg q server tool fp then None
         else Approval.gate_reason (Safety.requires_human_approval (safety reg) is_dest untrusted) is_dest untrusted) with
  | Some reason => mret (Some reason)
  | None =>
      if resuming_modern_hitl q
      then match retry_state q with
           | Some tok => look_prompts (fun now t => ModernHitl.modern_hitl_reason now tok t)
           | None => mret None
           end
      else mret None
  end.

(** Refuses the call, its decision audited when it was not before. *)
Definition refuse {A} (q : Request) (server tool reason : string) (d : Approval.ApprovalDecision)
    (ms : option Z) (audit : bool) : M A :=
  _ ← (if audit then note (Decided server tool reason (Guards.decision_token d) ms) else mret ());
  answer (Guards.refused_call_result (name q) d reason).

(** What an approval still has to pass: the bytes, and the live router. *)
Definition confirm (q : Request) (server tool : string) (v : Verdict) : M Gate :=
  let reason := Guards.approval_reason_token (verdict_reason v) in
  let active := fst <$> prompt v in
  let stale_call d := _ ← finish_modern_hitl active; refuse q server tool reason d (Some (held_ms v)) true in
  match content_binding_decision to_string sha256 (args_hash (arguments q)) (arguments q) with
  | Some d => stale_call d
  | None =>
      l ← clone_live_router;
      let gate exec := mk_gate exec active (snd <$> prompt v) (if audit_approval v then Some (reason, held_ms v) else None) in
      match l with
      | None => mret (gate None)
      | Some l =>
          match post_hitl_revalidation regex fingerprint (approved_fp v) (name q) server (router l) with
          | Some d => stale_call d
          | None => mret (gate (Some l))
          end
      end
  end.

(** A retry of a prompt whose call is no longer gated. *)
Definition abandon (q : Request) (server tool : string) : M Gate :=
  let tok := retry_state q in
  reason ← match tok with
           | Some tok => look_prompts (fun now t => ModernHitl.modern_hitl_reason now tok t)
           | None => mret None
           end;
  let reason := match reason with Some r => Guards.approval_reason_token r | None => "unknown" end in
  ms ← match tok with
       | Some tok =>
           x ← on_prompts (fun '(now, later, _) => ModernHitl.TakeOver now later tok);
           mret (match x with ModernHitl.OTakenOver ms => ms | _ => None end)
       | None => mret None
       end;
  recorded ← match tok with
             | Some tok => look_prompts (fun _ t => ModernHitl.modern_hitl_is_terminal tok t)
             | None => mret false
             end;
  _ ← finish_modern_hitl tok;
  refuse q server tool reason Approval.StaleState ms (negb recorded).

Definition approve (reg : Registry) (q : Request) (r : Router) (cached : list json) (server tool : string) : M Gate :=
  if negb (Safety.human_approval_effective (safety reg) || resuming_modern_hitl q) then mret no_gate
  else
    reason ← gate_reason reg q r cached server tool;
    let fp := tool_fingerprint_for regex fingerprint (name q) cached r in
    match reason with
    | Some reason =>
        _ ← (if resuming_modern_hitl q then mret ()
             else note (Raised server tool (Guards.approval_reason_token reason)));
        v ← (if modern_direct_call q then ask_client q server tool reason fp
             else ask_broker reg q server tool reason fp);
        if Approval.is_approved (verdict v) then confirm q server tool v
        else refuse q server tool (Guards.approval_reason_token (verdict_reason v)) (verdict v)
               (Some (held_ms v)) (audit_approval v)
    | None => if resuming_modern_hitl q then abandon q server tool else mret no_gate
    end.

(** ** The dispatch *)

Definition is_error (v : json) : bool := is_true (default JNull (get "isError" v)).

Definition defend (reg : Registry) (srv tool : string) (client : option string) (v : json) (trailer : string) (shape : bool)
    : M Defense.Defended :=
  on_defense (Defense.defend_and_shape env cache_env clock now scan_clock scan_random mcp_session find_iter nfkc
    to_lowercase regex_is_match base64_decode url_decode to_string from_str str_capacity vec_capacity
    size_of_Value size_of_String size_of_usize size_of_Cached env_var (defense_of reg) srv tool client v trailer shape).

Definition inspect (reg : Registry) (ok : bool) (response : json) : M () :=
  if Access.live_inspect (access reg) then note (Inspected ok response) else mret ().

(** What becomes of a server's result. *)
Definition finish_result (reg : Registry) (q : Request) (server tool : string) (g : Gate) (v : json) : M json :=
  if bool_decide ((t ← get "resultType" v; as_str t) = Some "input_required")
  then match active g with
       | Some tok =>
           x ← on_prompts (fun '(now, _, _) => ModernHitl.Update now tok v);
           mret (match x with ModernHitl.OUpdated v => v | _ => v end)
       | None => mret v
       end
  else if bool_decide (is_Some (get "_toolportProtocolError" v)) then mret v
  else
    _ ← finish_modern_hitl (active g);
    _ ← inspect reg (negb (is_error v)) v;
    d ← defend reg (sanitize_segment server) tool (client q) v "" (shape (opts q));
    let out := Defense.dresult d in
    let ok := negb (is_error out) in
    _ ← note (Routed server tool ok (if ok then None else Some (Defense.content_text out)));
    mret out.

(** What becomes of a failure. *)
Definition finish_failure (reg : Registry) (q : Request) (cached : list json) (server tool : string) (g : Gate)
    (arguments : json) (f : CallFailure.CallFailure) : M json :=
  let srv := sanitize_segment server in
  let trailer := Guards.recovery_hint cached srv (name q) arguments (CallFailure.kind f) in
  let e := CallFailure.detail f in
  _ ← finish_modern_hitl (active g);
  _ ← inspect reg false (obj [("error", JString e)]);
  d ← defend reg srv tool (client q) (Guards.error_result e) trailer (shape (opts q));
  _ ← note (Routed server tool false (Some (Defense.audited_error_text e (Defense.dresult d))));
  mret (Defense.dresult d).

(** [CallFailure::from] of a refusal. *)
Definition internal (detail : string) : CallFailure.CallFailure := CallFailure.mk_failure CallFailure.Internal detail.

Definition dispatch (reg : Registry) (q : Request) (fresh : Arc) (cached : list json) (server tool : string) (g : Gate)
    : M json :=
  let exec := default fresh (exec_router g) in
  let (server, tool) := default (server, tool) (route_of regex (router exec) (name q)) in
  _ ← match pending_audit g with
      | Some (reason, ms) => note (Decided server tool reason "approved" (Some ms))
      | None => mret ()
      end;
  relay ← at_moment (fun n => prepare_progress n (client_meta q) server);
  let client_meta := match relay with Some m => Some m | None => client_meta q end in
  args ← on_release (Release.rehydrate_for_downstream env clock decision new_correlation_id observed_name client_label
           to_string mcp_session (client q) server (name q) (arguments q));
  match args with
  | Err msg => say ("Toolport: " +:+ msg)
  | Ok args =>
      let effective := match routed_mrtr g with Some m => Some m | None => mrtr q end in
      m ← on_release (Release.rehydrate_mrtr_for_downstream env clock decision new_correlation_id observed_name
            client_label to_string mcp_session (client q) server (name q) effective);
      match m with
      | Err msg => say ("Toolport: " +:+ msg)
      | Ok m =>
          let effective := match m with Some m => Some m | None => effective end in
          let continuation := match effective with Some m => negb (Release.mrtr_is_empty m) | None => false end in
          '(l, policy) ← prepare_dispatch exec (Tool (name q)) continuation;
          r ← match policy with
              | Err e => mret (Err (internal e))
              | Ok _ =>
                  _ ← note (Sent exec l args effective);
                  at_moment (fun n => route_call_typed n (router exec) (name q) args client_meta effective)
              end;
          match r with
          | Ok v => finish_result reg q server tool g v
          | Err f => finish_failure reg q cached server tool g args f
          end
      end
  end.

(** [execute_call]. *)
Definition execute (reg : Registry) (q : Request) : M json :=
  '(fresh, candidates) ← admission reg q;
  fresh ← wake q fresh candidates;
  let r := view_of q fresh in
  let cached := match fresh with Some a => shared_tools regex (router a) | None => cached q end in
  '(server, tool) ← resolve_route reg q (router r) cached candidates;
  _ ← guard reg q (router r) cached server tool;
  g ← approve reg q (router r) cached server tool;
  dispatch reg q r cached server tool g.

Definition execute_call (reg : Registry) (q : Request) : World -> option (json * World) := fun w =>
  '(r, w) ← execute reg q w;
  Some (match r with inl v => v | inr v => v end, w).
End gateway.

(** ** What a call may leave, step by step *)

Section theory.
Variable regex : Type.
Local Abbreviation Router := (Router regex).
Local Abbreviation Arc := (Arc regex).
Local Abbreviation World := (World regex).
Local Abbreviation Request := (Request regex).
Local Abbreviation M := (M regex).
Variable live slot : nat -> option Arc.
Variable stale : nat -> Router -> DispatchTarget -> bool.
Variable wait_for_start : nat -> Router -> string -> bool -> result () string.
Variable kick : nat -> Router -> string -> (string -> bool) -> option (NoRoute.Kicked * bool).
Variable discovering publishing : nat -> Router -> (string -> bool) -> bool.
Variable turns : nat -> nat.
Variable cancelled : nat -> bool.
Variable human : nat -> Approval.ApprovalRequest -> Approval.ApprovalDecision.
Variable held : nat -> Z.
Variable prompts_env : nat -> list ModernHitl.op.
Variable hitl_clock : nat -> Z * Z * Z.
Variable rates_env : nat -> gmap string string * option RateLimits.CounterState -> gmap string string * option RateLimits.CounterState.
Variable rates_clock : nat -> RateLimits.Clock.
Variable rates_io : nat -> RateLimits.IO.
Context {codec : Codec RateLimits.CounterFile}.
Variable route_call_typed : nat -> Router -> string -> json -> option json -> option Release.MrtrRequest -> result json CallFailure.CallFailure.
Variable prepare_progress : nat -> option json -> string -> option json.
Variable mcp_session client_label observed_name : option string.
Variable serving_modern_client elicits : bool.
Variable new_correlation_id : nat -> string.
Variable env : nat -> Store.SessionStore Masking.SessionMap -> Store.SessionStore Masking.SessionMap.
Variable cache_env : nat -> Shaping.state -> Shaping.state.
Variable clock now : nat -> Z.
Variable decision : nat -> Approval.ApprovalRequest -> Approval.ApprovalDecision.
Variable scan_clock : nat -> nat -> Z.
Variable scan_random : nat -> nat -> option (list N).
Variable iter : gmap string (Store.Entry ModernHitl.ModernHitlApproval) -> list (string * Store.Entry ModernHitl.ModernHitlApproval).
Variable find_iter : Masking.Category -> string -> list (Z * Z).
Variable nfkc : string -> string.
Variable to_lowercase : string -> list string.
Variable str_lower : string -> string.
Variable regex_is_match : string -> string -> bool.
Variable base64_decode : Scan.engine -> string -> option string.
Variable url_decode : string -> option string.
Variable to_string : json -> string.
Variable from_str : string -> option json.
Variable sha256 : string -> list N.
Variable str_capacity : string -> Z.
Variable vec_capacity : list json -> Z.
Variables size_of_Value size_of_String size_of_usize size_of_Cached : Z.
Variable env_var : option string.
Variable T : string -> string -> string -> Prop.

Abbreviation ts := (fun v => Some (to_string v)).
Abbreviation reached := (ModernHitl.reached iter ts).
Abbreviation fingerprint := (Pins.fingerprint to_string sha256).
Abbreviation args_hash := (args_hash to_string sha256).
Abbreviation good_stores := (Defense.good T).
Abbreviation scope_of q := (Release.conversation_scope mcp_session (client regex q)).

(** The stores are good, and the prompts are what their history left. *)
Definition good (w : World) : Prop := good_stores (defense regex w) /\ reached (history regex w) (prompts regex w).

(** [c] never panics, keeps the stores good and only adds to the log: the events [e] of a
    value [x] with [Q x e], or of an early answer [v] with [X v e]. *)
Definition runs {A} (c : M A) (Q : A -> list (Event Arc) -> Prop) (X : json -> list (Event Arc) -> Prop) : Prop :=
  forall w, good w -> exists r w' e, c w = Some (r, w') /\ good w' /\ log regex w' = e ++ log regex w /\
    match r with inl v => X v e | inr x => Q x e end.

Lemma runs_then {A B} (c : M A) (f : A -> M B) P Q X :
  runs c P X ->
  (forall x e, P x e -> runs (f x) (fun y e' => Q y (e' ++ e)) (fun v e' => X v (e' ++ e))) ->
  runs (c ≫= f) Q X.
Proof.
  intros Hc Hf w Hw. destruct (Hc w Hw) as (r & w1 & e1 & E1 & H1 & L1 & P1).
  unfold mbind, M_bind, mbind, option_bind. rewrite E1. destruct r as [v|x].
  - by exists (inl v), w1, e1.
  - destruct (Hf x e1 P1 w1 H1) as (r & w2 & e2 & E2 & H2 & L2 & P2).
    exists r, w2, (e2 ++ e1). split_and!; [exact E2|done|by rewrite L2, L1, app_assoc|exact P2].
Qed.

Lemma runs_weaken {A} (c : M A) (P Q : A -> list (Event Arc) -> Prop) (X Y : json -> list (Event Arc) -> Prop) :
  runs c P X -> (forall x e, P x e -> Q x e) -> (forall v e, X v e -> Y v e) -> runs c Q Y.
Proof.
  intros H HQ HX w Hw. destruct (H w Hw) as (r & w' & e & E & Hg & L & HP). exists r, w', e. split_and!; [done..|].
  destruct r; auto.
Qed.

Section primitives.
Context {A : Type} (Q : A -> list (Event Arc) -> Prop) (X : json -> list (Event Arc) -> Prop).

Lemma runs_ret x : Q x [] -> runs (mret x) Q X.
Proof. intros H w Hw. by exists (inr x), w, []. Qed.

Lemma runs_answer v : X v [] -> runs (answer regex v) Q X.
Proof. intros H w Hw. by exists (inl v), w, []. Qed.

Lemma runs_moment f : (forall n, Q (f n) []) -> runs (at_moment regex f) Q X.
Proof. intros H w Hw. exists (inr (f (moment regex w))), (passed regex w), []. split_and!; [done|exact Hw|done|apply H]. Qed.

Lemma runs_defense (c : Defense.M A) P : Defense.ends T c P -> (forall x, P x -> Q x []) -> runs (on_defense regex c) Q X.
Proof.
  intros Hc HQ w [Hd Hh]. destruct (Hc _ Hd) as (x & d & E & Hg & HP). unfold on_defense. rewrite E.
  exists (inr x), (with_defense regex d w), []. split_and!; [done|by split|done|by apply HQ].
Qed.

Lemma runs_release (c : Release.M A) P : Release.ends T c P -> (forall x, P x -> Q x []) -> runs (on_release regex c) Q X.
Proof. intros Hc. apply runs_defense. by apply Defense.ends_release. Qed.
End primitives.

Lemma runs_note e (Q : () -> list (Event Arc) -> Prop) X : Q () [e] -> runs (note regex e) Q X.
Proof. intros H w Hw. by exists (inr ()), (with_event regex e w), [e]. Qed.

Lemma run_ops_reached os t h : reached h t -> let (t', h') := run_ops iter to_string os t h in reached h' t'.
Proof.
  revert t h. induction os as [|o os IH]; intros t h Hr; [done|]. cbn [run_ops].
  destruct (ModernHitl.exec iter ts o t) as [x t1] eqn:E. apply IH. by econstructor.
Qed.

(** An operation on the prompts is made on a table that its history left. *)
Lemma runs_prompts f (Q : ModernHitl.outcome -> list (Event Arc) -> Prop) X :
  (forall h t c x t', reached h t -> ModernHitl.exec iter ts (f c) t = (x, t') -> Q x []) ->
  runs (on_prompts regex prompts_env hitl_clock iter to_string f) Q X.
Proof.
  intros H w [Hd Hh]. unfold on_prompts. pose proof (run_ops_reached (prompts_env (moment regex w)) _ _ Hh) as Hr.
  destruct (run_ops _ _ _ _ _) as [t h]. destruct (ModernHitl.exec iter ts (f _) t) as [x t'] eqn:E.
  exists (inr x), (passed regex (with_prompts regex t' (h ++ [(f (hitl_clock (moment regex w)), x)]) w)), [].
  split_and!; [done| |done|by eapply H]. split; [exact Hd|]. by econstructor.
Qed.

Lemma runs_look {A} (f : Z -> ModernHitl.Table -> A) (Q : A -> list (Event Arc) -> Prop) X :
  (forall n t, Q (f n t) []) -> runs (look_prompts regex prompts_env hitl_clock iter to_string f) Q X.
Proof.
  intros H w [Hd Hh]. unfold look_prompts. pose proof (run_ops_reached (prompts_env (moment regex w)) _ _ Hh) as Hr.
  destruct (run_ops _ _ _ _ _) as [t h]. eexists (inr _), (passed regex (with_prompts regex t h w)), [].
  split_and!; [done|by split|done|apply H].
Qed.

Lemma runs_rates caps server tool (Q : result () string -> list (Event Arc) -> Prop) X :
  (forall r, Q r []) -> runs (check_and_count regex rates_env rates_clock rates_io caps server tool) Q X.
Proof.
  intros H w Hw. unfold check_and_count. destruct (rates_env _ _) as [disk g].
  destruct (RateLimits.check_and_count _ _ _ _ _ _ _) as [[disk' g'] r].
  exists (inr r), (passed regex (with_rates regex (disk', g') w)), []. split_and!; [done|exact Hw|done|apply H].
Qed.

(** ** The steps before the dispatch *)

Abbreviation visible := (visible regex).
Abbreviation ename := (name regex).

(** An answer in Toolport's own words. *)
Inductive own (q : Request) : json -> Prop :=
| own_error text : own q (Guards.error_result text)
| own_refusal d reason : d <> Approval.Approved -> own q (Guards.refused_call_result (ename q) d reason)
| own_prompt n tok t : own q (ModernHitl.modern_hitl_input_required n tok t)
| own_protocol code message : own q (obj [("_toolportProtocolError", obj
    [("code", JNumber (NegInt code)); ("message", JString message); ("requiredCapability", JString "elicitation")])]).

(** What a call leaves before its dispatch: nothing is sent, and no server is started that
    the caller may not see. *)
Definition calm (q : Request) (e : Event Arc) : Prop :=
  match e with
  | Sent _ _ _ _ => False
  | Woken id => visible q id = true
  | _ => True
  end.

Definition steady {A} (q : Request) (c : M A) (Q : A -> list (Event Arc) -> Prop) : Prop :=
  runs c (fun x e => Forall (calm q) e /\ Q x e) (fun v e => Forall (calm q) e /\ own q v).

Lemma steady_bind {A B} q (c : M A) (f : A -> M B) P Q :
  steady q c P -> (forall x e, P x e -> steady q (f x) (fun y e' => Q y (e' ++ e))) -> steady q (c ≫= f) Q.
Proof.
  intros Hc Hf. eapply runs_then; [exact Hc|]. intros x e [He HP].
  eapply runs_weaken; [exact (Hf x e HP)| |]; cbn; intros y e' [He' HQ]; (split; [by apply Forall_app|done]).
Qed.

Lemma steady_weaken {A} q (c : M A) (P Q : A -> list (Event Arc) -> Prop) :
  steady q c P -> (forall x e, P x e -> Q x e) -> steady q c Q.
Proof. intros H HQ. eapply runs_weaken; [exact H| |done]. intros x e [H1 H2]. auto. Qed.

(** A first step that leaves no event. *)
Definition plain {A} (q : Request) (c : M A) (P : A -> Prop) : Prop := steady q c (fun x e => e = [] /\ P x).

Lemma plain_bind {A B} q (c : M A) (f : A -> M B) P Q :
  plain q c P -> (forall x, P x -> steady q (f x) Q) -> steady q (c ≫= f) Q.
Proof.
  intros Hc Hf. eapply steady_bind; [exact Hc|]. intros x e [-> HP].
  eapply steady_weaken; [exact (Hf x HP)|]. intros y e. by rewrite app_nil_r.
Qed.

Lemma steady_ret {A} q (x : A) (Q : A -> list (Event Arc) -> Prop) : Q x [] -> steady q (mret x) Q.
Proof. intros H. by apply runs_ret. Qed.

Lemma plain_ret {A} q (x : A) (P : A -> Prop) : P x -> plain q (mret x) P.
Proof. intros H. by apply steady_ret. Qed.

Lemma steady_answer {A} q v (Q : A -> list (Event Arc) -> Prop) : own q v -> steady q (answer regex v) Q.
Proof. intros H. by apply runs_answer. Qed.

Lemma steady_say {A} q text (Q : A -> list (Event Arc) -> Prop) : steady q (say regex text) Q.
Proof. apply steady_answer. constructor. Qed.

Lemma plain_moment {A} q (f : nat -> A) (P : A -> Prop) : (forall n, P (f n)) -> plain q (at_moment regex f) P.
Proof. intros H. apply runs_moment. auto. Qed.

Lemma steady_note q e (Q : () -> list (Event Arc) -> Prop) : calm q e -> Q () [e] -> steady q (note regex e) Q.
Proof. intros H1 H2. apply runs_note. split; [by constructor|done]. Qed.

(** A note before the rest. *)
Lemma steady_noted {A} q e (c : M A) Q : calm q e -> steady q c (fun x e' => Q x (e' ++ [e])) -> steady q (note regex e ≫= fun _ => c) Q.
Proof. intros H1 H2. eapply steady_bind; [by apply (steady_note _ _ (fun _ l => l = [e]))|]. by intros _ l ->. Qed.

Lemma plain_look {A} q (f : Z -> ModernHitl.Table -> A) (P : A -> Prop) :
  (forall n t, P (f n t)) -> plain q (look_prompts regex prompts_env hitl_clock iter to_string f) P.
Proof. intros H. apply runs_look. auto. Qed.

Lemma plain_prompts q f (P : ModernHitl.outcome -> Prop) :
  (forall h t c x t', reached h t -> ModernHitl.exec iter ts (f c) t = (x, t') -> P x) ->
  plain q (on_prompts regex prompts_env hitl_clock iter to_string f) P.
Proof. intros H. apply runs_prompts. intros. split; [by constructor|]. split; [done|]. by eapply H. Qed.

Lemma plain_defense {A} q (c : Defense.M A) P : Defense.ends T c P -> plain q (on_defense regex c) P.
Proof. intros H. eapply runs_defense; [exact H|]. auto. Qed.

Lemma plain_release {A} q (c : Release.M A) P : Release.ends T c P -> plain q (on_release regex c) P.
Proof. intros H. eapply runs_release; [exact H|]. auto. Qed.

Lemma plain_rates q caps server tool : plain q (check_and_count regex rates_env rates_clock rates_io caps server tool) (fun _ => True).
Proof. apply runs_rates. auto. Qed.

Abbreviation no_route := (no_route_message_within regex kick).
Abbreviation authorize := (authorize regex kick).
Abbreviation wait_for_server := (wait_for_server regex wait_for_start).
Abbreviation kick_pending := (kick_pending regex kick).

Lemma no_route_plain q r e sees : plain q (no_route r e sees) (fun _ => True).
Proof. eapply plain_bind; [by apply (plain_moment _ _ (fun _ => True))|]. intros x _. by apply plain_ret. Qed.

Lemma steady_no_route {A} q r e sees (Q : A -> list (Event Arc) -> Prop) :
  steady q (m ← no_route r e sees; say regex m) Q.
Proof. eapply plain_bind; [apply no_route_plain|]. intros m _. apply steady_say. Qed.

(** A tool that is authorized is not blocked, and its server is on by the policy. *)
Definition authorized (r : Router) (e : string) : Prop :=
  is_blocked regex r e = false /\
  forall server tool, route_of regex r e = Some (server, tool) -> allows_server (policy (settings regex r)) server = true.

Lemma authorize_plain q r e : plain q (authorize r (Tool e)) (fun a => a = Ok tt -> authorized r e).
Proof.
  apply plain_moment. intros n. cbn [Catalog.authorize]. unfold authorized, is_blocked.
  destruct (blocked regex _ !! e) as [reason|] eqn:Eb; [by destruct (String.eqb _ _)|]. intros H. split; [done|].
  intros server tool E. rewrite E in H. unfold authorize_server in H. by destruct (allows_server _ _).
Qed.

Lemma wait_plain q r id c : plain q (wait_for_server r id c) (fun _ => True).
Proof.
  unfold Execute.wait_for_server. destruct (authorize_server _ _ _); [|by apply plain_ret].
  destruct (slot_of _ _ _); [by apply (plain_moment _ _ (fun _ => True))|by apply plain_ret].
Qed.

Lemma kick_steady q r id : visible q id = true -> steady q (kick_pending r id) (fun _ _ => True).
Proof. intros H. apply steady_noted; [done|]. eapply steady_weaken; [by apply (plain_moment _ _ (fun _ => True))|done]. Qed.

Lemma kick_all_steady q r ids : Forall (fun id => visible q id = true) ids -> steady q (kick_all regex kick r ids) (fun _ _ => True).
Proof.
  induction 1 as [|id ids Hid _ IH]; [by apply steady_ret|].
  eapply steady_bind; [by apply kick_steady|]. intros x e _. exact IH.
Qed.

Lemma kick_any_steady q r ids : Forall (fun id => visible q id = true) ids -> steady q (kick_any regex kick r ids) (fun _ _ => True).
Proof.
  induction 1 as [|id ids Hid _ IH]; [by apply steady_ret|].
  eapply steady_bind; [by apply kick_steady|]. intros [] e _; [by apply steady_ret|exact IH].
Qed.

Lemma wait_all_plain q r ids : plain q (wait_all regex wait_for_start r ids) (fun _ => True).
Proof.
  induction ids as [|id ids IH]; [by apply plain_ret|]. eapply plain_bind; [apply wait_plain|].
  intros [] _; [exact IH|apply steady_say].
Qed.

Lemma loading_steady q r cs : Forall (fun id => visible q id = true) cs ->
  steady q (loading regex kick discovering publishing r q cs) (fun _ _ => True).
Proof.
  intros Hc. eapply plain_bind; [by apply (plain_moment _ _ (fun _ => True))|]. intros [] _; [by apply steady_ret|].
  eapply plain_bind; [by apply (plain_moment _ _ (fun _ => True))|]. intros [] _; [by apply steady_ret|].
  by apply kick_any_steady.
Qed.

Lemma await_steady n q cs fresh : Forall (fun id => visible q id = true) cs ->
  steady q (await_catalog regex live kick discovering publishing cancelled n q cs fresh) (fun _ _ => True).
Proof.
  intros Hc. revert fresh. induction n as [|n IH]; intros fresh; cbn [await_catalog];
    (eapply steady_bind; [by apply loading_steady|]); intros l e _;
    (destruct (_ || _); [by apply steady_ret|]); [by apply steady_ret|].
  eapply plain_bind; [by apply (plain_moment _ _ (fun _ => True))|]. intros [] _; [by apply steady_ret|].
  eapply plain_bind; [by apply (plain_moment _ _ (fun _ => True))|]. intros f _. apply IH.
Qed.

Lemma admission_plain reg q :
  plain q (admission regex live stale kick str_lower reg q) (fun x => Forall (fun id => visible q id = true) x.2).
Proof.
  unfold admission. eapply plain_bind; [by apply (plain_moment _ _ (fun _ => True))|]. intros fresh _. cbn zeta.
  destruct (_ && _); [apply steady_no_route|].
  eapply plain_bind; [by apply (plain_moment _ _ (fun _ => True))|]. intros [] _; [apply steady_say|].
  destruct (_ && _); [apply steady_say|]. apply plain_ret. cbn. apply Forall_forall. intros id Hid.
  apply list_elem_of_In, filter_In in Hid as [_ [H _]%andb_prop]. exact H.
Qed.

Lemma wake_steady q fresh cs : Forall (fun id => visible q id = true) cs ->
  steady q (wake regex live wait_for_start kick discovering publishing turns cancelled q fresh cs) (fun _ _ => True).
Proof.
  intros Hc. unfold wake. eapply plain_bind; [apply authorize_plain|]. intros a _.
  destruct (negb _); [by apply steady_ret|]. eapply steady_bind; [by apply kick_all_steady|]. intros [] e _.
  destruct (routed _ _ _).
  - eapply plain_bind; [apply wait_all_plain|]. intros [] _.
    eapply steady_weaken; [by apply (plain_moment _ _ (fun _ => True))|done].
  - destruct fresh as [a0|]; [|by apply steady_ret].
    eapply plain_bind; [by apply (plain_moment _ _ (fun _ => True))|]. intros n _.
    eapply steady_bind; [by apply await_steady|]. intros [] e' _.
    eapply steady_weaken; [by apply (plain_moment _ _ (fun _ => True))|done].
Qed.

Lemma resolve_plain reg q r cached cs :
  plain q (resolve_route regex kick discovering publishing reg q r cached cs)
    (fun x => route_of regex r (ename q) = Some x).
Proof.
  unfold resolve_route. destruct (_ && _); [apply steady_no_route|].
  eapply (plain_bind _ _ _ (fun _ => True)).
  { destruct (tool_owner _ _ _) as [owner|]; [|by apply plain_ret]. destruct (Execute.visible _ _ _); [|by apply plain_ret].
    eapply plain_bind; [apply authorize_plain|]. intros [] _; [by apply plain_ret|apply steady_say]. }
  intros [] _. destruct (route_of _ _ _) as [target|]; [by apply plain_ret|].
  eapply plain_bind; [apply no_route_plain|]. intros m _. destruct (starts_with _ _); [|apply steady_say].
  eapply plain_bind; [by apply (plain_moment _ _ (fun _ => True))|]. intros d _.
  eapply (plain_bind _ _ _ (fun _ => True)); [|intros; apply steady_say].
  destruct d; [by apply plain_ret|by apply (plain_moment _ _ (fun _ => True))].
Qed.

(** ** Scope, placeholders, caps *)

Abbreviation resuming := (resuming_modern_hitl regex serving_modern_client).

(** Whether the team's caps are to admission the call. *)
Definition capped (reg : Registry) (q : Request) : bool :=
  match caps reg with Some (_ :: _) => negb (resuming q) | _ => false end.

Lemma guard_steady reg q r cached server tool :
  steady q (guard regex kick rates_env rates_clock rates_io serving_modern_client reg q r cached server tool)
    (fun _ e => visible q server = true /\ Guards.find_placeholder_arg (arguments regex q) = None /\
                (capped reg q = true -> Charged server tool ∈ e)).
Proof.
  unfold guard, capped. cbn zeta. destruct (Execute.visible _ _ _) eqn:Ev; cbn [negb]; [|apply steady_no_route].
  destruct (Guards.find_placeholder_arg _) as [[param value]|]; [apply steady_say|].
  destruct (caps reg) as [[|c rest]|]; [by apply steady_ret| |by apply steady_ret].
  destruct (resuming q); [by apply steady_ret|]. eapply plain_bind; [apply plain_rates|]. intros [[]|msg] _.
  - apply steady_note; [done|]. split_and!; [done..|]. intros _. apply list_elem_of_here.
  - apply steady_noted; [done|]. apply steady_say.
Qed.

(** ** The approval *)

Hypothesis env_inv : forall n st, Release.inv T st -> Release.inv T (env n st).
Hypothesis env_room : forall n st, Store.next_seq (env n st) < u64_max.
(** A map is walked whole. *)
Hypothesis iter_all : forall m, iter m ≡ₚ map_to_list m.

Abbreviation approval_request := (approval_request regex client_label observed_name).

(** What an approval rests on: the desktop's person was shown this call and approved it, or a
    prompt raised for it was accepted by the client in this conversation. *)
Definition consented (q : Request) (server tool : string) (v : Verdict) (e : list (Event Arc)) : Prop :=
  prompt v = None /\
    (exists reason id shown, Asked (approval_request q server tool reason (approved_fp v) id shown) Approval.Approved ∈ e) \/
  exists tok downstream why ms newly log at_ responses, prompt v = Some (tok, downstream) /\
    Polled tok (ModernHitl.Approved (approved_fp v) why ms downstream newly) ∈ e /\
    (Z.of_nat (length log) < u64_max ->
     ModernHitl.prompt_accepted log tok (ename q) (args_hash (arguments regex q)) (scope_of q) (approved_fp v) why
       at_ responses newly).

Definition asks (q : Request) (server tool : string) (v : Verdict) (e : list (Event Arc)) : Prop :=
  verdict v = Approval.Approved -> consented q server tool v e.

Lemma shown_plain redaction q server args :
  plain q (on_release regex (Release.rehydrated_for_local_approver env clock mcp_session redaction (client regex q) server args))
    (fun _ => True).
Proof.
  apply plain_release. unfold Release.rehydrated_for_local_approver. destruct redaction; [|by apply Release.ends_ret].
  eapply Release.ends_bind; [by apply Release.rehydrate_look|]. intros x _. by apply Release.ends_ret.
Qed.

Lemma ask_broker_steady reg q server tool reason fp :
  steady q (ask_broker regex human held mcp_session client_label observed_name new_correlation_id env clock
              reg q server tool reason fp)
    (fun v e => asks q server tool v e /\ approved_fp v = fp).
Proof.
  unfold ask_broker. eapply plain_bind; [by apply (plain_moment _ _ (fun _ => True))|]. intros id _.
  eapply plain_bind; [apply shown_plain|]. intros shown _. cbn zeta.
  eapply plain_bind; [by apply (plain_moment _ _ (fun _ => True))|]. intros d _.
  apply steady_noted; [done|]. eapply plain_bind; [by apply (plain_moment _ _ (fun _ => True))|]. intros ms _.
  apply steady_ret. split; [|done]. intros Ha. cbn [verdict] in Ha. subst d. left. split; [done|]. exists reason, id, shown. apply list_elem_of_here.
Qed.

Lemma start_plain q c :
  plain q (start_modern_hitl regex cancelled prompts_env hitl_clock new_correlation_id iter to_string q c)
    (fun r => r <> Err Approval.Approved).
Proof.
  unfold start_modern_hitl. eapply plain_bind; [by apply (plain_moment _ _ (fun _ => True))|]. intros id _.
  eapply plain_bind; [by apply (plain_moment _ _ (fun _ => True))|]. intros gone _.
  eapply (plain_bind _ _ _ (fun x => forall r, x = ModernHitl.OStarted r -> r <> Err Approval.Approved)).
  - apply plain_prompts. intros h t [[n start] n'] x t' _ E. cbn in E. unfold ModernHitl.start_modern_hitl in E.
    destruct gone; [by injection E as <- _; intros ? [= <-]|].
    destruct (_ <=? _); injection E as <- _; by intros ? [= <-].
  - intros x H. apply plain_ret. destruct x; try done. by apply H.
Qed.

Lemma prompt_shown {A} q tok (Q : A -> list (Event Arc) -> Prop) :
  steady q (input_required regex prompts_env hitl_clock iter to_string tok) Q.
Proof.
  unfold input_required. eapply (plain_bind _ _ _ (own q)); [apply plain_look; intros; constructor|].
  intros v Hv. by apply steady_answer.
Qed.

Lemma raise_steady q server tool reason fp :
  steady q (raise_prompt regex cancelled prompts_env hitl_clock mcp_session client_label elicits new_correlation_id
              iter to_string sha256 q server tool reason fp)
    (fun v _ => verdict v <> Approval.Approved).
Proof.
  unfold raise_prompt. destruct elicits; cbn [negb]; [|apply steady_answer; constructor].
  eapply plain_bind; [apply start_plain|]. intros [tok|d] Hd; [apply prompt_shown|]. apply steady_ret. cbn. congruence.
Qed.

Lemma poll_steady q tok responses :
  steady q (poll_modern_hitl regex prompts_env hitl_clock mcp_session iter to_string q tok (args_hash (arguments regex q)) responses)
    (fun r e => Polled tok r ∈ e /\ (forall fp why ms downstream newly, r = ModernHitl.Approved fp why ms downstream newly ->
       exists log at_, Z.of_nat (length log) < u64_max ->
         ModernHitl.prompt_accepted log tok (ename q) (args_hash (arguments regex q)) (scope_of q) fp why at_
           responses newly) /\
       forall d ms why, r = ModernHitl.Decided d ms why -> d <> Approval.Approved).
Proof.
  unfold poll_modern_hitl.
  eapply (plain_bind _ _ _ (fun x => (forall d ms why, x = ModernHitl.OPolled (ModernHitl.Decided d ms why) ->
      d <> Approval.Approved) /\ forall fp why ms downstream newly,
    x = ModernHitl.OPolled (ModernHitl.Approved fp why ms downstream newly) -> exists log at_,
      Z.of_nat (length log) < u64_max ->
      ModernHitl.prompt_accepted log tok (ename q) (args_hash (arguments regex q)) (scope_of q) fp why at_
        responses newly)).
  - apply plain_prompts. intros h t [[n at_] later] x t' Hr E. cbn [ModernHitl.exec] in E.
    destruct (ModernHitl.poll_modern_hitl _ _ _ _ _ _ _ _ _ _) as [p t1] eqn:Ep. injection E as <- <-.
    split; [intros d ms why [= ->]; exact (ModernHitl.poll_decided _ _ _ _ _ _ _ _ _ _ _ _ _ _ Ep)|].
    intros fp why ms downstream newly [= ->]. exists h, at_. intros Hl. eapply ModernHitl.poll_approved; [exact iter_all|exact Hr|exact Hl|exact Ep].
  - intros x [Hd H]. apply steady_noted; [done|]. apply steady_ret. split; [apply list_elem_of_here|]. split.
    + intros fp why ms downstream newly E. destruct x; try done. subst. by eapply H.
    + intros d ms why E. destruct x; try done. subst. by eapply Hd.
Qed.

Lemma ask_client_steady q server tool reason fp :
  steady q (ask_client regex cancelled prompts_env hitl_clock mcp_session client_label elicits new_correlation_id
              iter to_string sha256 q server tool reason fp)
    (fun v e => asks q server tool v e).
Proof.
  unfold ask_client. destruct (retry_state _ _) as [tok|];
    [|eapply steady_weaken; [apply raise_steady|]; by intros v e Hv Ha].
  eapply steady_bind; [apply poll_steady|]. intros r e (He & Hr & Hd).
  destruct r as [| |ms why|d ms why|fp' why ms downstream newly].
  - destruct (starts_with _ _); [|eapply steady_weaken; [apply raise_steady|]; by intros v e' Hv Ha].
    eapply plain_bind; [by apply (plain_look _ _ (fun _ => True))|]. intros over _. by apply steady_ret.
  - apply prompt_shown.
  - by apply steady_ret.
  - apply steady_ret. intros Ha. by destruct (Hd d ms why eq_refl Ha).
  - apply steady_ret. intros _. right. destruct (Hr _ _ _ _ _ eq_refl) as (log & at_ & H).
    exists tok, downstream, why, ms, newly, log, at_, (m ← mrtr regex q; Release.input_responses m). done.
Qed.

(** The live router was found as the approval left it: the tool at the same server, under the
    definition approved, and not blocked. *)
Definition revalidated (q : Request) (server : string) (fp : option string) (l : Router) : Prop :=
  (forall s t, route_of regex l (ename q) = Some (s, t) -> s = server) /\
  fp = live_fingerprint regex fingerprint (ename q) l /\ is_blocked regex l (ename q) = false.

Lemma revalidation_spec q server fp l :
  post_hitl_revalidation regex fingerprint fp (ename q) server l = None -> revalidated q server fp l.
Proof.
  unfold post_hitl_revalidation, revalidated. intros H.
  destruct (match route_of regex l (ename q) with Some _ => _ | None => _ end) eqn:Em; [done|].
  case_bool_decide as Hf; cbn [negb] in H; [|done]. destruct (is_blocked _ _ _); [done|]. split; [|done].
  intros s t E. rewrite E in Em. by apply negb_false_iff, String.eqb_eq in Em.
Qed.

Lemma finish_plain q tok : plain q (finish_modern_hitl regex prompts_env hitl_clock iter to_string tok) (fun _ => True).
Proof. eapply plain_bind; [by apply (plain_prompts _ _ (fun _ => True))|]. intros x _. by apply plain_ret. Qed.

Lemma refuse_steady {A} q server tool reason d ms audit (Q : A -> list (Event Arc) -> Prop) :
  d <> Approval.Approved -> steady q (refuse regex q server tool reason d ms audit) Q.
Proof.
  intros Hd. unfold refuse. destruct audit.
  - apply steady_noted; [done|]. apply steady_answer. by constructor.
  - eapply (plain_bind _ _ _ (fun _ => True)); [by apply plain_ret|]. intros _ _. apply steady_answer. by constructor.
Qed.

Lemma binding_stale h v d : content_binding_decision to_string sha256 h v = Some d -> d <> Approval.Approved.
Proof. unfold content_binding_decision. destruct (String.eqb _ _); [done|]. by intros [= <-]. Qed.

Lemma revalidation_stale q server fp l d :
  post_hitl_revalidation regex fingerprint fp (ename q) server l = Some d -> d <> Approval.Approved.
Proof.
  unfold post_hitl_revalidation. destruct (match route_of _ _ _ with Some _ => _ | None => _ end); [by intros [= <-]|].
  destruct (negb _); [by intros [= <-]|]. destruct (is_blocked _ _ _); [by intros [= <-]|done].
Qed.

(** What an approval leaves. *)
Definition gate_of (q : Request) (server : string) (v : Verdict) (g : Gate regex) : Prop :=
  match exec_router regex g with Some l => revalidated q server (approved_fp v) (router regex l) | None => True end /\
  routed_mrtr regex g = snd <$> prompt v.

Lemma confirm_plain q server tool v :
  plain q (confirm regex live prompts_env hitl_clock iter to_string sha256 q server tool v) (gate_of q server v).
Proof.
  unfold confirm. destruct (content_binding_decision _ _ _ _) as [d|] eqn:Eb.
  - eapply plain_bind; [apply finish_plain|]. intros [] _. apply refuse_steady. by eapply binding_stale.
  - eapply plain_bind; [by apply (plain_moment _ _ (fun _ => True))|]. intros [l|] _; [|by apply plain_ret].
    destruct (post_hitl_revalidation _ _ _ _ _ _) as [d|] eqn:Er.
    + eapply plain_bind; [apply finish_plain|]. intros [] _. apply refuse_steady. by eapply revalidation_stale.
    + apply plain_ret. split; [|done]. cbn [exec_router]. by apply revalidation_spec.
Qed.

Lemma abandon_steady q server tool (Q : Gate regex -> list (Event Arc) -> Prop) :
  steady q (abandon regex prompts_env hitl_clock iter to_string q server tool) Q.
Proof.
  unfold abandon. eapply (plain_bind _ _ _ (fun _ => True)).
  { destruct (retry_state _ _); [by apply plain_look|by apply plain_ret]. }
  intros reason _. eapply (plain_bind _ _ _ (fun _ => True)).
  { destruct (retry_state _ _); [|by apply plain_ret].
    eapply plain_bind; [by apply (plain_prompts _ _ (fun _ => True))|]. intros x _. by apply plain_ret. }
  intros ms _. eapply (plain_bind _ _ _ (fun _ => True)).
  { destruct (retry_state _ _); [by apply plain_look|by apply plain_ret]. }
  intros recorded _. eapply plain_bind; [apply finish_plain|]. intros [] _. by apply refuse_steady.
Qed.

(** Whether a person is to be asked about the tool. *)
Definition held_for_approval (reg : Registry) (q : Request) (r : Router) (cached : list json) (server tool : string) : bool :=
  Safety.requires_human_approval (safety reg) (tool_is_destructive_fail_closed regex (ename q) cached r)
    (untrusted_source reg server) &&
  negb (always_allowed regex serving_modern_client reg q server tool
          (tool_fingerprint_for regex fingerprint (ename q) cached r)).

Lemma requires_effective reg d u :
  Safety.requires_human_approval reg d u = true -> Safety.human_approval_effective reg = true /\ d || u = true.
Proof.
  unfold Safety.requires_human_approval, Safety.human_approval_effective.
  destruct (Safety.safety_level_effective reg); [done| |done].
  destruct d, u; done.
Qed.

Lemma gate_reason_plain reg q r cached server tool :
  plain q (gate_reason regex prompts_env hitl_clock serving_modern_client iter to_string sha256 reg q r cached server tool)
    (fun x => held_for_approval reg q r cached server tool = true -> is_Some x).
Proof.
  unfold gate_reason, held_for_approval. destruct (always_allowed _ _ _ _ _ _ _); rewrite ?andb_false_r.
  - destruct (resuming q); [|by apply plain_ret]. destruct (retry_state _ _); [by apply plain_look|by apply plain_ret].
  - destruct (Approval.gate_reason _ _ _) as [reason|] eqn:Eg; [by apply plain_ret|].
    set (d := tool_is_destructive_fail_closed _ _ _ _) in *. set (u := untrusted_source _ _) in *.
    assert (Hno : Safety.requires_human_approval (safety reg) d u = false).
    { destruct (Safety.requires_human_approval (safety reg) d u) eqn:E; [|done].
      apply requires_effective in E as [_ E]. by destruct d, u. }
    rewrite Hno. destruct (resuming q); [|by apply plain_ret].
    destruct (retry_state _ _); [by apply plain_look|by apply plain_ret].
Qed.

(** What the approval step leaves: when a person was to be asked, the consent of one. *)
Definition approved_gate (reg : Registry) (q : Request) (r : Router) (cached : list json) (server tool : string)
    (g : Gate regex) (e : list (Event Arc)) : Prop :=
  (exists v, consented q server tool v e /\ gate_of q server v g) \/
  held_for_approval reg q r cached server tool = false /\ g = no_gate regex.

Lemma approve_steady reg q r cached server tool :
  steady q (approve regex live cancelled human held prompts_env hitl_clock mcp_session client_label observed_name
              serving_modern_client elicits new_correlation_id env clock iter to_string sha256 reg q r cached server tool)
    (fun g e => approved_gate reg q r cached server tool g e).
Proof.
  unfold approve. destruct (Safety.human_approval_effective (safety reg) || resuming q) eqn:Ee; cbn [negb].
  2: { apply steady_ret. right. split; [|done]. apply orb_false_iff in Ee as [Ee _]. unfold held_for_approval.
       destruct (Safety.requires_human_approval _ _ _) eqn:E; [|done]. by apply requires_effective in E as [E _]; rewrite E in Ee. }
  eapply plain_bind; [apply gate_reason_plain|]. intros [reason|] Hr.
  - eapply (steady_bind _ _ _ (fun _ _ => True)).
    { destruct (resuming q); [by apply steady_ret|by apply steady_note]. }
    intros [] e0 _. eapply (steady_bind _ _ _ (fun v e => asks q server tool v e)).
    { destruct (modern_direct_call _ _ _); [apply ask_client_steady|].
      eapply steady_weaken; [apply ask_broker_steady|]. by intros v e [H _]. }
    intros v e Ha. destruct (Approval.is_approved (verdict v)) eqn:Ev.
    + assert (Hv : verdict v = Approval.Approved) by (by destruct (verdict v)).
      eapply steady_weaken; [apply confirm_plain|]. intros g e' [-> Hg]. left. exists v. split; [|done].
      destruct (Ha Hv) as [[H1 (why & id & shown & H2)]|(tok & d & why & ms & newly & log & at_ & rs & H1 & H2 & H3)].
      * left. split; [done|]. exists why, id, shown. apply elem_of_app. left. by apply elem_of_app; right.
      * right. exists tok, d, why, ms, newly, log, at_, rs. split_and!; [done| |done].
        apply elem_of_app. left. by apply elem_of_app; right.
    + apply refuse_steady. by intros E; rewrite E in Ev.
  - destruct (resuming q); [apply abandon_steady|]. apply steady_ret. right. split; [|done].
    destruct (held_for_approval _ _ _ _ _ _); [|done]. by destruct Hr.
Qed.

(** ** The dispatch *)

Hypothesis consent : forall n req release shown,
  decision n req = Approval.Approved -> Approval.pii_release req = Some release ->
  shown ∈ Approval.values release ->
  T (Release.conversation_scope mcp_session (Approval.client req)) (Release.pii_origin_id (Approval.rserver release))
    (Approval.value shown).

(** What a router gone live since still admits. *)
Definition live_admits (exec : Arc) (l : option Arc) (e : string) : Prop :=
  match l with
  | Some l => ptr regex exec = ptr regex l \/
      exists no_route, Catalog.recheck_live_policy regex no_route (router regex exec) (router regex l) (Tool e) = Ok tt
  | None => True
  end.

Abbreviation recheck_live_policy := (recheck_live_policy regex slot stale kick).
Abbreviation prepare_dispatch := (prepare_dispatch regex slot stale wait_for_start kick).

Lemma recheck_plain q r e :
  plain q (recheck_live_policy r (Tool e)) (fun x => x.2 = Ok tt -> live_admits r x.1 e).
Proof.
  unfold Execute.recheck_live_policy. eapply plain_bind; [by apply (plain_moment _ _ (fun _ => True))|].
  intros [] _; [by apply plain_ret|]. eapply plain_bind; [by apply (plain_moment _ _ (fun _ => True))|].
  intros [l|] _; [|by apply plain_ret]. destruct (Nat.eqb_spec (ptr regex r) (ptr regex l)) as [Ep|Hp]; cbn [negb].
  - apply plain_ret. intros _. by left.
  - eapply plain_bind; [apply (plain_moment _ _ (fun v => v = Ok tt -> exists no_route,
      Catalog.recheck_live_policy regex no_route (router regex r) (router regex l) (Tool e) = Ok tt))|].
    + intros n H. eexists. exact H.
    + intros v H. apply plain_ret. cbn. intros Hv. right. by apply H.
Qed.

Lemma prepare_plain q r e c :
  plain q (prepare_dispatch r (Tool e) c)
    (fun x => x.2 = Ok tt -> authorized (router regex r) e /\ live_admits r x.1 e).
Proof.
  unfold Execute.prepare_dispatch. eapply plain_bind; [apply recheck_plain|]. intros [l first] _.
  destruct first as [[]|]; [|by apply plain_ret]. eapply plain_bind; [apply authorize_plain|].
  intros [[]|] Ha; [|by apply plain_ret]. eapply (plain_bind _ _ _ (fun _ => True)).
  { destruct (fst <$> route_of _ _ _); [apply wait_plain|by apply plain_ret]. }
  intros [[]|] _; [|by apply plain_ret].
  eapply steady_weaken; [apply recheck_plain|]. intros x e' [-> Hx]. split; [done|]. auto.
Qed.

(** The refusals of the dispatch are texts. *)
Hypothesis waits_valid : forall n r id c e, wait_for_start n r id c = Err e -> starts_cont e = false.

Lemma no_route_valid r sees k e : starts_cont (NoRoute.no_route_message_within regex r sees k e) = false.
Proof.
  unfold NoRoute.no_route_message_within. destruct (NoRoute.told_reason _ _ _ _).
  - unfold blocked_tool_message. by case_match.
  - destruct (NoRoute.client_prefixed _ _ _ _); [done|]. destruct k as [k|]; [|done]. by destruct (NoRoute.kicked_needs_auth k).
Qed.

Lemma blocked_valid e reason : starts_cont (blocked_tool_message e reason) = false.
Proof. unfold blocked_tool_message. by case_match. Qed.

Definition text_valid {X} (x : X * result () string) : Prop := forall e, x.2 = Err e -> starts_cont e = false.

Lemma server_valid r id e : authorize_server regex r id = Err e -> starts_cont e = false.
Proof. unfold authorize_server. destruct (allows_server _ _); [done|]. by intros [= <-]. Qed.

Lemma recheck_valid q r e : plain q (recheck_live_policy r (Tool e)) text_valid.
Proof.
  unfold Execute.recheck_live_policy. eapply plain_bind; [by apply (plain_moment _ _ (fun _ => True))|].
  intros [] _; [apply plain_ret; by intros m [= <-]|].
  eapply plain_bind; [by apply (plain_moment _ _ (fun _ => True))|]. intros [l|] _; [|by apply plain_ret].
  destruct (negb _); [|by apply plain_ret].
  eapply (plain_bind _ _ _ (fun v : result () string => forall m, v = Err m -> starts_cont m = false)).
  - apply plain_moment. intros n m. cbn [Catalog.recheck_live_policy]. unfold recheck_policy.
    destruct (route_of _ _ _) as [[s t]|]; [|done]. cbn zeta. set (reason := if has_canonical_policy _ _ _ then _ else _).
    destruct (blocked _ _ !! _) as [b|]; [destruct (String.eqb _ _)|]; try destruct reason; intros [= <-]; apply blocked_valid.
  - intros v H. by apply plain_ret.
Qed.

Lemma prepare_valid q r e c : plain q (prepare_dispatch r (Tool e) c) text_valid.
Proof.
  unfold Execute.prepare_dispatch. eapply plain_bind; [apply recheck_valid|]. intros [l first] Hf.
  destruct first as [[]|m]; [|apply plain_ret; intros m' [= <-]; by apply Hf].
  eapply (plain_bind _ _ _ (fun v : result () string => forall m, v = Err m -> starts_cont m = false)).
  { apply plain_moment. intros n m. cbn [Catalog.authorize]. destruct (blocked _ _ !! _) as [b|].
    - intros [= <-]. destruct (String.eqb _ _); [apply no_route_valid|apply blocked_valid].
    - destruct (route_of _ _ _) as [[s t]|]; [apply server_valid|done]. }
  intros [[]|m] Ha; [|apply plain_ret; intros m' [= <-]; by apply Ha].
  eapply (plain_bind _ _ _ (fun v : result () string => forall m, v = Err m -> starts_cont m = false)).
  { destruct (fst <$> _) as [owner|]; [|by apply plain_ret]. unfold Execute.wait_for_server.
    destruct (authorize_server _ _ _) as [[]|m] eqn:Es; [|apply plain_ret; intros m' [= <-]; by eapply server_valid].
    destruct (slot_of _ _ _); [|apply plain_ret; by intros m' [= <-]]. apply plain_moment. intros n m. apply waits_valid. }
  intros [[]|m] Hw; [apply recheck_valid|]. apply plain_ret. intros m' [= <-]. by apply Hw.
Qed.

Lemma plain_both {A} q (c : M A) P P' : plain q c P -> plain q c P' -> plain q c (fun x => P x /\ P' x).
Proof.
  intros H H' w Hw. destruct (H w Hw) as (r & w' & e & E & Hg & L & HP). destruct (H' w Hw) as (r' & w2 & e' & E' & _ & _ & HP').
  exists r, w', e. split_and!; [done..|]. rewrite E in E'. injection E' as <- <-. destruct r as [v|x]; [done|].
  destruct HP as (H1 & H2 & H3). destruct HP' as (_ & _ & H4). done.
Qed.

Lemma error_valid e : starts_cont e = false -> Release.texts_valid (Guards.error_result e).
Proof. intros H. by repeat constructor. Qed.

(** A value that a step gives was given in some world. *)
Lemma plain_given {A} q (c : M A) P : plain q c P -> plain q c (fun x => P x /\ exists w w', c w = Some (inr x, w')).
Proof.
  intros H w Hw. destruct (H w Hw) as (r & w' & e & E & Hg & L & HP). exists r, w', e. split_and!; [done..|].
  destruct r as [v|x]; [done|]. destruct HP as (H1 & H2 & H3). split_and!; [done..|]. by exists w, w'.
Qed.

(** Texts in which the detectors find nothing. *)
Definition impersonal (v : json) : Prop := forall t x, t ∈ Masking.strings_of v -> x ∉ Masking.values_of find_iter t.

Abbreviation vouched := (Defense.vouched mcp_session find_iter T).

(** The personal data in what a call is answered is the server's own that the name routes to. *)
Definition answers_vouched (q : Request) : Prop :=
  forall n r args meta m,
    let v := match route_call_typed n r (ename q) args meta m with
             | Ok v => v
             | Err f => Guards.error_result (CallFailure.detail f)
             end in
    Release.texts_valid v /\
    (impersonal v \/ exists server tool, route_of regex r (ename q) = Some (server, tool) /\
       vouched (client regex q) (sanitize_segment server) v).

(** The refusals of the policy at the dispatch name no personal data. *)
Definition refusals_impersonal (q : Request) : Prop :=
  forall r c w l e w', prepare_dispatch r (Tool (ename q)) c w = Some (inr (l, Err e), w') ->
    impersonal (Guards.error_result e).

(** What a server's answer becomes. *)
Inductive answered (reg : Registry) (q : Request) (server tool : string) : json -> Prop :=
| answered_interim raw v : get "resultType" raw = Some (JString "input_required") ->
    (v = raw \/ exists tok, v = put "requestState" (JString tok) raw) -> answered reg q server tool v
| answered_protocol v : is_Some (get "_toolportProtocolError" v) -> answered reg q server tool v
| answered_defended raw trailer d :
    Defense.defended_as nfkc to_lowercase regex_is_match base64_decode url_decode to_string from_str env_var
      (defense_of reg) (sanitize_segment server) tool (client regex q) raw trailer (shape (opts regex q)) d ->
    answered reg q server tool (Defense.dresult d).

Hypothesis cache_env_ok : forall n st, Shaping.cache_ok st -> Shaping.cache_ok (cache_env n st).
Hypothesis cache_env_room : forall n st, Store.next_seq (Shaping.cache (cache_env n st)) < u64_max.
Hypothesis cache_env_fresh : forall n st,
  Store.entries (Shaping.cache (cache_env n st)) !! (Shaping.next_cursor (cache_env n st)).1 = None.
Hypothesis find_iter_ok : forall c t, Forall (Masking.placed t) (find_iter c t).
Hypothesis bracket_folds : forall o,
  Voice.is_open_bracket o = true -> Voice.fold_match_chars nfkc to_lowercase o = ["["].
Hypothesis ascii_folds : forall b, is_alnum b = true ->
  Voice.fold_match_chars nfkc to_lowercase (String b "") = [String (lower_byte b) ""].
Hypothesis capacity_nonneg : forall s, 0 <= str_capacity s.
Hypothesis vec_capacity_nonneg : forall l, 0 <= vec_capacity l.
Hypothesis sizes_nonneg :
  0 <= size_of_Value /\ 0 <= size_of_String /\ 0 <= size_of_usize /\ 0 <= size_of_Cached.

Lemma defend_plain reg q server tool v trailer :
  vouched (client regex q) (sanitize_segment server) v -> Release.texts_valid v -> Defense.budgets_ok (defense_of reg) ->
  plain q (defend regex mcp_session env cache_env clock now scan_clock scan_random find_iter nfkc to_lowercase
             regex_is_match base64_decode url_decode to_string from_str str_capacity vec_capacity size_of_Value
             size_of_String size_of_usize size_of_Cached env_var reg (sanitize_segment server) tool (client regex q) v trailer
             (shape (opts regex q)))
    (fun d => answered reg q server tool (Defense.dresult d)).
Proof.
  intros Hv Ht Hb. eapply steady_weaken; [by apply plain_defense, Defense.defend_ends|].
  intros d e [-> Hd]. split; [done|]. eapply answered_defended. exact Hd.
Qed.

Lemma impersonal_vouched c server v : impersonal v -> vouched c server v.
Proof. intros H t x Ht Hx. by destruct (H t x Ht). Qed.

Lemma inspect_steady reg q ok v : steady q (inspect regex reg ok v) (fun _ _ => True).
Proof. unfold inspect. destruct (Access.live_inspect _); [by apply steady_note|by apply steady_ret]. Qed.

Abbreviation finish_result :=
  (finish_result regex prompts_env hitl_clock mcp_session env cache_env clock now scan_clock scan_random iter find_iter
     nfkc to_lowercase regex_is_match base64_decode url_decode to_string from_str str_capacity vec_capacity
     size_of_Value size_of_String size_of_usize size_of_Cached env_var).
Abbreviation finish_failure :=
  (finish_failure regex prompts_env hitl_clock mcp_session env cache_env clock now scan_clock scan_random iter find_iter
     nfkc to_lowercase regex_is_match base64_decode url_decode to_string from_str str_capacity vec_capacity
     size_of_Value size_of_String size_of_usize size_of_Cached env_var).

Lemma finish_result_steady reg q server tool g v :
  vouched (client regex q) (sanitize_segment server) v -> Release.texts_valid v -> Defense.budgets_ok (defense_of reg) ->
  steady q (finish_result reg q server tool g v) (fun x _ => answered reg q server tool x).
Proof.
  intros Hv Ht Hb. unfold Execute.finish_result. case_bool_decide as Hi.
  { assert (Hraw : get "resultType" v = Some (JString "input_required")).
    { destruct (get "resultType" v) as [t|]; [|done]. cbn in Hi. by destruct t; try done; injection Hi as ->. }
    destruct (active regex g) as [tok|]; [|apply steady_ret; eapply answered_interim; [exact Hraw|by left]].
    eapply (plain_bind _ _ _ (fun x => forall u, x = ModernHitl.OUpdated u -> u = v \/ exists tok, u = put "requestState" (JString tok) v)).
    - apply plain_prompts. intros h t [[n a] b] x t' _ E. cbn [ModernHitl.exec] in E. unfold ModernHitl.update_modern_hitl_downstream in E.
      destruct (Store.with_value _ _ _ _) as [[[]|] st]; injection E as <- _; intros u [= <-]; [right; by exists tok|by left].
    - intros x Hx. apply steady_ret. destruct x as [| |u| |]; try (eapply answered_interim; [exact Hraw|by left]).
      eapply answered_interim; [exact Hraw|by apply Hx]. }
  case_bool_decide as Hp; [by apply steady_ret, answered_protocol|].
  eapply plain_bind; [apply finish_plain|]. intros [] _. eapply steady_bind; [apply inspect_steady|]. intros [] e _.
  eapply plain_bind; [by apply defend_plain|]. intros d Hd. cbn zeta. apply steady_noted; [done|]. by apply steady_ret.
Qed.

Lemma finish_failure_steady reg q cached server tool g args f :
  let v := Guards.error_result (CallFailure.detail f) in
  vouched (client regex q) (sanitize_segment server) v -> Release.texts_valid v -> Defense.budgets_ok (defense_of reg) ->
  steady q (finish_failure reg q cached server tool g args f) (fun x _ => answered reg q server tool x).
Proof.
  intros v Hv Ht Hb. unfold Execute.finish_failure. cbn zeta. eapply plain_bind; [apply finish_plain|]. intros [] _.
  eapply steady_bind; [apply inspect_steady|]. intros [] e _. eapply plain_bind; [by apply defend_plain|].
  intros d Hd. apply steady_noted; [done|]. by apply steady_ret.
Qed.

(** ** The whole call *)

Definition effective_retry (q : Request) (v : option Verdict) : option Release.MrtrRequest :=
  match (v ← v; snd <$> prompt v) with Some m => Some m | None => mrtr regex q end.

(** What goes to the server is what was asked for, with masked values turned back only where
    the server is entitled to them. *)
Definition entitled (q : Request) (server : string) (args : json) (m0 m : option Release.MrtrRequest) : Prop :=
  Release.entitled_copy T (scope_of q) (Release.pii_origin_id server) (arguments regex q) args /\
  (m = m0 /\ (forall r, m0 = Some r -> Release.mrtr_is_empty r = true) \/
   exists r0 r, m0 = Some r0 /\ m = Some r /\ Release.mrtr_copy T (scope_of q) (Release.pii_origin_id server) r0 r).

(** All that holds of the call [q] when it is handed to a server by the router [exec], with
    what was noted before, [pre]: the call was resolved to [server] and [tool] by the router
    [r], with the tools [cached]. *)
Record due (reg : Registry) (q : Request) (exec : Arc) (live : option Arc) (args : json) (m : option Release.MrtrRequest)
    (pre : list (Event Arc)) (r : Router) (cached : list json) (server tool : string) : Prop := {
  due_route : route_of regex r (ename q) = Some (server, tool);
  due_scope : visible q server = true;
  due_real : Guards.find_placeholder_arg (arguments regex q) = None;
  due_caps : capped reg q = true -> Charged server tool ∈ pre;
  due_policy : authorized (router regex exec) (ename q);
  due_live : live_admits exec live (ename q);
  due_same : forall s t, route_of regex (router regex exec) (ename q) = Some (s, t) -> s = server;
  due_consent : exists v, entitled q server args (effective_retry q v) m /\
    match v with
    | Some v => consented q server tool v pre /\
        (router regex exec = r \/ revalidated q server (approved_fp v) (router regex exec))
    | None => held_for_approval reg q r cached server tool = false /\ router regex exec = r
    end
}.

(** The events of a call: calm throughout, or calm around one dispatch that was due. *)
Definition outcome (reg : Registry) (q : Request) (e : list (Event Arc)) : Prop :=
  Forall (calm q) e \/
  exists exec l args m pre post r cached server tool,
    e = post ++ Sent exec l args m :: pre /\ Forall (calm q) pre /\ Forall (calm q) post /\
    due reg q exec l args m pre r cached server tool.

Abbreviation dispatch :=
  (dispatch regex slot stale wait_for_start kick prompts_env hitl_clock route_call_typed prepare_progress
     mcp_session client_label observed_name new_correlation_id env cache_env clock now decision scan_clock scan_random
     iter find_iter nfkc to_lowercase regex_is_match base64_decode url_decode to_string from_str str_capacity
     vec_capacity size_of_Value size_of_String size_of_usize size_of_Cached env_var).

(** How a call ends: [outcome] of its events, and an answer that is Toolport's own or the
    defended one of a server. *)
Definition concluded (reg : Registry) (q : Request) (v : json) (e : list (Event Arc)) : Prop :=
  outcome reg q e /\ (own q v \/ exists server tool, answered reg q server tool v).

(** [c] concludes a call whose events so far are [e0]. *)
Definition concludes (reg : Registry) (q : Request) (e0 : list (Event Arc)) (c : M json) : Prop :=
  runs c (fun v e => concluded reg q v (e ++ e0)) (fun v e => concluded reg q v (e ++ e0)).

(** A step, then one that may dispatch. *)
Lemma steady_then {A} reg q (c : M A) (f : A -> M json) P e0 :
  Forall (calm q) e0 -> steady q c P ->
  (forall x e, P x e -> Forall (calm q) (e ++ e0) -> concludes reg q (e ++ e0) (f x)) -> concludes reg q e0 (c ≫= f).
Proof.
  intros H0 Hc Hf. eapply runs_then.
  - eapply runs_weaken; [exact Hc| |].
    + intros x e H. exact H.
    + intros v e [H Ho]. split; [|by left]. left. by apply Forall_app.
  - intros x e [He HP]. eapply runs_weaken; [apply (Hf x e HP); by apply Forall_app| |]; intros v e' H; by rewrite <- app_assoc.
Qed.

Lemma plain_then {A} reg q (c : M A) (f : A -> M json) P e0 :
  Forall (calm q) e0 -> plain q c P -> (forall x, P x -> concludes reg q e0 (f x)) -> concludes reg q e0 (c ≫= f).
Proof. intros H0 Hc Hf. eapply steady_then; [exact H0|exact Hc|]. intros x e [-> HP] _. by apply Hf. Qed.

(** A last step that dispatches nothing. *)
Lemma steady_last reg q (c : M json) server tool e0 :
  outcome reg q e0 -> steady q c (fun v _ => answered reg q server tool v) -> concludes reg q e0 c.
Proof.
  assert (Hadd : forall e, Forall (calm q) e -> outcome reg q e0 -> outcome reg q (e ++ e0)).
  { intros e He [H|(exec & l & args & m & pre & post & r & cached & s & t & -> & H1 & H2 & H3)].
    - left. by apply Forall_app.
    - right. exists exec, l, args, m, pre, (e ++ post), r, cached, s, t. rewrite app_assoc. split_and!; [done..| |done].
      by apply Forall_app. }
  intros H0 Hc. eapply runs_weaken; [exact Hc| |]; intros v e [He Hv]; (split; [by apply Hadd|]); [right; by eexists _, _|by left].
Qed.

Lemma consented_app q server tool v e e' : consented q server tool v e -> consented q server tool v (e' ++ e).
Proof.
  intros [[H1 (why & id & shown & H2)]|(tok & d & why & ms & newly & log & at_ & rs & H1 & H2 & H3)].
  - left. split; [done|]. exists why, id, shown. apply elem_of_app. by right.
  - right. exists tok, d, why, ms, newly, log, at_, rs. split_and!; [done| |done]. apply elem_of_app. by right.
Qed.

(** The router a call is sent by routes the name, if at all, to the server it was resolved to. *)
Lemma gate_same reg q fresh cached server tool g e :
  route_of regex (router regex fresh) (ename q) = Some (server, tool) ->
  approved_gate reg q (router regex fresh) cached server tool g e ->
  forall s t, route_of regex (router regex (default fresh (exec_router regex g))) (ename q) = Some (s, t) -> s = server.
Proof.
  intros Hr [(v & _ & Hg & _)|[_ ->]] s t E; [|cbn in E; congruence].
  destruct (exec_router regex g) as [l|]; cbn in E; [|congruence]. by apply Hg in E.
Qed.

(** The copy of the retry that goes out. *)
Lemma retry_entitled q server args m0 m :
  Release.entitled_copy T (scope_of q) (Release.pii_origin_id server) (arguments regex q) args ->
  (match m with
   | Some out => exists r0, m0 = Some r0 /\ Release.mrtr_copy T (scope_of q) (Release.pii_origin_id server) r0 out
   | None => forall r0, m0 = Some r0 -> Release.mrtr_is_empty r0 = true
   end) ->
  entitled q server args m0 (match m with Some m => Some m | None => m0 end).
Proof.
  intros Ha Hm. split; [exact Ha|]. destruct m as [out|]; [|by left].
  destruct Hm as (r0 & -> & Hm). right. by exists r0, out.
Qed.

Lemma gate_due reg q fresh cached server tool g e e' exec l args m :
  route_of regex (router regex fresh) (ename q) = Some (server, tool) ->
  visible q server = true -> Guards.find_placeholder_arg (arguments regex q) = None ->
  (capped reg q = true -> Charged server tool ∈ e) ->
  approved_gate reg q (router regex fresh) cached server tool g e ->
  exec = default fresh (exec_router regex g) ->
  authorized (router regex exec) (ename q) -> live_admits exec l (ename q) ->
  entitled q server args (match routed_mrtr regex g with Some m => Some m | None => mrtr regex q end) m ->
  due reg q exec l args m (e' ++ e) (router regex fresh) cached server tool.
Proof.
  intros Hr Hv Hp Hc Hg -> Ha Hl Hm. split; try done.
  - intros H. apply elem_of_app. right. by apply Hc.
  - by eapply gate_same.
  - destruct Hg as [(v & Hv' & Hx & Hd)|[Hh ->]].
    + exists (Some v). split; [by rewrite Hd in Hm|]. split; [by apply consented_app|].
      destruct (exec_router regex g); [by right|by left].
    + by exists None.
Qed.

Lemma dispatch_concludes reg q fresh cached server tool g e0 :
  answers_vouched q -> refusals_impersonal q -> Defense.budgets_ok (defense_of reg) ->
  Forall (calm q) e0 -> route_of regex (router regex fresh) (ename q) = Some (server, tool) ->
  visible q server = true -> Guards.find_placeholder_arg (arguments regex q) = None ->
  (capped reg q = true -> Charged server tool ∈ e0) ->
  approved_gate reg q (router regex fresh) cached server tool g e0 ->
  concludes reg q e0 (dispatch reg q fresh cached server tool g).
Proof.
  intros Hans Href Hb H0 Hr Hv Hp Hc Hg. unfold Execute.dispatch. set (exec := default fresh (exec_router regex g)).
  pose proof (gate_same _ _ _ _ _ _ _ _ Hr Hg) as Hsame. fold exec in Hsame.
  destruct (default (server, tool) (route_of regex (router regex exec) (ename q))) as [s t] eqn:Ed.
  assert (s = server) as ->.
  { destruct (route_of regex (router regex exec) (ename q)) as [[s' t']|]; cbn in Ed; [|congruence].
    assert (s' = s) as -> by congruence. by eapply Hsame. }
  eapply (steady_then _ _ _ _ (fun _ _ => True)); [done| |].
  { destruct (pending_audit regex g) as [[reason ms]|]; [by apply steady_note|by apply steady_ret]. }
  intros [] e1 _ H1. eapply plain_then; [done|by apply (plain_moment _ _ (fun _ => True))|]. intros relay _. cbn zeta.
  eapply plain_then; [done|by apply plain_release, Release.rehydrate_for_downstream_spec|].
  intros [args|msg] Hargs; [|eapply (steady_last _ _ _ "" ""); [by left|apply steady_say]].
  eapply plain_then; [done|by apply plain_release, Release.rehydrate_mrtr_spec|].
  intros [m|msg] Hm; [|eapply (steady_last _ _ _ "" ""); [by left|apply steady_say]].
  set (m0 := match routed_mrtr regex g with Some m => Some m | None => mrtr regex q end) in *.
  set (m1 := match m with Some m => Some m | None => m0 end).
  eapply plain_then; [done|apply plain_given, plain_both; [apply prepare_plain|apply prepare_valid]|].
  intros [l policy] [[Hpol Hval] (w & w' & Ew)]. cbn [snd fst] in Hpol.
  destruct policy as [[]|msg].
  - destruct Hpol as [Hau Hl]; [done|].
    eapply (runs_then _ _ (fun (r : result json CallFailure.CallFailure) e => e = [Sent exec l args m1] /\
      exists n cm, r = route_call_typed n (router regex exec) (ename q) args cm m1)).
    { eapply runs_then; [apply (runs_note _ (fun _ e => e = [Sent exec l args m1])); done|].
      intros [] e ->. apply runs_moment. intros n. split; [done|]. by eexists _, _. }
    intros r e (-> & n & cm & Er).
    assert (Ho : outcome reg q (Sent exec l args m1 :: e1 ++ e0)).
    { right. exists exec, l, args, m1, (e1 ++ e0), [], (router regex fresh), cached, server, tool. split_and!; [done|done|by constructor|].
      eapply gate_due; try done. by apply retry_entitled. }
    assert (Hk : forall c : M json, concludes reg q (Sent exec l args m1 :: e1 ++ e0) c ->
      runs c (fun v e' => concluded reg q v ((e' ++ [Sent exec l args m1]) ++ e1 ++ e0))
        (fun v e' => concluded reg q v ((e' ++ [Sent exec l args m1]) ++ e1 ++ e0))).
    { intros c H. eapply runs_weaken; [exact H| |]; intros v e' Hx; by rewrite <- (app_assoc e'). }
    apply Hk. destruct (Hans n (router regex exec) args cm m1) as [Ht Hw]. rewrite <- Er in Ht, Hw.
    assert (Hw' : vouched (client regex q) (sanitize_segment server)
                    (match r with Ok v => v | Err f => Guards.error_result (CallFailure.detail f) end)).
    { destruct Hw as [Hi|(s & t' & E & H)]; [by apply impersonal_vouched|]. by rewrite (Hsame _ _ E) in H. }
    destruct r as [v|f]; (eapply steady_last; [exact Ho|]); [by apply finish_result_steady|by apply finish_failure_steady].
  - eapply plain_then; [done|by apply (plain_ret _ _ (eq (Err (internal msg))))|]. intros r <-.
    pose proof (Href _ _ _ _ _ _ Ew) as Hi. eapply steady_last; [by left|].
    apply finish_failure_steady; [by apply impersonal_vouched|by apply error_valid, Hval|done].
Qed.

Abbreviation execute :=
  (execute regex live slot stale wait_for_start kick discovering publishing turns cancelled human held prompts_env
     hitl_clock rates_env rates_clock rates_io route_call_typed prepare_progress mcp_session client_label observed_name
     serving_modern_client elicits new_correlation_id env cache_env clock now decision scan_clock scan_random iter
     find_iter nfkc to_lowercase str_lower regex_is_match base64_decode url_decode to_string from_str sha256
     str_capacity vec_capacity size_of_Value size_of_String size_of_usize size_of_Cached env_var).
Abbreviation execute_call :=
  (execute_call regex live slot stale wait_for_start kick discovering publishing turns cancelled human held prompts_env
     hitl_clock rates_env rates_clock rates_io route_call_typed prepare_progress mcp_session client_label observed_name
     serving_modern_client elicits new_correlation_id env cache_env clock now decision scan_clock scan_random iter
     find_iter nfkc to_lowercase str_lower regex_is_match base64_decode url_decode to_string from_str sha256
     str_capacity vec_capacity size_of_Value size_of_String size_of_usize size_of_Cached env_var).

Lemma execute_concludes reg q :
  answers_vouched q -> refusals_impersonal q -> Defense.budgets_ok (defense_of reg) ->
  concludes reg q [] (execute reg q).
Proof.
  intros Hans Href Hb. unfold Execute.execute.
  eapply plain_then; [by constructor|apply admission_plain|]. intros [fresh0 cs] Hcs. cbn [snd] in Hcs.
  eapply steady_then; [by constructor|by apply wake_steady|]. intros fresh e1 _ H1. cbn zeta.
  eapply plain_then; [done|apply resolve_plain|]. intros [server tool] Hr.
  eapply steady_then; [done|apply guard_steady|]. intros [] e2 (Hv & Hp & Hc) H2.
  eapply steady_then; [done|apply approve_steady|]. intros g e3 Hg H3.
  eapply dispatch_concludes; try done.
  - intros H. apply elem_of_app. right. apply elem_of_app. left. by apply Hc.
  - destruct Hg as [(v & Hv' & Hx)|Hx]; [left; exists v; split; [|done]|by right].
    destruct Hv' as [[Ha (why & id & shown & Hb')]|(tok & d & why & ms & newly & log & at_ & rs & Ha & Hb' & Hc')].
    + left. split; [done|]. exists why, id, shown. apply elem_of_app. by left.
    + right. exists tok, d, why, ms, newly, log, at_, rs. split_and!; [done| |done]. apply elem_of_app. by left.
Qed.

Lemma execute_call_spec reg q w :
  answers_vouched q -> refusals_impersonal q -> Defense.budgets_ok (defense_of reg) -> good w ->
  exists v w' e, execute_call reg q w = Some (v, w') /\ good w' /\ log regex w' = e ++ log regex w /\ concluded reg q v e.
Proof.
  intros Hans Href Hb Hw. destruct (execute_concludes reg q Hans Href Hb w Hw) as (r & w' & e & E & Hg & L & Hc).
  unfold Execute.execute_call. rewrite E. rewrite app_nil_r in Hc. destruct r as [v|v]; by exists v, w', e.
Qed.



(** A name that belongs to servers the caller may not see is answered before anything happens:
    no server is started, no cap is charged, nobody is asked, no store changes. *)
Theorem unseen_name_is_inert reg q w :
  let view := router regex (view_of regex q (live (moment regex w))) in
  let owners := candidates_of regex str_lower reg view (ename q) in
  owners <> [] -> Forall (fun id => visible q id = false) owners ->
  exists w', execute_call reg q w =
      Some (Guards.error_result (NoRoute.no_route_message_within regex view (visible q)
              (fst <$> kick (S (moment regex w)) view (ename q) (visible q)) (ename q)), w') /\
    defense regex w' = defense regex w /\ prompts regex w' = prompts regex w /\ rates regex w' = rates regex w /\
    log regex w' = log regex w.
Proof.
  intros view owners Hne Hv. unfold Execute.execute_call, Execute.execute, admission, clone_live_router, at_moment, mbind, M_bind.
  cbn [mbind option_bind]. fold view owners. rewrite bool_decide_eq_false_2 by done. cbn [negb andb].
  assert (Hall : forallb (fun id => negb (visible q id)) owners = true).
  { apply forallb_forall. intros id Hid. apply list_elem_of_In in Hid. apply negb_true_iff.
    by apply (proj1 (Forall_forall _ _) Hv). }
  rewrite Hall. cbn. by eexists.
Qed.
End theory.

(** ** Concrete calls *)

Section demo.
#[local] Instance demo_codec : Codec RateLimits.CounterFile := bits_codec RateLimits.counts_ok.

(** The router of a [crm] server with a tool that deletes. *)
Definition demo_router : Router unit :=
  let r := NoRoute.demo_router [("crm__delete", "crm", "delete"); ("vault__open", "vault", "open")] in
  {| servers := map (fun id => {| slot_id := id; slot_tools := []; slot_resources := []; slot_templates := []; slot_prompts := [];
                                  mcp_apps := false; catalog_complete := true; tool_revision := 0 |}) ["crm"; "vault"];
     by_id := {["crm" := 0%nat; "vault" := 1%nat]}; settings := settings unit r;
     restored_candidates := restored_candidates unit r; index := index unit r |}.

Definition demo_arc : Arc unit := mk_arc unit 1 demo_router.

Definition demo_reg (level : Safety.SafetyLevel) : Registry :=
  mk_registry (Access.with_servers (map (fun id => Access.with_id id (Access.demo_entry id "user")) ["crm"; "vault"]) (Access.empty_registry 3))
    (Defense.demo_safety level) (Some [RateLimits.demo_cap]).

Definition demo_request (name id : string) : Request unit :=
  mk_request unit demo_arc [] None None (Some {["crm"]}) name (obj [("id", JString id)]) None None (mk_opts true true false).

Definition demo_world : World unit := mk_world unit Defense.demo_world ModernHitl.new_table [] (∅, None) 0 [].

Definition demo_sha256 (s : string) : list N := map Ascii.N_of_ascii (String.list_ascii_of_string s).

Definition nothing_found (_ : Masking.Category) (_ : string) : list (Z * Z) := [].

Definition demo_answer (n : nat) (_ : Router unit) (_ : string) (_ : json) (_ : option json) (_ : option Release.MrtrRequest)
    : result json CallFailure.CallFailure := Ok Defense.attack.

(** The person at the desktop answers [d]. *)
Definition demo_call (d : Approval.ApprovalDecision) (level : Safety.SafetyLevel) (q : Request unit)
    : World unit -> option (json * World unit) :=
  execute_call unit (fun _ => Some demo_arc) (fun _ => Some demo_arc) (fun _ _ _ => false) (fun _ _ _ _ => Ok tt)
    (fun _ _ _ _ => None) (fun _ _ _ => false) (fun _ _ _ => false) (fun _ => 0%nat) (fun _ => false) (fun _ _ => d)
    (fun _ => 9) (fun _ => []) (fun _ => (0, 0, 0)) (fun _ r => r) (fun _ => RateLimits.demo_clock RateLimits.demo_now)
    (fun _ => RateLimits.demo_io) demo_answer (fun _ _ _ => None) None None None false false (fun _ => "1")
    Release.demo_env Defense.demo_cache_env (fun _ => 0) (fun _ => 5) (fun _ _ => Approval.Denied) (fun _ _ => 5)
    (fun _ _ => None) map_to_list nothing_found Voice.nfkc_ascii Voice.lower_ascii to_ascii_lowercase
    (fun _ _ => false) (fun _ _ => None) (fun _ => None) show_json (fun _ => None) demo_sha256 demo_str_capacity
    demo_vec_capacity 32 24 8 120 None (demo_reg level) q.


(** What each event is, latest first. *)
Definition kind (e : Event (Arc unit)) : string :=
  match e with
  | Woken id => "started " +:+ id
  | Charged server tool => "charged " +:+ server +:+ "/" +:+ tool
  | Raised server tool reason => "raised " +:+ reason
  | Asked _ d => "asked " +:+ Guards.decision_token d
  | Polled _ _ => "polled"
  | Decided _ _ _ d _ => "decided " +:+ d
  | Sent _ _ args _ => "sent " +:+ show_json args
  | Inspected _ _ => "inspected"
  | Routed server _ ok _ => "answered by " +:+ server
  end.

Definition kinds (r : option (json * World unit)) : option (list string) := (fun x => map kind (log unit x.2)) <$> r.

Definition deletes : Request unit := demo_request "crm__delete" "7".

Example demo_call_approved :
  kinds (demo_call Approval.Approved Safety.Ask deletes demo_world) =
    Some ["answered by crm"; "sent " +:+ show_json (obj [("id", JString "7")]); "decided approved"; "asked approved";
          "raised destructive"; "charged crm/delete"; "started crm"].
Proof. vm_compute. reflexivity. Qed.

Example demo_denied :
  kinds (demo_call Approval.Denied Safety.Ask deletes demo_world) =
    Some ["decided denied"; "asked denied"; "raised destructive"; "charged crm/delete"; "started crm"].
Proof. vm_compute. reflexivity. Qed.

Example demo_ungated :
  kinds (demo_call Approval.Denied Safety.Off deletes demo_world) =
    Some ["answered by crm"; "sent " +:+ show_json (obj [("id", JString "7")]); "charged crm/delete"; "started crm"].
Proof. vm_compute. reflexivity. Qed.

(** The placeholder is caught before the caps and the person. *)
Example demo_call_placeholder :
  kinds (demo_call Approval.Approved Safety.Ask (demo_request "crm__delete" "your_id") demo_world) = Some ["started crm"].
Proof. vm_compute. reflexivity. Qed.

Definition no_T (_ _ _ : string) : Prop := False.

Lemma demo_stores_good : good unit map_to_list show_json no_T demo_world.
Proof. split; [split; [apply Release.new_inv|exact Shaping.init_cache_ok]|constructor]. Qed.

Lemma nothing_impersonal v : impersonal nothing_found v.
Proof.
  intros t x _. unfold Masking.values_of. destruct (Masking.truncate_on_char_boundary _ _) as [s|]; [|apply not_elem_of_nil].
  assert (H : Masking.scan nothing_found s = Some []) by (by vm_compute). rewrite H. apply not_elem_of_nil.
Qed.

Lemma demo_answers : answers_vouched unit demo_answer None nothing_found no_T deletes.
Proof. intros n r args meta m. split; [repeat constructor|left; apply nothing_impersonal]. Qed.

Lemma demo_refusals :
  refusals_impersonal unit (fun _ => Some demo_arc) (fun _ _ _ => false) (fun _ _ _ _ => Ok tt) (fun _ _ _ _ => None)
    nothing_found deletes.
Proof. intros r c w l e w' _. apply nothing_impersonal. Qed.

Lemma demo_budgets level : Defense.budgets_ok (defense_of (demo_reg level)).
Proof. intros srv b H. cbn in H. by rewrite lookup_empty in H. Qed.

(** The side conditions of the theorems on [demo_call]. *)
Ltac demo_side :=
  first [ exact Defense.demo_cache_ok | exact Defense.demo_cache_room | exact Defense.demo_cache_fresh
        | exact Voice.ascii_fold_bracket | exact Defense.demo_alnum | exact slen_nonneg | exact (fun l => Zle_0_nat (length l))
        | exact demo_sizes | exact demo_answers | exact demo_refusals | exact (demo_budgets Safety.Ask) | exact demo_stores_good
        | exact (fun c t => List.Forall_nil _)
        | intros n req release shown H; discriminate H | intros n r id c e H; discriminate H ].



(** The other server's tool, for a caller that sees [crm] alone: nothing happens. *)
Lemma unseen_name_is_inert_witness :
  exists w', demo_call Approval.Approved Safety.Ask (demo_request "vault__open" "7") demo_world =
      Some (Guards.error_result (NoRoute.no_route_message_within unit demo_router (String.eqb "crm") None "vault__open"), w') /\
    log unit w' = [].
Proof.
  destruct (unseen_name_is_inert unit (fun _ => Some demo_arc) (fun _ => Some demo_arc) (fun _ _ _ => false) (fun _ _ _ _ => Ok tt)
    (fun _ _ _ _ => None) (fun _ _ _ => false) (fun _ _ _ => false) (fun _ => 0%nat) (fun _ => false) (fun _ _ => Approval.Approved)
    (fun _ => 9) (fun _ => []) (fun _ => (0, 0, 0)) (fun _ r => r) (fun _ => RateLimits.demo_clock RateLimits.demo_now)
    (fun _ => RateLimits.demo_io) demo_answer (fun _ _ _ => None) None None None false false (fun _ => "1")
    Release.demo_env Defense.demo_cache_env (fun _ => 0) (fun _ => 5) (fun _ _ => Approval.Denied) (fun _ _ => 5)
    (fun _ _ => None) map_to_list nothing_found Voice.nfkc_ascii Voice.lower_ascii to_ascii_lowercase
    (fun _ _ => false) (fun _ _ => None) (fun _ => None) show_json (fun _ => None) demo_sha256 demo_str_capacity
    demo_vec_capacity 32 24 8 120 None (demo_reg Safety.Ask) (demo_request "vault__open" "7") demo_world) as (w' & E & _ & _ & _ & L).
  - vm_compute. discriminate.
  - vm_compute. repeat constructor.
  - exists w'. split; [|exact L]. etransitivity; [exact E|]; vm_compute. reflexivity.
Defined.
End demo.
End Execute.
